(** * trouter-cli: the image benchmark and security-scan pipeline

    A shallow embedding of [src/lib/docker-performance.js] (class
    [DockerPerformance]) and of the scanner class [DockerScanner], followed
    by the properties of their unit parsers, sample aggregation, container
    and image lifecycle, readiness polling, recommendation rules and
    vulnerability bucketing.

    Conventions of the embedding.
    - A JavaScript number is a [num]: [NaN], one of the two infinities, or
      the rational value of a finite double.  Every arithmetic operation
      rounds its exact result to the nearest double, ties to even, as IEEE
      754 binary64 does ([Js.nearest]).  The two zeros are not told apart:
      the sources never divide by a zero they computed and never test the
      sign of one.
    - The clock counts whole milliseconds; clock values and their
      differences are integers, kept as [Z].
    - A JavaScript string is a [string] of code units below 256 (Latin-1),
      which covers white space, digits and letter case of that range.
    - [undefined] is [None].
    - Effects (the container engine, the clock, timers, the file system) are
      threaded through an explicit world by the monad [M]; a thrown
      exception is the result [Throw]. *)

From Stdlib Require Import ZArith QArith Qround Qabs List String Ascii Bool Lia.
From Stdlib Require Import Permutation Lqa.
Import ListNotations.

Local Open Scope string_scope.
Local Open Scope list_scope.
Local Open Scope Z_scope.

(** ** JavaScript numbers *)

Module Js.

Inductive num : Type :=
| NaN
| NegInf
| Fin (q : Q)
| PosInf.

(** An integer below [2 ^ 53] in absolute value, which a double holds
    exactly: a literal, a length, a clock value. *)
Definition of_Z (z : Z) : num := Fin (inject_Z z).

Definition Qsgn (q : Q) : comparison := (q ?= 0)%Q.

(** [- a] *)
Definition neg (a : num) : num :=
  match a with
  | NaN => NaN
  | NegInf => PosInf
  | PosInf => NegInf
  | Fin x => Fin (Qred (- x))
  end.

(** *** Rounding to the nearest double

    A finite double is [m * 2 ^ e] with [|m| < 2 ^ 53] and
    [-1074 <= e <= 971].  The double nearest to a positive rational [a / d]
    is found on the grid of the multiples of [2 ^ e], where [e] is 52 below
    the binary exponent of [a / d], and not below -1074 (the subnormal
    range): it is the multiple nearest to [a / d], the even one of two
    equally near.  A result of [2 ^ 1024] or more is an overflow. *)

(** The largest [e] with [2 ^ e <= a / d], for positive [a] and [d]. *)
Definition ilog2 (a d : Z) : Z :=
  let e := Z.log2 a - Z.log2 d in
  if d * 2 ^ Z.max 0 e <=? a * 2 ^ Z.max 0 (- e) then e else e - 1.

(** The integer nearest to [n / d], the even one of two equally near. *)
Definition round_half_even (n d : Z) : Z :=
  let k := n / d in
  match 2 * (n mod d) ?= d with
  | Lt => k
  | Gt => k + 1
  | Eq => if Z.even k then k else k + 1
  end.

(** The exponent of the grid around [a / d]. *)
Definition quantum (a d : Z) : Z := Z.max (ilog2 a d - 52) (-1074).

(** [2 ^ e] *)
Definition pow2 (e : Z) : Q := 2 ^ Z.max 0 e # Z.to_pos (2 ^ Z.max 0 (- e)).

(** The multiple of [2 ^ e] nearest to [a / d], counted in units of
    [2 ^ e]. *)
Definition mantissa (a d e : Z) : Z :=
  round_half_even (a * 2 ^ Z.max 0 (- e)) (d * 2 ^ Z.max 0 e).

Definition nearest_pos (a d : Z) : num :=
  let e := quantum a d in
  let v := (inject_Z (mantissa a d e) * pow2 e)%Q in
  if Qle_bool (inject_Z (2 ^ 1024)) v then PosInf else Fin (Qred v).

(** The double nearest to [q]. *)
Definition nearest (q : Q) : num :=
  let q := Qred q in
  match Qnum q with
  | 0 => Fin 0
  | Zpos a => nearest_pos (Zpos a) (Zpos (Qden q))
  | Zneg a => neg (nearest_pos (Zpos a) (Zpos (Qden q)))
  end.

(** The exponent of the grid on which [q] is rounded. *)
Definition ulp_exp (q : Q) : Z :=
  quantum (Z.abs (Qnum (Qred q))) (Zpos (Qden (Qred q))).

Definition inf_of (pos : bool) : num := if pos then PosInf else NegInf.

(** [a * b] *)
Definition mul (a b : num) : num :=
  match a, b with
  | NaN, _ | _, NaN => NaN
  | Fin x, Fin y => nearest (x * y)
  | Fin x, PosInf | PosInf, Fin x =>
      match Qsgn x with Eq => NaN | Gt => PosInf | Lt => NegInf end
  | Fin x, NegInf | NegInf, Fin x =>
      match Qsgn x with Eq => NaN | Gt => NegInf | Lt => PosInf end
  | PosInf, PosInf | NegInf, NegInf => PosInf
  | PosInf, NegInf | NegInf, PosInf => NegInf
  end.

(** [a / b] *)
Definition div (a b : num) : num :=
  match a, b with
  | NaN, _ | _, NaN => NaN
  | Fin x, Fin y =>
      match Qsgn y with
      | Eq => match Qsgn x with Eq => NaN | Gt => PosInf | Lt => NegInf end
      | _ => nearest (x / y)
      end
  | Fin _, (PosInf | NegInf) => Fin 0
  | PosInf, Fin y => inf_of (negb (Qle_bool y 0) || Qeq_bool y 0)
  | NegInf, Fin y => inf_of (negb (negb (Qle_bool y 0) || Qeq_bool y 0))
  | (PosInf | NegInf), (PosInf | NegInf) => NaN
  end.

(** [a < b]; every comparison with [NaN] is false. *)
Definition ltb (a b : num) : bool :=
  match a, b with
  | NaN, _ | _, NaN => false
  | Fin x, Fin y => match (x ?= y)%Q with Lt => true | _ => false end
  | NegInf, (Fin _ | PosInf) => true
  | Fin _, PosInf => true
  | _, _ => false
  end.

(** [a > b] *)
Definition gtb (a b : num) : bool := ltb b a.

(** [a === b] on numbers *)
Definition eqb (a b : num) : bool :=
  match a, b with
  | Fin x, Fin y => Qeq_bool x y
  | PosInf, PosInf | NegInf, NegInf => true
  | _, _ => false
  end.

(** [a >= b] *)
Definition geb (a b : num) : bool := gtb a b || eqb a b.

(** [Math.round]: the nearest integer, ties towards plus infinity.  The
    result is exact: a double of [2 ^ 52] or more is an integer already. *)
Definition Math_round (a : num) : num :=
  match a with
  | Fin x => Fin (inject_Z (Qfloor (x + (1 # 2))))
  | other => other
  end.

(** [a + b] *)
Definition add (a b : num) : num :=
  match a, b with
  | NaN, _ | _, NaN => NaN
  | Fin x, Fin y => nearest (x + y)
  | PosInf, NegInf | NegInf, PosInf => NaN
  | PosInf, _ | _, PosInf => PosInf
  | NegInf, _ | _, NegInf => NegInf
  end.

(** [a - b] *)
Definition sub (a b : num) : num := add a (neg b).

(** [Math.max(...xs)]: minus infinity for no argument, [NaN] as soon as
    one argument is [NaN]. *)
Definition max2 (a b : num) : num :=
  match a, b with
  | NaN, _ | _, NaN => NaN
  | _, _ => if ltb a b then b else a
  end.
Definition Math_max (xs : list num) : num := fold_left max2 xs NegInf.

(** [Math.min(...xs)] *)
Definition min2 (a b : num) : num :=
  match a, b with
  | NaN, _ | _, NaN => NaN
  | _, _ => if ltb b a then b else a
  end.
Definition Math_min (xs : list num) : num := fold_left min2 xs PosInf.

(** Truthiness of a number: neither zero nor [NaN]. *)
Definition truthy (a : num) : bool :=
  match a with
  | NaN => false
  | Fin q => negb (Qeq_bool q 0)
  | _ => true
  end.

(** [ToNumber] of a value that may be [undefined]. *)
Definition of_undefined (a : option num) : num :=
  match a with Some n => n | None => NaN end.

(** [Math.pow(b, e)] for the bases and the small natural exponents the
    code uses ([1024] and [1000], up to [3]); the power is exact. *)
Definition Math_pow (b : Z) (e : nat) : num := of_Z (b ^ Z.of_nat e).

(** [a || 0] on numbers *)
Definition or_zero (a : option num) : num :=
  match a with
  | Some n => if truthy n then n else of_Z 0
  | None => of_Z 0
  end.

End Js.

Import Js.

(** ** Characters and strings *)

Definition chars := list ascii.

Definition is_digit (c : ascii) : bool :=
  let n := nat_of_ascii c in (48 <=? n)%nat && (n <=? 57)%nat.

Definition digit_val (c : ascii) : Z := Z.of_nat (nat_of_ascii c) - 48.

(** The white space and line terminators below 256 that [trim],
    [parseFloat], [Number] and [\s] recognise: TAB, LF, VT, FF, CR, SPACE
    and the no-break space. *)
Definition is_space (c : ascii) : bool :=
  let n := nat_of_ascii c in
  ((9 <=? n)%nat && (n <=? 13)%nat) || (n =? 32)%nat || (n =? 160)%nat.

(** The lower-case letter of a code unit: of A to Z, and of the accented
    capitals of Latin-1 (all of 192 to 222 but the multiplication sign). *)
Definition ascii_lower (c : ascii) : ascii :=
  let n := nat_of_ascii c in
  if ((65 <=? n)%nat && (n <=? 90)%nat)
     || ((192 <=? n)%nat && (n <=? 222)%nat && negb (n =? 215)%nat)
  then ascii_of_nat (n + 32) else c.

Fixpoint drop_while (p : ascii -> bool) (s : chars) : chars :=
  match s with
  | c :: s' => if p c then drop_while p s' else s
  | [] => []
  end.

Fixpoint take_while (p : ascii -> bool) (s : chars) : chars :=
  match s with
  | c :: s' => if p c then c :: take_while p s' else []
  | [] => []
  end.

(** [String.prototype.trim] *)
Definition trim_chars (s : chars) : chars :=
  rev (drop_while is_space (rev (drop_while is_space s))).

Definition trim (s : string) : string :=
  string_of_list_ascii (trim_chars (list_ascii_of_string s)).

(** [String.prototype.toLowerCase] *)
Definition toLowerCase (s : string) : string :=
  string_of_list_ascii (map ascii_lower (list_ascii_of_string s)).

(** [s.split(sep)] for a one-character separator: always at least one
    piece. *)
Fixpoint split_chars (sep : ascii) (s : chars) : list chars :=
  match s with
  | [] => [[]]
  | c :: s' =>
      if Ascii.eqb c sep then [] :: split_chars sep s'
      else match split_chars sep s' with
           | p :: ps => (c :: p) :: ps
           | [] => [[c]]
           end
  end.

Definition split (sep : ascii) (s : string) : list string :=
  map string_of_list_ascii (split_chars sep (list_ascii_of_string s)).

(** [s.replace(c, '')] with a one-character string pattern: only the first
    occurrence is removed. *)
Fixpoint remove_first (c : ascii) (s : chars) : chars :=
  match s with
  | [] => []
  | x :: s' => if Ascii.eqb x c then s' else x :: remove_first c s'
  end.

Fixpoint prefix_chars (p s : chars) : bool :=
  match p, s with
  | [], _ => true
  | a :: p', b :: s' => Ascii.eqb a b && prefix_chars p' s'
  | _ :: _, [] => false
  end.

(** [s.startsWith(p)] *)
Definition startsWith (s p : string) : bool :=
  prefix_chars (list_ascii_of_string p) (list_ascii_of_string s).

(** [s.endsWith(p)] *)
Definition endsWith (s p : string) : bool :=
  prefix_chars (rev (list_ascii_of_string p)) (rev (list_ascii_of_string s)).

Fixpoint includes_chars (p s : chars) : bool :=
  prefix_chars p s ||
  match s with
  | [] => false
  | _ :: s' => includes_chars p s'
  end.

(** [s.includes(p)] *)
Definition includes (s p : string) : bool :=
  includes_chars (list_ascii_of_string p) (list_ascii_of_string s).

(** Value of a string of decimal digits. *)
Definition digits_val (ds : chars) : Z :=
  fold_left (fun acc c => 10 * acc + digit_val c) ds 0.

(** ** [parseFloat] *)

Definition strip_sign (s : chars) : bool * chars :=
  match s with
  | "-"%char :: s' => (true, s')
  | "+"%char :: s' => (false, s')
  | _ => (false, s)
  end.

(** The optional exponent part [[eE][+-]?\d+] and what follows it; the
    exponent is consumed only when at least one digit follows. *)
Definition exponent_part (s : chars) : Z * chars :=
  match s with
  | c :: s' =>
      if Ascii.eqb c "e" || Ascii.eqb c "E" then
        let '(neg, s2) := strip_sign s' in
        match take_while is_digit s2 with
        | [] => (0, s)
        | ds => (if neg then - digits_val ds else digits_val ds,
                 drop_while is_digit s2)
        end
      else (0, s)
  | [] => (0, s)
  end.

Definition scale10 (q : Q) (e : Z) : Q :=
  if e <? 0 then (q / inject_Z (10 ^ (- e)))%Q else (q * inject_Z (10 ^ e))%Q.

(** The longest prefix of [s] that is a signed decimal literal (or
    [Infinity]), with the rest of [s]; [None] when there is none. *)
Definition decimal_literal (s : chars) : option (num * chars) :=
  let '(neg, s1) := strip_sign s in
  if prefix_chars (list_ascii_of_string "Infinity") s1 then
    Some (if neg then NegInf else PosInf, skipn 8 s1)
  else
    let ip := take_while is_digit s1 in
    let s2 := drop_while is_digit s1 in
    let '(fp, s3) :=
      match s2 with
      | "."%char :: s2' => (take_while is_digit s2', drop_while is_digit s2')
      | _ => ([], s2)
      end in
    match ip, fp, s2 with
    | [], [], _ => None
    | _, _, _ =>
        let mant := (inject_Z (digits_val (ip ++ fp))
                     / inject_Z (10 ^ Z.of_nat (List.length fp)))%Q in
        let '(e, s4) := exponent_part s3 in
        let v := scale10 mant e in
        Some (nearest (if neg then - v else v), s4)
    end.

(** [parseFloat(s)]: skips leading white space and reads the longest prefix
    that is a decimal literal, giving the double nearest to its value;
    [NaN] when there is none. *)
Definition parseFloat_chars (s : chars) : num :=
  match decimal_literal (drop_while is_space s) with
  | Some (v, _) => v
  | None => NaN
  end.

Definition hex_val (c : ascii) : option Z :=
  let n := Z.of_nat (nat_of_ascii c) in
  if (48 <=? n) && (n <=? 57) then Some (n - 48)
  else if (97 <=? n) && (n <=? 102) then Some (n - 87)
  else if (65 <=? n) && (n <=? 70) then Some (n - 55)
  else None.

Fixpoint radix_val (radix : Z) (s : chars) (acc : Z) : option Z :=
  match s with
  | [] => Some acc
  | c :: s' =>
      match hex_val c with
      | Some d => if d <? radix then radix_val radix s' (radix * acc + d)
                  else None
      | None => None
      end
  end.

(** The radix a prefix [0x], [0o] or [0b] announces. *)
Definition radix_of (x : ascii) : option Z :=
  if Ascii.eqb x "x" || Ascii.eqb x "X" then Some 16
  else if Ascii.eqb x "o" || Ascii.eqb x "O" then Some 8
  else if Ascii.eqb x "b" || Ascii.eqb x "B" then Some 2
  else None.

(** A decimal literal that takes up the whole of [t]. *)
Definition whole_decimal (t : chars) : num :=
  match decimal_literal t with
  | Some (v, []) => v
  | _ => NaN
  end.

(** [Number(s)] on a string: the whole trimmed string must be a numeric
    literal (decimal, or hexadecimal, octal or binary digits after their
    prefix); the empty string is [0]. *)
Definition Number_chars (s : chars) : num :=
  match trim_chars s with
  | [] => of_Z 0
  | "0"%char :: x :: ds =>
      match radix_of x, ds with
      | Some r, _ :: _ =>
          match radix_val r ds 0 with
          | Some v => nearest (inject_Z v)
          | None => NaN
          end
      | Some _, [] => NaN
      | None, _ => whole_decimal ("0"%char :: x :: ds)
      end
  | t => whole_decimal t
  end.

(** [parseFloat] applied to a value that may be [undefined]: the argument is
    first converted to the string ["undefined"], which has no numeric
    prefix. *)
Definition parseFloat (s : option string) : num :=
  match s with
  | Some s => parseFloat_chars (list_ascii_of_string s)
  | None => NaN
  end.

(** ** Number to string *)

Definition digit_char (d : Z) : ascii := ascii_of_nat (Z.to_nat d + 48).

Fixpoint nat_digits (fuel : nat) (n : Z) (acc : chars) : chars :=
  match fuel with
  | O => acc
  | S f =>
      let acc' := digit_char (n mod 10) :: acc in
      if n <? 10 then acc' else nat_digits f (n / 10) acc'
  end.

(** Decimal digits of a non-negative integer. *)
Definition Z_digits (n : Z) : chars := nat_digits (S (Z.to_nat (Z.log2 n))) n [].

(** The [n] with [10 ^ (n - 1) <= a / d < 10 ^ n], for positive [a] and
    [d]. *)
Fixpoint magnitude_below (fuel : nat) (a d n : Z) : Z :=
  match fuel with
  | O => n
  | S f => if a <? d then magnitude_below f (10 * a) d (n - 1) else n
  end.

Definition magnitude (a d : Z) : Z :=
  if d <=? a then Z.of_nat (List.length (Z_digits (a / d)))
  else magnitude_below 400 (10 * a) d 0.

(** Whether [s * 10 ^ (n - k)] is read back as the double [a / d]. *)
Definition round_trips (a d n k s : Z) : bool :=
  match nearest ((s * 10 ^ Z.max 0 (n - k))
                 # Z.to_pos (10 ^ Z.max 0 (k - n))) with
  | Fin q => Qeq_bool q (a # Z.to_pos d)
  | _ => false
  end.

(** The digits of the shortest decimal that is read back as [a / d]: the
    least number [k] of digits for which one of the two [k]-digit decimals
    around [a / d] does, and of the two the nearer one.  Seventeen digits
    always do. *)
Fixpoint shortest (fuel : nat) (a d n k : Z) : Z :=
  let N := a * 10 ^ Z.max 0 (k - n) in
  let D := d * 10 ^ Z.max 0 (n - k) in
  let lo := N / D in
  let hi := lo + 1 in
  let nearer :=
    match 2 * N ?= (2 * lo + 1) * D with
    | Lt => lo
    | Gt => hi
    | Eq => if Z.even lo then lo else hi
    end in
  match fuel with
  | O => nearer
  | S f =>
      match round_trips a d n k lo, round_trips a d n k hi with
      | true, true => nearer
      | true, false => lo
      | false, true => hi
      | false, false => shortest f a d n (k + 1)
      end
  end.

(** The text of [0.d1 d2 ... dk * 10 ^ n]: plain digits up to 21 places,
    a leading [0.] down to six decimals, exponent notation beyond. *)
Definition format_decimal (ds : chars) (n : Z) : chars :=
  let k := Z.of_nat (List.length ds) in
  if (k <=? n) && (n <=? 21) then ds ++ repeat "0"%char (Z.to_nat (n - k))
  else if (0 <? n) && (n <=? 21)
  then firstn (Z.to_nat n) ds ++ "."%char :: skipn (Z.to_nat n) ds
  else if (-6 <? n) && (n <=? 0)
  then "0"%char :: "."%char :: repeat "0"%char (Z.to_nat (- n)) ++ ds
  else
    let e := n - 1 in
    let es := (if e <? 0 then "-"%char else "+"%char) :: Z_digits (Z.abs e) in
    match ds with
    | [] => []
    | [d] => d :: "e"%char :: es
    | d :: rest => d :: "."%char :: rest ++ "e"%char :: es
    end.

(** The text of the positive double [a / d].  When the one-digit decimal
    above it is the power of ten [10 ^ n] itself, that is the digit 1. *)
Definition positive_to_chars (a d : Z) : chars :=
  let n := magnitude a d in
  let s := shortest 16 a d n 1 in
  if s =? 10 then format_decimal ["1"%char] (n + 1)
  else format_decimal (Z_digits s) n.

(** [String(x)], as template literals apply it. *)
Definition num_to_string (a : num) : string :=
  match a with
  | NaN => "NaN"
  | PosInf => "Infinity"
  | NegInf => "-Infinity"
  | Fin q =>
      match Qnum q with
      | 0 => "0"
      | Zpos n =>
          string_of_list_ascii (positive_to_chars (Zpos n) (Zpos (Qden q)))
      | Zneg n =>
          string_of_list_ascii
            ("-"%char :: positive_to_chars (Zpos n) (Zpos (Qden q)))
      end
  end.

(** ** Regular expressions

    A backtracking matcher for the fragment of JavaScript regular
    expressions the sources use: character classes, sequence, ordered
    alternation, greedy repetition and numbered capture groups.  The matcher
    is written in continuation-passing style, so that a failure of the
    continuation makes the last choice point try its next alternative, as
    the JavaScript engine does. *)

Module Regex.

Inductive regex : Type :=
| Eps
| Chr (p : ascii -> bool)
| Seq (a b : regex)
| Alt (a b : regex)
| Star (a : regex)
| Group (i : nat) (a : regex).

(** The text of each capture group that took part in the match, most
    recent first. *)
Definition captures := list (nat * chars).

Fixpoint run {A : Type} (r : regex) (s : chars) (caps : captures)
    (k : chars -> captures -> option A) {struct r} : option A :=
  match r with
  | Eps => k s caps
  | Chr p =>
      match s with
      | c :: s' => if p c then k s' caps else None
      | [] => None
      end
  | Seq a b => run a s caps (fun s1 c1 => run b s1 c1 k)
  | Alt a b =>
      match run a s caps k with
      | Some x => Some x
      | None => run b s caps k
      end
  | Star a =>
      (fix loop (n : nat) (s : chars) (caps : captures) {struct n} : option A :=
         match n with
         | O => k s caps
         | S n' =>
             match run a s caps
                     (fun s1 c1 =>
                        if (List.length s1 <? List.length s)%nat
                        then loop n' s1 c1 else None) with
             | Some x => Some x
             | None => k s caps
             end
         end) (List.length s) s caps
  | Group i a =>
      run a s caps
        (fun s1 c1 =>
           k s1 ((i, firstn (List.length s - List.length s1) s) :: c1))
  end.

Definition Plus (a : regex) : regex := Seq a (Star a).
Definition Opt (a : regex) : regex := Alt a Eps.
Definition Lit1 (c : ascii) : regex := Chr (Ascii.eqb c).

Fixpoint Lit (s : chars) : regex :=
  match s with
  | [] => Eps
  | c :: s' => Seq (Lit1 c) (Lit s')
  end.

(** The same literal under the [i] flag. *)
Fixpoint LitI (s : chars) : regex :=
  match s with
  | [] => Eps
  | c :: s' =>
      Seq (Chr (fun x => Ascii.eqb (ascii_lower x) (ascii_lower c))) (LitI s')
  end.

Fixpoint lookup_group (i : nat) (caps : captures) : option string :=
  match caps with
  | [] => None
  | (j, t) :: rest =>
      if (i =? j)%nat then Some (string_of_list_ascii t)
      else lookup_group i rest
  end.

(** A match at the very start of [s]: the matched text, the captures and
    the rest of the input. *)
Definition match_here (r : regex) (s : chars)
  : option (chars * captures * chars) :=
  run r s []
    (fun rest caps =>
       Some (firstn (List.length s - List.length rest) s, caps, rest)).

(** The leftmost match in [s]. *)
Fixpoint search (r : regex) (s : chars) : option (chars * captures * chars) :=
  match match_here r s with
  | Some m => Some m
  | None =>
      match s with
      | [] => None
      | _ :: s' => search r s'
      end
  end.

(** [str.match(re)] for a pattern without the [g] flag and with [groups]
    capture groups: [None] is [null]; otherwise the array holds the matched
    text at index 0 followed by the text of each group ([None] for a group
    that did not take part). *)
Definition String_match (r : regex) (groups : nat) (s : string)
  : option (list (option string)) :=
  match search r (list_ascii_of_string s) with
  | None => None
  | Some (whole, caps, _) =>
      Some (Some (string_of_list_ascii whole)
            :: map (fun i => lookup_group i caps) (seq 1 groups))
  end.

(** Number of matches [str.match(re)] returns for a pattern with the [g]
    flag: the matches are searched one after the other, each from the end
    of the previous one (one character further after an empty match). *)
Fixpoint count_matches (fuel : nat) (r : regex) (s : chars) : nat :=
  match fuel with
  | O => O
  | S f =>
      match search r s with
      | None => O
      | Some (whole, _, rest) =>
          match whole, rest with
          | [], [] => 1%nat
          | [], _ :: rest' => S (count_matches f r rest')
          | _ :: _, _ => S (count_matches f r rest)
          end
      end
  end.

End Regex.

(** Array destructuring [const [a, b] = arr]: a missing element is
    [undefined]. *)
Definition destructure2 {A : Type} (arr : list (option A))
  : option A * option A :=
  (nth 0 arr None, nth 1 arr None).

(** ** Memory sizes ([DockerPerformance]) *)

(** [const units = { B: 0, KiB: 1, MiB: 1, GiB: 2, TiB: 3 }] *)
Definition memory_units : list (string * nat) :=
  [("B", 0%nat); ("KiB", 1%nat); ("MiB", 1%nat); ("GiB", 2%nat); ("TiB", 3%nat)].

(** Property lookup [obj[key]]; a key that is [undefined] is looked up as
    the property name ["undefined"]. *)
Fixpoint lookup_key {A : Type} (key : string) (obj : list (string * A))
  : option A :=
  match obj with
  | [] => None
  | (k, v) :: rest => if String.eqb k key then Some v else lookup_key key rest
  end.

Definition prop {A : Type} (obj : list (string * A)) (key : option string)
  : option A :=
  lookup_key (match key with Some k => k | None => "undefined" end) obj.

Definition lit (s : string) : Regex.regex := Regex.Lit (list_ascii_of_string s).

(** The pattern of [parseMemorySize], written here with blanks between its
    parts: [( \d+ \.? \d* ) ( B|KiB|MiB|GiB|TiB )]. *)
Definition memory_size_re : Regex.regex :=
  Regex.Seq
    (Regex.Group 1
       (Regex.Seq (Regex.Plus (Regex.Chr is_digit))
          (Regex.Seq (Regex.Opt (Regex.Lit1 "."))
             (Regex.Star (Regex.Chr is_digit)))))
    (Regex.Group 2
       (Regex.Alt (lit "B")
          (Regex.Alt (lit "KiB")
             (Regex.Alt (lit "MiB") (Regex.Alt (lit "GiB") (lit "TiB")))))).

(** [parseMemorySize(sizeStr)]: [size] and [unit] are the first two
    elements of the match array, that is, the whole matched text and the
    first capture group. *)
Definition parseMemorySize (sizeStr : string) : num :=
  let arr :=
    match Regex.String_match memory_size_re 2 sizeStr with
    | Some a => a
    | None => []
    end in
  let '(size, unit) := destructure2 arr in
  let e := match prop memory_units unit with Some n => n | None => 0%nat end in
  Js.mul (parseFloat size) (Math_pow 1024 e).

(** [const units = ['B', 'KiB', 'MiB', 'GiB']] *)
Definition format_units : list string := ["B"; "KiB"; "MiB"; "GiB"].

(** The loop of [formatMemorySize]: [left] is
    [units.length - 1 - unitIndex]. *)
Fixpoint scale_down (left : nat) (size : num) (unitIndex : nat) : num * nat :=
  match left with
  | O => (size, unitIndex)
  | S left' =>
      if Js.geb size (of_Z 1024)
      then scale_down left' (Js.div size (of_Z 1024)) (S unitIndex)
      else (size, unitIndex)
  end.

(** [formatMemorySize(bytes)] *)
Definition formatMemorySize (bytes : num) : string :=
  let '(size, unitIndex) :=
    scale_down (List.length format_units - 1) bytes 0 in
  (num_to_string (Js.div (Math_round (Js.mul size (of_Z 100))) (of_Z 100))
   ++ " " ++ nth unitIndex format_units "undefined")%string.

(** [calculateMemoryEfficiency(current, total)] *)
Definition calculateMemoryEfficiency (current total : num) : string :=
  if Js.eqb total (of_Z 0) then "Unknown"
  else
    let efficiency := Js.mul (Js.div current total) (of_Z 100) in
    if Js.ltb efficiency (of_Z 10) then "Excellent"
    else if Js.ltb efficiency (of_Z 25) then "Good"
    else if Js.ltb efficiency (of_Z 50) then "Fair"
    else "Poor".

(** ** The world outside the program

    Every interaction of the program with its environment goes through
    [execSync] (the container engine and other host commands),
    [Date.now()], timers, [console.log] and the calls of [fs-extra].  The
    world records the clock, the log of what the program did and the
    content of the temporary extraction directory; the environment [env]
    answers the commands and may depend on everything that happened
    before. *)

(** A node of the host file system under the extraction directory. *)
#[warnings="-register-all"]
Inductive node : Type :=
| File (name : string) (content : option string)
    (* [None]: the file cannot be read *)
| Dir (name : string) (entries : option (list node))
    (* [None]: the directory cannot be listed *)
| Special (name : string).
    (* neither a regular file nor a directory *)

Definition node_name (n : node) : string :=
  match n with
  | File name _ | Dir name _ | Special name => name
  end.

Inductive status : Type :=
| Exit0 (stdout : string)
| Failed (message : string).   (* non-zero exit: [execSync] throws *)

Inductive event : Type :=
| Exec (cmd : string) (outcome : status) (* [execSync(cmd)] and its outcome *)
| Timer (ms : Z)                       (* a [setTimeout] of [ms] was awaited *)
| Enter (method : string) (arg : string) (* a method of interest was entered *)
| Console (msg : string)               (* [console.log(msg)] *)
| FsCall (op : string) (path : string). (* a call of [fs-extra] *)

Record world : Type := {
  now : Z;                       (* [Date.now()] *)
  log : list event;              (* most recent first *)
  disk : option (list node)
    (* the extraction directory; [None]: it does not exist *)
}.

(** The events in the order they happened. *)
Definition trace (w : world) : list event := rev (log w).

Record reply : Type := {
  result : status;
  elapsed : Z;                                   (* duration of the call *)
  on_disk : option (list node) -> option (list node)
    (* what the command did to the extraction directory *)
}.

(** A value produced by [JSON.parse].  The fields of an object are in
    insertion order, each key once. *)
#[warnings="-register-all"]
Inductive json : Type :=
| JNull
| JBool (b : bool)
| JNum (n : num)
| JStr (s : string)
| JArr (items : list json)
| JObj (fields : list (string * json)).

Record env : Type := {
  engine : world -> string -> reply;
  timer_lag : world -> Z;         (* how late a timer fires *)
  fs_fails : world -> string -> string -> bool;
    (* whether the [fs-extra] call [op path] rejects *)
  JSON_parse : string -> option json;
    (* [None]: [JSON.parse] throws a [SyntaxError] *)
  cwd : string                    (* [process.cwd()] *)
}.

Inductive exn : Type := Error (message : string).

Inductive res (A : Type) : Type :=
| Ret (a : A)
| Throw (e : exn)
| OutOfFuel.
Arguments Ret {A} a.
Arguments Throw {A} e.
Arguments OutOfFuel {A}.

(** The world after the command [cmd] has run. *)
Definition after_exec (E : env) (w : world) (cmd : string) : world :=
  let r := engine E w cmd in
  {| now := now w + elapsed r;
     log := Exec cmd (result r) :: log w;
     disk := on_disk r (disk w) |}.

(** The world after a timer of [ms] milliseconds has fired. *)
Definition after_sleep (E : env) (w : world) (ms : Z) : world :=
  {| now := now w + ms + timer_lag E w;
     log := Timer ms :: log w;
     disk := disk w |}.

(** A computation with mutable local variables of type [L]. *)
Definition M (L A : Type) : Type := env -> L -> world -> res A * L * world.

Section Monad.
Context {L : Type}.

Definition ret {A} (a : A) : M L A := fun _ l w => (Ret a, l, w).

Definition bind {A B} (c : M L A) (f : A -> M L B) : M L B :=
  fun E l w =>
    match c E l w with
    | (Ret a, l', w') => f a E l' w'
    | (Throw e, l', w') => (Throw e, l', w')
    | (OutOfFuel, l', w') => (OutOfFuel, l', w')
    end.

Definition throw {A} (e : exn) : M L A := fun _ l w => (Throw e, l, w).

Definition out_of_fuel {A} : M L A := fun _ l w => (OutOfFuel, l, w).

(** [try { c } catch (error) { h error }] *)
Definition try_catch {A} (c : M L A) (h : exn -> M L A) : M L A :=
  fun E l w =>
    match c E l w with
    | (Throw e, l', w') => h e E l' w'
    | other => other
    end.

(** [try { c } finally { f }] *)
Definition try_finally {A} (c : M L A) (f : M L unit) : M L A :=
  fun E l w =>
    match c E l w with
    | (OutOfFuel, l', w') => (OutOfFuel, l', w')
    | (r, l', w') =>
        match f E l' w' with
        | (Ret _, l2, w2) => (r, l2, w2)
        | (Throw e, l2, w2) => (Throw e, l2, w2)
        | (OutOfFuel, l2, w2) => (OutOfFuel, l2, w2)
        end
    end.

(** The environment the program runs in. *)
Definition get_env : M L env := fun E l w => (Ret E, l, w).

Definition get_local : M L L := fun _ l w => (Ret l, l, w).
Definition set_local (l : L) : M L unit := fun _ _ w => (Ret tt, l, w).

Definition emit (ev : event) : M L unit :=
  fun _ l w =>
    (Ret tt, l, {| now := now w; log := ev :: log w; disk := disk w |}).

(** [execSync(cmd, ...)]: returns the standard output, throws on a
    non-zero exit. *)
Definition execSync (cmd : string) : M L string :=
  fun E l w =>
    match result (engine E w cmd) with
    | Exit0 out => (Ret out, l, after_exec E w cmd)
    | Failed msg => (Throw (Error msg), l, after_exec E w cmd)
    end.

(** [Date.now()] *)
Definition Date_now : M L Z := fun _ l w => (Ret (now w), l, w).

(** [await new Promise(resolve => setTimeout(resolve, ms))] *)
Definition sleep (ms : Z) : M L unit :=
  fun E l w => (Ret tt, l, after_sleep E w ms).

Definition console_log (msg : string) : M L unit := emit (Console msg).

End Monad.

(** A block with its own local variables, initialised to [init]. *)
Definition with_locals {L L' A} (init : L') (c : M L' A) : M L A :=
  fun E l w =>
    match c E init w with
    | (r, _, w') => (r, l, w')
    end.

Declare Scope monad_scope.
Delimit Scope monad_scope with monad.
Notation "x <- c ;; k" := (bind c (fun x => k))
  (at level 61, c at next level, right associativity) : monad_scope.
Notation "c ;; k" := (bind c (fun _ => k))
  (at level 61, right associativity) : monad_scope.
Local Open Scope monad_scope.

(** [for (const x of xs) { body x }] *)
Fixpoint for_each {L X} (xs : list X) (body : X -> M L unit) : M L unit :=
  match xs with
  | [] => ret tt
  | x :: rest => body x ;; for_each rest body
  end.

(** [for (let i = 0; i < n; i++) { body i }] *)
Definition for_range {L} (n : nat) (body : nat -> M L unit) : M L unit :=
  for_each (seq 0 n) body.

(** [xs.map(f)] with a callback that acts on the world *)
Fixpoint map_M {L X Y} (f : X -> M L Y) (xs : list X) : M L (list Y) :=
  match xs with
  | [] => ret []
  | x :: rest => y <- f x ;; ys <- map_M f rest ;; ret (y :: ys)
  end.

(** A call [this.method(arg)] of a pure method, recorded in the log. *)
Definition call {L Y} (method : string) (f : string -> Y) (arg : string)
  : M L Y :=
  emit (Enter method arg) ;; ret (f arg).

(** The decimal text of an index, as template literals print it. *)
Definition nat_to_string (n : nat) : string :=
  string_of_list_ascii (Z_digits (Z.of_nat n)).

(** The decimal text of an integer. *)
Definition Z_to_string (z : Z) : string :=
  string_of_list_ascii
    ((if z <? 0 then ["-"%char] else []) ++ Z_digits (Z.abs z)).

Definition tab : ascii := ascii_of_nat 9.

(** The one-character string holding a double quote. *)
Definition dquote : string := String (ascii_of_nat 34) EmptyString.

(** [s.replace('%', '')] *)
Definition remove_percent (s : string) : string :=
  string_of_list_ascii (remove_first "%" (list_ascii_of_string s)).

(** [Math.round(x * 100) / 100] *)
Definition round2 (x : num) : num :=
  Js.div (Math_round (Js.mul x (of_Z 100))) (of_Z 100).

Infix "+++" := String.append (right associativity, at level 60).

(** ** [class DockerPerformance] *)

Module TimeMetric.
Record t : Type := {
  average : num;
  min : num;
  max : num;
  unit : string;
  samples : option nat   (* [None]: the object has no [samples] property *)
}.
End TimeMetric.

Module MemoryUsage.
Record t : Type := {
  current : string;
  total : string;
  percentage : num;
  efficiency : string
}.
End MemoryUsage.

Module CpuUsage.
Record t : Type := {
  average : num;
  max : num;
  samples : nat;
  efficiency : string
}.
End CpuUsage.

Module NetworkLatency.
Record t : Type := {
  average : num;
  targets : list (string * num);
  unit : string;
  status : string
}.
End NetworkLatency.

Module DiskTest.
Record t : Type := {
  speed : num;
  unit : string;
  status : string
}.
End DiskTest.

Module DiskIO.
Record t : Type := {
  write : DiskTest.t;
  read : DiskTest.t;
  overall : string
}.
End DiskIO.

Module Recommendation.
Record t : Type := {
  category : string;
  priority : string;
  message : string
}.
End Recommendation.

Module Performance.
Record t : Type := {
  image : string;
  buildTime : TimeMetric.t;
  startupTime : TimeMetric.t;
  memoryUsage : MemoryUsage.t;
  cpuUsage : CpuUsage.t;
  networkLatency : NetworkLatency.t;
  diskIO : DiskIO.t;
  recommendations : list Recommendation.t
}.
End Performance.

(** [this.imageName] of [DockerPerformance] *)
Definition imageName : string := "trouter-perf-test".

(** [cleanupTempImage(imageTag)] *)
Definition cleanupTempImage {L} (imageTag : string) : M L unit :=
  emit (Enter "cleanupTempImage" imageTag) ;;
  try_catch
    (execSync ("docker rmi -f " +++ imageTag) ;; ret tt)
    (fun _ => (* Ignore cleanup errors *) ret tt).

(** [buildTempImage()] *)
Definition buildTempImage {L} : M L string :=
  console_log "Building temporary Docker image for performance testing..." ;;
  t <- Date_now ;;
  let tempTag := imageName +++ "-" +++ Z_to_string t in
  try_catch
    (execSync ("docker build -t " +++ tempTag +++ " .") ;; ret tempTag)
    (fun error =>
       match error with
       | Error msg => throw (Error ("Failed to build Docker image: " +++ msg))
       end).

(** The tail shared by [measureBuildTime] and [measureStartupTime]: the
    guard on [times.length === 0] and the summary object. *)
Definition summarize (times : list Z) : TimeMetric.t :=
  match times with
  | [] =>
      {| TimeMetric.average := of_Z 0; TimeMetric.min := of_Z 0;
         TimeMetric.max := of_Z 0; TimeMetric.unit := "ms";
         TimeMetric.samples := None |}
  | _ :: _ =>
      {| TimeMetric.average :=
           Math_round
             (Js.div (fold_left Js.add (map of_Z times) (of_Z 0))
                     (of_Z (Z.of_nat (List.length times))));
         TimeMetric.min := Math_min (map of_Z times);
         TimeMetric.max := Math_max (map of_Z times);
         TimeMetric.unit := "ms";
         TimeMetric.samples := Some (List.length times) |}
  end.

(** [times.push(x)] on the local array *)
Definition push {X} (x : X) : M (list X) unit :=
  xs <- get_local ;; set_local (xs ++ [x]).

(** The body of the [for] loop of [measureBuildTime]. *)
Definition build_iteration (i : nat) : M (list Z) unit :=
  startTime <- Date_now ;;
  try_catch
    (execSync ("docker build --no-cache -t " +++ imageName
               +++ "-build-test .") ;;
     t <- Date_now ;;
     let buildTime := t - startTime in
     push buildTime ;;
     (* Cleanup *)
     execSync ("docker rmi -f " +++ imageName +++ "-build-test") ;;
     ret tt)
    (fun _ =>
       console_log ("Build test " +++ nat_to_string (i + 1) +++ " failed")).

(** [measureBuildTime()] *)
Definition measureBuildTime {L} : M L TimeMetric.t :=
  console_log "Measuring build time..." ;;
  let iterations := 3%nat in
  with_locals ([] : list Z)
    (for_range iterations build_iteration ;;
     times <- get_local ;;
     ret (summarize times)).

Definition inspect_status_cmd (containerId : string) : string :=
  "docker inspect --format='{{.State.Status}}' " +++ containerId.

Definition inspect_health_cmd (containerId : string) : string :=
  "docker inspect --format='{{.State.Health.Status}}' " +++ containerId.

(** The [while] loop of [waitForContainer]; the result [Some b] of the loop
    body stands for [return b], [None] for falling through to the next
    test of the loop condition. *)
Fixpoint waitForContainer_loop {L} (fuel : nat) (containerId : string)
    (timeout startTime : Z) : M L bool :=
  match fuel with
  | O => out_of_fuel
  | S fuel' =>
      t <- Date_now ;;
      if t - startTime <? timeout then
        r <- try_catch
               (out <- execSync (inspect_status_cmd containerId) ;;
                let status := trim out in
                r <- (if String.eqb status "running" then
                        (* Check if there's a health check and wait for it
                           to be healthy *)
                        try_catch
                          (out <- execSync (inspect_health_cmd containerId) ;;
                           let health := trim out in
                           if String.eqb health "healthy"
                              || String.eqb health "none"
                           then ret (Some true)
                           else ret None)
                          (fun _ =>
                             (* No health check, container is running *)
                             ret (Some true))
                      else ret None) ;;
                match r with
                | Some b => ret (Some b)
                | None => sleep 500 ;; ret None
                end)
               (fun _ =>
                  (* Container might not exist or failed to start *)
                  throw (Error "Container failed to start")) ;;
        match r with
        | Some b => ret b
        | None => waitForContainer_loop fuel' containerId timeout startTime
        end
      else throw (Error "Container startup timeout")
  end.

(** [waitForContainer(containerId, timeout)] *)
Definition waitForContainer {L} (fuel : nat) (containerId : string)
    (timeout : Z) : M L bool :=
  startTime <- Date_now ;;
  waitForContainer_loop fuel containerId timeout startTime.

(** The body of the [for] loop of [measureStartupTime]. *)
Definition startup_iteration (fuel : nat) (imageTag : string) (i : nat)
  : M (list Z) unit :=
  startTime <- Date_now ;;
  try_catch
    ((* Start container in detached mode *)
     out <- execSync ("docker run -d --name " +++ imageName
                      +++ "-startup-test-" +++ nat_to_string i
                      +++ " " +++ imageTag) ;;
     let containerId := trim out in
     (* Wait for container to be healthy or running *)
     waitForContainer fuel containerId 30000 ;;
     t <- Date_now ;;
     let startupTime := t - startTime in
     push startupTime ;;
     (* Cleanup *)
     execSync ("docker stop " +++ containerId) ;;
     execSync ("docker rm " +++ containerId) ;;
     ret tt)
    (fun _ =>
       console_log ("Startup test " +++ nat_to_string (i + 1) +++ " failed")).

(** [measureStartupTime(imageTag)] *)
Definition measureStartupTime {L} (fuel : nat) (imageTag : string)
  : M L TimeMetric.t :=
  console_log "Measuring container startup time..." ;;
  let iterations := 5%nat in
  with_locals ([] : list Z)
    (for_range iterations (startup_iteration fuel imageTag) ;;
     times <- get_local ;;
     ret (summarize times)).

(** [measureMemoryUsage(imageTag)] *)
Definition measureMemoryUsage {L} (imageTag : string) : M L MemoryUsage.t :=
  console_log "Measuring memory usage..." ;;
  try_catch
    (out <- execSync ("docker run -d --name " +++ imageName
                      +++ "-memory-test " +++ imageTag) ;;
     let containerId := trim out in
     (* Wait for container to fully start *)
     sleep 5000 ;;
     (* Get memory usage *)
     out <- execSync ("docker stats " +++ containerId
              +++ " --no-stream --format " +++ dquote
              +++ "{{.MemUsage}}\t{{.MemPerc}}" +++ dquote) ;;
     let stats := trim out in
     let '(memUsage, memPercent) :=
       destructure2 (map Some (split tab stats)) in
     sizes <- map_M (call "parseMemorySize" parseMemorySize)
                    (split "/" (match memUsage with
                                | Some s => s
                                | None => ""
                                end)) ;;
     let '(current, total) := destructure2 (map Some sizes) in
     (* Cleanup *)
     execSync ("docker stop " +++ containerId) ;;
     execSync ("docker rm " +++ containerId) ;;
     match memPercent with
     | None => throw (Error "TypeError: memPercent is undefined")
     | Some memPercent =>
         ret {| MemoryUsage.current := formatMemorySize (of_undefined current);
                MemoryUsage.total := formatMemorySize (of_undefined total);
                MemoryUsage.percentage :=
                  parseFloat (Some (remove_percent memPercent));
                MemoryUsage.efficiency :=
                  calculateMemoryEfficiency (of_undefined current)
                                            (of_undefined total) |}
     end)
    (fun _ =>
       console_log "Memory usage measurement failed" ;;
       ret {| MemoryUsage.current := "Unknown";
              MemoryUsage.total := "Unknown";
              MemoryUsage.percentage := of_Z 0;
              MemoryUsage.efficiency := "Unknown" |}).

(** [calculateCPUEfficiency(avgCPU)] *)
Definition calculateCPUEfficiency (avgCPU : num) : string :=
  if Js.ltb avgCPU (of_Z 5) then "Excellent"
  else if Js.ltb avgCPU (of_Z 15) then "Good"
  else if Js.ltb avgCPU (of_Z 30) then "Fair"
  else "Poor".

(** [measureCPUUsage(imageTag)] *)
Definition measureCPUUsage {L} (imageTag : string) : M L CpuUsage.t :=
  console_log "Measuring CPU usage..." ;;
  try_catch
    (out <- execSync ("docker run -d --name " +++ imageName
                      +++ "-cpu-test " +++ imageTag) ;;
     let containerId := trim out in
     (* Wait for container to fully start *)
     sleep 5000 ;;
     (* Measure CPU usage over time *)
     with_locals ([] : list num)
       (for_range 10 (fun _ =>
          out <- execSync ("docker stats " +++ containerId
                   +++ " --no-stream --format " +++ dquote
                   +++ "{{.CPUPerc}}" +++ dquote) ;;
          let stats := trim out in
          push (parseFloat (Some (remove_percent stats))) ;;
          sleep 1000) ;;
        measurements <- get_local ;;
        (* Cleanup *)
        execSync ("docker stop " +++ containerId) ;;
        execSync ("docker rm " +++ containerId) ;;
        let avgCPU :=
          Js.div (fold_left Js.add measurements (of_Z 0))
                 (of_Z (Z.of_nat (List.length measurements))) in
        let maxCPU := Math_max measurements in
        ret {| CpuUsage.average := round2 avgCPU;
               CpuUsage.max := round2 maxCPU;
               CpuUsage.samples := List.length measurements;
               CpuUsage.efficiency := calculateCPUEfficiency avgCPU |}))
    (fun _ =>
       console_log "CPU usage measurement failed" ;;
       ret {| CpuUsage.average := of_Z 0; CpuUsage.max := of_Z 0;
              CpuUsage.samples := 0%nat; CpuUsage.efficiency := "Unknown" |}).

(** The pattern of [extractPingAverage]: [avg = ( \d+ \.? \d+ )]. *)
Definition ping_avg_re : Regex.regex :=
  Regex.Seq (lit "avg = ")
    (Regex.Group 1
       (Regex.Seq (Regex.Plus (Regex.Chr is_digit))
          (Regex.Seq (Regex.Opt (Regex.Lit1 "."))
             (Regex.Plus (Regex.Chr is_digit))))).

(** [extractPingAverage(pingOutput)]; [None] is [null]. *)
Definition extractPingAverage (pingOutput : string) : option num :=
  match Regex.String_match ping_avg_re 1 pingOutput with
  | Some m => Some (parseFloat (nth 1 m None))
  | None => None
  end.

Definition ping_targets : list string := ["8.8.8.8"; "1.1.1.1"; "google.com"].

Definition network_failed : NetworkLatency.t :=
  {| NetworkLatency.average := of_Z 0; NetworkLatency.targets := [];
     NetworkLatency.unit := "ms"; NetworkLatency.status := "Failed" |}.

(** [measureNetworkLatency(imageTag)] *)
Definition measureNetworkLatency {L} (imageTag : string)
  : M L NetworkLatency.t :=
  console_log "Measuring network latency..." ;;
  try_catch
    (out <- execSync ("docker run -d --name " +++ imageName
                      +++ "-network-test " +++ imageTag) ;;
     let containerId := trim out in
     (* Wait for container to fully start *)
     sleep 3000 ;;
     (* Test network latency by pinging from container *)
     with_locals ([] : list (string * num))
       (for_each ping_targets (fun target =>
          try_catch
            (pingOutput <- execSync ("docker exec " +++ containerId
                                     +++ " ping -c 3 " +++ target) ;;
             match extractPingAverage pingOutput with
             | Some avgTime =>
                 if Js.truthy avgTime then push (target, avgTime) else ret tt
             | None => ret tt
             end)
            (fun _ => (* Ping failed for this target *) ret tt)) ;;
        pingResults <- get_local ;;
        (* Cleanup *)
        execSync ("docker stop " +++ containerId) ;;
        execSync ("docker rm " +++ containerId) ;;
        match pingResults with
        | [] => ret network_failed
        | _ :: _ =>
            let avgLatency :=
              Js.div (fold_left (fun sum r => Js.add sum (snd r))
                                pingResults (of_Z 0))
                     (of_Z (Z.of_nat (List.length pingResults))) in
            ret {| NetworkLatency.average := round2 avgLatency;
                   NetworkLatency.targets := pingResults;
                   NetworkLatency.unit := "ms";
                   NetworkLatency.status := "Success" |}
        end))
    (fun _ =>
       console_log "Network latency measurement failed" ;;
       ret network_failed).

Definition disk_failed : DiskTest.t :=
  {| DiskTest.speed := of_Z 0; DiskTest.unit := "MB/s";
     DiskTest.status := "Failed" |}.

(** [testDiskWrite(containerId)] *)
Definition testDiskWrite {L} (containerId : string) : M L DiskTest.t :=
  try_catch
    (startTime <- Date_now ;;
     (* Write a 100MB file *)
     execSync ("docker exec " +++ containerId
               +++ " dd if=/dev/zero of=/tmp/test_write bs=1M count=100") ;;
     t <- Date_now ;;
     let writeTime := Js.div (of_Z (t - startTime)) (of_Z 1000) in
     let writeSpeed := Js.div (of_Z 100) writeTime in
     (* Cleanup *)
     execSync ("docker exec " +++ containerId +++ " rm -f /tmp/test_write") ;;
     ret {| DiskTest.speed := round2 writeSpeed; DiskTest.unit := "MB/s";
            DiskTest.status := "Success" |})
    (fun _ => ret disk_failed).

(** [testDiskRead(containerId)] *)
Definition testDiskRead {L} (containerId : string) : M L DiskTest.t :=
  try_catch
    ((* Create a test file first *)
     execSync ("docker exec " +++ containerId
               +++ " dd if=/dev/zero of=/tmp/test_read bs=1M count=50") ;;
     startTime <- Date_now ;;
     (* Read the file *)
     execSync ("docker exec " +++ containerId
               +++ " dd if=/tmp/test_read of=/dev/null bs=1M") ;;
     t <- Date_now ;;
     let readTime := Js.div (of_Z (t - startTime)) (of_Z 1000) in
     let readSpeed := Js.div (of_Z 50) readTime in
     (* Cleanup *)
     execSync ("docker exec " +++ containerId +++ " rm -f /tmp/test_read") ;;
     ret {| DiskTest.speed := round2 readSpeed; DiskTest.unit := "MB/s";
            DiskTest.status := "Success" |})
    (fun _ => ret disk_failed).

(** [calculateOverallDiskPerformance(writeTest, readTest)] *)
Definition calculateOverallDiskPerformance (writeTest readTest : DiskTest.t)
  : string :=
  if String.eqb (DiskTest.status writeTest) "Failed"
     || String.eqb (DiskTest.status readTest) "Failed"
  then "Unknown"
  else
    let avgSpeed :=
      Js.div (Js.add (DiskTest.speed writeTest) (DiskTest.speed readTest))
             (of_Z 2) in
    if Js.gtb avgSpeed (of_Z 100) then "Excellent"
    else if Js.gtb avgSpeed (of_Z 50) then "Good"
    else if Js.gtb avgSpeed (of_Z 20) then "Fair"
    else "Poor".

(** [measureDiskIO(imageTag)] *)
Definition measureDiskIO {L} (imageTag : string) : M L DiskIO.t :=
  console_log "Measuring disk I/O..." ;;
  try_catch
    (out <- execSync ("docker run -d --name " +++ imageName
                      +++ "-disk-test " +++ imageTag) ;;
     let containerId := trim out in
     (* Wait for container to fully start *)
     sleep 3000 ;;
     (* Test disk write speed *)
     writeTest <- testDiskWrite containerId ;;
     (* Test disk read speed *)
     readTest <- testDiskRead containerId ;;
     (* Cleanup *)
     execSync ("docker stop " +++ containerId) ;;
     execSync ("docker rm " +++ containerId) ;;
     ret {| DiskIO.write := writeTest; DiskIO.read := readTest;
            DiskIO.overall :=
              calculateOverallDiskPerformance writeTest readTest |})
    (fun _ =>
       console_log "Disk I/O measurement failed" ;;
       ret {| DiskIO.write := disk_failed; DiskIO.read := disk_failed;
              DiskIO.overall := "Unknown" |}).

Definition recommend (category priority message : string)
  : Recommendation.t :=
  {| Recommendation.category := category;
     Recommendation.priority := priority;
     Recommendation.message := message |}.

(** [if (cond) { recommendations.push(r) }] *)
Definition push_if (cond : bool) (r : Recommendation.t)
    (recommendations : list Recommendation.t) : list Recommendation.t :=
  if cond then recommendations ++ [r] else recommendations.

(** [generateRecommendations(performance)] *)
Definition generateRecommendations (performance : Performance.t)
  : list Recommendation.t :=
  let recommendations := [] in
  (* Build time recommendations *)
  let recommendations :=
    push_if
      (Js.gtb (TimeMetric.average (Performance.buildTime performance))
              (of_Z 60000))
      (recommend "Build" "High"
         "Build time is slow. Consider using Docker layer caching and multi-stage builds.")
      recommendations in
  (* Startup time recommendations *)
  let recommendations :=
    push_if
      (Js.gtb (TimeMetric.average (Performance.startupTime performance))
              (of_Z 10000))
      (recommend "Startup" "High"
         "Startup time is slow. Optimize application initialization and consider health checks.")
      recommendations in
  (* Memory usage recommendations *)
  let recommendations :=
    push_if
      (Js.gtb (MemoryUsage.percentage (Performance.memoryUsage performance))
              (of_Z 80))
      (recommend "Memory" "High"
         "Memory usage is high. Profile memory leaks and optimize memory usage.")
      recommendations in
  (* CPU usage recommendations *)
  let recommendations :=
    push_if
      (Js.gtb (CpuUsage.average (Performance.cpuUsage performance)) (of_Z 50))
      (recommend "CPU" "Medium"
         "CPU usage is high. Consider optimizing algorithms and reducing computational overhead.")
      recommendations in
  (* Network latency recommendations *)
  let recommendations :=
    push_if
      (String.eqb
         (NetworkLatency.status (Performance.networkLatency performance))
         "Success"
       && Js.gtb
            (NetworkLatency.average (Performance.networkLatency performance))
            (of_Z 100))
      (recommend "Network" "Low"
         "Network latency is higher than expected. Check network configuration.")
      recommendations in
  (* Disk I/O recommendations *)
  let recommendations :=
    push_if
      (String.eqb (DiskIO.overall (Performance.diskIO performance)) "Poor")
      (recommend "Disk" "Medium"
         "Disk I/O performance is poor. Consider optimizing file operations and using faster storage.")
      recommendations in
  recommendations.

(** Truthiness of an optional tag: [null], [undefined] and the empty string
    are falsy. *)
Definition tag_given (imageTag : option string) : bool :=
  match imageTag with
  | Some s => negb (String.eqb s "")
  | None => false
  end.

(** The frame shared by [testPerformance] and [scanImage]:
    [const image = imageTag || await this.buildTempImage()], then the body
    in a [try] whose success path and whose [catch] both release the image
    when [!imageTag]; the [catch] rethrows. *)
Definition with_image {L A} (build : M L string) (body : string -> M L A)
    (imageTag : option string) : M L A :=
  image <-
    (match imageTag with
     | Some s => if tag_given imageTag then ret s else build
     | None => build
     end) ;;
  try_catch
    (r <- body image ;;
     (if negb (tag_given imageTag) then cleanupTempImage image else ret tt) ;;
     ret r)
    (fun error =>
       (if negb (tag_given imageTag) then cleanupTempImage image else ret tt) ;;
       throw error).

(** The object literal of [testPerformance], followed by the assignment of
    [performance.recommendations]. *)
Definition performance_probes {L} (fuel : nat) (imageToTest : string)
  : M L Performance.t :=
  buildTime <- measureBuildTime ;;
  startupTime <- measureStartupTime fuel imageToTest ;;
  memoryUsage <- measureMemoryUsage imageToTest ;;
  cpuUsage <- measureCPUUsage imageToTest ;;
  networkLatency <- measureNetworkLatency imageToTest ;;
  diskIO <- measureDiskIO imageToTest ;;
  let performance :=
    {| Performance.image := imageToTest;
       Performance.buildTime := buildTime;
       Performance.startupTime := startupTime;
       Performance.memoryUsage := memoryUsage;
       Performance.cpuUsage := cpuUsage;
       Performance.networkLatency := networkLatency;
       Performance.diskIO := diskIO;
       Performance.recommendations := [] |} in
  ret {| Performance.image := Performance.image performance;
         Performance.buildTime := Performance.buildTime performance;
         Performance.startupTime := Performance.startupTime performance;
         Performance.memoryUsage := Performance.memoryUsage performance;
         Performance.cpuUsage := Performance.cpuUsage performance;
         Performance.networkLatency := Performance.networkLatency performance;
         Performance.diskIO := Performance.diskIO performance;
         Performance.recommendations :=
           generateRecommendations performance |}.

(** [testPerformance(imageTag = null)] *)
Definition testPerformance {L} (fuel : nat) (imageTag : option string)
  : M L Performance.t :=
  with_image buildTempImage (performance_probes fuel) imageTag.

(** ** [class DockerScanner] *)

Module Scanner.

(** [this.imageName] of [DockerScanner] *)
Definition imageName : string := "trouter-temp-scan".

(** [buildTempImage()] *)
Definition buildTempImage {L} : M L string :=
  console_log "Building temporary Docker image for scanning..." ;;
  t <- Date_now ;;
  let tempTag := imageName +++ "-" +++ Z_to_string t in
  try_catch
    (execSync ("docker build -t " +++ tempTag +++ " .") ;; ret tempTag)
    (fun error =>
       match error with
       | Error msg => throw (Error ("Failed to build Docker image: " +++ msg))
       end).

(** *** JSON values as JavaScript values *)

Definition TypeError {L A} (what : string) : M L A :=
  throw (Error ("TypeError: " +++ what)).

Definition json_truthy (v : option json) : bool :=
  match v with
  | None | Some JNull => false
  | Some (JBool b) => b
  | Some (JNum n) => Js.truthy n
  | Some (JStr s) => negb (String.eqb s "")
  | Some (JArr _) | Some (JObj _) => true
  end.

Definition all_digits (k : string) : bool :=
  negb (String.eqb k "")
  && forallb is_digit (list_ascii_of_string k).

(** The array index a property name denotes, if any. *)
Definition index_of_key (k : string) : option nat :=
  if all_digits k then
    let n := digits_val (list_ascii_of_string k) in
    if String.eqb (Z_to_string n) k then Some (Z.to_nat n) else None
  else None.

Definition char_string (c : ascii) : string := String c EmptyString.

(** Property access [v.k] or [v[k]] for the own properties a parsed JSON
    value has (apart from [length]): it throws on [null] and [undefined]
    and gives [undefined] for a property that is not there. *)
Definition get_prop {L} (v : option json) (k : string) : M L (option json) :=
  match v with
  | None | Some JNull =>
      TypeError ("Cannot read properties of null or undefined, reading " +++ k)
  | Some (JObj fields) => ret (lookup_key k fields)
  | Some (JArr items) =>
      ret (match index_of_key k with
           | Some i => nth_error items i
           | None => None
           end)
  | Some (JStr s) =>
      ret (match index_of_key k with
           | Some i => option_map (fun c => JStr (char_string c))
                         (nth_error (list_ascii_of_string s) i)
           | None => None
           end)
  | Some (JNum _) | Some (JBool _) => ret None
  end.

(** [Object.entries(v)] for a truthy [v] *)
Definition Object_entries (v : json) : list (string * json) :=
  match v with
  | JObj fields => fields
  | JArr items =>
      map (fun p => (nat_to_string (fst p), snd p))
          (combine (seq 0 (List.length items)) items)
  | JStr s =>
      let cs := list_ascii_of_string s in
      map (fun p => (nat_to_string (fst p), JStr (char_string (snd p))))
          (combine (seq 0 (List.length cs)) cs)
  | _ => []
  end.

(** *** Vulnerability reports *)

Module Finding.
Record t : Type := {
  package : option json;
  version : option json;
  severity : option json;
  description : option json;
  fix_ : option json   (* the property [fix] *)
}.
End Finding.

Module Vulnerabilities.
Record t : Type := {
  critical : list Finding.t;
  high : list Finding.t;
  medium : list Finding.t;
  low : list Finding.t;
  info : list Finding.t;
  total : nat
}.
End Vulnerabilities.

(** The object every scan starts from. *)
Definition no_vulnerabilities : Vulnerabilities.t :=
  {| Vulnerabilities.critical := []; Vulnerabilities.high := [];
     Vulnerabilities.medium := []; Vulnerabilities.low := [];
     Vulnerabilities.info := []; Vulnerabilities.total := 0%nat |}.

(** [vulnerabilities[category].push(vuln)]; [None] when
    [vulnerabilities[category]] is not an array, in which case the call
    throws a [TypeError]. *)
Definition bucket_push (category : string) (vuln : Finding.t)
    (v : Vulnerabilities.t) : option Vulnerabilities.t :=
  let '{| Vulnerabilities.critical := c; Vulnerabilities.high := h;
          Vulnerabilities.medium := m; Vulnerabilities.low := l;
          Vulnerabilities.info := i; Vulnerabilities.total := t |} := v in
  let mk c h m l i :=
    {| Vulnerabilities.critical := c; Vulnerabilities.high := h;
       Vulnerabilities.medium := m; Vulnerabilities.low := l;
       Vulnerabilities.info := i; Vulnerabilities.total := t |} in
  if String.eqb category "critical" then Some (mk (c ++ [vuln]) h m l i)
  else if String.eqb category "high" then Some (mk c (h ++ [vuln]) m l i)
  else if String.eqb category "medium" then Some (mk c h (m ++ [vuln]) l i)
  else if String.eqb category "low" then Some (mk c h m (l ++ [vuln]) i)
  else if String.eqb category "info" then Some (mk c h m l (i ++ [vuln]))
  else None.

(** [vulnerabilities.total++] *)
Definition total_incr (v : Vulnerabilities.t) : Vulnerabilities.t :=
  {| Vulnerabilities.critical := Vulnerabilities.critical v;
     Vulnerabilities.high := Vulnerabilities.high v;
     Vulnerabilities.medium := Vulnerabilities.medium v;
     Vulnerabilities.low := Vulnerabilities.low v;
     Vulnerabilities.info := Vulnerabilities.info v;
     Vulnerabilities.total := S (Vulnerabilities.total v) |}.

Definition severity_tiers : list string :=
  ["critical"; "high"; "medium"; "low"; "info"].

(** [array.includes(s)] on strings *)
Definition mem_string (s : string) (l : list string) : bool :=
  existsb (String.eqb s) l.

(** [categorizeVulnerability(severity)]: [severity.toLowerCase()] throws
    unless [severity] is a string. *)
Definition categorizeVulnerability {L} (severity : option json) : M L string :=
  match severity with
  | Some (JStr severity) =>
      let category := toLowerCase severity in
      if mem_string category severity_tiers then ret category
      else ret "info"
  | _ => TypeError "severity.toLowerCase is not a function"
  end.

(** The body of both [forEach] callbacks: bucket the finding, then count
    it. *)
Definition record_finding (severity : option json) (vuln : Finding.t)
  : M Vulnerabilities.t unit :=
  category <- categorizeVulnerability severity ;;
  vulnerabilities <- get_local ;;
  match bucket_push category vuln vulnerabilities with
  | None => TypeError "Cannot read properties of undefined, reading push"
  | Some v' => set_local v' ;; v <- get_local ;; set_local (total_incr v)
  end.

(** [parseVulnerabilityData(data)] *)
Definition parseVulnerabilityData (data : json) : Vulnerabilities.t :=
  (* Implementation would depend on the specific tool's JSON format *)
  no_vulnerabilities.

(** The body of [parseTrivyResults]; the object [vulnerabilities] is the
    local variable. *)
Definition trivy_findings (data : json)
  : M Vulnerabilities.t Vulnerabilities.t :=
  results <- get_prop (Some data) "Results" ;;
  guard <-
    (if json_truthy results then
       first <- get_prop results "0" ;;
       if json_truthy first then
         vs <- get_prop first "Vulnerabilities" ;;
         ret (if json_truthy vs then vs else None)
       else ret None
     else ret None) ;;
  match guard with
  | None => ret tt
  | Some (JArr vulns) =>
      for_each vulns (fun vuln =>
        severity <- get_prop (Some vuln) "Severity" ;;
        pkgName <- get_prop (Some vuln) "PkgName" ;;
        installed <- get_prop (Some vuln) "InstalledVersion" ;;
        descr <- get_prop (Some vuln) "Description" ;;
        fixed <- get_prop (Some vuln) "FixedVersion" ;;
        record_finding severity
          {| Finding.package := pkgName; Finding.version := installed;
             Finding.severity := severity; Finding.description := descr;
             Finding.fix_ := fixed |})
  | Some _ => TypeError "Vulnerabilities.forEach is not a function"
  end ;;
  get_local.

(** [parseTrivyResults(data)] *)
Definition parseTrivyResults {L} (data : json) : M L Vulnerabilities.t :=
  with_locals no_vulnerabilities (trivy_findings data).

(** *** The built-in heuristic scan *)

Definition newline : ascii := ascii_of_nat 10.

(** [value.replace(re, '')] where [re] matches every double quote. *)
Definition remove_dquotes (s : string) : string :=
  string_of_list_ascii
    (filter (fun c => negb (Ascii.eqb c (ascii_of_nat 34)))
            (list_ascii_of_string s)).

Definition nonempty (s : option string) : bool :=
  match s with
  | Some s => negb (String.eqb s "")
  | None => false
  end.

(** [obj[key] = value] *)
Fixpoint set_key {A} (key : string) (value : A) (obj : list (string * A))
  : list (string * A) :=
  match obj with
  | [] => [(key, value)]
  | (k, v) :: rest =>
      if String.eqb k key then (k, value) :: rest
      else (k, v) :: set_key key value rest
  end.

(** [getImageOS(imageTag)].  Assigning a string to [osInfo.__proto__]
    changes nothing. *)
Definition getImageOS {L} (imageTag : string) : M L (list (string * string)) :=
  try_catch
    (output <- execSync ("docker run --rm " +++ imageTag
                 +++ " cat /etc/os-release 2>/dev/null || echo "
                 +++ dquote +++ "Unknown" +++ dquote) ;;
     ret (fold_left
            (fun osInfo line =>
               let '(key, value) := destructure2 (map Some (split "=" line)) in
               match key, value with
               | Some k, Some v =>
                   if nonempty key && nonempty value
                      && negb (String.eqb k "__proto__")
                   then set_key k (remove_dquotes v) osInfo
                   else osInfo
               | _, _ => osInfo
               end)
            (split newline output) []))
    (fun _ => ret [("ID", "alpine")] (* Default to Alpine *)).

(** [getNodeVersion(imageTag)]; [None] is [null]. *)
Definition getNodeVersion {L} (imageTag : string) : M L (option string) :=
  try_catch
    (output <- execSync ("docker run --rm " +++ imageTag
                         +++ " node --version 2>/dev/null") ;;
     ret (Some (trim output)))
    (fun _ => ret None).

(** [v.replace(/^v/, '').split('.').map(Number)] *)
Definition normalize_version (v : string) : list num :=
  let cs := list_ascii_of_string v in
  let cs := match cs with "v"%char :: rest => rest | _ => cs end in
  map Number_chars (split_chars "." cs).

Fixpoint compare_components (n : nat) (a b : list num) : num :=
  match n with
  | O => of_Z 0
  | S n' =>
      let diff := Js.sub (or_zero (hd_error a)) (or_zero (hd_error b)) in
      if negb (Js.eqb diff (of_Z 0)) then diff
      else compare_components n' (tl a) (tl b)
  end.

(** [compareVersions(v1, v2)]: [v.replace] throws unless [v] is a string. *)
Definition compareVersions {L} (v1 v2 : option json) : M L num :=
  match v1, v2 with
  | Some (JStr v1), Some (JStr v2) =>
      let a := normalize_version v1 in
      let b := normalize_version v2 in
      ret (compare_components (Nat.max (List.length a) (List.length b)) a b)
  | _, _ => TypeError "v.replace is not a function"
  end.

Definition vulnerableVersions : list string :=
  ["v14.x"; "v15.x"; "v16.x"; "v17.x"; "v18.x < 18.17.0"; "v20.x < 20.5.0"].

(** [pattern.replace('.x', '')]: the first occurrence only. *)
Fixpoint remove_first_dot_x (s : chars) : chars :=
  match s with
  | "."%char :: "x"%char :: rest => rest
  | c :: rest => c :: remove_first_dot_x rest
  | [] => []
  end.

(** [array.some(p)] with a predicate that may throw *)
Fixpoint some_M {L X} (p : X -> M L bool) (xs : list X) : M L bool :=
  match xs with
  | [] => ret false
  | x :: rest => b <- p x ;; if b then ret true else some_M p rest
  end.

(** [isNodeVulnerable(version)] *)
Definition isNodeVulnerable {L} (version : string) : M L bool :=
  some_M
    (fun pattern =>
       if includes pattern "<" then
         let '(base, minVersion) :=
           destructure2 (map (fun s => Some (trim s)) (split "<" pattern)) in
         match base with
         | Some base =>
             if startsWith version base then
               d <- compareVersions (Some (JStr version))
                                    (option_map JStr minVersion) ;;
               ret (Js.ltb d (of_Z 0))
             else ret false
         | None => TypeError "startsWith argument"
         end
       else
         ret (startsWith version
                (string_of_list_ascii
                   (remove_first_dot_x (list_ascii_of_string pattern)))))
    vulnerableVersions.

Module Package.
Record t : Type := {
  name : string;
  version : option json
}.
End Package.

(** [getInstalledPackages(imageTag)] *)
Definition getInstalledPackages {L} (imageTag : string)
  : M L (list Package.t) :=
  with_locals ([] : list Package.t)
    (try_catch
       ((* Try npm list *)
        npmList <- execSync ("docker run --rm " +++ imageTag
                             +++ " npm list --depth=0 --json 2>/dev/null") ;;
        E <- get_env ;;
        match JSON_parse E npmList with
        | None => throw (Error "SyntaxError")
        | Some npmData =>
            deps <- get_prop (Some npmData) "dependencies" ;;
            match deps with
            | Some d =>
                if json_truthy deps then
                  for_each (Object_entries d) (fun entry =>
                    version <- get_prop (Some (snd entry)) "version" ;;
                    push {| Package.name := fst entry;
                            Package.version := version |})
                else ret tt
            | None => ret tt
            end
        end)
       (fun _ => (* Try alternative methods *) ret tt) ;;
     get_local).

Module Advisory.
Record t : Type := {
  versions : string;
  severity : string;
  description : string
}.
End Advisory.

(** [const vulnerablePackages = { ... }] *)
Definition vulnerablePackages : list (string * Advisory.t) :=
  [("lodash", {| Advisory.versions := "<4.17.21"; Advisory.severity := "high";
                 Advisory.description := "Prototype pollution" |});
   ("axios", {| Advisory.versions := "<0.21.1"; Advisory.severity := "medium";
                Advisory.description := "SSRF vulnerability" |});
   ("request", {| Advisory.versions := "*"; Advisory.severity := "high";
                  Advisory.description := "Deprecated and vulnerable" |});
   ("moment", {| Advisory.versions := "<2.29.4"; Advisory.severity := "medium";
                 Advisory.description := "Path traversal" |})].

(** Property names every object literal inherits from [Object.prototype];
    looking one of them up in [vulnerablePackages] gives a truthy value
    without a [versions] property. *)
Definition inherited_keys : list string :=
  ["constructor"; "toString"; "toLocaleString"; "valueOf"; "hasOwnProperty";
   "isPrototypeOf"; "propertyIsEnumerable"; "__proto__"; "__defineGetter__";
   "__defineSetter__"; "__lookupGetter__"; "__lookupSetter__"].

(** [isVersionInRange(version, range)] *)
Definition isVersionInRange {L} (version : option json) (range : string)
  : M L bool :=
  if startsWith range "<" then
    let minVersion := trim (substring 1 (String.length range) range) in
    d <- compareVersions version (Some (JStr minVersion)) ;;
    ret (Js.ltb d (of_Z 0))
  else ret false.

(** [checkPackageVulnerability(pkg)]; [None] is [null]. *)
Definition checkPackageVulnerability {L} (pkg : Package.t)
  : M L (option Finding.t) :=
  match lookup_key (Package.name pkg) vulnerablePackages with
  | Some vuln =>
      hit <- (if String.eqb (Advisory.versions vuln) "*" then ret true
              else isVersionInRange (Package.version pkg)
                                    (Advisory.versions vuln)) ;;
      if hit then
        ret (Some {| Finding.package := Some (JStr (Package.name pkg));
                     Finding.version := Package.version pkg;
                     Finding.severity := Some (JStr (Advisory.severity vuln));
                     Finding.description :=
                       Some (JStr (Advisory.description vuln));
                     Finding.fix_ := Some (JStr "Update to latest version") |})
      else ret None
  | None =>
      if mem_string (Package.name pkg) inherited_keys
      then TypeError "range.startsWith: range is undefined"
      else ret None
  end.

(** [checkCommonVulnerabilities(imageTag, osInfo)] *)
Definition checkCommonVulnerabilities {L} (imageTag : string)
    (osInfo : list (string * string)) : M L (list Finding.t) :=
  with_locals ([] : list Finding.t)
    (try_catch
       ((* Check for outdated Node.js *)
        nodeVersion <- getNodeVersion imageTag ;;
        match nodeVersion with
        | Some v =>
            if nonempty nodeVersion then
              b <- isNodeVulnerable v ;;
              if b then
                push {| Finding.package := Some (JStr "node");
                        Finding.version := Some (JStr v);
                        Finding.severity := Some (JStr "high");
                        Finding.description :=
                          Some (JStr "Node.js version has known security vulnerabilities");
                        Finding.fix_ :=
                          Some (JStr "Update to latest LTS version") |}
              else ret tt
            else ret tt
        | None => ret tt
        end ;;
        (* Check for common package vulnerabilities *)
        packages <- getInstalledPackages imageTag ;;
        for_each packages (fun pkg =>
          vuln <- checkPackageVulnerability pkg ;;
          match vuln with
          | Some v => push v
          | None => ret tt
          end))
       (fun _ => (* Continue with empty list if scanning fails *) ret tt) ;;
     get_local).

(** The body of [basicVulnerabilityScan]; the object [vulnerabilities] is
    the local variable. *)
Definition basic_findings (imageTag : string)
  : M Vulnerabilities.t Vulnerabilities.t :=
  try_catch
    ((* Get image OS information *)
     osInfo <- getImageOS imageTag ;;
     (* Check for common vulnerable packages *)
     commonVulns <- checkCommonVulnerabilities imageTag osInfo ;;
     (* Categorize vulnerabilities *)
     for_each commonVulns (fun vuln =>
       record_finding (Finding.severity vuln) vuln) ;;
     get_local)
    (fun _ =>
       console_log "Basic vulnerability scan completed with limited results" ;;
       get_local).

(** [basicVulnerabilityScan(imageTag)] *)
Definition basicVulnerabilityScan {L} (imageTag : string)
  : M L Vulnerabilities.t :=
  with_locals no_vulnerabilities (basic_findings imageTag).

(** [hasDockerScout()] *)
Definition hasDockerScout {L} : M L bool :=
  try_catch (execSync "docker scout version" ;; ret true)
            (fun _ => ret false).

(** [JSON.parse(text)] *)
Definition JSON_parse_M {L} (text : string) : M L json :=
  E <- get_env ;;
  match JSON_parse E text with
  | Some v => ret v
  | None => throw (Error "SyntaxError: Unexpected token in JSON")
  end.

(** [scanWithDockerScout(imageTag)] *)
Definition scanWithDockerScout {L} (imageTag : string)
  : M L Vulnerabilities.t :=
  try_catch
    (output <- execSync ("docker scout cves --format json " +++ imageTag) ;;
     data <- JSON_parse_M output ;;
     ret (parseVulnerabilityData data))
    (fun error =>
       match error with
       | Error msg => throw (Error ("Docker Scout scan failed: " +++ msg))
       end).

(** [scanWithTrivy(imageTag)]; [None] is [null]. *)
Definition scanWithTrivy {L} (imageTag : string)
  : M L (option Vulnerabilities.t) :=
  try_catch
    (execSync "trivy version" ;;
     output <- execSync ("trivy image --format json --quiet " +++ imageTag) ;;
     data <- JSON_parse_M output ;;
     r <- parseTrivyResults data ;;
     ret (Some r))
    (fun _ => ret None).

(** [scanVulnerabilities(imageTag)] *)
Definition scanVulnerabilities {L} (imageTag : string)
  : M L Vulnerabilities.t :=
  console_log "Scanning for vulnerabilities..." ;;
  try_catch
    ((* Use docker scout if available, otherwise fallback to basic
        scanning *)
     scout <- hasDockerScout ;;
     if scout then scanWithDockerScout imageTag
     else
       r <- scanWithTrivy imageTag ;;
       match r with
       | Some v => ret v
       | None => basicVulnerabilityScan imageTag
       end)
    (fun _ =>
       console_log "Advanced vulnerability scanning not available, using basic scan" ;;
       basicVulnerabilityScan imageTag).

(** [getImageSize(imageTag)] *)
Definition getImageSize {L} (imageTag : string) : M L string :=
  try_catch
    (output <- execSync ("docker images " +++ imageTag +++ " --format "
                         +++ dquote +++ "{{.Size}}" +++ dquote) ;;
     ret (trim output))
    (fun _ => ret "Unknown").

(** *** Layers *)

(** The pattern of [parseSize]: [( \d+ \.? \d* ) ( B|kB|MB|GB )]. *)
Definition size_re : Regex.regex :=
  Regex.Seq
    (Regex.Group 1
       (Regex.Seq (Regex.Plus (Regex.Chr is_digit))
          (Regex.Seq (Regex.Opt (Regex.Lit1 "."))
             (Regex.Star (Regex.Chr is_digit)))))
    (Regex.Group 2
       (Regex.Alt (lit "B")
          (Regex.Alt (lit "kB") (Regex.Alt (lit "MB") (lit "GB"))))).

(** [const units = { B: 0, kB: 1, MB: 2, GB: 3 }] *)
Definition size_units : list (string * nat) :=
  [("B", 0%nat); ("kB", 1%nat); ("MB", 2%nat); ("GB", 3%nat)].

(** [parseSize(sizeStr)] *)
Definition parseSize (sizeStr : string) : num :=
  if String.eqb sizeStr "0B" then of_Z 0
  else
    let arr :=
      match Regex.String_match size_re 2 sizeStr with
      | Some a => a
      | None => []
      end in
    let '(size, unit) := destructure2 arr in
    let e := match prop size_units unit with Some n => n | None => 0%nat end in
    Js.mul (parseFloat size) (Math_pow 1000 e).

Module Layer.
Record t : Type := {
  command : string;
  size : string
}.
End Layer.

Module Layers.
Record t : Type := {
  total : nat;
  layers : list Layer.t;
  largestLayers : list Layer.t
}.
End Layers.

(** [Array.prototype.sort(cmp)] as a stable insertion sort; a comparator
    result that is [NaN] counts as [0].  The language fixes the result for
    a consistent comparator only (the stable sorted order); for the
    others, which arise here when a size does not parse, the order is left
    to the implementation, and this is the one taken.  What is proved of
    the sorted list below (it is a rearrangement of the list given, and
    the comparator is only ever applied to its elements) holds of every
    implementation. *)
Fixpoint insert_by {L X} (cmp : X -> X -> M L num) (x : X) (sorted : list X)
  : M L (list X) :=
  match sorted with
  | [] => ret [x]
  | y :: rest =>
      c <- cmp y x ;;
      if Js.gtb c (of_Z 0) then ret (x :: y :: rest)
      else (r <- insert_by cmp x rest ;; ret (y :: r))
  end.

Fixpoint sort_into {L X} (cmp : X -> X -> M L num) (xs sorted : list X)
  : M L (list X) :=
  match xs with
  | [] => ret sorted
  | x :: rest => s <- insert_by cmp x sorted ;; sort_into cmp rest s
  end.

Definition sort_by {L X} (cmp : X -> X -> M L num) (xs : list X)
  : M L (list X) :=
  sort_into cmp xs [].

(** The callback of [output.split(newline).map(...)]: a line without a
    second column makes [size.trim()] throw. *)
Definition layer_of_line (line : string) : M (list Layer.t) unit :=
  let '(command, size) := destructure2 (map Some (split tab line)) in
  match command, size with
  | Some command, Some size =>
      push {| Layer.command := trim command; Layer.size := trim size |}
  | _, _ => TypeError "Cannot read properties of undefined, reading trim"
  end.

(** The comparator of [layers.sort]:
    [this.parseSize(b.size) - this.parseSize(a.size)]. *)
Definition compare_layer_sizes {L} (a b : Layer.t) : M L num :=
  sb <- call "parseSize" parseSize (Layer.size b) ;;
  sa <- call "parseSize" parseSize (Layer.size a) ;;
  ret (Js.sub sb sa).

(** [analyzeLayers(imageTag)].  [layers.sort] sorts the array in place, so
    the [layers] property holds the sorted array as well. *)
Definition analyzeLayers {L} (imageTag : string) : M L Layers.t :=
  try_catch
    (output <- execSync ("docker history " +++ imageTag +++ " --format "
                         +++ dquote +++ "{{.CreatedBy}}\t{{.Size}}" +++ dquote
                         +++ " --no-trunc") ;;
     mapped <-
       with_locals ([] : list Layer.t)
         (for_each (split newline output) layer_of_line ;; get_local) ;;
     let layers :=
       filter (fun layer =>
                 negb (String.eqb (Layer.command layer) "")
                 && negb (String.eqb (Layer.size layer) "")) mapped in
     sorted <- sort_by compare_layer_sizes layers ;;
     ret {| Layers.total := List.length layers;
            Layers.layers := sorted;
            Layers.largestLayers := firstn 5 sorted |})
    (fun _ =>
       ret {| Layers.total := 0%nat; Layers.layers := [];
              Layers.largestLayers := [] |}).

(** *** Secrets *)

Module Secret.
Record t : Type := {
  file : string;
  type : string;
  matches : nat;
  severity : string
}.
End Secret.

Definition is_quote (c : ascii) : bool :=
  Ascii.eqb c "'" || Ascii.eqb c (ascii_of_nat 34).

Definition litI (s : string) : Regex.regex :=
  Regex.LitI (list_ascii_of_string s).

(** The common tail of the five patterns: white space, [:] or [=], white
    space, an optional quote, then a captured run of characters that are
    neither quotes nor white space. *)
Definition assignment_tail : Regex.regex :=
  Regex.Seq (Regex.Star (Regex.Chr is_space))
    (Regex.Seq (Regex.Chr (fun c => Ascii.eqb c ":" || Ascii.eqb c "="))
       (Regex.Seq (Regex.Star (Regex.Chr is_space))
          (Regex.Seq (Regex.Opt (Regex.Chr is_quote))
             (Regex.Group 1
                (Regex.Plus
                   (Regex.Chr (fun c => negb (is_quote c || is_space c)))))))).

Definition sep_opt : Regex.regex :=
  Regex.Opt (Regex.Chr (fun c => Ascii.eqb c "_" || Ascii.eqb c "-")).

(** [const secretPatterns = [...]], all with the flags [gi]. *)
Definition secretPatterns : list (Regex.regex * string) :=
  [(Regex.Seq (litI "password") assignment_tail, "password");
   (Regex.Seq (litI "secret") assignment_tail, "secret");
   (Regex.Seq (litI "token") assignment_tail, "token");
   (Regex.Seq (litI "api")
      (Regex.Seq sep_opt (Regex.Seq (litI "key") assignment_tail)),
    "api_key");
   (Regex.Seq (litI "aws")
      (Regex.Seq sep_opt
         (Regex.Seq (litI "access")
            (Regex.Seq sep_opt (Regex.Seq (litI "key") assignment_tail)))),
    "aws_access_key")].

(** [shouldScanFile(filename)] *)
Definition shouldScanFile (filename : string) : bool :=
  let scanExtensions :=
    [".js"; ".json"; ".yml"; ".yaml"; ".env"; ".config"; ".conf"] in
  let skipFiles := ["node_modules"; ".git"; "dist"; "build"] in
  existsb (fun ext => endsWith filename ext) scanExtensions
  && negb (existsb (fun skip => includes filename skip) skipFiles).

(** The [secretPatterns.forEach] over the content of one file;
    [path.relative(dir, filePath)] is the name of the file, since
    [filePath] is [path.join(dir, file.name)]. *)
Definition scan_content (name content : string) : M (list Secret.t) unit :=
  for_each secretPatterns (fun p =>
    let cs := list_ascii_of_string content in
    match Regex.count_matches (S (List.length cs)) (fst p) cs with
    | O => ret tt       (* [content.match(pattern)] is [null] *)
    | S n =>
        push {| Secret.file := name; Secret.type := snd p;
                Secret.matches := S n; Secret.severity := "high" |}
    end).

(** [scanDirectoryForSecrets(dir, secrets)]; [secrets] is the local
    variable of the computation.  [fs.readdir] rejects when [dir] cannot be
    listed or is not a directory. *)
Fixpoint scanDirectoryForSecrets (dir : node) : M (list Secret.t) unit :=
  match dir with
  | Dir _ (Some files) =>
      (fix loop (files : list node) : M (list Secret.t) unit :=
         match files with
         | [] => ret tt
         | file :: rest =>
             match file with
             | Dir _ _ => scanDirectoryForSecrets file
             | File name content =>
                 if shouldScanFile name then
                   try_catch
                     match content with
                     | Some text => scan_content name text
                     | None => throw (Error "EACCES: readFile")
                     end
                     (fun _ => (* Skip files that can't be read *) ret tt)
                 else ret tt
             | Special _ => ret tt
             end ;;
             loop rest
         end) files
  | Dir _ None => throw (Error "EACCES: scandir")
  | File _ _ | Special _ => throw (Error "ENOTDIR: scandir")
  end.

Definition set_disk {L} (d : option (list node)) : M L unit :=
  fun _ l w => (Ret tt, l, {| now := now w; log := log w; disk := d |}).

Definition get_world {L} : M L world := fun _ l w => (Ret w, l, w).

(** A call of [fs-extra] on the extraction directory that rejects when the
    environment says so. *)
Definition fs_call {L} (op path : string) : M L unit :=
  E <- get_env ;;
  w <- get_world ;;
  emit (FsCall op path) ;;
  if fs_fails E w op path then throw (Error (op +++ " failed")) else ret tt.

(** [fs.ensureDir(tempDir)] *)
Definition fs_ensureDir {L} (path : string) : M L unit :=
  fs_call "ensureDir" path ;;
  w <- get_world ;;
  match disk w with
  | None => set_disk (Some [])
  | Some _ => ret tt
  end.

(** [fs.remove(tempDir)] *)
Definition fs_remove {L} (path : string) : M L unit :=
  fs_call "remove" path ;;
  set_disk None.

(** The entry [app] of the extraction directory. *)
Definition find_app (d : option (list node)) : option node :=
  match d with
  | Some entries => find (fun n => String.eqb (node_name n) "app") entries
  | None => None
  end.

(** [scanSecrets(imageTag)] *)
Definition scanSecrets {L} (imageTag : string) : M L (list Secret.t) :=
  console_log "Scanning for secrets..." ;;
  with_locals ([] : list Secret.t)
    (try_catch
       ((* Create a temporary container to inspect *)
        out <- execSync ("docker create " +++ imageTag) ;;
        let containerId := trim out in
        try_finally
          ((* Copy files from container and scan *)
           E <- get_env ;;
           let tempDir := cwd E +++ "/.trouter-temp" in
           fs_ensureDir tempDir ;;
           execSync ("docker cp " +++ containerId +++ ":/app " +++ tempDir) ;;
           (* Scan for secrets *)
           w <- get_world ;;
           match find_app (disk w) with
           | Some appDir => scanDirectoryForSecrets appDir
           | None => ret tt
           end ;;
           (* Cleanup *)
           fs_remove tempDir)
          ((* Remove container *)
           execSync ("docker rm " +++ containerId) ;; ret tt))
       (fun _ =>
          console_log "Secret scanning completed with limited results") ;;
     get_local).

(** *** Permissions *)

Module Permissions.
Record t : Type := {
  runningAsRoot : bool;
  writableFileSystem : bool;
  sudoInstalled : bool;
  issues : list string;
  suggestions : list string
}.
End Permissions.

Definition update_permissions
    (f : Permissions.t -> Permissions.t) : M Permissions.t unit :=
  p <- get_local ;; set_local (f p).

Definition set_runningAsRoot (b : bool) (p : Permissions.t) : Permissions.t :=
  {| Permissions.runningAsRoot := b;
     Permissions.writableFileSystem := Permissions.writableFileSystem p;
     Permissions.sudoInstalled := Permissions.sudoInstalled p;
     Permissions.issues := Permissions.issues p;
     Permissions.suggestions := Permissions.suggestions p |}.

Definition set_writableFileSystem (b : bool) (p : Permissions.t)
  : Permissions.t :=
  {| Permissions.runningAsRoot := Permissions.runningAsRoot p;
     Permissions.writableFileSystem := b;
     Permissions.sudoInstalled := Permissions.sudoInstalled p;
     Permissions.issues := Permissions.issues p;
     Permissions.suggestions := Permissions.suggestions p |}.

Definition set_sudoInstalled (b : bool) (p : Permissions.t) : Permissions.t :=
  {| Permissions.runningAsRoot := Permissions.runningAsRoot p;
     Permissions.writableFileSystem := Permissions.writableFileSystem p;
     Permissions.sudoInstalled := b;
     Permissions.issues := Permissions.issues p;
     Permissions.suggestions := Permissions.suggestions p |}.

Definition push_issue (s : string) (p : Permissions.t) : Permissions.t :=
  {| Permissions.runningAsRoot := Permissions.runningAsRoot p;
     Permissions.writableFileSystem := Permissions.writableFileSystem p;
     Permissions.sudoInstalled := Permissions.sudoInstalled p;
     Permissions.issues := Permissions.issues p ++ [s];
     Permissions.suggestions := Permissions.suggestions p |}.

Definition push_suggestion (s : string) (p : Permissions.t) : Permissions.t :=
  {| Permissions.runningAsRoot := Permissions.runningAsRoot p;
     Permissions.writableFileSystem := Permissions.writableFileSystem p;
     Permissions.sudoInstalled := Permissions.sudoInstalled p;
     Permissions.issues := Permissions.issues p;
     Permissions.suggestions := Permissions.suggestions p ++ [s] |}.

(** [analyzePermissions(imageTag)] *)
Definition analyzePermissions {L} (imageTag : string) : M L Permissions.t :=
  console_log "Analyzing permissions..." ;;
  with_locals
    {| Permissions.runningAsRoot := false;
       Permissions.writableFileSystem := false;
       Permissions.sudoInstalled := false;
       Permissions.issues := [];
       Permissions.suggestions := [] |}
    (try_catch
       ((* Check if running as root *)
        userCheck <- execSync ("docker run --rm " +++ imageTag +++ " whoami") ;;
        let root := String.eqb (trim userCheck) "root" in
        update_permissions (set_runningAsRoot root) ;;
        (if root then
           update_permissions (push_issue "Container is running as root user") ;;
           update_permissions (push_suggestion "Create and use a non-root user")
         else ret tt) ;;
        (* Check if filesystem is writable *)
        writeCheck <- execSync ("docker run --rm " +++ imageTag
                        +++ " touch /tmp/test 2>/dev/null && echo "
                        +++ dquote +++ "writable" +++ dquote +++ " || echo "
                        +++ dquote +++ "not-writable" +++ dquote) ;;
        let writable := String.eqb (trim writeCheck) "writable" in
        update_permissions (set_writableFileSystem writable) ;;
        (if writable then
           update_permissions
             (push_suggestion "Consider using read-only filesystem where possible")
         else ret tt) ;;
        (* Check for sudo installation *)
        try_catch
          (execSync ("docker run --rm " +++ imageTag +++ " which sudo") ;;
           update_permissions (set_sudoInstalled true) ;;
           update_permissions (push_issue "sudo is installed in container") ;;
           update_permissions
             (push_suggestion "Remove sudo from production containers"))
          (fun _ => update_permissions (set_sudoInstalled false)))
       (fun _ =>
          console_log "Permission analysis completed with limited results") ;;
     get_local).

Module Scan.
Record t : Type := {
  image : string;
  vulnerabilities : Vulnerabilities.t;
  size : string;
  layers : Layers.t;
  secrets : list Secret.t;
  permissions : Permissions.t
}.
End Scan.

(** The object literal of [scanImage]. *)
Definition scan_probes {L} (imageToScan : string) : M L Scan.t :=
  vulnerabilities <- scanVulnerabilities imageToScan ;;
  size <- getImageSize imageToScan ;;
  layers <- analyzeLayers imageToScan ;;
  secrets <- scanSecrets imageToScan ;;
  permissions <- analyzePermissions imageToScan ;;
  ret {| Scan.image := imageToScan;
         Scan.vulnerabilities := vulnerabilities;
         Scan.size := size;
         Scan.layers := layers;
         Scan.secrets := secrets;
         Scan.permissions := permissions |}.

(** [scanImage(imageTag = null)]; the [cleanupTempImage] of this class has
    the same body as the one of [DockerPerformance]. *)
Definition scanImage {L} (imageTag : option string) : M L Scan.t :=
  with_image buildTempImage scan_probes imageTag.

End Scanner.

(** ** Vocabulary of the statements *)

(** The arguments the method [method] was called with, most recent
    first. *)
Definition calls (method : string) (w : world) : list string :=
  flat_map (fun ev =>
              match ev with
              | Enter m arg => if String.eqb m method then [arg] else []
              | _ => []
              end) (log w).

(** The images [cleanupTempImage] was called on, most recent first. *)
Definition releases (w : world) : list string := calls "cleanupTempImage" w.

(** The standard output of the successful commands that start with
    [prefix]. *)
Definition outputs_of (prefix : string) (w : world) : list string :=
  flat_map (fun ev =>
              match ev with
              | Exec c (Exit0 out) => if startsWith c prefix then [out] else []
              | _ => []
              end) (log w).

(** How often the command [cmd] was issued. *)
Definition issued (cmd : string) (w : world) : nat :=
  List.length
    (filter (fun ev => match ev with
                       | Exec c _ => String.eqb c cmd
                       | _ => false
                       end) (log w)).

(** The commands issued that start with [prefix], oldest first. *)
Definition commands_with (prefix : string) (w : world) : list string :=
  flat_map (fun ev => match ev with
                      | Exec c _ => if startsWith c prefix then [c] else []
                      | _ => []
                      end) (trace w).

(** Whether any timer was awaited. *)
Definition timers (w : world) : list Z :=
  flat_map (fun ev => match ev with Timer ms => [ms] | _ => [] end) (log w).

(** The clock never runs backwards: commands and timers take a
    non-negative time. *)
Definition monotone_clock (E : env) : Prop :=
  (forall w cmd, 0 <= elapsed (engine E w cmd))
  /\ (forall w, 0 <= timer_lag E w).

(** The number is one a double holds: rounding leaves it as it is. *)
Definition is_double (x : num) : Prop :=
  match x with
  | Fin v => nearest v = Fin v
  | _ => True
  end.

(** How often the command [cmd] succeeded. *)
Definition succeeded (cmd : string) (w : world) : nat :=
  List.length
    (filter (fun ev => match ev with
                       | Exec c (Exit0 _) => String.eqb c cmd
                       | _ => false
                       end) (log w)).

(** The world after a message was printed. *)
Definition printed (msg : string) (w : world) : world :=
  {| now := now w; log := Console msg :: log w; disk := disk w |}.

(** *** The samples of the two timing loops *)

(** Samples whose sums doubles hold exactly: at most 1024 durations of at
    most [2 ^ 40] ms (some 35 years) each, of either sign. *)
Definition moderate (times : list Z) : Prop :=
  Forall (fun t => Z.abs t <= 2 ^ 40) times
  /\ (List.length times <= 1024)%nat.

(** The two commands of [measureBuildTime]. *)
Definition build_test_cmd : string :=
  "docker build --no-cache -t " +++ imageName +++ "-build-test .".
Definition build_test_rmi : string :=
  "docker rmi -f " +++ imageName +++ "-build-test".

(** The samples of the build tests [tests], the first of which starts in
    the world [w]: for each test whose build succeeds, the time that build
    took; nothing for a test whose build fails.  The next test starts in
    the world the test before it leaves. *)
Fixpoint build_samples (E : env) (tests : list nat) (w : world) : list Z :=
  match tests with
  | [] => []
  | i :: rest =>
      let next := snd (build_iteration i E [] w) in
      match result (engine E w build_test_cmd) with
      | Exit0 _ =>
          elapsed (engine E w build_test_cmd) :: build_samples E rest next
      | Failed _ => build_samples E rest next
      end
  end.

(** The command that starts the container of the startup test [i]. *)
Definition startup_run_cmd (i : nat) (imageTag : string) : string :=
  "docker run -d --name " +++ imageName +++ "-startup-test-"
  +++ nat_to_string i +++ " " +++ imageTag.

(** The clock at which the container of the startup test [i], started in
    the world [w], is found ready; [None] when the container does not
    start, or [waitForContainer] does not return. *)
Definition ready_at (E : env) (fuel : nat) (imageTag : string) (i : nat)
    (w : world) : option Z :=
  match result (engine E w (startup_run_cmd i imageTag)) with
  | Exit0 out =>
      match waitForContainer fuel (trim out) 30000 E tt
              (after_exec E w (startup_run_cmd i imageTag)) with
      | (Ret _, _, w') => Some (now w')
      | _ => None
      end
  | Failed _ => None
  end.

(** The samples of the startup tests [tests], the first of which starts in
    the world [w]: for each test whose container starts and is found
    ready, the time from the start of the test to that moment. *)
Fixpoint startup_samples (E : env) (fuel : nat) (imageTag : string)
    (tests : list nat) (w : world) : list Z :=
  match tests with
  | [] => []
  | i :: rest =>
      let next := snd (startup_iteration fuel imageTag i E [] w) in
      match ready_at E fuel imageTag i w with
      | Some t => (t - now w) :: startup_samples E fuel imageTag rest next
      | None => startup_samples E fuel imageTag rest next
      end
  end.

(** The invariant of a vulnerability report. *)
Definition counted (v : Scanner.Vulnerabilities.t) : Prop :=
  Scanner.Vulnerabilities.total v
  = (List.length (Scanner.Vulnerabilities.critical v)
     + List.length (Scanner.Vulnerabilities.high v)
     + List.length (Scanner.Vulnerabilities.medium v)
     + List.length (Scanner.Vulnerabilities.low v)
     + List.length (Scanner.Vulnerabilities.info v))%nat.

(** The threshold table of the recommendation engine, row by row as the
    specification gives it: condition, category, priority. *)
Definition threshold_table
  : list ((Performance.t -> bool) * string * string) :=
  [(fun p => Js.gtb (TimeMetric.average (Performance.buildTime p))
                    (of_Z 60000), "Build", "High");
   (fun p => Js.gtb (TimeMetric.average (Performance.startupTime p))
                    (of_Z 10000), "Startup", "High");
   (fun p => Js.gtb (MemoryUsage.percentage (Performance.memoryUsage p))
                    (of_Z 80), "Memory", "High");
   (fun p => Js.gtb (CpuUsage.average (Performance.cpuUsage p)) (of_Z 50),
    "CPU", "Medium");
   (fun p => String.eqb (NetworkLatency.status (Performance.networkLatency p))
                        "Success"
             && Js.gtb (NetworkLatency.average (Performance.networkLatency p))
                       (of_Z 100), "Network", "Low");
   (fun p => String.eqb (DiskIO.overall (Performance.diskIO p)) "Poor",
    "Disk", "Medium")].

Definition category_priority (r : Recommendation.t) : string * string :=
  (Recommendation.category r, Recommendation.priority r).

(** ** Concrete environments *)

Definition plain_reply (r : status) : reply :=
  {| result := r; elapsed := 10; on_disk := fun d => d |}.

(** An engine that answers by the command alone, every call taking 10 ms;
    timers are exact, [fs-extra] never fails, [JSON.parse] rejects
    everything. *)
Definition env_of (answer : string -> status) : env :=
  {| engine := fun _ cmd => plain_reply (answer cmd);
     timer_lag := fun _ => 0;
     fs_fails := fun _ _ _ => false;
     JSON_parse := fun _ => None;
     cwd := "/work" |}.

Definition world0 : world := {| now := 1000; log := []; disk := None |}.

Definition line (s : string) : string := s +++ String Scanner.newline "".

(** [docker run] prints the container id, [docker stats] prints
    [128MiB / 2GiB<TAB>6.00%]; every other command succeeds silently. *)
Definition stats_env : env :=
  env_of (fun cmd =>
    if startsWith cmd "docker run" then Exit0 (line "c0ffee")
    else if startsWith cmd "docker stats"
    then Exit0 (line ("128MiB / 2GiB" +++ String tab "6.00%"))
    else Exit0 "").

(** As [stats_env], but [docker stats] fails. *)
Definition stats_fail_env : env :=
  env_of (fun cmd =>
    if startsWith cmd "docker run" then Exit0 (line "c0ffee")
    else if startsWith cmd "docker stats" then Failed "no such container"
    else Exit0 "").

(** Containers start, but inspecting them fails. *)
Definition inspect_fail_env : env :=
  env_of (fun cmd =>
    if startsWith cmd "docker run" then Exit0 (line "c0ffee")
    else if startsWith cmd "docker inspect" then Failed "no such object"
    else Exit0 "").

(** Containers start and run without a health check, but cannot be
    stopped. *)
Definition stop_fail_env : env :=
  env_of (fun cmd =>
    if startsWith cmd "docker run" then Exit0 (line "c0ffee")
    else if startsWith cmd (inspect_status_cmd "") then Exit0 (line "running")
    else if startsWith cmd (inspect_health_cmd "")
    then Failed "map has no entry for key Health"
    else if startsWith cmd "docker stop" then Failed "cannot stop"
    else Exit0 "").

(** Containers start and run without a health check; every other command
    succeeds silently. *)
Definition running_env : env :=
  env_of (fun cmd =>
    if startsWith cmd "docker run" then Exit0 (line "c0ffee")
    else if startsWith cmd (inspect_status_cmd "") then Exit0 (line "running")
    else if startsWith cmd (inspect_health_cmd "")
    then Failed "map has no entry for key Health"
    else Exit0 "").

(** Every build fails. *)
Definition build_fail_env : env :=
  env_of (fun cmd =>
    if startsWith cmd "docker build" then Failed "build failed"
    else Exit0 "").

(** Every command succeeds silently. *)
Definition silent_env : env := env_of (fun _ => Exit0 "").

(** A report in which every metric is nominal. *)
Definition nominal_time : TimeMetric.t :=
  {| TimeMetric.average := of_Z 1000; TimeMetric.min := of_Z 900;
     TimeMetric.max := of_Z 1100; TimeMetric.unit := "ms";
     TimeMetric.samples := Some 3%nat |}.

Definition nominal_report : Performance.t :=
  {| Performance.image := "img";
     Performance.buildTime := nominal_time;
     Performance.startupTime := nominal_time;
     Performance.memoryUsage :=
       {| MemoryUsage.current := "128 MiB"; MemoryUsage.total := "2 GiB";
          MemoryUsage.percentage := of_Z 6;
          MemoryUsage.efficiency := "Excellent" |};
     Performance.cpuUsage :=
       {| CpuUsage.average := of_Z 2; CpuUsage.max := of_Z 3;
          CpuUsage.samples := 10%nat; CpuUsage.efficiency := "Excellent" |};
     Performance.networkLatency :=
       {| NetworkLatency.average := of_Z 20;
          NetworkLatency.targets := [("8.8.8.8", of_Z 20)];
          NetworkLatency.unit := "ms"; NetworkLatency.status := "Success" |};
     Performance.diskIO :=
       {| DiskIO.write := {| DiskTest.speed := of_Z 200;
                             DiskTest.unit := "MB/s";
                             DiskTest.status := "Success" |};
          DiskIO.read := {| DiskTest.speed := of_Z 300;
                            DiskTest.unit := "MB/s";
                            DiskTest.status := "Success" |};
          DiskIO.overall := "Excellent" |};
     Performance.recommendations := [] |}.

(** The nominal report with an average build time of 65000 ms. *)
Definition slow_build_report : Performance.t :=
  {| Performance.image := Performance.image nominal_report;
     Performance.buildTime :=
       {| TimeMetric.average := of_Z 65000; TimeMetric.min := of_Z 64000;
          TimeMetric.max := of_Z 66000; TimeMetric.unit := "ms";
          TimeMetric.samples := Some 3%nat |};
     Performance.startupTime := Performance.startupTime nominal_report;
     Performance.memoryUsage := Performance.memoryUsage nominal_report;
     Performance.cpuUsage := Performance.cpuUsage nominal_report;
     Performance.networkLatency := Performance.networkLatency nominal_report;
     Performance.diskIO := Performance.diskIO nominal_report;
     Performance.recommendations := [] |}.

(** ** Outcomes and invariants of computations *)

(** The outcomes a computation may have: a result always; an exception when
    [may_throw]; running out of fuel when [may_diverge]. *)
Definition allowed {A} (may_throw may_diverge : bool) (r : res A) : Prop :=
  match r with
  | Ret _ => True
  | Throw _ => may_throw = true
  | OutOfFuel => may_diverge = true
  end.

(** In every environment that satisfies [P], the computation [c] has only
    the outcomes allowed. *)
Definition ends {L A} (P : env -> Prop) (may_throw may_diverge : bool)
    (c : M L A) : Prop :=
  forall E, P E ->
  forall l w, allowed may_throw may_diverge (fst (fst (c E l w))).

Definition any_env (E : env) : Prop := True.

(** The relation [W] holds between the world before and the world after
    every run of [c]. *)
Definition keeps {L A} (W : world -> world -> Prop) (c : M L A) : Prop :=
  forall E l w, W w (snd (c E l w)).

(** No call of [method] happened between the two worlds. *)
Definition same_calls (method : string) (w w' : world) : Prop :=
  calls method w' = calls method w.

(** [c] never calls [method]. *)
Definition silent {L A} (method : string) (c : M L A) : Prop :=
  keeps (same_calls method) c.

(** What inspecting the state of [cid] answers in the world [w]. *)
Definition status_of (E : env) (w : world) (cid : string) : status :=
  result (engine E w (inspect_status_cmd cid)).

(** What inspecting the health of [cid] answers right after its state was
    inspected in the world [w]. *)
Definition health_of (E : env) (w : world) (cid : string) : status :=
  result (engine E (after_exec E w (inspect_status_cmd cid))
                 (inspect_health_cmd cid)).

(** The world after one poll that inspected the state only. *)
Definition after_status (E : env) (w : world) (cid : string) : world :=
  after_exec E w (inspect_status_cmd cid).

(** The world after one poll that inspected state and health. *)
Definition after_health (E : env) (w : world) (cid : string) : world :=
  after_exec E (after_status E w cid) (inspect_health_cmd cid).

(** The container counts as ready in [w]: its state is [running] and the
    health inspection either fails (no health check is configured) or
    answers [healthy] or [none]. *)
Definition ready (E : env) (w : world) (cid : string) : Prop :=
  (exists out, status_of E w cid = Exit0 out /\ trim out = "running")
  /\ ((exists msg, health_of E w cid = Failed msg)
      \/ (exists out, health_of E w cid = Exit0 out
                      /\ (trim out = "healthy" \/ trim out = "none"))).

(** The container is there but not ready in [w]: the state inspection
    answers, and either the state is not [running] or the health
    inspection answers something other than [healthy] and [none]. *)
Definition pending (E : env) (w : world) (cid : string) : Prop :=
  exists out, status_of E w cid = Exit0 out
  /\ (trim out <> "running"
      \/ exists h, health_of E w cid = Exit0 h
                   /\ trim h <> "healthy" /\ trim h <> "none").

(** The world after a poll in which the container was pending: one or two
    inspections, then one timer of 500 ms. *)
Definition after_pending_poll (E : env) (w : world) (cid : string) : world :=
  match status_of E w cid with
  | Exit0 out =>
      if String.eqb (trim out) "running"
      then after_sleep E (after_health E w cid) 500
      else after_sleep E (after_status E w cid) 500
  | Failed _ => w
  end.

(** [c] neither reads nor writes the local variables: it runs as [c']
    does without any. *)
Definition same_run {L A} (c : M L A) (c' : M unit A) : Prop :=
  forall E l w, c E l w = (fst (fst (c' E tt w)), l, snd (c' E tt w)).

(** The world in which a probe ends, started in [world0]. *)
Definition final_world {A} (c : M unit A) (E : env) : world :=
  snd (c E tt world0).

(** The number of containers started ([docker run]), of stop attempts and
    of remove attempts in a world. *)
Definition started (w : world) : nat :=
  List.length (commands_with "docker run -d" w).
Definition stop_attempts (w : world) : nat :=
  List.length (commands_with "docker stop" w).
Definition remove_attempts (w : world) : nat :=
  List.length (commands_with "docker rm " w).

(** [c] never calls [cleanupTempImage]. *)
Definition quiet {L A} (c : M L A) : Prop := silent "cleanupTempImage" c.

(** Induction on the nodes of a file tree. *)
Fixpoint node_induction (P : node -> Prop)
    (Hfile : forall name content, P (File name content))
    (Hnone : forall name, P (Dir name None))
    (Hdir : forall name entries, Forall P entries -> P (Dir name (Some entries)))
    (Hspecial : forall name, P (Special name))
    (n : node) {struct n} : P n :=
  match n with
  | File name content => Hfile name content
  | Dir name None => Hnone name
  | Dir name (Some entries) =>
      Hdir name entries
        ((fix all (l : list node) : Forall P l :=
            match l with
            | [] => Forall_nil P
            | x :: rest =>
                Forall_cons x
                  (node_induction P Hfile Hnone Hdir Hspecial x) (all rest)
            end) entries)
  | Special name => Hspecial name
  end.

(** The bucket of a report that a category names; [None] for a name that
    is not a bucket. *)
Definition bucket (category : string) (v : Scanner.Vulnerabilities.t)
  : option (list Scanner.Finding.t) :=
  if String.eqb category "critical" then Some (Scanner.Vulnerabilities.critical v)
  else if String.eqb category "high" then Some (Scanner.Vulnerabilities.high v)
  else if String.eqb category "medium" then Some (Scanner.Vulnerabilities.medium v)
  else if String.eqb category "low" then Some (Scanner.Vulnerabilities.low v)
  else if String.eqb category "info" then Some (Scanner.Vulnerabilities.info v)
  else None.

(** The tier a severity string is filed under. *)
Definition tier_of (severity : string) : string :=
  if Scanner.mem_string (toLowerCase severity) Scanner.severity_tiers
  then toLowerCase severity else "info".

(** Whether a finding belongs under [tier]: its severity is a string and
    [tier] is the tier of that string. *)
Definition filed_under (tier : string) (f : Scanner.Finding.t) : bool :=
  match Scanner.Finding.severity f with
  | Some (JStr s) => String.eqb (tier_of s) tier
  | _ => false
  end.

(** The report that files every one of [findings] under its tier, in the
    order of the list, and counts them all. *)
Definition filed (findings : list Scanner.Finding.t)
  : Scanner.Vulnerabilities.t :=
  {| Scanner.Vulnerabilities.critical :=
       filter (filed_under "critical") findings;
     Scanner.Vulnerabilities.high := filter (filed_under "high") findings;
     Scanner.Vulnerabilities.medium :=
       filter (filed_under "medium") findings;
     Scanner.Vulnerabilities.low := filter (filed_under "low") findings;
     Scanner.Vulnerabilities.info := filter (filed_under "info") findings;
     Scanner.Vulnerabilities.total := List.length findings |}.

(** A vulnerability entry of a Trivy report whose [Severity] is a
    string. *)
Definition has_severity (vuln : json) : Prop :=
  exists fields s,
    vuln = JObj fields /\ lookup_key "Severity" fields = Some (JStr s).

(** [c] keeps the invariant [I] of the local variables. *)
Definition preserves {L A} (I : L -> Prop) (c : M L A) : Prop :=
  forall E l w, I l -> I (snd (fst (c E l w))).

(** A Trivy report with two findings, one of them with a severity outside
    the five tiers. *)
Definition trivy_sample_entries : list json :=
  [JObj [("PkgName", JStr "openssl"); ("Severity", JStr "CRITICAL")];
   JObj [("PkgName", JStr "zlib"); ("Severity", JStr "UNKNOWN")]].

Definition trivy_sample_result : list (string * json) :=
  [("Vulnerabilities", JArr trivy_sample_entries)].

Definition trivy_sample_fields : list (string * json) :=
  [("Results", JArr [JObj trivy_sample_result])].

Definition trivy_sample : json := JObj trivy_sample_fields.

(** Whatever [c] returns is the final value of its local variable. *)
Definition returns_its_local {L} (c : M L L) : Prop :=
  forall E l w r l' w', c E l w = (Ret r, l', w') -> r = l'.

(** ** The secret scan *)

(** The commands [scanSecrets] issues. *)
Definition create_cmd (imageTag : string) : string :=
  "docker create " +++ imageTag.
Definition cp_cmd (E : env) (containerId : string) : string :=
  "docker cp " +++ containerId +++ ":/app " +++ cwd E +++ "/.trouter-temp".
Definition rm_cmd (containerId : string) : string :=
  "docker rm " +++ containerId.

(** The findings a scan of [dir] collects, up to the point where it
    fails if it does. *)
Definition secrets_in (dir : node) : list Scanner.Secret.t :=
  snd (fst (Scanner.scanDirectoryForSecrets dir silent_env [] world0)).

(** Whether the scan of [dir] runs to its end. *)
Definition scan_completes (dir : node) : bool :=
  match fst (fst (Scanner.scanDirectoryForSecrets dir silent_env [] world0))
  with
  | Ret _ => true
  | _ => false
  end.

(** An engine on which [docker create] prints a container id and
    [docker cp] fills the extraction directory with [entries]. *)
Definition extract_env (entries : list node) : env :=
  {| engine := fun _ cmd =>
       if startsWith cmd "docker create"
       then plain_reply (Exit0 (line "c0ffee"))
       else if startsWith cmd "docker cp"
       then {| result := Exit0 ""; elapsed := 10;
               on_disk := fun _ => Some entries |}
       else plain_reply (Exit0 "");
     timer_lag := fun _ => 0;
     fs_fails := fun _ _ _ => false;
     JSON_parse := fun _ => None;
     cwd := "/work" |}.

(** An engine on which [docker cp] fails. *)
Definition cp_fail_env : env :=
  env_of (fun cmd =>
    if startsWith cmd "docker create" then Exit0 (line "c0ffee")
    else if startsWith cmd "docker cp" then Failed "no such path"
    else Exit0 "").

(** An application directory with a configuration file that holds a
    password, followed by a directory that cannot be listed. *)
Definition guarded_app : node :=
  Dir "app" (Some [File "config.json" (Some "password = hunter2");
                   Dir "private" None]).

(** An application directory that can be read throughout. *)
Definition open_app : node :=
  Dir "app" (Some [File "config.json" (Some "password = hunter2");
                   Dir "lib" (Some [File "index.js" (Some "const token: 'abc'")])]).

(** [c] is a function of its text alone: it leaves the world as it is and
    appends the same elements, with the same outcome, wherever it runs. *)
Definition pure_appender {X A} (c : M (list X) A) : Prop :=
  exists r added, forall E l w, c E l w = (r, l ++ added, w).

(** ** The language of a regular expression *)

(** [matches r w]: the text [w] is one of the texts [r] can consume. *)
Inductive matches : Regex.regex -> chars -> Prop :=
| m_eps : matches Regex.Eps []
| m_chr p c : p c = true -> matches (Regex.Chr p) [c]
| m_seq a b u v : matches a u -> matches b v -> matches (Regex.Seq a b) (u ++ v)
| m_alt_l a b u : matches a u -> matches (Regex.Alt a b) u
| m_alt_r a b u : matches b u -> matches (Regex.Alt a b) u
| m_star_nil a : matches (Regex.Star a) []
| m_star_cons a u v :
    matches a u -> matches (Regex.Star a) v -> matches (Regex.Star a) (u ++ v)
| m_group i a u : matches a u -> matches (Regex.Group i a) u.

(** Whether some character satisfying [p] is directly followed by one
    satisfying [q]. *)
Fixpoint has_pair (p q : ascii -> bool) (s : chars) : bool :=
  match s with
  | c1 :: ((c2 :: _) as rest) => (p c1 && q c2) || has_pair p q rest
  | _ => false
  end.

(** A digit or the decimal point. *)
Definition is_numeric (c : ascii) : bool := is_digit c || Ascii.eqb c ".".

(** The first letter of a unit. *)
Definition is_unit_initial (c : ascii) : bool :=
  Ascii.eqb c "B" || Ascii.eqb c "K" || Ascii.eqb c "k" || Ascii.eqb c "M"
  || Ascii.eqb c "G" || Ascii.eqb c "T".

(** No character of [s] is the first letter of a unit. *)
Definition unit_free (s : chars) : bool :=
  forallb (fun c => negb (is_unit_initial c)) s.

(** ** Where the strings handed to the two size parsers come from *)

(** The commands whose output reaches the parsers. *)
Definition stats_prefix : string := "docker stats".
Definition history_prefix : string := "docker history".

(** The pieces of the output [out] of [docker stats] that
    [measureMemoryUsage] maps [parseMemorySize] over. *)
Definition memory_pieces (out : string) : list string :=
  split "/" (nth 0 (split tab (trim out)) "").

(** [s] is the size column of a line of the output [out] of
    [docker history], trimmed. *)
Definition layer_size_of (out s : string) : Prop :=
  exists line field,
    In line (split Scanner.newline out)
    /\ nth_error (split tab line) 1 = Some field
    /\ s = trim field.

(** Between [w] and [w'] the method [method] was only called on strings
    that satisfy [S], and no output of a command starting with [prefix]
    was forgotten. *)
Definition called_within (method prefix : string) (S : string -> Prop)
    (w w' : world) : Prop :=
  (exists new,
      calls method w' = new ++ calls method w /\ Forall S new)
  /\ incl (outputs_of prefix w) (outputs_of prefix w').

(** Between [w] and [w'] the method [method] was only called on strings
    derived, by [from], from the output of a command starting with
    [prefix] that ran before [w']. *)
Definition fed_by (method prefix : string) (from : string -> string -> Prop)
    (w w' : world) : Prop :=
  exists new,
    calls method w' = new ++ calls method w
    /\ Forall (fun s => exists out,
                   In out (outputs_of prefix w') /\ from out s) new.

(** ** Patterns without capture groups *)

(** Whether [r] has no capture group. *)
Fixpoint groupless (r : Regex.regex) : bool :=
  match r with
  | Regex.Eps | Regex.Chr _ => true
  | Regex.Seq a b | Regex.Alt a b => groupless a && groupless b
  | Regex.Star a => groupless a
  | Regex.Group _ _ => false
  end.

(** The numeric group the two size patterns share:
    [\d+ \.? \d*]. *)
Definition numeric_group : Regex.regex :=
  Regex.Seq (Regex.Plus (Regex.Chr is_digit))
    (Regex.Seq (Regex.Opt (Regex.Lit1 "."))
       (Regex.Star (Regex.Chr is_digit))).

(** The number a size parser reads off the match array [m] of its
    pattern: [parseFloat] of the matched text, [NaN] without a match. *)
Definition number_of_match (m : option (list (option string))) : num :=
  match m with
  | Some arr => parseFloat (nth 0 arr None)
  | None => NaN
  end.

(** ** The built-in advisories *)

(** The names of the packages [checkPackageVulnerability] knows. *)
Definition advisory_names : list string :=
  map fst Scanner.vulnerablePackages.

(** The finding has one of the two severities of the built-in scan. *)
Definition high_or_medium (f : Scanner.Finding.t) : Prop :=
  Scanner.Finding.severity f = Some (JStr "high")
  \/ Scanner.Finding.severity f = Some (JStr "medium").

(** Only the buckets [high] and [medium] of the report are in use. *)
Definition only_high_and_medium (v : Scanner.Vulnerabilities.t) : Prop :=
  Scanner.Vulnerabilities.critical v = []
  /\ Scanner.Vulnerabilities.low v = []
  /\ Scanner.Vulnerabilities.info v = [].

(** An engine on which every command succeeds and prints an empty JSON
    object, which parses. *)
Definition scout_env : env :=
  {| engine := fun _ _ => plain_reply (Exit0 "{}");
     timer_lag := fun _ => 0;
     fs_fails := fun _ _ _ => false;
     JSON_parse := fun s => if String.eqb s "{}" then Some (JObj []) else None;
     cwd := "/work" |}.

(** ** Layers *)

(** The command of [analyzeLayers]. *)
Definition history_cmd (imageTag : string) : string :=
  "docker history " +++ imageTag +++ " --format " +++ dquote
  +++ "{{.CreatedBy}}\t{{.Size}}" +++ dquote +++ " --no-trunc".

(** The analysis [analyzeLayers] returns when it fails. *)
Definition no_layers : Scanner.Layers.t :=
  {| Scanner.Layers.total := 0%nat; Scanner.Layers.layers := [];
     Scanner.Layers.largestLayers := [] |}.

(** The record made of the first two columns of a line. *)
Definition layer_record (line : string) : Scanner.Layer.t :=
  {| Scanner.Layer.command := trim (nth 0 (split tab line) "");
     Scanner.Layer.size := trim (nth 1 (split tab line) "") |}.

(** Neither column is empty. *)
Definition filled (layer : Scanner.Layer.t) : bool :=
  negb (String.eqb (Scanner.Layer.command layer) "")
  && negb (String.eqb (Scanner.Layer.size layer) "").

(** The line has a second column. *)
Definition has_size_column (line : string) : Prop :=
  nth_error (split tab line) 1 <> None.

(** An engine whose [docker history] prints two layers, the last line
    without a newline at its end. *)
Definition history_env : env :=
  env_of (fun cmd =>
    if startsWith cmd "docker history"
    then Exit0 ("RUN npm ci" +++ String tab "120MB"
                +++ String Scanner.newline ("COPY . ." +++ String tab "4kB"))
    else Exit0 "").

(** The same output with the newline that ends the last line. *)
Definition history_newline_env : env :=
  env_of (fun cmd =>
    if startsWith cmd "docker history"
    then Exit0 (line ("RUN npm ci" +++ String tab "120MB"))
    else Exit0 "").

(** ** File trees *)

(** The tree [n] with every directory name replaced by its image under
    [f]. *)
Fixpoint rename_dirs (f : string -> string) (n : node) : node :=
  match n with
  | Dir name (Some entries) => Dir (f name) (Some (map (rename_dirs f) entries))
  | Dir name None => Dir (f name) None
  | other => other
  end.

(** The types of secret the five patterns stand for. *)
Definition secret_types : list string := map snd Scanner.secretPatterns.

(** What every finding of the secret scan looks like: a file whose name
    passes [shouldScanFile], one of the five types, at least one match,
    severity high. *)
Definition well_formed_secret (s : Scanner.Secret.t) : Prop :=
  Scanner.shouldScanFile (Scanner.Secret.file s) = true
  /\ In (Scanner.Secret.type s) secret_types
  /\ (1 <= Scanner.Secret.matches s)%nat
  /\ Scanner.Secret.severity s = "high".

(** ** Permissions *)

(** The report that goes with the three findings of [analyzePermissions]:
    the issues and the suggestions are the messages of the findings made,
    in the order of the checks. *)
Definition permissions_of (root writable sudo : bool) : Scanner.Permissions.t :=
  {| Scanner.Permissions.runningAsRoot := root;
     Scanner.Permissions.writableFileSystem := writable;
     Scanner.Permissions.sudoInstalled := sudo;
     Scanner.Permissions.issues :=
       (if root then ["Container is running as root user"] else [])
       ++ (if sudo then ["sudo is installed in container"] else []);
     Scanner.Permissions.suggestions :=
       (if root then ["Create and use a non-root user"] else [])
       ++ (if writable
           then ["Consider using read-only filesystem where possible"]
           else [])
       ++ (if sudo then ["Remove sudo from production containers"] else []) |}.

(** The three commands of [analyzePermissions]. *)
Definition whoami_cmd (imageTag : string) : string :=
  "docker run --rm " +++ imageTag +++ " whoami".
Definition touch_cmd (imageTag : string) : string :=
  "docker run --rm " +++ imageTag
  +++ " touch /tmp/test 2>/dev/null && echo "
  +++ dquote +++ "writable" +++ dquote +++ " || echo "
  +++ dquote +++ "not-writable" +++ dquote.
Definition which_sudo_cmd (imageTag : string) : string :=
  "docker run --rm " +++ imageTag +++ " which sudo".

(** ** Reports of the performance probes *)

(** A disk test either failed, with speed 0, or succeeded. *)
Definition disk_test_shape (t : DiskTest.t) : Prop :=
  t = disk_failed
  \/ (DiskTest.status t = "Success" /\ DiskTest.unit t = "MB/s").

(** The five ratings of the probes. *)
Definition ratings : list string :=
  ["Unknown"; "Excellent"; "Good"; "Fair"; "Poor"].

(** [xs] is [ys] with some elements left out. *)
Inductive subseq {X : Type} : list X -> list X -> Prop :=
| subseq_nil : subseq [] []
| subseq_keep x xs ys : subseq xs ys -> subseq (x :: xs) (x :: ys)
| subseq_skip y xs ys : subseq xs ys -> subseq xs (y :: ys).

(** The mean as the probes compute it: the sum, from 0, divided by the
    number of values. *)
Definition mean (xs : list num) : num :=
  Js.div (fold_left Js.add xs (of_Z 0)) (of_Z (Z.of_nat (List.length xs))).

(** The report of [measureCPUUsage] when it fails. *)
Definition cpu_failed : CpuUsage.t :=
  {| CpuUsage.average := of_Z 0; CpuUsage.max := of_Z 0;
     CpuUsage.samples := 0%nat; CpuUsage.efficiency := "Unknown" |}.

(** The commands of [measureCPUUsage]. *)
Definition cpu_run_cmd (imageTag : string) : string :=
  "docker run -d --name " +++ imageName +++ "-cpu-test " +++ imageTag.
Definition cpu_stats_cmd (containerId : string) : string :=
  "docker stats " +++ containerId +++ " --no-stream --format " +++ dquote
  +++ "{{.CPUPerc}}" +++ dquote.
Definition cpu_stop_cmd (containerId : string) : string :=
  "docker stop " +++ containerId.
Definition cpu_rm_cmd (containerId : string) : string :=
  "docker rm " +++ containerId.

(** What [n] rounds of sampling read when the first starts in the world
    [w], and the world after the last: each round asks the engine for the
    statistics of the container, reads the number at the head of the answer
    (trimmed, its first percent sign removed) and lets a timer of one
    second pass.  [None] when the engine fails in one of the rounds. *)
Fixpoint cpu_readings (E : env) (containerId : string) (n : nat) (w : world)
  : option (list num * world) :=
  match n with
  | O => Some ([], w)
  | S n' =>
      match result (engine E w (cpu_stats_cmd containerId)) with
      | Exit0 out =>
          match cpu_readings E containerId n'
                  (after_sleep E (after_exec E w (cpu_stats_cmd containerId))
                     1000) with
          | Some (ms, w') =>
              Some (parseFloat (Some (remove_percent (trim out))) :: ms, w')
          | None => None
          end
      | Failed _ => None
      end
  end.

(** Ten readings with mean 15. *)
Definition cpu_sample_outputs : list string :=
  ["0.3%"; "19.7%"; "26.3%"; "6.7%"; "26.6%"; "28.8%"; "10.6%"; "21.9%";
   "2.9%"; "6.2%"].

(** An engine on which every command succeeds, [docker run] prints the
    container id [c1], and the k-th [docker stats] of that container prints
    the k-th of the readings above. *)
Definition cpu_sample_env : env :=
  {| engine := fun w cmd =>
       plain_reply
         (Exit0 (if startsWith cmd "docker run" then line "c1"
                 else if startsWith cmd "docker stats"
                 then line (nth (issued (cpu_stats_cmd "c1") w)
                              cpu_sample_outputs "")
                 else ""));
     timer_lag := fun _ => 0;
     fs_fails := fun _ _ _ => false;
     JSON_parse := fun _ => None;
     cwd := "/work" |}.

(** The label [extractPingAverage] looks for. *)
Definition avg_label : string := "avg = ".

(** The number is neither [NaN] nor negative: a double that is not
    negative, or plus infinity (what a numeral beyond the range of the
    doubles reads as). *)
Definition not_negative (v : num) : Prop :=
  v = PosInf \/ exists q, v = Fin q /\ (0 <= q)%Q.

(** ** The two pipelines *)

(** The command that builds the temporary image [tag]. *)
Definition build_cmd (tag : string) : string :=
  "docker build -t " +++ tag +++ " .".

(** The tags of the temporary images the two classes build in [w]. *)
Definition perf_tag (w : world) : string :=
  imageName +++ "-" +++ Z_to_string (now w).
Definition scan_tag (w : world) : string :=
  Scanner.imageName +++ "-" +++ Z_to_string (now w).

(** The worlds in which the two builds are issued. *)
Definition perf_build_world (w : world) : world :=
  printed "Building temporary Docker image for performance testing..." w.
Definition scan_build_world (w : world) : world :=
  printed "Building temporary Docker image for scanning..." w.

(** An engine on which every build fails. *)
Definition no_build_env : env :=
  env_of (fun cmd =>
    if startsWith cmd "docker build" then Failed "no Dockerfile"
    else Exit0 "").

(** ** Build timing *)

(** An engine on which removing an image fails and everything else
    succeeds. *)
Definition rmi_fail_env : env :=
  env_of (fun cmd =>
    if startsWith cmd "docker rmi" then Failed "image is in use"
    else Exit0 "").

(** ** Units *)

(** The names of the units in the two tables. *)
Definition memory_unit_names : list string := map fst memory_units.
Definition size_unit_names : list string := map fst Scanner.size_units.

(** The units of the two tables as texts. *)
Definition unit_texts : list chars :=
  map list_ascii_of_string (memory_unit_names ++ size_unit_names).

(** ** Trivy reports *)

(** The callback of the [forEach] of [parseTrivyResults]. *)
Definition trivy_entry (vuln : json) : M Scanner.Vulnerabilities.t unit :=
  (severity <- Scanner.get_prop (Some vuln) "Severity" ;;
   pkgName <- Scanner.get_prop (Some vuln) "PkgName" ;;
   installed <- Scanner.get_prop (Some vuln) "InstalledVersion" ;;
   descr <- Scanner.get_prop (Some vuln) "Description" ;;
   fixed <- Scanner.get_prop (Some vuln) "FixedVersion" ;;
   Scanner.record_finding severity
     {| Scanner.Finding.package := pkgName;
        Scanner.Finding.version := installed;
        Scanner.Finding.severity := severity;
        Scanner.Finding.description := descr;
        Scanner.Finding.fix_ := fixed |})%monad.

(** A report with two findings, the second without a severity. *)
Definition trivy_unrated_fields : list (string * json) :=
  [("Results",
    JArr [JObj [("Vulnerabilities",
                 JArr [JObj [("PkgName", JStr "openssl");
                             ("Severity", JStr "CRITICAL")];
                       JObj [("PkgName", JStr "zlib")]])]])].

(** ** Ratings *)

(** The order of the numbers; [NaN] is related to nothing. *)
Definition num_le (x y : num) : Prop :=
  match x, y with
  | NaN, _ | _, NaN => False
  | NegInf, _ | _, PosInf => True
  | Fin a, Fin b => (a <= b)%Q
  | _, _ => False
  end.

(** The place of a rating on the scale from Excellent (0) to Poor (3). *)
Definition rank (rating : string) : nat :=
  if String.eqb rating "Excellent" then 0
  else if String.eqb rating "Good" then 1
  else if String.eqb rating "Fair" then 2
  else 3.

(** ** The package list *)

Definition npm_list_cmd (imageTag : string) : string :=
  "docker run --rm " +++ imageTag +++ " npm list --depth=0 --json 2>/dev/null".

(** The package an entry of [dependencies] stands for: none for [null],
    whose [version] cannot be read. *)
Definition package_of (entry : string * json) : option Scanner.Package.t :=
  match snd entry with
  | JNull => None
  | JObj fields =>
      Some {| Scanner.Package.name := fst entry;
              Scanner.Package.version := lookup_key "version" fields |}
  | _ => Some {| Scanner.Package.name := fst entry;
                 Scanner.Package.version := None |}
  end.

(** The packages of the entries in front of the first [null] one. *)
Fixpoint packages_until_null (entries : list (string * json))
  : list Scanner.Package.t :=
  match entries with
  | [] => []
  | entry :: rest =>
      match package_of entry with
      | Some p => p :: packages_until_null rest
      | None => []
      end
  end.

(** An engine that answers every command with one text, the parse of which
    is given. *)
Definition npm_env (out : string) (data : json) : env :=
  {| engine := fun _ _ => plain_reply (Exit0 out);
     timer_lag := fun _ => 0;
     fs_fails := fun _ _ _ => false;
     JSON_parse := fun s => if String.eqb s out then Some data else None;
     cwd := "/work" |}.

(** A dependency list whose second entry is [null]. *)
Definition npm_dependencies : json :=
  JObj [("express", JObj [("version", JStr "4.17.1")]);
        ("lodash", JNull);
        ("axios", JObj [("version", JStr "0.21.0")])].

(** * Properties *)

(** ** Rounding to the nearest double *)

Lemma pow2_pos_Z n : 0 < 2 ^ Z.max 0 n.
Proof. apply Z.pow_pos_nonneg; lia. Qed.

Lemma pow2_den e : Zpos (Z.to_pos (2 ^ Z.max 0 e)) = 2 ^ Z.max 0 e.
Proof. apply Z2Pos.id. apply pow2_pos_Z. Qed.

Lemma pow2_pos e : (0 < pow2 e)%Q.
Proof.
  unfold pow2, Qlt. cbn [Qnum Qden]. pose proof (pow2_pos_Z e). lia.
Qed.

Lemma pow2_add e f : (pow2 (e + f) == pow2 e * pow2 f)%Q.
Proof.
  unfold pow2, Qeq, Qmult. cbn [Qnum Qden].
  rewrite Pos2Z.inj_mul, !pow2_den.
  rewrite <- !Z.pow_add_r by lia. f_equal. lia.
Qed.

Lemma pow2_nonneg e : 0 <= e -> (pow2 e == inject_Z (2 ^ e))%Q.
Proof.
  intro He. unfold pow2, Qeq, inject_Z. cbn [Qnum Qden].
  rewrite pow2_den. replace (Z.max 0 e) with e by lia.
  replace (Z.max 0 (- e)) with 0 by lia. reflexivity.
Qed.

Lemma pow2_le e f : e <= f -> (pow2 e <= pow2 f)%Q.
Proof.
  intro H. unfold pow2, Qle. cbn [Qnum Qden]. rewrite !pow2_den.
  rewrite <- !Z.pow_add_r by lia. apply Z.pow_le_mono_r; lia.
Qed.

Lemma pow2_lt e f : e < f -> (pow2 e < pow2 f)%Q.
Proof.
  intro H. unfold pow2, Qlt. cbn [Qnum Qden]. rewrite !pow2_den.
  rewrite <- !Z.pow_add_r by lia. apply Z.pow_lt_mono_r; lia.
Qed.

(** The fraction [a / d] in units of [2 ^ e]. *)
Lemma scaled_le a d e j :
  0 < d ->
  (inject_Z j * pow2 e <= a # Z.to_pos d)%Q
  <-> j * (d * 2 ^ Z.max 0 e) <= a * 2 ^ Z.max 0 (- e).
Proof.
  intro Hd. unfold Qle, Qmult, pow2, inject_Z. cbn [Qnum Qden].
  rewrite Z2Pos.id by lia. rewrite Pos.mul_1_l, pow2_den.
  split; intro H; nia.
Qed.

Lemma scaled_ge a d e j :
  0 < d ->
  (a # Z.to_pos d <= inject_Z j * pow2 e)%Q
  <-> a * 2 ^ Z.max 0 (- e) <= j * (d * 2 ^ Z.max 0 e).
Proof.
  intro Hd. unfold Qle, Qmult, pow2, inject_Z. cbn [Qnum Qden].
  rewrite Z2Pos.id by lia. rewrite Pos.mul_1_l, pow2_den.
  split; intro H; nia.
Qed.

Lemma scaled_lt a d e j :
  0 < d ->
  (a # Z.to_pos d < inject_Z j * pow2 e)%Q
  <-> a * 2 ^ Z.max 0 (- e) < j * (d * 2 ^ Z.max 0 e).
Proof.
  intro Hd. unfold Qlt, Qmult, pow2, inject_Z. cbn [Qnum Qden].
  rewrite Z2Pos.id by lia. rewrite Pos.mul_1_l, pow2_den.
  split; intro H; nia.
Qed.

(** [round_half_even] lies between the floor and the ceiling. *)
Lemma round_half_even_below n d j :
  0 < d -> j * d <= n -> j <= round_half_even n d.
Proof.
  intros Hd H. unfold round_half_even.
  pose proof (Z.div_mod n d ltac:(lia)) as Hdm.
  pose proof (Z.mod_pos_bound n d Hd) as Hr.
  assert (j <= n / d) by nia.
  destruct (2 * (n mod d) ?= d); [destruct (Z.even (n / d)) | |]; lia.
Qed.

Lemma round_half_even_above n d j :
  0 < d -> n <= j * d -> round_half_even n d <= j.
Proof.
  intros Hd H. unfold round_half_even.
  pose proof (Z.div_mod n d ltac:(lia)) as Hdm.
  pose proof (Z.mod_pos_bound n d Hd) as Hr.
  destruct (Z.eq_dec (n mod d) 0) as [H0 | H0].
  - rewrite H0. assert (n / d <= j) by nia.
    destruct (2 * 0 ?= d) eqn:Hc;
      [apply Z.compare_eq in Hc; lia | lia |
       apply Z.compare_gt_iff in Hc; lia].
  - assert (n / d < j) by nia.
    destruct (2 * (n mod d) ?= d); [destruct (Z.even (n / d)) | |]; lia.
Qed.

Lemma mantissa_below a d e j :
  0 < d -> (inject_Z j * pow2 e <= a # Z.to_pos d)%Q -> j <= mantissa a d e.
Proof.
  intros Hd H. apply scaled_le in H; [| exact Hd].
  apply round_half_even_below; [| exact H].
  pose proof (pow2_pos_Z e). nia.
Qed.

Lemma mantissa_above a d e j :
  0 < d -> (a # Z.to_pos d <= inject_Z j * pow2 e)%Q -> mantissa a d e <= j.
Proof.
  intros Hd H. apply scaled_ge in H; [| exact Hd].
  apply round_half_even_above; [| exact H].
  pose proof (pow2_pos_Z e). nia.
Qed.

(** The binary exponent. *)
Lemma ilog2_spec a d :
  0 < a -> 0 < d ->
  (pow2 (ilog2 a d) <= a # Z.to_pos d < pow2 (ilog2 a d + 1))%Q.
Proof.
  intros Ha Hd.
  pose proof (Z.log2_spec a Ha) as [La Ua].
  pose proof (Z.log2_spec d Hd) as [Ld Ud].
  pose proof (Z.log2_nonneg a) as Hla. pose proof (Z.log2_nonneg d) as Hld.
  unfold ilog2. set (e := Z.log2 a - Z.log2 d).
  assert (Hpow : forall x y, 0 <= x -> 0 <= y -> 2 ^ (x + y) = 2 ^ x * 2 ^ y)
    by (intros; apply Z.pow_add_r; assumption).
  assert (Hpos : forall x, 0 <= x -> 0 < 2 ^ x)
    by (intros; apply Z.pow_pos_nonneg; lia).
  destruct (Z.leb_spec (d * 2 ^ Z.max 0 e) (a * 2 ^ Z.max 0 (- e)))
    as [Hc | Hc].
  - split.
    + unfold Qle, pow2. cbn [Qnum Qden].
      rewrite pow2_den, (Z2Pos.id d) by lia. lia.
    + unfold Qlt, pow2. cbn [Qnum Qden].
      rewrite pow2_den, (Z2Pos.id d) by lia.
      destruct (Z_le_gt_dec 0 e) as [He | He].
      * replace (Z.max 0 (- (e + 1))) with 0 by lia.
        replace (Z.max 0 (e + 1)) with (e + 1) by lia.
        assert (H1 : 2 ^ Z.succ (Z.log2 a) = 2 ^ (e + 1) * 2 ^ Z.log2 d).
        { rewrite <- Hpow by lia. f_equal. unfold e. lia. }
        pose proof (Hpos (e + 1) ltac:(lia)). rewrite Z.pow_0_r. nia.
      * replace (Z.max 0 (- (e + 1))) with (- e - 1) by lia.
        replace (Z.max 0 (e + 1)) with 0 by lia.
        assert (H1 : 2 ^ Z.log2 d = 2 ^ Z.succ (Z.log2 a) * 2 ^ (- e - 1)).
        { rewrite <- Hpow by lia. f_equal. unfold e. lia. }
        pose proof (Hpos (- e - 1) ltac:(lia)). rewrite Z.pow_0_r. nia.
  - split.
    + unfold Qle, pow2. cbn [Qnum Qden].
      rewrite pow2_den, (Z2Pos.id d) by lia.
      destruct (Z_le_gt_dec 1 e) as [He | He].
      * replace (Z.max 0 (- (e - 1))) with 0 by lia.
        replace (Z.max 0 (e - 1)) with (e - 1) by lia.
        assert (H1 : 2 ^ Z.log2 a = 2 ^ (e - 1) * 2 ^ Z.succ (Z.log2 d)).
        { rewrite <- Hpow by lia. f_equal. unfold e. lia. }
        pose proof (Hpos (e - 1) ltac:(lia)). rewrite Z.pow_0_r. nia.
      * replace (Z.max 0 (- (e - 1))) with (1 - e) by lia.
        replace (Z.max 0 (e - 1)) with 0 by lia.
        assert (H1 : 2 ^ Z.succ (Z.log2 d) = 2 ^ Z.log2 a * 2 ^ (1 - e)).
        { rewrite <- Hpow by lia. f_equal. unfold e. lia. }
        pose proof (Hpos (1 - e) ltac:(lia)). rewrite Z.pow_0_r. nia.
    + unfold Qlt, pow2. cbn [Qnum Qden].
      rewrite pow2_den, (Z2Pos.id d) by lia.
      replace (e - 1 + 1) with e by lia. lia.
Qed.

Lemma ilog2_unique a d x :
  0 < a -> 0 < d ->
  (pow2 x <= a # Z.to_pos d < pow2 (x + 1))%Q -> ilog2 a d = x.
Proof.
  intros Ha Hd [Hlo Hhi].
  destruct (ilog2_spec a d Ha Hd) as [Slo Shi].
  destruct (Z.lt_trichotomy (ilog2 a d) x) as [H | [H | H]]; [| exact H |].
  - exfalso. apply (Qlt_irrefl (a # Z.to_pos d)).
    eapply Qlt_le_trans; [exact Shi |].
    eapply Qle_trans; [| exact Hlo]. apply pow2_le. lia.
  - exfalso. apply (Qlt_irrefl (a # Z.to_pos d)).
    eapply Qlt_le_trans; [exact Hhi |].
    eapply Qle_trans; [| exact Slo]. apply pow2_le. lia.
Qed.

Lemma nearest_compat q q' : (q == q')%Q -> nearest q = nearest q'.
Proof. intro H. unfold nearest. now rewrite (Qred_complete _ _ H). Qed.

Lemma Qred_Qred q : Qred (Qred q) = Qred q.
Proof. apply Qred_complete, Qred_correct. Qed.

Lemma nearest_opp q : nearest (- q) = neg (nearest q).
Proof.
  unfold nearest. rewrite Qred_opp.
  destruct (Qred q) as [[| p | p] dd]; cbn [Qopp Qnum Qden Z.opp];
    try reflexivity.
  unfold nearest_pos.
  destruct (Qle_bool _ _); [reflexivity |].
  cbn [neg]. f_equal. symmetry. apply Qred_complete.
  rewrite Qred_correct, Qred_correct. ring.
Qed.

(** The number is [NaN], infinite, or a double. *)
Lemma quantum_lower a d : -1074 <= quantum a d.
Proof. unfold quantum. lia. Qed.

Lemma quantum_of_bounds a d x :
  0 < a -> 0 < d ->
  (pow2 x <= a # Z.to_pos d < pow2 (x + 1))%Q ->
  quantum a d = Z.max (x - 52) (-1074).
Proof.
  intros Ha Hd H. unfold quantum. now rewrite (ilog2_unique a d x Ha Hd H).
Qed.

Lemma mantissa_bounds a d :
  0 < a -> 0 < d -> 0 <= mantissa a d (quantum a d) <= 2 ^ 53.
Proof.
  intros Ha Hd. split.
  - apply mantissa_below; [exact Hd |].
    rewrite Qmult_0_l. unfold Qle. cbn [Qnum Qden]. lia.
  - apply mantissa_above; [exact Hd |].
    destruct (ilog2_spec a d Ha Hd) as [_ Hhi].
    apply Qlt_le_weak. eapply Qlt_le_trans; [exact Hhi |].
    rewrite <- (pow2_nonneg 53) by lia. rewrite <- pow2_add.
    apply pow2_le. unfold quantum. lia.
Qed.

Lemma nearest_pos_exact a d j :
  0 < a -> 0 < d ->
  (a # Z.to_pos d == inject_Z j * pow2 (quantum a d))%Q ->
  (a # Z.to_pos d < inject_Z (2 ^ 1024))%Q ->
  nearest_pos a d = Fin (Qred (a # Z.to_pos d)).
Proof.
  intros Ha Hd Hj Hmax. unfold nearest_pos.
  assert (Hm : mantissa a d (quantum a d) = j).
  { apply Z.le_antisymm.
    - apply mantissa_above; [exact Hd |]. rewrite Hj. apply Qle_refl.
    - apply mantissa_below; [exact Hd |]. rewrite Hj. apply Qle_refl. }
  rewrite Hm.
  destruct (Qle_bool (inject_Z (2 ^ 1024)) (inject_Z j * pow2 (quantum a d)))
    eqn:Hov.
  - apply Qle_bool_iff in Hov. rewrite <- Hj in Hov.
    exfalso. apply (Qlt_irrefl (a # Z.to_pos d)).
    eapply Qlt_le_trans; eassumption.
  - f_equal. apply Qred_complete. symmetry. exact Hj.
Qed.

(** [nearest] on a positive rational. *)
Lemma nearest_positive q :
  (0 < q)%Q ->
  exists a d,
    0 < a /\ 0 < d /\ (a # Z.to_pos d == q)%Q
    /\ Qred q = (a # Z.to_pos d)
    /\ nearest q = nearest_pos a d.
Proof.
  intro Hq. unfold nearest.
  pose proof (Qred_correct q) as Hred.
  destruct (Qred q) as [n dd] eqn:Hr.
  assert (Hn : 0 < n).
  { rewrite <- Hred in Hq. unfold Qlt in Hq. cbn in Hq. lia. }
  exists n, (Zpos dd). cbn [Z.to_pos].
  split; [exact Hn |]. split; [lia |]. split; [exact Hred |].
  split; [reflexivity |].
  cbn [Qnum Qden]. destruct n; try lia. reflexivity.
Qed.

Lemma Qred_inject_Z z : Qred (inject_Z z) = inject_Z z.
Proof.
  unfold Qred, inject_Z.
  pose proof (Z.ggcd_gcd z 1) as Hg.
  pose proof (Z.ggcd_correct_divisors z 1) as Hd.
  destruct (Z.ggcd z 1) as [g [a b]]. cbn [fst snd] in *.
  rewrite Z.gcd_1_r in Hg. subst g. destruct Hd as [Ha Hb].
  assert (a = z) as -> by lia. assert (b = 1) as -> by lia. reflexivity.
Qed.

Lemma pow2_scale z k x :
  0 <= k ->
  (inject_Z (z * 2 ^ k) * pow2 (x - k) == inject_Z z * pow2 x)%Q.
Proof.
  intro Hk. replace x with ((x - k) + k) at 2 by lia.
  rewrite pow2_add, (pow2_nonneg k Hk), inject_Z_mult. ring.
Qed.

Lemma pow2_bracket m e :
  0 < m ->
  (pow2 (Z.log2 m + e) <= inject_Z m * pow2 e
   < pow2 (Z.log2 m + e + 1))%Q.
Proof.
  intro Hm. pose proof (Z.log2_spec m Hm) as [Lo Hi].
  pose proof (Z.log2_nonneg m) as Hl.
  pose proof (pow2_pos e) as Hp.
  split.
  - rewrite pow2_add, (pow2_nonneg _ Hl).
    apply Qmult_le_compat_r; [| apply Qlt_le_weak; exact Hp].
    rewrite <- Zle_Qle. exact Lo.
  - replace (Z.log2 m + e + 1) with (Z.succ (Z.log2 m) + e) by lia.
    rewrite pow2_add, (pow2_nonneg (Z.succ (Z.log2 m))) by lia.
    apply Qmult_lt_compat_r; [exact Hp |].
    rewrite <- Zlt_Qlt. exact Hi.
Qed.

(** An integer up to [2 ^ 53] is a double. *)
Lemma nearest_nat z :
  0 < z <= 2 ^ 53 -> nearest (inject_Z z) = Fin (inject_Z z).
Proof.
  intros [Hz Hmax].
  destruct (nearest_positive (inject_Z z)) as (a & d & Ha & Hd & Hq & Hr & ->).
  { change (inject_Z 0 < inject_Z z)%Q. rewrite <- Zlt_Qlt. exact Hz. }
  rewrite Qred_inject_Z in Hr. rename Hq into Hzq.
  assert (Hgoal : Fin (inject_Z z) = Fin (Qred (a # Z.to_pos d)))
    by (rewrite <- Hr, Qred_inject_Z; reflexivity).
  rewrite Hgoal. clear Hgoal Hr.
  assert (Hb := pow2_bracket z 0 Hz).
  change (pow2 0) with 1%Q in Hb. rewrite Qmult_1_r in Hb.
  rewrite !Z.add_0_r in Hb.
  rewrite <- Hzq in Hb.
  pose proof (quantum_of_bounds a d _ Ha Hd Hb) as He.
  assert (Hl : Z.log2 z <= 53).
  { change 53 with (Z.log2 (2 ^ 53)). apply Z.log2_le_mono. exact Hmax. }
  pose proof (Z.log2_nonneg z) as Hl0.
  destruct (Z.eq_dec (Z.log2 z) 53) as [H53 | H53].
  - assert (z = 2 ^ 53).
    { pose proof (Z.log2_spec z Hz) as [Lo _]. rewrite H53 in Lo. lia. }
    subst z. apply (nearest_pos_exact a d (2 ^ 52) Ha Hd).
    + rewrite He, Hzq, H53. reflexivity.
    + rewrite Hzq. reflexivity.
  - apply (nearest_pos_exact a d (z * 2 ^ (52 - Z.log2 z)) Ha Hd).
    + rewrite He, Hzq.
      replace (Z.max (Z.log2 z - 52) (-1074)) with (0 - (52 - Z.log2 z))
        by lia.
      rewrite pow2_scale by lia. change (pow2 0) with 1%Q. ring.
    + rewrite Hzq, <- Zlt_Qlt.
      apply Z.le_lt_trans with (2 ^ 53); [exact Hmax | reflexivity].
Qed.

Lemma nearest_Z z :
  Z.abs z <= 2 ^ 53 -> nearest (inject_Z z) = Fin (inject_Z z).
Proof.
  intro Hz. destruct (Z.lt_trichotomy z 0) as [H | [-> | H]].
  - replace (inject_Z z) with (- inject_Z (- z))%Q
      by (unfold Qopp, inject_Z; cbn [Qnum Qden]; now rewrite Z.opp_involutive).
    rewrite nearest_opp, nearest_nat by lia.
    cbn [neg]. f_equal.
    replace (- inject_Z (- z))%Q with (inject_Z z)
      by (unfold Qopp, inject_Z; cbn [Qnum Qden]; now rewrite Z.opp_involutive).
    apply Qred_inject_Z.
  - reflexivity.
  - apply nearest_nat. lia.
Qed.

(** Rounding a double gives the double back. *)
Lemma nearest_pos_idempotent a d v :
  0 < a -> 0 < d -> nearest_pos a d = Fin v -> nearest v = Fin v.
Proof.
  intros Ha Hd H. unfold nearest_pos in H.
  pose proof (mantissa_bounds a d Ha Hd) as [Hm0 Hm53].
  pose proof (quantum_lower a d) as He.
  set (m := mantissa a d (quantum a d)) in *.
  set (e := quantum a d) in *.
  destruct (Qle_bool (inject_Z (2 ^ 1024)) (inject_Z m * pow2 e)) eqn:Hov;
    [discriminate |].
  assert (Hv : v = Qred (inject_Z m * pow2 e)) by congruence.
  subst v. clear H.
  destruct (Z.eq_dec m 0) as [-> | Hne].
  - replace (Qred (inject_Z 0 * pow2 e)) with 0%Q; [reflexivity |].
    symmetry. apply (Qred_complete _ 0). ring.
  - assert (Hm : 0 < m) by lia.
    set (w := (inject_Z m * pow2 e)%Q) in *.
    assert (Hw : (0 < w)%Q).
    { unfold w. apply Qmult_lt_0_compat; [| apply pow2_pos].
      change (inject_Z 0 < inject_Z m)%Q. rewrite <- Zlt_Qlt. exact Hm. }
    rewrite (nearest_compat (Qred w) w (Qred_correct w)).
    destruct (nearest_positive w Hw) as (a' & d' & Ha' & Hd' & Hq & Hr & ->).
    rewrite <- (Qred_Qred w), Hr.
    assert (Hb := pow2_bracket m e Hm). fold w in Hb. rewrite <- Hq in Hb.
    pose proof (quantum_of_bounds a' d' _ Ha' Hd' Hb) as He'.
    assert (Hl : Z.log2 m <= 53).
    { change 53 with (Z.log2 (2 ^ 53)). apply Z.log2_le_mono. exact Hm53. }
    assert (Hmax : (a' # Z.to_pos d' < inject_Z (2 ^ 1024))%Q).
    { rewrite Hq. apply Qnot_le_lt. intro Hle.
      apply Qle_bool_iff in Hle. congruence. }
    destruct (Z.eq_dec (Z.log2 m) 53) as [H53 | H53].
    + assert (Hm2 : m = 2 ^ 53).
      { pose proof (Z.log2_spec m Hm) as [Lo _]. rewrite H53 in Lo. lia. }
      apply (nearest_pos_exact a' d' (2 ^ 52) Ha' Hd'); [| exact Hmax].
      rewrite He', Hq, H53. unfold w.
      replace (Z.max (53 + e - 52) (-1074)) with (e + 1) by lia.
      rewrite <- (pow2_scale (2 ^ 52) 1 (e + 1)) by lia.
      replace (e + 1 - 1) with e by lia. rewrite Hm2. reflexivity.
    + apply (nearest_pos_exact a' d'
               (m * 2 ^ (e - Z.max (Z.log2 m + e - 52) (-1074))) Ha' Hd');
        [| exact Hmax].
      rewrite He', Hq. unfold w.
      rewrite <- (pow2_scale m (e - Z.max (Z.log2 m + e - 52) (-1074)) e)
        by lia.
      replace (e - (e - Z.max (Z.log2 m + e - 52) (-1074)))
        with (Z.max (Z.log2 m + e - 52) (-1074)) by lia.
      reflexivity.
Qed.

Lemma nearest_idempotent q v : nearest q = Fin v -> nearest v = Fin v.
Proof.
  unfold nearest at 1.
  destruct (Qred q) as [[| p | p] dd]; cbn [Qnum Qden].
  - intros [= <-]. reflexivity.
  - apply nearest_pos_idempotent; lia.
  - destruct (nearest_pos (Z.pos p) (Z.pos dd)) as [| | v' |] eqn:Hv;
      cbn [neg]; try discriminate.
    intro H. assert (Hv' : v = Qred (- v')) by congruence. subst v. clear H.
    rewrite (nearest_compat _ _ (Qred_correct (- v'))), nearest_opp.
    rewrite (nearest_pos_idempotent (Z.pos p) (Z.pos dd) v'
               (Pos2Z.pos_is_pos p) (Pos2Z.pos_is_pos dd) Hv).
    reflexivity.
Qed.

(** The double nearest to a rational that is not negative is not negative
    either. *)
Lemma nearest_nonneg q :
  (0 <= q)%Q ->
  nearest q = PosInf \/ exists v, nearest q = Fin v /\ (0 <= v)%Q.
Proof.
  intro Hq. destruct (Qle_lt_or_eq _ _ Hq) as [Hpos | Hz].
  - destruct (nearest_positive q Hpos) as (a & d & Ha & Hd & _ & _ & ->).
    unfold nearest_pos.
    destruct (Qle_bool _ _); [now left | right].
    eexists. split; [reflexivity |].
    rewrite Qred_correct.
    apply Qmult_le_0_compat; [| apply Qlt_le_weak, pow2_pos].
    change 0%Q with (inject_Z 0). rewrite <- Zle_Qle.
    apply (mantissa_bounds a d Ha Hd).
  - right. exists 0%Q. split; [| apply Qle_refl].
    rewrite (nearest_compat q 0) by (symmetry; exact Hz). reflexivity.
Qed.

(** *** The grid around a rational *)

Lemma nearest_positive_ulp q :
  (0 < q)%Q ->
  exists a d,
    0 < a /\ 0 < d /\ (a # Z.to_pos d == q)%Q
    /\ quantum a d = ulp_exp q
    /\ nearest q = nearest_pos a d.
Proof.
  intro Hq. unfold nearest, ulp_exp.
  pose proof (Qred_correct q) as Hred.
  destruct (Qred q) as [n dd] eqn:Hr.
  assert (Hn : 0 < n).
  { rewrite <- Hred in Hq. unfold Qlt in Hq. cbn in Hq. lia. }
  exists n, (Zpos dd). cbn [Z.to_pos Qnum Qden].
  split; [exact Hn |]. split; [lia |]. split; [exact Hred |].
  split; [now rewrite Z.abs_eq by lia |].
  destruct n; try lia. reflexivity.
Qed.

Lemma ulp_exp_opp q : ulp_exp (- q) = ulp_exp q.
Proof.
  unfold ulp_exp. rewrite Qred_opp.
  destruct (Qred q) as [n dd]. cbn [Qopp Qnum Qden].
  now rewrite Z.abs_opp.
Qed.

(** The grid is fine enough: one step is at most [2 ^ -52] times the
    size of the rational, or the least step there is. *)
Lemma ulp_exp_fine q :
  (0 < q)%Q ->
  (pow2 (ulp_exp q) * inject_Z (2 ^ 52) <= q)%Q \/ ulp_exp q = -1074.
Proof.
  intro Hq.
  destruct (nearest_positive_ulp q Hq) as (a & d & Ha & Hd & Hqe & He & _).
  destruct (ilog2_spec a d Ha Hd) as [Hlo _].
  rewrite <- He. unfold quantum.
  destruct (Z_le_gt_dec (-1074) (ilog2 a d - 52)) as [H | H].
  - left. replace (Z.max (ilog2 a d - 52) (-1074)) with (ilog2 a d - 52)
      by lia.
    rewrite <- (pow2_nonneg 52), <- pow2_add by lia.
    replace (ilog2 a d - 52 + 52) with (ilog2 a d) by lia.
    rewrite <- Hqe. exact Hlo.
  - right. lia.
Qed.

(** The double nearest to a positive rational lies between the points of
    the grid around it. *)
Lemma nearest_between q jl jh :
  (0 < q)%Q ->
  (inject_Z jl * pow2 (ulp_exp q) <= q)%Q ->
  (q <= inject_Z jh * pow2 (ulp_exp q))%Q ->
  (inject_Z jh * pow2 (ulp_exp q) < inject_Z (2 ^ 1024))%Q ->
  exists v,
    nearest q = Fin v
    /\ (inject_Z jl * pow2 (ulp_exp q) <= v
        <= inject_Z jh * pow2 (ulp_exp q))%Q.
Proof.
  intros Hq Hl Hh Hmax.
  destruct (nearest_positive_ulp q Hq) as (a & d & Ha & Hd & Hqe & He & ->).
  rewrite <- He in *. rewrite <- Hqe in Hl, Hh.
  pose proof (mantissa_below a d _ jl Hd Hl) as Hml.
  pose proof (mantissa_above a d _ jh Hd Hh) as Hmh.
  unfold nearest_pos.
  set (m := mantissa a d (quantum a d)) in *.
  pose proof (pow2_pos (quantum a d)) as Hp.
  assert (Hvh : (inject_Z m * pow2 (quantum a d)
                 <= inject_Z jh * pow2 (quantum a d))%Q).
  { apply Qmult_le_compat_r; [| apply Qlt_le_weak; exact Hp].
    rewrite <- Zle_Qle. exact Hmh. }
  assert (Hvl : (inject_Z jl * pow2 (quantum a d)
                 <= inject_Z m * pow2 (quantum a d))%Q).
  { apply Qmult_le_compat_r; [| apply Qlt_le_weak; exact Hp].
    rewrite <- Zle_Qle. exact Hml. }
  destruct (Qle_bool _ _) eqn:Hov.
  - apply Qle_bool_iff in Hov. exfalso.
    apply (Qlt_irrefl (inject_Z (2 ^ 1024))).
    eapply Qle_lt_trans; [exact Hov |].
    eapply Qle_lt_trans; [exact Hvh | exact Hmax].
  - eexists. split; [reflexivity |]. rewrite Qred_correct. split; assumption.
Qed.

(** [Math.round] of a rounded quotient.  When [n - 1/2 <= q] and
    [q <= n + 1/2 - 1/c] for a [c] that the grid around [q] resolves,
    rounding [q] to a double does not change [Math.round]. *)
Lemma Qfloor_unique y n :
  (inject_Z n <= y)%Q -> (y < inject_Z (n + 1))%Q -> Qfloor y = n.
Proof.
  intros Hlo Hhi.
  apply Z.le_antisymm.
  - assert (H : Qfloor y < n + 1); [| lia].
    rewrite Zlt_Qlt. eapply Qle_lt_trans; [apply Qfloor_le | exact Hhi].
  - rewrite <- (Qfloor_Z n). apply Qfloor_resp_le. exact Hlo.
Qed.

Lemma half_grid z e :
  e <= -1 ->
  (inject_Z (z * 2 ^ (- e - 1)) * pow2 e == inject_Z z * (1 # 2))%Q.
Proof.
  intro He. change (1 # 2)%Q with (pow2 (-1)).
  rewrite <- (pow2_scale z (- e - 1) (-1)) by lia.
  replace (-1 - (- e - 1)) with e by lia. reflexivity.
Qed.

(** When [q] is at most [2 ^ 51] and [c * q] at most [2 ^ 52], the grid
    around [q] holds the halves of the integers and resolves [1 / c]. *)
Lemma fine_grid q c :
  (0 < q)%Q -> 0 < c ->
  (q <= inject_Z (2 ^ 51))%Q ->
  (inject_Z c * q <= inject_Z (2 ^ 52))%Q ->
  c <= 2 ^ 1000 ->
  ulp_exp q <= -1 /\ (pow2 (ulp_exp q) <= 1 / inject_Z c)%Q.
Proof.
  intros Hq Hc Hsmall Hfine Hcmax.
  set (e := ulp_exp q).
  pose proof (pow2_pos e) as Hp.
  split.
  - destruct (Z_le_gt_dec e (-1)) as [H | H]; [exact H | exfalso].
    destruct (ulp_exp_fine q Hq) as [H' | H']; fold e in H'; [| lia].
    apply (Qlt_irrefl q).
    eapply Qle_lt_trans; [exact Hsmall |].
    eapply Qlt_le_trans; [| exact H'].
    rewrite <- (pow2_nonneg 51), <- (pow2_nonneg 52), <- pow2_add by lia.
    apply pow2_lt. lia.
  - assert (Hcq : (0 < inject_Z c)%Q)
      by (change (inject_Z 0 < inject_Z c)%Q; now rewrite <- Zlt_Qlt).
    apply Qle_shift_div_l; [exact Hcq |].
    destruct (ulp_exp_fine q Hq) as [H | H]; fold e in H.
    + apply Qmult_le_r with (z := inject_Z (2 ^ 52)); [reflexivity |].
      rewrite Qmult_1_l.
      eapply Qle_trans; [| exact Hfine].
      rewrite (Qmult_comm (inject_Z c) q).
      rewrite <- Qmult_assoc, (Qmult_comm (inject_Z c)), Qmult_assoc.
      apply Qmult_le_compat_r; [exact H | apply Qlt_le_weak; exact Hcq].
    + rewrite H.
      apply Qle_trans with (pow2 (-1074) * inject_Z (2 ^ 1000))%Q.
      * apply Qmult_le_l; [apply pow2_pos |]. rewrite <- Zle_Qle. exact Hcmax.
      * rewrite <- (pow2_nonneg 1000), <- pow2_add by lia.
        change 1%Q with (pow2 0). apply pow2_le. lia.
Qed.

Lemma half_below n e :
  e <= -1 ->
  (inject_Z ((2 * n - 1) * 2 ^ (- e - 1)) * pow2 e
   == inject_Z n - (1 # 2))%Q.
Proof.
  intro He. rewrite half_grid by exact He.
  replace (2 * n - 1) with (2 * n + -1) by lia.
  rewrite inject_Z_plus, inject_Z_mult.
  change (inject_Z 2) with 2%Q. change (inject_Z (-1)) with (- (1))%Q.
  ring.
Qed.

Lemma half_above n e :
  e <= -1 ->
  (inject_Z ((2 * n + 1) * 2 ^ (- e - 1)) * pow2 e
   == inject_Z n + (1 # 2))%Q.
Proof.
  intro He. rewrite half_grid by exact He.
  rewrite inject_Z_plus, inject_Z_mult.
  change (inject_Z 2) with 2%Q. change (inject_Z 1) with 1%Q. ring.
Qed.

Lemma grid_step j e d :
  (inject_Z (j + d) * pow2 e == inject_Z j * pow2 e + inject_Z d * pow2 e)%Q.
Proof. rewrite inject_Z_plus. ring. Qed.

(** [Math.round] of a rounded quotient: when [n - 1/2 <= q] and
    [q <= n + 1/2 - 1/c] for a [c] that the grid around [q] resolves,
    rounding [q] to a double does not change the result of
    [Math.round]. *)
Lemma Math_round_nearest_pos q n c :
  (0 < q)%Q -> 0 < c ->
  (q <= inject_Z (2 ^ 51))%Q ->
  (inject_Z c * q <= inject_Z (2 ^ 52))%Q ->
  c <= 2 ^ 1000 ->
  (inject_Z n - (1 # 2) <= q)%Q ->
  (q <= inject_Z n + (1 # 2) - 1 / inject_Z c)%Q ->
  Math_round (nearest q) = of_Z n.
Proof.
  intros Hq Hc Hsmall Hfine Hcmax Hlo Hhi.
  destruct (fine_grid q c Hq Hc Hsmall Hfine Hcmax) as [He Hstep].
  pose proof (pow2_pos (ulp_exp q)) as Hp.
  assert (H51 : (inject_Z (2 ^ 51) + 1 < inject_Z (2 ^ 1024))%Q)
    by reflexivity.
  destruct (nearest_between q ((2 * n - 1) * 2 ^ (- ulp_exp q - 1))
              ((2 * n + 1) * 2 ^ (- ulp_exp q - 1) + -1) Hq)
    as (v & -> & Hvl & Hvh).
  - rewrite half_below by exact He. exact Hlo.
  - rewrite grid_step, half_above by exact He.
    change (inject_Z (-1)) with (- (1))%Q. lra.
  - rewrite grid_step, half_above by exact He.
    change (inject_Z (-1)) with (- (1))%Q. lra.
  - rewrite half_below in Hvl by exact He.
    rewrite grid_step, half_above in Hvh by exact He.
    change (inject_Z (-1)) with (- (1))%Q in Hvh.
    unfold Math_round, of_Z. do 2 f_equal.
    apply Qfloor_unique.
    + lra.
    + rewrite inject_Z_plus. change (inject_Z 1) with 1%Q. lra.
Qed.

Lemma Math_round_nearest_neg q n c :
  (q < 0)%Q -> 0 < c ->
  (- inject_Z (2 ^ 51) <= q)%Q ->
  (- inject_Z (2 ^ 52) <= inject_Z c * q)%Q ->
  c <= 2 ^ 1000 ->
  (inject_Z n - (1 # 2) <= q)%Q ->
  (q <= inject_Z n + (1 # 2) - 1 / inject_Z c)%Q ->
  Math_round (nearest q) = of_Z n.
Proof.
  intros Hq Hc Hsmall Hfine Hcmax Hlo Hhi.
  assert (Hq' : (0 < - q)%Q) by lra.
  destruct (fine_grid (- q) c Hq' Hc) as [He Hstep];
    [lra | | exact Hcmax |].
  { setoid_replace (inject_Z c * - q)%Q with (- (inject_Z c * q))%Q by ring.
    lra. }
  pose proof (pow2_pos (ulp_exp (- q))) as Hp.
  assert (H51 : (inject_Z (2 ^ 51) + 1 < inject_Z (2 ^ 1024))%Q)
    by reflexivity.
  rewrite (nearest_compat q (- - q)) by ring.
  rewrite nearest_opp.
  destruct (nearest_between (- q)
              ((2 * (- n) - 1) * 2 ^ (- ulp_exp (- q) - 1) + 1)
              ((2 * (- n) + 1) * 2 ^ (- ulp_exp (- q) - 1)) Hq')
    as (v & -> & Hvl & Hvh).
  - rewrite grid_step, half_below by exact He.
    change (inject_Z 1) with 1%Q. rewrite inject_Z_opp. lra.
  - rewrite half_above by exact He. rewrite inject_Z_opp. lra.
  - rewrite half_above by exact He. rewrite inject_Z_opp. lra.
  - rewrite grid_step, half_below in Hvl by exact He.
    rewrite half_above in Hvh by exact He.
    change (inject_Z 1) with 1%Q in Hvl. rewrite inject_Z_opp in Hvl, Hvh.
    unfold neg, Math_round, of_Z. do 2 f_equal.
    apply Qfloor_unique.
    + rewrite Qred_correct. lra.
    + rewrite Qred_correct, inject_Z_plus. change (inject_Z 1) with 1%Q. lra.
Qed.

(** *** Doubles *)

(** A positive double is a multiple of the step of its grid. *)
Lemma ulp_exp_of_bounds q x :
  (0 < q)%Q -> (pow2 x <= q < pow2 (x + 1))%Q ->
  ulp_exp q = Z.max (x - 52) (-1074).
Proof.
  intros Hq Hb.
  destruct (nearest_positive_ulp q Hq) as (a & d & Ha & Hd & Hqe & He & _).
  rewrite <- He. apply quantum_of_bounds; [exact Ha | exact Hd |].
  rewrite Hqe. exact Hb.
Qed.

Lemma binary_exponent q :
  (0 < q)%Q -> exists x, (pow2 x <= q < pow2 (x + 1))%Q.
Proof.
  intro Hq.
  destruct (nearest_positive_ulp q Hq) as (a & d & Ha & Hd & Hqe & _ & _).
  exists (ilog2 a d). rewrite <- Hqe. apply ilog2_spec; assumption.
Qed.

Lemma double_on_grid q :
  (0 < q)%Q -> nearest q = Fin q ->
  (exists m, q == inject_Z m * pow2 (ulp_exp q))%Q
  /\ (q < inject_Z (2 ^ 1024))%Q.
Proof.
  intros Hq Hd.
  destruct (nearest_positive_ulp q Hq) as (a & d & Ha & Hdd & Hqe & He & Hn).
  rewrite Hn in Hd. unfold nearest_pos in Hd. rewrite He in Hd.
  destruct (Qle_bool _ _) eqn:Hov; [discriminate |].
  assert (Hv : q = Qred (inject_Z (mantissa a d (ulp_exp q))
                         * pow2 (ulp_exp q))) by congruence.
  assert (Hqv : (q == inject_Z (mantissa a d (ulp_exp q))
                      * pow2 (ulp_exp q))%Q).
  { rewrite Hv at 1. apply Qred_correct. }
  split; [eexists; exact Hqv |].
  apply Qnot_le_lt. intro Hle. rewrite Hqv in Hle.
  apply Qle_bool_iff in Hle. congruence.
Qed.

Lemma grid_is_double q m :
  (0 < q)%Q ->
  (q == inject_Z m * pow2 (ulp_exp q))%Q ->
  (q < inject_Z (2 ^ 1024))%Q ->
  nearest q = Fin (Qred q).
Proof.
  intros Hq Hm Hmax.
  destruct (nearest_positive_ulp q Hq) as (a & d & Ha & Hd & Hqe & He & ->).
  rewrite <- (Qred_complete _ _ Hqe).
  apply (nearest_pos_exact a d m Ha Hd).
  - rewrite He, Hqe. exact Hm.
  - rewrite Hqe. exact Hmax.
Qed.

(** Dividing a double by a power of two is exact, as long as the quotient
    is at least 1. *)
Lemma nearest_div_pow2 q k :
  0 <= k ->
  nearest q = Fin q ->
  (inject_Z (2 ^ k) <= q)%Q ->
  nearest (q / inject_Z (2 ^ k)) = Fin (Qred (q / inject_Z (2 ^ k))).
Proof.
  intros Hk Hd Hge.
  assert (Hkpos : (0 < inject_Z (2 ^ k))%Q).
  { change (inject_Z 0 < inject_Z (2 ^ k))%Q. rewrite <- Zlt_Qlt.
    apply Z.pow_pos_nonneg; lia. }
  assert (Hq : (0 < q)%Q) by (eapply Qlt_le_trans; eassumption).
  destruct (double_on_grid q Hq Hd) as [[m Hm] Hmax].
  destruct (binary_exponent q Hq) as [x [Hlo Hhi]].
  pose proof (ulp_exp_of_bounds q x Hq (conj Hlo Hhi)) as He.
  assert (Hxk : k <= x).
  { destruct (Z_le_gt_dec k x) as [H | H]; [exact H | exfalso].
    apply (Qlt_irrefl q). eapply Qlt_le_trans; [exact Hhi |].
    eapply Qle_trans; [| exact Hge].
    rewrite <- (pow2_nonneg k Hk). apply pow2_le. lia. }
  assert (Hdiv : (q / inject_Z (2 ^ k) == q * pow2 (- k))%Q).
  { rewrite <- (pow2_nonneg k Hk). unfold Qdiv.
    apply Qmult_comp; [reflexivity |].
    apply Qmult_inj_l with (z := pow2 k);
      [intro H0; pose proof (pow2_pos k) as Hp; rewrite H0 in Hp;
       apply (Qlt_irrefl 0 Hp) |].
    rewrite Qmult_inv_r
      by (intro H0; pose proof (pow2_pos k) as Hp; rewrite H0 in Hp;
          apply (Qlt_irrefl 0 Hp)).
    rewrite <- pow2_add. replace (k + - k) with 0 by lia. reflexivity. }
  set (q' := (q / inject_Z (2 ^ k))%Q) in *.
  assert (Hq' : (0 < q')%Q).
  { rewrite Hdiv. apply Qmult_lt_0_compat; [exact Hq | apply pow2_pos]. }
  assert (Hb' : (pow2 (x - k) <= q' < pow2 (x - k + 1))%Q).
  { rewrite Hdiv. pose proof (pow2_pos (- k)) as Hp. split.
    - replace (x - k) with (x + - k) by lia. rewrite pow2_add.
      apply Qmult_le_compat_r; [exact Hlo | apply Qlt_le_weak; exact Hp].
    - replace (x - k + 1) with (x + 1 + - k) by lia. rewrite pow2_add.
      apply Qmult_lt_compat_r; [exact Hp | exact Hhi]. }
  pose proof (ulp_exp_of_bounds q' (x - k) Hq' Hb') as He'.
  apply (grid_is_double q' m Hq').
  - rewrite He'. rewrite Hdiv, Hm, He.
    replace (Z.max (x - k - 52) (-1074)) with (Z.max (x - 52) (-1074) + - k)
      by lia.
    rewrite pow2_add. ring.
  - eapply Qle_lt_trans; [| exact Hmax].
    rewrite Hdiv. rewrite <- (Qmult_1_r q) at 2.
    apply Qmult_le_l; [exact Hq |].
    change 1%Q with (pow2 0). apply pow2_le. lia.
Qed.

(** Every number the arithmetic produces is a double. *)
Lemma nearest_pos_is_double a d :
  0 < a -> 0 < d -> is_double (nearest_pos a d).
Proof.
  intros Ha Hd. destruct (nearest_pos a d) as [| | v |] eqn:Hv; cbn; auto.
  apply (nearest_pos_idempotent a d v Ha Hd Hv).
Qed.

Lemma nearest_is_double q : is_double (nearest q).
Proof.
  destruct (nearest q) as [| | v |] eqn:Hv; cbn; auto.
  apply (nearest_idempotent q v Hv).
Qed.

Lemma of_Z_is_double z : Z.abs z <= 2 ^ 53 -> is_double (of_Z z).
Proof. intro Hz. cbn. apply nearest_Z. exact Hz. Qed.

(** Multiplying a double by 1 leaves it as it is. *)
Lemma mul_one x : is_double x -> Js.mul x (of_Z 1) = x.
Proof.
  destruct x as [| | v |]; try reflexivity.
  cbn [is_double]. intro Hv. unfold Js.mul, of_Z.
  rewrite (nearest_compat (v * inject_Z 1) v)
    by (change (inject_Z 1) with 1%Q; ring).
  exact Hv.
Qed.

(** *** Rounding is monotone *)

Lemma round_half_even_monotone n1 d1 n2 d2 :
  0 < d1 -> 0 < d2 -> n1 * d2 <= n2 * d1 ->
  round_half_even n1 d1 <= round_half_even n2 d2.
Proof.
  intros Hd1 Hd2 H. unfold round_half_even.
  pose proof (Z.div_mod n1 d1 ltac:(lia)) as E1.
  pose proof (Z.mod_pos_bound n1 d1 Hd1) as R1.
  pose proof (Z.div_mod n2 d2 ltac:(lia)) as E2.
  pose proof (Z.mod_pos_bound n2 d2 Hd2) as R2.
  set (k1 := n1 / d1) in *. set (r1 := n1 mod d1) in *.
  set (k2 := n2 / d2) in *. set (r2 := n2 mod d2) in *.
  assert (Hk : k1 <= k2).
  { destruct (Z_le_gt_dec k1 k2) as [Hle | Hgt]; [exact Hle | exfalso].
    assert (d1 * (k2 + 1) <= n1) by nia.
    assert (n2 < d2 * (k2 + 1)) by nia.
    assert (d1 * d2 * (k2 + 1) <= n1 * d2) by nia.
    assert (n2 * d1 < d1 * d2 * (k2 + 1)) by nia.
    lia. }
  destruct (Z.eq_dec k1 k2) as [Heq | Hne].
  - assert (Hr : r1 * d2 <= r2 * d1).
    { rewrite E1, E2, Heq in H. nia. }
    rewrite <- Heq.
    destruct (Z.compare_spec (2 * r1) d1) as [C1 | C1 | C1];
      destruct (Z.compare_spec (2 * r2) d2) as [C2 | C2 | C2];
      destruct (Z.even k1); try lia; exfalso; nia.
  - destruct (2 * r1 ?= d1); destruct (2 * r2 ?= d2);
      destruct (Z.even k1); destruct (Z.even k2); lia.
Qed.

Lemma num_le_neg x y : num_le x y -> num_le (neg y) (neg x).
Proof.
  destruct x as [| | a |], y as [| | b |]; cbn [num_le neg]; try tauto.
  intro H. rewrite !Qred_correct. lra.
Qed.

Lemma nearest_pos_monotone a d a' d' :
  0 < a -> 0 < d -> 0 < a' -> 0 < d' ->
  (a # Z.to_pos d <= a' # Z.to_pos d')%Q ->
  num_le (nearest_pos a d) (nearest_pos a' d').
Proof.
  intros Ha Hd Ha' Hd' Hle.
  pose proof (ilog2_spec a d Ha Hd) as [Hx1 Hx2].
  pose proof (ilog2_spec a' d' Ha' Hd') as [Hy1 Hy2].
  set (x := ilog2 a d) in *. set (x' := ilog2 a' d') in *.
  assert (Hxx : x <= x').
  { destruct (Z_le_gt_dec x x') as [H | H]; [exact H | exfalso].
    pose proof (pow2_le (x' + 1) x ltac:(lia)). lra. }
  assert (Hv : (inject_Z (mantissa a d (quantum a d)) * pow2 (quantum a d)
                <= inject_Z (mantissa a' d' (quantum a' d'))
                   * pow2 (quantum a' d'))%Q).
  { unfold quantum. fold x x'.
    destruct (Z.eq_dec (Z.max (x - 52) (-1074)) (Z.max (x' - 52) (-1074)))
      as [He | He].
    - rewrite <- He. set (e := Z.max (x - 52) (-1074)).
      apply Qmult_le_compat_r; [| apply Qlt_le_weak, pow2_pos].
      rewrite <- Zle_Qle. unfold mantissa.
      pose proof (pow2_pos_Z e). pose proof (pow2_pos_Z (- e)).
      apply round_half_even_monotone; try nia.
      unfold Qle in Hle. cbn [Qnum Qden] in Hle.
      rewrite !Z2Pos.id in Hle by lia. nia.
    - set (e := Z.max (x - 52) (-1074)) in *.
      set (e' := Z.max (x' - 52) (-1074)) in *.
      assert (Hlt : x < x') by lia.
      assert (He' : e' = x' - 52) by lia.
      assert (Hmid1 : (pow2 x' == inject_Z (2 ^ (x' - e)) * pow2 e)%Q).
      { rewrite <- (pow2_nonneg (x' - e)) by lia.
        rewrite <- pow2_add. replace (x' - e + e) with x' by lia.
        reflexivity. }
      assert (Hmid2 : (pow2 x' == inject_Z (2 ^ 52) * pow2 e')%Q).
      { rewrite <- (pow2_nonneg 52) by lia.
        rewrite <- pow2_add. replace (52 + e') with x' by lia.
        reflexivity. }
      assert (Ha_le : (a # Z.to_pos d <= pow2 x')%Q).
      { pose proof (pow2_le (x + 1) x' ltac:(lia)). lra. }
      pose proof (mantissa_above a d e (2 ^ (x' - e)) Hd
                    ltac:(rewrite <- Hmid1; exact Ha_le)) as Hm.
      pose proof (mantissa_below a' d' e' (2 ^ 52) Hd'
                    ltac:(rewrite <- Hmid2; exact Hy1)) as Hm'.
      apply Qle_trans with (pow2 x').
      + rewrite Hmid1.
        apply Qmult_le_compat_r; [| apply Qlt_le_weak, pow2_pos].
        rewrite <- Zle_Qle. exact Hm.
      + rewrite Hmid2.
        apply Qmult_le_compat_r; [| apply Qlt_le_weak, pow2_pos].
        rewrite <- Zle_Qle. exact Hm'. }
  unfold nearest_pos.
  destruct (Qle_bool _ (inject_Z (mantissa a d _) * _)) eqn:Ho;
    destruct (Qle_bool _ (inject_Z (mantissa a' d' _) * _)) eqn:Ho';
    cbn [num_le]; try exact I.
  - apply Qle_bool_iff in Ho.
    assert (Hc : Qle_bool (inject_Z (2 ^ 1024))
                   (inject_Z (mantissa a' d' (quantum a' d'))
                    * pow2 (quantum a' d')) = true).
    { apply Qle_bool_iff. eapply Qle_trans; eassumption. }
    congruence.
  - rewrite !Qred_correct. exact Hv.
Qed.

(** Rounding to the nearest double keeps the order. *)
Lemma nearest_monotone q q' :
  (q <= q')%Q -> num_le (nearest q) (nearest q').
Proof.
  intro Hle.
  assert (Hpos : forall p p', (0 < p)%Q -> (p <= p')%Q ->
                              num_le (nearest p) (nearest p')).
  { intros p p' Hp Hpp.
    assert (Hp' : (0 < p')%Q) by lra.
    destruct (nearest_positive p Hp) as (a & d & Ha & Hd & Hq & _ & ->).
    destruct (nearest_positive p' Hp')
      as (a' & d' & Ha' & Hd' & Hq' & _ & ->).
    apply nearest_pos_monotone; try assumption.
    rewrite Hq, Hq'. exact Hpp. }
  assert (Hnn : forall p, (0 <= p)%Q -> num_le (Fin 0) (nearest p)).
  { intros p Hp. destruct (nearest_nonneg p Hp) as [-> | (v & -> & Hv)];
      [exact I | exact Hv]. }
  assert (Hnp : forall p, (p <= 0)%Q -> num_le (nearest p) (Fin 0)).
  { intros p Hp.
    rewrite (nearest_compat p (- - p)) by ring.
    rewrite nearest_opp.
    destruct (nearest_nonneg (- p) ltac:(lra)) as [-> | (v & -> & Hv)];
      [exact I |].
    cbn [neg num_le]. rewrite Qred_correct. lra. }
  destruct (Qlt_le_dec 0 q) as [Hq | Hq]; [now apply Hpos |].
  destruct (Qlt_le_dec q' 0) as [Hq' | Hq'].
  - rewrite (nearest_compat q (- - q)) by ring.
    rewrite (nearest_compat q' (- - q')) by ring.
    rewrite (nearest_opp (- q)), (nearest_opp (- q')).
    apply num_le_neg. apply Hpos; lra.
  - specialize (Hnp q Hq). specialize (Hnn q' Hq').
    destruct (nearest q) as [| | v |], (nearest q') as [| | v' |];
      cbn [num_le] in *; try tauto. lra.
Qed.

Lemma num_le_ltb x y z :
  num_le x y -> Js.ltb y (of_Z z) = true -> Js.ltb x (of_Z z) = true.
Proof.
  destruct x as [| | a |], y as [| | b |]; cbn [num_le Js.ltb of_Z];
    try tauto; try discriminate; try reflexivity.
  intros Hab Hb.
  assert (Hb' : (b < inject_Z z)%Q).
  { rewrite Qlt_alt. destruct (b ?= inject_Z z)%Q; congruence. }
  assert (Ha : (a < inject_Z z)%Q) by lra.
  rewrite Qlt_alt in Ha. rewrite Ha. reflexivity.
Qed.

Lemma mul_monotone x y z :
  0 < z -> num_le x y ->
  num_le (Js.mul x (of_Z z)) (Js.mul y (of_Z z)).
Proof.
  intros Hz Hxy.
  assert (Hs : Js.Qsgn (inject_Z z) = Gt).
  { unfold Js.Qsgn. apply Qgt_alt. change 0%Q with (inject_Z 0).
    rewrite <- Zlt_Qlt. exact Hz. }
  assert (Hzq : (0 < inject_Z z)%Q).
  { change 0%Q with (inject_Z 0). rewrite <- Zlt_Qlt. exact Hz. }
  assert (Hn : forall q, num_le (nearest q) (nearest q))
    by (intro q; apply nearest_monotone, Qle_refl).
  destruct x as [| | a |], y as [| | b |]; cbn [num_le] in Hxy; try tauto;
    unfold Js.mul, of_Z; rewrite ?Hs; try exact I.
  - specialize (Hn (b * inject_Z z)%Q).
    destruct (nearest (b * inject_Z z)); cbn [num_le] in *; tauto.
  - apply nearest_monotone.
    apply Qmult_le_compat_r; [exact Hxy | apply Qlt_le_weak; exact Hzq].
  - specialize (Hn (a * inject_Z z)%Q).
    destruct (nearest (a * inject_Z z)); cbn [num_le] in *; tauto.
Qed.

Lemma div_monotone a b t :
  (0 < t)%Q -> (a <= b)%Q ->
  num_le (Js.div (Fin a) (Fin t)) (Js.div (Fin b) (Fin t)).
Proof.
  intros Ht Hab. unfold Js.div.
  assert (Hs : Js.Qsgn t = Gt) by (unfold Js.Qsgn; apply Qgt_alt; exact Ht).
  rewrite Hs. apply nearest_monotone.
  unfold Qdiv. apply Qmult_le_compat_r; [exact Hab |].
  apply Qinv_le_0_compat. apply Qlt_le_weak. exact Ht.
Qed.

(** ** Recommendation rules *)

Lemma push_if_app cond r recs :
  push_if cond r recs = recs ++ (if cond then [r] else []).
Proof. destruct cond; simpl; [reflexivity | now rewrite app_nil_r]. Qed.

(** C7.  [generateRecommendations] is a function of the report alone, and
    the (category, priority) pairs it returns are exactly the rows of the
    threshold table whose condition holds on the report, in table order:
    build average > 60000 gives (Build, High); startup average > 10000
    gives (Startup, High); memory percentage > 80 gives (Memory, High); CPU
    average > 50 gives (CPU, Medium); network status Success with average >
    100 gives (Network, Low); disk overall Poor gives (Disk, Medium).  A
    report with average build time 65000 ms and otherwise nominal metrics
    yields the single recommendation (Build, High). *)
Theorem generateRecommendations_threshold_table :
  (forall p : Performance.t,
      map category_priority (generateRecommendations p)
      = map (fun row => (snd (fst row), snd row))
            (filter (fun row => fst (fst row) p) threshold_table))
  /\ map category_priority (generateRecommendations slow_build_report)
     = [("Build", "High")].
Proof.
  split.
  - intro p. unfold generateRecommendations, threshold_table.
    rewrite !push_if_app. cbn [filter fst snd app].
    repeat match goal with
           | |- context [if ?c then _ else _] => destruct c
           end; reflexivity.
  - vm_compute. reflexivity.
Qed.

(** ** Memory sizes *)

(** C1.  On the output [128MiB / 2GiB<TAB>6.00%] of [docker stats],
    [parseMemorySize] reads the two halves as 128 and 2: its [size] is the
    whole matched text, its [unit] the digits of the first group, which is
    not a key of the unit table, so the exponent is always 0.  The result
    of [measureMemoryUsage] is therefore current ["128 B"], total ["2 B"],
    percentage 6 and efficiency ["Poor"], where the unit table read with
    powers of 1024 asks for 128 * 1024^2 and 2 * 1024^3 bytes and
    ["Excellent"]. *)
Theorem measureMemoryUsage_ignores_units :
  parseMemorySize "128MiB " = of_Z 128
  /\ parseMemorySize " 2GiB" = of_Z 2
  /\ parseMemorySize "128MiB " <> of_Z (128 * 1024 ^ 2)
  /\ fst (fst (measureMemoryUsage "img" stats_env tt world0))
     = Ret {| MemoryUsage.current := "128 B";
              MemoryUsage.total := "2 B";
              MemoryUsage.percentage := of_Z 6;
              MemoryUsage.efficiency := "Poor" |}
  /\ calculateMemoryEfficiency (of_Z (128 * 1024 ^ 2)) (of_Z (2 * 1024 ^ 3))
     = "Excellent".
Proof.
  repeat split; try (vm_compute; reflexivity).
  vm_compute. discriminate.
Qed.

(** ** Sample aggregation *)

(** C5.  When every build fails, [measureBuildTime] returns the object
    written under the guard [times.length === 0]: average, min and max are
    0 and no mean is computed, but the object has no [samples] property at
    all, so the sample count the report shows is [undefined], not 0.
    [measureStartupTime] ends with the same guard. *)
Theorem all_builds_fail_no_sample_count :
  summarize []
  = {| TimeMetric.average := of_Z 0; TimeMetric.min := of_Z 0;
       TimeMetric.max := of_Z 0; TimeMetric.unit := "ms";
       TimeMetric.samples := None |}
  /\ fst (fst (measureBuildTime build_fail_env tt world0)) = Ret (summarize [])
  /\ fst (fst (measureStartupTime 61 "img" inspect_fail_env tt world0))
     = Ret (summarize [])
  /\ TimeMetric.samples (summarize []) <> Some 0%nat.
Proof.
  repeat split; try (vm_compute; reflexivity).
  discriminate.
Qed.

Lemma ltb_of_Z a b : Js.ltb (of_Z a) (of_Z b) = (a <? b).
Proof.
  unfold Js.ltb, of_Z, Qcompare, inject_Z. simpl.
  rewrite !Z.mul_1_r. unfold Z.ltb. destruct (a ?= b); reflexivity.
Qed.

Lemma min2_of_Z a b : Js.min2 (of_Z a) (of_Z b) = of_Z (Z.min a b).
Proof.
  unfold Js.min2. rewrite ltb_of_Z. unfold of_Z. cbv beta iota.
  destruct (Z.ltb_spec b a); do 2 f_equal; lia.
Qed.

Lemma max2_of_Z a b : Js.max2 (of_Z a) (of_Z b) = of_Z (Z.max a b).
Proof.
  unfold Js.max2. rewrite ltb_of_Z. unfold of_Z. cbv beta iota.
  destruct (Z.ltb_spec a b); do 2 f_equal; lia.
Qed.

Lemma fold_min2_of_Z l a :
  fold_left Js.min2 (map of_Z l) (of_Z a) = of_Z (fold_left Z.min l a).
Proof.
  revert a. induction l as [|x l IH]; intro a; cbn [fold_left map];
    [reflexivity|].
  rewrite min2_of_Z. apply IH.
Qed.

Lemma fold_max2_of_Z l a :
  fold_left Js.max2 (map of_Z l) (of_Z a) = of_Z (fold_left Z.max l a).
Proof.
  revert a. induction l as [|x l IH]; intro a; cbn [fold_left map];
    [reflexivity|].
  rewrite max2_of_Z. apply IH.
Qed.

Lemma Math_min_cons t ts :
  Math_min (map of_Z (t :: ts)) = of_Z (fold_left Z.min ts t).
Proof. unfold Math_min. cbn [fold_left map]. apply fold_min2_of_Z. Qed.

Lemma Math_max_cons t ts :
  Math_max (map of_Z (t :: ts)) = of_Z (fold_left Z.max ts t).
Proof. unfold Math_max. cbn [fold_left map]. apply fold_max2_of_Z. Qed.

Lemma fold_min_spec l a :
  let m := fold_left Z.min l a in
  (m = a \/ In m l) /\ m <= a /\ forall x, In x l -> m <= x.
Proof.
  revert a. induction l as [|y l IH]; intro a; simpl.
  - repeat split; [now left | lia | tauto].
  - destruct (IH (Z.min a y)) as ([H | H] & Hle & Hall).
    + repeat split.
      * rewrite H. destruct (Z.min_spec a y) as [[_ ->] | [_ ->]]; auto.
      * lia.
      * intros x [<- | Hx]; [lia | auto].
    + repeat split; [auto | lia |].
      intros x [<- | Hx]; [lia | auto].
Qed.

Lemma fold_max_spec l a :
  let m := fold_left Z.max l a in
  (m = a \/ In m l) /\ a <= m /\ forall x, In x l -> x <= m.
Proof.
  revert a. induction l as [|y l IH]; intro a; simpl.
  - repeat split; [now left | lia | tauto].
  - destruct (IH (Z.max a y)) as ([H | H] & Hle & Hall).
    + repeat split.
      * rewrite H. destruct (Z.max_spec a y) as [[_ ->] | [_ ->]]; auto.
      * lia.
      * intros x [<- | Hx]; [lia | auto].
    + repeat split; [auto | lia |].
      intros x [<- | Hx]; [lia | auto].
Qed.

Lemma fold_add_shift l a : fold_left Z.add l a = a + fold_left Z.add l 0.
Proof.
  revert a. induction l as [|x l IH]; intro a; simpl; [lia|].
  rewrite (IH (a + x)), (IH x). lia.
Qed.

Lemma sum_permutation l l' :
  Permutation l l' -> fold_left Z.add l 0 = fold_left Z.add l' 0.
Proof.
  induction 1; simpl; try congruence.
  - rewrite (fold_add_shift l x), (fold_add_shift l' x). lia.
  - rewrite (fold_add_shift l (y + x)), (fold_add_shift l (x + y)). lia.
Qed.

Lemma sum_bounds l lo hi :
  (forall x, In x l -> lo <= x <= hi) ->
  Z.of_nat (List.length l) * lo <= fold_left Z.add l 0
  <= Z.of_nat (List.length l) * hi.
Proof.
  induction l as [|x l IH]; intro H; [simpl; lia|].
  cbn [List.length fold_left]. rewrite fold_add_shift.
  assert (lo <= x <= hi) by (apply H; now left).
  assert (Hl : forall y, In y l -> lo <= y <= hi) by (intros; apply H; now right).
  specialize (IH Hl). lia.
Qed.

(** Sums of integers are exact while they stay below [2 ^ 53]. *)
Lemma add_of_Z a b :
  Z.abs (a + b) <= 2 ^ 53 -> Js.add (of_Z a) (of_Z b) = of_Z (a + b).
Proof.
  intro H. unfold Js.add, of_Z.
  rewrite <- inject_Z_plus. apply nearest_Z. exact H.
Qed.

Lemma sum_of_Z l : forall acc bound,
  Forall (fun t => Z.abs t <= bound) l ->
  Z.abs acc + Z.of_nat (List.length l) * bound <= 2 ^ 53 ->
  fold_left Js.add (map of_Z l) (of_Z acc) = of_Z (fold_left Z.add l acc).
Proof.
  induction l as [| t l IH]; intros acc bound Hall Hb; [reflexivity |].
  cbn [map fold_left].
  inversion Hall as [| ? ? Ht Hl]; subst.
  cbn [List.length] in Hb. rewrite Nat2Z.inj_succ in Hb.
  rewrite add_of_Z by nia.
  apply (IH (acc + t) bound Hl). nia.
Qed.

Lemma abs_sum_bound l : forall acc bound,
  Forall (fun t => Z.abs t <= bound) l ->
  Z.abs (fold_left Z.add l acc)
  <= Z.abs acc + Z.of_nat (List.length l) * bound.
Proof.
  induction l as [| t l IH]; intros acc bound Hall;
    [cbn [fold_left List.length]; lia |].
  inversion Hall as [| ? ? Ht Hl]; subst.
  cbn [fold_left List.length]. rewrite Nat2Z.inj_succ.
  specialize (IH (acc + t) bound Hl). nia.
Qed.

(** [Math.round(s / k)] on integers: the floor of the mean plus one
    half. *)
Lemma round_mean s k :
  0 < k <= 2 ^ 51 -> Z.abs s <= 2 ^ 51 ->
  Math_round (Js.div (of_Z s) (of_Z k)) = of_Z ((2 * s + k) / (2 * k)).
Proof.
  intros [Hk Hkmax] Hs. unfold Js.div, of_Z, Js.Qsgn.
  assert (Hc : (inject_Z k ?= 0)%Q = Gt).
  { unfold Qcompare, inject_Z. simpl. rewrite Z.mul_1_r.
    now apply Z.compare_gt_iff. }
  rewrite Hc.
  set (n := (2 * s + k) / (2 * k)).
  pose proof (Z.mul_div_le (2 * s + k) (2 * k) ltac:(lia)) as Hd1.
  pose proof (Z.mul_succ_div_gt (2 * s + k) (2 * k) ltac:(lia)) as Hd2.
  fold n in Hd1, Hd2.
  assert (Hkq : (0 < inject_Z k)%Q)
    by (change (inject_Z 0 < inject_Z k)%Q; now rewrite <- Zlt_Qlt).
  assert (H1 : (2 * inject_Z k * inject_Z n <= 2 * inject_Z s + inject_Z k)%Q).
  { rewrite Zle_Qle in Hd1.
    repeat (rewrite inject_Z_plus in Hd1 || rewrite inject_Z_mult in Hd1).
    exact Hd1. }
  assert (H2 : (2 * inject_Z s + inject_Z k + 1
                <= 2 * inject_Z k * (inject_Z n + 1))%Q).
  { assert (H : 2 * s + k + 1 <= 2 * k * (n + 1))
      by (unfold Z.succ in Hd2; lia).
    rewrite Zle_Qle in H.
    repeat (rewrite inject_Z_plus in H || rewrite inject_Z_mult in H).
    exact H. }
  assert (Hlo : (inject_Z n - (1 # 2) <= inject_Z s / inject_Z k)%Q).
  { apply Qle_shift_div_l; [exact Hkq |]. lra. }
  assert (Hhi : (inject_Z s / inject_Z k
                 <= inject_Z n + (1 # 2) - 1 / inject_Z (2 * k))%Q).
  { apply Qle_shift_div_r; [exact Hkq |].
    rewrite inject_Z_mult. change (inject_Z 2) with 2%Q.
    setoid_replace ((inject_Z n + (1 # 2) - 1 / (2 * inject_Z k))
                    * inject_Z k)%Q
      with (inject_Z n * inject_Z k + (1 # 2) * inject_Z k - (1 # 2))%Q
      by (field; lra).
    lra. }
  assert (Hsq : (- inject_Z (2 ^ 51) <= inject_Z s <= inject_Z (2 ^ 51))%Q).
  { change (- inject_Z (2 ^ 51))%Q with (inject_Z (- 2 ^ 51)).
    rewrite <- !Zle_Qle. lia. }
  assert (Hk1 : (1 <= inject_Z k)%Q)
    by (change (inject_Z 1 <= inject_Z k)%Q; rewrite <- Zle_Qle; lia).
  assert (Hfine : (inject_Z (2 * k) * (inject_Z s / inject_Z k)
                   == 2 * inject_Z s)%Q).
  { rewrite inject_Z_mult. change (inject_Z 2) with 2%Q. field. lra. }
  destruct (Z.lt_trichotomy s 0) as [Hneg | [-> | Hpos]].
  - assert (Hsn : (inject_Z s < 0)%Q)
      by (change (inject_Z s < inject_Z 0)%Q; now rewrite <- Zlt_Qlt).
    apply (Math_round_nearest_neg _ n (2 * k)); try assumption; try lia.
    + apply Qlt_shift_div_r; [exact Hkq | lra].
    + apply Qle_shift_div_l; [exact Hkq |].
      apply Qle_trans with (- inject_Z (2 ^ 51) * 1)%Q; [| lra].
      apply Qle_trans with (- inject_Z (2 ^ 51) * inject_Z k)%Q; [lra |].
      setoid_replace (- inject_Z (2 ^ 51) * 1)%Q
        with (- (inject_Z (2 ^ 51) * 1))%Q by ring.
      setoid_replace (- inject_Z (2 ^ 51) * inject_Z k)%Q
        with (- (inject_Z (2 ^ 51) * inject_Z k))%Q by ring.
      apply Qopp_le_compat. apply Qmult_le_l; [reflexivity | exact Hk1].
    + rewrite Hfine.
      change (inject_Z (2 ^ 52)) with (2 * inject_Z (2 ^ 51))%Q. lra.
  - rewrite (nearest_compat _ 0) by (unfold Qdiv; ring).
    unfold n. rewrite Z.mul_0_r, Z.add_0_l.
    rewrite Z.div_small by lia. reflexivity.
  - assert (Hsp : (0 < inject_Z s)%Q)
      by (change (inject_Z 0 < inject_Z s)%Q; now rewrite <- Zlt_Qlt).
    apply (Math_round_nearest_pos _ n (2 * k)); try assumption; try lia.
    + apply Qlt_shift_div_l; [exact Hkq | lra].
    + apply Qle_shift_div_r; [exact Hkq |].
      apply Qle_trans with (inject_Z (2 ^ 51) * 1)%Q; [lra |].
      apply Qmult_le_l; [reflexivity | exact Hk1].
    + rewrite Hfine.
      change (inject_Z (2 ^ 52)) with (2 * inject_Z (2 ^ 51))%Q. lra.
Qed.

(** ** Reasoning about computations *)

Section Outcomes.
Context {L : Type}.
Variable P : env -> Prop.
Variables t f : bool.

Lemma ends_ret {A} (a : A) : ends P t f (@ret L A a).
Proof. intros E HP l w. exact I. Qed.

Lemma ends_bind {A B} (c : M L A) (k : A -> M L B) :
  ends P t f c -> (forall a, ends P t f (k a)) -> ends P t f (bind c k).
Proof.
  intros Hc Hk E HP l w. unfold bind. specialize (Hc E HP l w).
  destruct (c E l w) as [[[a | e |] l'] w']; simpl in *; auto.
  apply Hk; exact HP.
Qed.

Lemma ends_try_catch {A} (c : M L A) (h : exn -> M L A) :
  ends P true f c -> (forall e, ends P t f (h e)) -> ends P t f (try_catch c h).
Proof.
  intros Hc Hh E HP l w. unfold try_catch. specialize (Hc E HP l w).
  destruct (c E l w) as [[[a | e |] l'] w']; simpl in *; auto.
  apply Hh; exact HP.
Qed.

Lemma ends_try_finally {A} (c : M L A) (fin : M L unit) :
  ends P true f c -> ends P true f fin -> ends P true f (try_finally c fin).
Proof.
  intros Hc Hf E HP l w. unfold try_finally.
  specialize (Hc E HP l w).
  destruct (c E l w) as [[[a | e |] l'] w']; simpl in *; auto;
    specialize (Hf E HP l' w');
    destruct (fin E l' w') as [[[[] | e' |] l2] w2]; simpl in *; auto.
Qed.

Lemma ends_throw {A} e : t = true -> ends P t f (@throw L A e).
Proof. intros -> E HP l w. reflexivity. Qed.

Lemma ends_out_of_fuel {A} : f = true -> ends P t f (@out_of_fuel L A).
Proof. intros -> E HP l w. reflexivity. Qed.

Lemma ends_execSync cmd : t = true -> ends P t f (@execSync L cmd).
Proof.
  intros -> E HP l w. unfold execSync.
  destruct (result (engine E w cmd)); simpl; auto.
Qed.

Lemma ends_sleep ms : ends P t f (@sleep L ms).
Proof. intros E HP l w. exact I. Qed.

Lemma ends_emit ev : ends P t f (@emit L ev).
Proof. intros E HP l w. exact I. Qed.

Lemma ends_Date_now : ends P t f (@Date_now L).
Proof. intros E HP l w. exact I. Qed.

Lemma ends_get_local : ends P t f (@get_local L).
Proof. intros E HP l w. exact I. Qed.

Lemma ends_set_local l0 : ends P t f (@set_local L l0).
Proof. intros E HP l w. exact I. Qed.

Lemma ends_get_env : ends P t f (@get_env L).
Proof. intros E HP l w. exact I. Qed.

Lemma ends_get_world : ends P t f (@Scanner.get_world L).
Proof. intros E HP l w. exact I. Qed.

Lemma ends_set_disk d : ends P t f (@Scanner.set_disk L d).
Proof. intros E HP l w. exact I. Qed.

Lemma ends_for_each {X} (xs : list X) (body : X -> M L unit) :
  (forall x, ends P t f (body x)) -> ends P t f (for_each xs body).
Proof.
  intro Hb. induction xs as [|x xs IH]; simpl.
  - apply ends_ret.
  - apply ends_bind; auto.
Qed.

Lemma ends_with_locals {L' A} (init : L') (c : M L' A) :
  ends P t f c -> ends P t f (@with_locals L L' A init c).
Proof.
  intros Hc E HP l w. unfold with_locals. specialize (Hc E HP init w).
  destruct (c E init w) as [[r l'] w']. exact Hc.
Qed.

End Outcomes.

Lemma ends_push {X} P t f (x : X) : ends P t f (push x).
Proof. intros E HP l w. exact I. Qed.

Lemma ends_weaken {L A} P t f (c : M L A) :
  ends P false f c -> ends P t f c.
Proof.
  intros H E HP l w. specialize (H E HP l w).
  destruct (fst (fst (c E l w))); simpl in *; auto. discriminate.
Qed.

(** A computation that always returns, in the form of an equation. *)
Lemma ends_returns {L A} P (c : M L A) :
  ends P false false c ->
  forall E, P E -> forall l w, exists a l' w', c E l w = (Ret a, l', w').
Proof.
  intros H E HP l w. specialize (H E HP l w).
  destruct (c E l w) as [[[a | e |] l'] w']; simpl in H;
    try discriminate. eauto.
Qed.

Lemma ends_some_M {L X} P t f (p : X -> M L bool) (xs : list X) :
  (forall x, ends P t f (p x)) -> ends P t f (Scanner.some_M p xs).
Proof.
  intro Hp. induction xs as [|x xs IH]; simpl.
  - apply ends_ret.
  - apply ends_bind; [apply Hp |]. intros []; [apply ends_ret | exact IH].
Qed.

Lemma ends_map_M {L X Y} P t f (g : X -> M L Y) (xs : list X) :
  (forall x, ends P t f (g x)) -> ends P t f (map_M g xs).
Proof.
  intro Hg. induction xs as [|x xs IH]; simpl.
  - apply ends_ret.
  - apply ends_bind; [apply Hg | intro].
    apply ends_bind; [exact IH | intro]. apply ends_ret.
Qed.

Lemma ends_call {L Y} P t f m (g : string -> Y) arg :
  ends P t f (@call L Y m g arg).
Proof.
  unfold call. apply ends_bind; [apply ends_emit | intro; apply ends_ret].
Qed.

Lemma ends_insert_by {L X} P t f (cmp : X -> X -> M L num) x sorted :
  (forall a b, ends P t f (cmp a b)) ->
  ends P t f (Scanner.insert_by cmp x sorted).
Proof.
  intro Hc. induction sorted as [|y rest IH]; cbn [Scanner.insert_by].
  - apply ends_ret.
  - apply ends_bind; [apply Hc | intro c].
    destruct (Js.gtb c (of_Z 0)); [apply ends_ret |].
    apply ends_bind; [exact IH | intro]. apply ends_ret.
Qed.

Lemma ends_sort_by {L X} P t f (cmp : X -> X -> M L num) xs :
  (forall a b, ends P t f (cmp a b)) -> ends P t f (Scanner.sort_by cmp xs).
Proof.
  intro Hc. unfold Scanner.sort_by. generalize (@nil X) as sorted.
  induction xs as [|x xs IH]; intro sorted; cbn [Scanner.sort_into].
  - apply ends_ret.
  - apply ends_bind; [now apply ends_insert_by | intro]. apply IH.
Qed.

Create HintDb ends discriminated.
#[export] Hint Resolve ends_ret ends_sleep ends_emit ends_Date_now
  ends_get_local ends_set_local ends_get_env ends_get_world ends_set_disk
  ends_push : ends.

(** One step of the syntax-directed proof that a computation has only the
    allowed outcomes. *)
Ltac ends_step :=
  match goal with
  | |- ends _ _ _ (bind _ _) => apply ends_bind
  | |- ends _ _ _ (try_catch _ _) => apply ends_try_catch
  | |- ends _ _ _ (try_finally _ _) => apply ends_try_finally
  | |- ends _ _ _ (for_each _ _) => apply ends_for_each
  | |- ends _ _ _ (for_range _ _) => apply ends_for_each
  | |- ends _ _ _ (map_M _ _) => apply ends_map_M
  | |- ends _ _ _ (Scanner.some_M _ _) => apply ends_some_M
  | |- ends _ _ _ (Scanner.sort_by _ _) => apply ends_sort_by
  | |- ends _ _ _ (call _ _ _) => apply ends_call
  | |- ends _ _ _ (with_locals _ _) => apply ends_with_locals
  | |- ends _ _ _ (execSync _) => apply ends_execSync; reflexivity
  | |- ends _ _ _ (throw _) => apply ends_throw; reflexivity
  | |- ends _ _ _ (Scanner.TypeError _) => apply ends_throw; reflexivity
  | |- ends _ _ _ out_of_fuel => apply ends_out_of_fuel; reflexivity
  | |- ends _ _ _ (console_log _) => apply ends_emit
  | |- ends _ _ _ (match ?x with _ => _ end) => destruct x
  | |- ends _ _ _ (let _ := _ in _) => cbv zeta
  | |- forall _, _ => intro
  | |- ends _ _ _ _ => solve [auto with ends]
  end.

Ltac ends_tac := repeat ends_step.

Lemma waitForContainer_loop_ends {L} P fuel cid timeout start :
  ends P true true (@waitForContainer_loop L fuel cid timeout start).
Proof.
  induction fuel as [|fuel IH]; simpl; ends_tac; exact IH.
Qed.

(** ** Readiness polling *)

Section Polling.
Context {L : Type}.
Variables (E : env) (l : L) (cid : string) (timeout start : Z).

Lemma poll_ready fuel w :
  now w - start < timeout ->
  ready E w cid ->
  waitForContainer_loop (S fuel) cid timeout start E l w
  = (Ret true, l, after_health E w cid).
Proof.
  intros Ht [(out & Hs & Hrun) Hh].
  unfold status_of in Hs. unfold health_of in Hh.
  cbn [waitForContainer_loop].
  unfold bind at 1. unfold Date_now.
  destruct (Z.ltb_spec (now w - start) timeout) as [_ | ?]; [| lia].
  unfold bind, try_catch, execSync, ret, after_health, after_status.
  rewrite Hs. cbv beta iota zeta. rewrite Hrun, String.eqb_refl.
  cbv beta iota zeta.
  destruct Hh as [(msg & ->) | (h & -> & [Hh | Hh])].
  - reflexivity.
  - cbv beta iota zeta. rewrite Hh. reflexivity.
  - cbv beta iota zeta. rewrite Hh. reflexivity.
Qed.

Lemma poll_crashed fuel w msg :
  now w - start < timeout ->
  status_of E w cid = Failed msg ->
  waitForContainer_loop (S fuel) cid timeout start E l w
  = (Throw (Error "Container failed to start"), l, after_status E w cid).
Proof.
  intros Ht Hs. unfold status_of in Hs.
  cbn [waitForContainer_loop].
  unfold bind at 1. unfold Date_now.
  destruct (Z.ltb_spec (now w - start) timeout) as [_ | ?]; [| lia].
  unfold bind, try_catch, execSync, throw, after_status.
  rewrite Hs. reflexivity.
Qed.

Lemma poll_timeout fuel w :
  timeout <= now w - start ->
  waitForContainer_loop (S fuel) cid timeout start E l w
  = (Throw (Error "Container startup timeout"), l, w).
Proof.
  intros Ht. cbn [waitForContainer_loop].
  unfold bind at 1. unfold Date_now.
  destruct (Z.ltb_spec (now w - start) timeout) as [? | _]; [lia |].
  reflexivity.
Qed.

Lemma poll_pending fuel w :
  now w - start < timeout ->
  pending E w cid ->
  waitForContainer_loop (S fuel) cid timeout start E l w
  = waitForContainer_loop fuel cid timeout start E l
      (after_pending_poll E w cid).
Proof.
  intros Ht (out & Hs & Hp). unfold after_pending_poll. rewrite Hs.
  unfold status_of in Hs. unfold health_of in Hp.
  cbn [waitForContainer_loop].
  unfold bind at 1. unfold Date_now.
  destruct (Z.ltb_spec (now w - start) timeout) as [_ | ?]; [| lia].
  unfold bind at 1. unfold try_catch at 1. unfold bind at 1.
  unfold execSync at 1. rewrite Hs. cbv beta iota zeta.
  destruct (String.eqb_spec (trim out) "running") as [Hrun | Hrun].
  - destruct Hp as [Hp | (h & Hh & Hn1 & Hn2)]; [contradiction |].
    unfold bind at 1. unfold try_catch at 1. unfold bind at 1.
    unfold execSync at 1. rewrite Hh. cbv beta iota zeta.
    apply String.eqb_neq in Hn1, Hn2. rewrite Hn1, Hn2.
    reflexivity.
  - reflexivity.
Qed.

(** The clock advances by at least 500 ms in a poll that does not end the
    loop. *)
Lemma pending_poll_advances w :
  monotone_clock E ->
  now w + 500 <= now (after_pending_poll E w cid)
  \/ after_pending_poll E w cid = w /\ exists m, status_of E w cid = Failed m.
Proof.
  intros [He Hl]. unfold after_pending_poll.
  destruct (status_of E w cid) as [out | m] eqn:Hs; [left | right; eauto].
  destruct (String.eqb (trim out) "running");
    unfold after_sleep, after_health, after_status, after_exec; cbn [now].
  - pose proof (He w (inspect_status_cmd cid)).
    pose proof (He (after_exec E w (inspect_status_cmd cid))
                   (inspect_health_cmd cid)).
    pose proof (Hl (after_exec E (after_exec E w (inspect_status_cmd cid))
                               (inspect_health_cmd cid))).
    unfold after_exec in *. cbn [now] in *. lia.
  - pose proof (He w (inspect_status_cmd cid)).
    pose proof (Hl (after_exec E w (inspect_status_cmd cid))).
    unfold after_exec in *. cbn [now] in *. lia.
Qed.

(** Every poll of a container that is there either ends the loop or is a
    pending poll. *)
Lemma ready_or_pending w out :
  status_of E w cid = Exit0 out -> ready E w cid \/ pending E w cid.
Proof.
  intro Hs. unfold ready, pending. rewrite Hs.
  destruct (String.eqb_spec (trim out) "running") as [Hrun | Hrun].
  - destruct (health_of E w cid) as [h | m] eqn:Hh.
    + destruct (String.eqb_spec (trim h) "healthy") as [H1 | H1].
      * left. split; [eauto |]. right. eauto.
      * destruct (String.eqb_spec (trim h) "none") as [H2 | H2].
        -- left. split; [eauto |]. right. eauto.
        -- right. exists out. split; [reflexivity |]. right. eauto.
    + left. split; [eauto |]. left. eauto.
  - right. exists out. split; [reflexivity |]. now left.
Qed.

(** With a clock that never runs backwards the loop ends by itself: one
    unit of fuel per 500 ms of the time that is left, plus one for the
    last test of the loop condition. *)
Lemma waitForContainer_loop_terminates fuel w :
  monotone_clock E ->
  timeout - (now w - start) <= 500 * Z.of_nat fuel ->
  fst (fst (waitForContainer_loop (S fuel) cid timeout start E l w))
  <> OutOfFuel.
Proof.
  intro Hm. revert w. induction fuel as [|fuel IH]; intros w Hleft.
  - destruct (Z.lt_ge_cases (now w - start) timeout) as [Hlt | Hge].
    + lia.
    + rewrite poll_timeout by exact Hge. discriminate.
  - destruct (Z.lt_ge_cases (now w - start) timeout) as [Hlt | Hge].
    + destruct (status_of E w cid) as [out | m] eqn:Hs.
      * destruct (ready_or_pending w out Hs) as [Hr | Hp].
        -- rewrite poll_ready by assumption. discriminate.
        -- rewrite poll_pending by assumption. apply IH.
           destruct (pending_poll_advances w Hm) as [Hadv | (_ & m & Hf)].
           ++ lia.
           ++ congruence.
      * rewrite (poll_crashed _ _ m) by assumption. discriminate.
    + rewrite poll_timeout by exact Hge. discriminate.
Qed.

End Polling.

Lemma waitForContainer_terminates {L} E (l : L) cid timeout fuel w :
  monotone_clock E ->
  timeout <= 500 * Z.of_nat fuel ->
  fst (fst (waitForContainer (S fuel) cid timeout E l w)) <> OutOfFuel.
Proof.
  intros Hm Hf. unfold waitForContainer, bind, Date_now.
  apply waitForContainer_loop_terminates; [exact Hm | lia].
Qed.

Lemma timers_after_exec E w cmd : timers (after_exec E w cmd) = timers w.
Proof. reflexivity. Qed.

Lemma timers_after_pending_poll E w cid :
  pending E w cid ->
  timers (after_pending_poll E w cid) = 500 :: timers w.
Proof.
  intros (out & Hs & _). unfold after_pending_poll. rewrite Hs.
  destruct (String.eqb (trim out) "running"); reflexivity.
Qed.

(** A container that stays pending makes the loop end with the timeout
    error, at a time when the timeout has elapsed. *)
Lemma always_pending_times_out {L} E (l : L) cid timeout start :
  monotone_clock E ->
  (forall w, pending E w cid) ->
  forall fuel w,
    timeout - (now w - start) <= 500 * Z.of_nat fuel ->
    exists w',
      waitForContainer_loop (S fuel) cid timeout start E l w
      = (Throw (Error "Container startup timeout"), l, w')
      /\ timeout <= now w' - start.
Proof.
  intros Hm Hp. induction fuel as [|fuel IH]; intros w Hleft.
  - exists w. split; [apply poll_timeout |]; lia.
  - destruct (Z.lt_ge_cases (now w - start) timeout) as [Hlt | Hge].
    + rewrite poll_pending by auto. apply IH.
      destruct (pending_poll_advances E cid w Hm) as [Hadv | (_ & m & Hf)].
      * lia.
      * destruct (Hp w) as (out & Hs & _). congruence.
    + exists w. split; [apply poll_timeout |]; lia.
Qed.

(** C8.  [waitForContainer] tests the loop condition, inspects the state of
    the container and, when it is running, its health.  In a poll made
    before the timeout: a container that is ready (running, and the health
    inspection fails, or answers healthy or none) makes the call return
    [true] in that very poll, the world being the one right after the two
    inspections; a failing state inspection makes the call throw
    "Container failed to start" right after that inspection; a container
    that is pending costs exactly one timer of 500 ms before the next
    poll.  A poll made once the timeout has elapsed throws "Container
    startup timeout" without any further command.  In particular a
    container that is ready at the first poll makes [waitForContainer]
    return [true] with no timer awaited; with a clock that never runs
    backwards and one unit of fuel per 500 ms of timeout the call always
    ends, and it ends with the timeout error if the container stays
    pending. *)
Theorem waitForContainer_polling :
  forall (L : Type) (E : env) (l : L) (cid : string) (timeout : Z),
    (forall fuel start w,
        now w - start < timeout ->
        (ready E w cid ->
         waitForContainer_loop (S fuel) cid timeout start E l w
         = (Ret true, l, after_health E w cid))
        /\ (forall msg,
               status_of E w cid = Failed msg ->
               waitForContainer_loop (S fuel) cid timeout start E l w
               = (Throw (Error "Container failed to start"), l,
                  after_status E w cid))
        /\ (pending E w cid ->
            waitForContainer_loop (S fuel) cid timeout start E l w
            = waitForContainer_loop fuel cid timeout start E l
                (after_pending_poll E w cid)
            /\ timers (after_pending_poll E w cid) = 500 :: timers w))
    /\ (forall fuel start w,
           timeout <= now w - start ->
           waitForContainer_loop (S fuel) cid timeout start E l w
           = (Throw (Error "Container startup timeout"), l, w))
    /\ (forall fuel w,
           0 < timeout ->
           ready E w cid ->
           waitForContainer (S fuel) cid timeout E l w
           = (Ret true, l, after_health E w cid)
           /\ timers (after_health E w cid) = timers w)
    /\ (forall fuel w,
           monotone_clock E ->
           timeout <= 500 * Z.of_nat fuel ->
           fst (fst (waitForContainer (S fuel) cid timeout E l w))
           <> OutOfFuel)
    /\ (forall fuel w,
           monotone_clock E ->
           timeout <= 500 * Z.of_nat fuel ->
           (forall w', pending E w' cid) ->
           exists w',
             waitForContainer (S fuel) cid timeout E l w
             = (Throw (Error "Container startup timeout"), l, w')
             /\ timeout <= now w' - now w).
Proof.
  intros L E l cid timeout. repeat split.
  - apply poll_ready; assumption.
  - intros msg Hs. apply (poll_crashed E l cid timeout start fuel w msg);
      assumption.
  - apply poll_pending; assumption.
  - apply timers_after_pending_poll; assumption.
  - intros fuel start w Ht. apply poll_timeout; assumption.
  - unfold waitForContainer, bind, Date_now.
    apply poll_ready; [lia | assumption].
  - intros. apply waitForContainer_terminates; assumption.
  - intros fuel w Hm Hf Hp. unfold waitForContainer, bind, Date_now.
    apply always_pending_times_out; [assumption | assumption | lia].
Qed.

(** The readiness scenario on a concrete engine: the container runs and has
    no health check, and the first poll returns. *)
Lemma waitForContainer_polling_witness :
  0 < 30000
  /\ ready running_env world0 "c0ffee"
  /\ waitForContainer 61 "c0ffee" 30000 running_env tt world0
     = (Ret true, tt, after_health running_env world0 "c0ffee").
Proof.
  assert (Hr : ready running_env world0 "c0ffee").
  { split.
    - exists (line "running"). split; vm_compute; reflexivity.
    - left. eexists. vm_compute. reflexivity. }
  split; [lia | split; [exact Hr |]].
  destruct (waitForContainer_polling unit running_env tt "c0ffee" 30000)
    as (_ & _ & Hfirst & _).
  apply (Hfirst 60%nat world0); [lia | exact Hr].
Defined.

(** ** Readiness polls finish *)

Lemma waitForContainer_finishes {L} fuel cid :
  (61 <= fuel)%nat ->
  ends monotone_clock true false (@waitForContainer L fuel cid 30000).
Proof.
  intros Hf E Hm l w. destruct fuel as [|fuel]; [lia |].
  pose proof (waitForContainer_terminates E l cid 30000 fuel w Hm) as H.
  destruct (fst (fst (waitForContainer (S fuel) cid 30000 E l w)));
    simpl; auto.
  exfalso. apply H; [lia | reflexivity].
Qed.

(** ** The samples of the two timing loops *)

(** Counting the two commands of a build test in a log whose last events
    are known. *)
Ltac count_issued :=
  unfold issued, succeeded, after_exec; cbn [log filter];
  change (String.eqb build_test_rmi build_test_cmd) with false;
  change (String.eqb build_test_cmd build_test_rmi) with false;
  rewrite ?String.eqb_refl;
  repeat match goal with
         | H : result ?r = _ |- context [result ?r] => rewrite H
         | |- context [match ?r with Exit0 _ => _ | Failed _ => _ end] =>
             destruct r
         end;
  cbn [List.length filter]; try lia.

(** The sample of one build test. *)
Lemma build_samples_cons E i rest w :
  build_samples E (i :: rest) w
  = build_samples E [i] w
    ++ build_samples E rest (snd (build_iteration i E [] w)).
Proof.
  cbn [build_samples].
  destruct (result (engine E w build_test_cmd)); reflexivity.
Qed.

(** One round of the loop: one build; when it succeeds, one sample, the
    time the build took, and one removal, whose failure changes
    nothing. *)
Lemma build_iteration_trace i E l w :
  exists w',
    build_iteration i E l w = (Ret tt, l ++ build_samples E [i] w, w')
    /\ w' = snd (build_iteration i E [] w)
    /\ issued build_test_cmd w' = S (issued build_test_cmd w)
    /\ issued build_test_rmi w'
       = (issued build_test_rmi w + List.length (build_samples E [i] w))%nat
    /\ succeeded build_test_cmd w'
       = (succeeded build_test_cmd w
          + List.length (build_samples E [i] w))%nat.
Proof.
  unfold build_iteration. cbn [build_samples].
  cbv [bind Date_now try_catch execSync push get_local set_local ret
       console_log emit].
  fold build_test_cmd. fold build_test_rmi.
  destruct (result (engine E w build_test_cmd)) as [o1 | m1] eqn:Hbuild.
  - assert (Hsample : now (after_exec E w build_test_cmd) - now w
                      = elapsed (engine E w build_test_cmd))
      by (unfold after_exec; cbn [now]; lia).
    rewrite Hsample.
    destruct (result (engine E (after_exec E w build_test_cmd)
                        build_test_rmi)) as [o2 | m2];
      eexists; (split; [reflexivity |]); (split; [reflexivity |]);
      (split; [count_issued |]); (split; [count_issued |]);
      count_issued.
  - eexists. rewrite app_nil_r. split; [reflexivity |].
    split; [reflexivity |].
    split; [count_issued |]. split; [count_issued |].
    count_issued.
Qed.

Lemma build_loop_trace tests :
  forall E l w,
  exists w',
    for_each tests build_iteration E l w
    = (Ret tt, l ++ build_samples E tests w, w')
    /\ issued build_test_cmd w'
       = (issued build_test_cmd w + List.length tests)%nat
    /\ issued build_test_rmi w'
       = (issued build_test_rmi w
          + List.length (build_samples E tests w))%nat
    /\ succeeded build_test_cmd w'
       = (succeeded build_test_cmd w
          + List.length (build_samples E tests w))%nat.
Proof.
  induction tests as [| i tests IH]; intros E l w.
  - exists w. cbn [for_each build_samples List.length].
    rewrite app_nil_r. repeat split; lia.
  - cbn [for_each]. unfold bind.
    destruct (build_iteration_trace i E l w)
      as (w1 & -> & Hw1 & Hb1 & Hr1 & Hs1).
    destruct (IH E (l ++ build_samples E [i] w) w1)
      as (w2 & -> & Hb2 & Hr2 & Hs2).
    exists w2. rewrite (build_samples_cons E i tests w), <- Hw1, app_assoc.
    split; [reflexivity |].
    rewrite Hb2, Hr2, Hs2, Hb1, Hr1, Hs1, length_app.
    cbn [List.length]. repeat split; lia.
Qed.

(** [measureBuildTime] returns the summary of the samples of its three
    build tests. *)
Lemma measureBuildTime_samples {L} E (l : L) w :
  let w0 := printed "Measuring build time..." w in
  exists w',
    measureBuildTime E l w
    = (Ret (summarize (build_samples E [0; 1; 2]%nat w0)), l, w')
    /\ issued build_test_cmd w' = (issued build_test_cmd w + 3)%nat
    /\ issued build_test_rmi w'
       = (issued build_test_rmi w
          + List.length (build_samples E [0; 1; 2]%nat w0))%nat
    /\ succeeded build_test_cmd w'
       = (succeeded build_test_cmd w
          + List.length (build_samples E [0; 1; 2]%nat w0))%nat.
Proof.
  intro w0. unfold measureBuildTime.
  unfold bind at 1. unfold console_log at 1, emit at 1.
  cbv beta iota zeta. fold (printed "Measuring build time..." w). fold w0.
  unfold with_locals, for_range. unfold bind at 1.
  change (seq 0 3) with [0; 1; 2]%nat.
  destruct (build_loop_trace [0; 1; 2]%nat E [] w0)
    as (w' & -> & Hb & Hr & Hs).
  cbn [app]. unfold bind, get_local, ret.
  exists w'. split; [reflexivity |].
  cbn [List.length] in Hb. unfold w0, printed, issued, succeeded in *.
  cbn [log filter] in *. repeat split; assumption.
Qed.

(** The samples of a build test are not negative when the clock does not
    run backwards. *)
Lemma build_samples_nonneg E tests :
  monotone_clock E ->
  forall w, Forall (fun t => 0 <= t) (build_samples E tests w).
Proof.
  intros [Hexec _]. induction tests as [| i tests IH]; intro w;
    cbn [build_samples]; [constructor |].
  destruct (result (engine E w build_test_cmd)); [| apply IH].
  constructor; [apply Hexec | apply IH].
Qed.

(** [waitForContainer] neither reads nor writes the local variables of
    its caller. *)
Section SameRun.
Context {L : Type}.

Lemma same_run_leaf {A} (c : M L A) (c' : M unit A) :
  (forall E l w, c E l w = (fst (fst (c' E tt w)), l, snd (c' E tt w))) ->
  same_run c c'.
Proof. intro H. exact H. Qed.

Lemma same_run_ret {A} (a : A) : same_run (@ret L A a) (ret a).
Proof. intros E l w. reflexivity. Qed.

Lemma same_run_throw {A} e : same_run (@throw L A e) (throw e).
Proof. intros E l w. reflexivity. Qed.

Lemma same_run_out_of_fuel {A} : same_run (@out_of_fuel L A) out_of_fuel.
Proof. intros E l w. reflexivity. Qed.

Lemma same_run_Date_now : same_run (@Date_now L) Date_now.
Proof. intros E l w. reflexivity. Qed.

Lemma same_run_sleep ms : same_run (@sleep L ms) (sleep ms).
Proof. intros E l w. reflexivity. Qed.

Lemma same_run_execSync cmd : same_run (@execSync L cmd) (execSync cmd).
Proof.
  intros E l w. unfold execSync.
  destruct (result (engine E w cmd)); reflexivity.
Qed.

Lemma same_run_bind {A B} (c : M L A) c' (k : A -> M L B) k' :
  same_run c c' -> (forall a, same_run (k a) (k' a)) ->
  same_run (bind c k) (bind c' k').
Proof.
  intros Hc Hk E l w. unfold bind. rewrite (Hc E l w).
  destruct (c' E tt w) as [[[a | e |] []] w1]; cbn [fst snd];
    [apply Hk | reflexivity | reflexivity].
Qed.

Lemma same_run_try_catch {A} (c : M L A) c' (h : exn -> M L A) h' :
  same_run c c' -> (forall e, same_run (h e) (h' e)) ->
  same_run (try_catch c h) (try_catch c' h').
Proof.
  intros Hc Hh E l w. unfold try_catch. rewrite (Hc E l w).
  destruct (c' E tt w) as [[[a | e |] []] w1]; cbn [fst snd];
    [reflexivity | apply Hh | reflexivity].
Qed.

Lemma waitForContainer_loop_local fuel cid timeout start :
  same_run (@waitForContainer_loop L fuel cid timeout start)
           (waitForContainer_loop fuel cid timeout start).
Proof.
  induction fuel as [| fuel IH]; cbn [waitForContainer_loop];
    [apply same_run_out_of_fuel |].
  apply same_run_bind; [apply same_run_Date_now | intro t].
  destruct (t - start <? timeout); [| apply same_run_throw].
  apply same_run_bind.
  - apply same_run_try_catch; [| intro; apply same_run_throw].
    apply same_run_bind; [apply same_run_execSync | intro out].
    apply same_run_bind.
    + destruct (String.eqb (trim out) "running"); [| apply same_run_ret].
      apply same_run_try_catch; [| intro; apply same_run_ret].
      apply same_run_bind; [apply same_run_execSync | intro out0].
      destruct (String.eqb (trim out0) "healthy"
                || String.eqb (trim out0) "none"); apply same_run_ret.
    + intros [b |]; [apply same_run_ret |].
      apply same_run_bind; [apply same_run_sleep | intro; apply same_run_ret].
  - intros [b |]; [apply same_run_ret | exact IH].
Qed.

Lemma waitForContainer_local fuel cid timeout :
  same_run (@waitForContainer L fuel cid timeout)
           (waitForContainer fuel cid timeout).
Proof.
  unfold waitForContainer.
  apply same_run_bind; [apply same_run_Date_now | intro].
  apply waitForContainer_loop_local.
Qed.

End SameRun.

Lemma startup_samples_cons E fuel tag i rest w :
  startup_samples E fuel tag (i :: rest) w
  = startup_samples E fuel tag [i] w
    ++ startup_samples E fuel tag rest
         (snd (startup_iteration fuel tag i E [] w)).
Proof.
  cbn [startup_samples].
  destruct (ready_at E fuel tag i w); reflexivity.
Qed.

(** One round of the startup loop: a sample when the container starts and
    is found ready, whatever stopping and removing it do afterwards. *)
Lemma startup_iteration_trace fuel tag i E l w :
  (61 <= fuel)%nat -> monotone_clock E ->
  startup_iteration fuel tag i E l w
  = (Ret tt, l ++ startup_samples E fuel tag [i] w,
     snd (startup_iteration fuel tag i E [] w)).
Proof.
  intros Hfuel Hclock.
  unfold startup_iteration. cbn [startup_samples]. unfold ready_at.
  fold (startup_run_cmd i tag).
  cbv [bind Date_now try_catch execSync push get_local set_local ret
       console_log emit].
  destruct (result (engine E w (startup_run_cmd i tag))) as [out | msg].
  - rewrite (waitForContainer_local fuel (trim out) 30000 E l).
    rewrite (waitForContainer_local fuel (trim out) 30000 E ([] : list Z)).
    pose proof (waitForContainer_finishes (L := unit) fuel (trim out) Hfuel
                  E Hclock tt (after_exec E w (startup_run_cmd i tag)))
      as Hend.
    destruct (waitForContainer fuel (trim out) 30000 E tt
                (after_exec E w (startup_run_cmd i tag)))
      as [[[b | e |] u] w2]; cbn [fst snd] in *.
    + destruct (result (engine E w2 ("docker stop " +++ trim out)));
        [| reflexivity].
      destruct (result (engine E _ ("docker rm " +++ trim out)));
        reflexivity.
    + rewrite app_nil_r. reflexivity.
    + discriminate Hend.
  - rewrite app_nil_r. reflexivity.
Qed.

Lemma startup_loop_trace fuel tag E tests :
  (61 <= fuel)%nat -> monotone_clock E ->
  forall l w,
  exists w',
    for_each tests (startup_iteration fuel tag) E l w
    = (Ret tt, l ++ startup_samples E fuel tag tests w, w').
Proof.
  intros Hfuel Hclock.
  induction tests as [| i tests IH]; intros l w.
  - exists w. cbn [for_each startup_samples]. now rewrite app_nil_r.
  - cbn [for_each]. unfold bind.
    rewrite (startup_iteration_trace fuel tag i E l w Hfuel Hclock).
    destruct (IH (l ++ startup_samples E fuel tag [i] w)
                 (snd (startup_iteration fuel tag i E [] w)))
      as (w2 & ->).
    exists w2. rewrite (startup_samples_cons E fuel tag i tests w), app_assoc.
    reflexivity.
Qed.

(** [measureStartupTime] returns the summary of the samples of its five
    startup tests. *)
Lemma measureStartupTime_samples {L} fuel tag E (l : L) w :
  (61 <= fuel)%nat -> monotone_clock E ->
  exists w',
    measureStartupTime fuel tag E l w
    = (Ret (summarize
              (startup_samples E fuel tag [0; 1; 2; 3; 4]%nat
                 (printed "Measuring container startup time..." w))),
       l, w').
Proof.
  intros Hfuel Hclock. unfold measureStartupTime.
  unfold bind at 1. unfold console_log at 1, emit at 1.
  cbv beta iota zeta.
  fold (printed "Measuring container startup time..." w).
  unfold with_locals, for_range. unfold bind at 1.
  change (seq 0 5) with [0; 1; 2; 3; 4]%nat.
  destruct (startup_loop_trace fuel tag E [0; 1; 2; 3; 4]%nat Hfuel Hclock
              [] (printed "Measuring container startup time..." w))
    as (w' & ->).
  cbn [app]. unfold bind, get_local, ret.
  exists w'. reflexivity.
Qed.

Lemma moderate_sum times :
  moderate times ->
  fold_left Js.add (map of_Z times) (of_Z 0)
  = of_Z (fold_left Z.add times 0)
  /\ Z.abs (fold_left Z.add times 0) <= 2 ^ 51
  /\ Z.of_nat (List.length times) <= 2 ^ 51.
Proof.
  intros [Hall Hlen].
  assert (Hk : Z.of_nat (List.length times) <= 1024) by lia.
  split; [| split].
  - apply (sum_of_Z times 0 (2 ^ 40) Hall).
    change (Z.abs 0) with 0. change (2 ^ 53) with (8192 * 2 ^ 40).
    change (2 ^ 40) with 1099511627776. lia.
  - pose proof (abs_sum_bound times 0 (2 ^ 40) Hall) as H.
    change (Z.abs 0) with 0 in H. change (2 ^ 51) with (2048 * 2 ^ 40).
    change (2 ^ 40) with 1099511627776 in *. lia.
  - change (2 ^ 51) with 2251799813685248. lia.
Qed.

Lemma summarize_cons t ts :
  let times := t :: ts in
  let k := Z.of_nat (List.length times) in
  let s := fold_left Z.add times 0 in
  moderate times ->
  summarize times
  = {| TimeMetric.average := of_Z ((2 * s + k) / (2 * k));
       TimeMetric.min := of_Z (fold_left Z.min ts t);
       TimeMetric.max := of_Z (fold_left Z.max ts t);
       TimeMetric.unit := "ms";
       TimeMetric.samples := Some (List.length times) |}.
Proof.
  intros times k s Hmod. unfold summarize. fold times.
  destruct (moderate_sum times Hmod) as (Hsum & Hs & Hk).
  rewrite Hsum. fold k. fold s.
  rewrite round_mean
    by (try split; try assumption; unfold k, times; cbn [List.length]; lia).
  unfold times. rewrite Math_min_cons, Math_max_cons. reflexivity.
Qed.

(** C4.  For a non-empty list of samples (k >= 1 of them, each of at most
    2^40 ms and at most 1024 in all, so that their sum is exact) the
    summary has samples = k; its average is the integer a nearest to the
    arithmetic mean sum / k (ties upwards), that is,
    2 k a <= 2 sum + k < 2 k (a + 1); its min and max are a least and a
    greatest element of the samples; the average lies between them; and
    the average does not depend on the order of the samples.  The samples
    12000, 14500 and 13200 give average 13233, min 12000, max 14500 and 3
    samples.  [measureBuildTime] always issues three builds and returns
    the summary of one sample for each build that succeeded, the time that
    build took, in the order of the builds; [measureStartupTime] returns
    the summary of one sample for each of its five containers that started
    and was found ready, the time from the start of the test to that
    moment (given fuel for its readiness polls and a clock that never runs
    backwards). *)
Theorem summarize_successful_samples :
  (forall times : list Z,
      times <> [] ->
      moderate times ->
      let k := Z.of_nat (List.length times) in
      let s := fold_left Z.add times 0 in
      exists a mn mx,
        summarize times
        = {| TimeMetric.average := of_Z a;
             TimeMetric.min := of_Z mn;
             TimeMetric.max := of_Z mx;
             TimeMetric.unit := "ms";
             TimeMetric.samples := Some (List.length times) |}
        /\ 2 * k * a <= 2 * s + k < 2 * k * (a + 1)
        /\ In mn times /\ (forall x, In x times -> mn <= x)
        /\ In mx times /\ (forall x, In x times -> x <= mx)
        /\ mn <= a <= mx)
  /\ (forall times times',
         moderate times ->
         Permutation times times' ->
         TimeMetric.average (summarize times)
         = TimeMetric.average (summarize times'))
  /\ summarize [12000; 14500; 13200]
     = {| TimeMetric.average := of_Z 13233;
          TimeMetric.min := of_Z 12000;
          TimeMetric.max := of_Z 14500;
          TimeMetric.unit := "ms";
          TimeMetric.samples := Some 3%nat |}
  /\ (forall (L : Type) (E : env) (l : L) (w : world),
         let times :=
           build_samples E [0; 1; 2]%nat
             (printed "Measuring build time..." w) in
         exists w',
           measureBuildTime E l w = (Ret (summarize times), l, w')
           /\ issued build_test_cmd w' = (issued build_test_cmd w + 3)%nat
           /\ succeeded build_test_cmd w'
              = (succeeded build_test_cmd w + List.length times)%nat)
  /\ (forall (L : Type) (fuel : nat) (imageTag : string)
             (E : env) (l : L) (w : world),
         (61 <= fuel)%nat ->
         monotone_clock E ->
         let times :=
           startup_samples E fuel imageTag [0; 1; 2; 3; 4]%nat
             (printed "Measuring container startup time..." w) in
         exists w',
           measureStartupTime fuel imageTag E l w
           = (Ret (summarize times), l, w')).
Proof.
  split; [| split; [| split; [| split]]].
  - intros [|t ts] Hne Hmod k s; [congruence |].
    exists ((2 * s + k) / (2 * k)), (fold_left Z.min ts t),
           (fold_left Z.max ts t).
    assert (Hk : 0 < k) by (unfold k; cbn [List.length]; lia).
    destruct (fold_min_spec ts t) as (Hmin_in & Hmin_t & Hmin_all).
    destruct (fold_max_spec ts t) as (Hmax_in & Hmax_t & Hmax_all).
    set (mn := fold_left Z.min ts t) in *.
    set (mx := fold_left Z.max ts t) in *.
    assert (Hlo : forall x, In x (t :: ts) -> mn <= x)
      by (intros x [<- | Hx]; auto).
    assert (Hhi : forall x, In x (t :: ts) -> x <= mx)
      by (intros x [<- | Hx]; auto).
    assert (Hsum : k * mn <= s <= k * mx).
    { apply sum_bounds. intros x Hx. split; auto. }
    pose proof (Z.mul_div_le (2 * s + k) (2 * k) ltac:(lia)) as Hd1.
    pose proof (Z.mul_succ_div_gt (2 * s + k) (2 * k) ltac:(lia)) as Hd2.
    split; [apply summarize_cons; exact Hmod |].
    split; [lia |].
    split; [destruct Hmin_in as [-> | H]; [now left | now right] |].
    split; [exact Hlo |].
    split; [destruct Hmax_in as [-> | H]; [now left | now right] |].
    split; [exact Hhi |].
    split.
    + apply Z.div_le_lower_bound; nia.
    + apply Z.lt_succ_r. apply Z.div_lt_upper_bound; nia.
  - intros times times' Hmod Hp.
    assert (Hmod' : moderate times').
    { destruct Hmod as [Hall Hlen]. split.
      - apply (Permutation_Forall Hp). exact Hall.
      - rewrite <- (Permutation_length Hp). exact Hlen. }
    destruct times as [|t ts]; destruct times' as [|t' ts'].
    + reflexivity.
    + apply Permutation_nil in Hp. discriminate.
    + apply Permutation_sym, Permutation_nil in Hp. discriminate.
    + rewrite (summarize_cons t ts Hmod), (summarize_cons t' ts' Hmod').
      cbn [TimeMetric.average].
      rewrite (sum_permutation _ _ Hp), (Permutation_length Hp).
      reflexivity.
  - vm_compute. reflexivity.
  - intros L E l w times.
    destruct (measureBuildTime_samples E l w) as (w' & Hrun & Hb & _ & Hs).
    exists w'. split; [exact Hrun |]. split; [exact Hb | exact Hs].
  - intros L fuel imageTag E l w Hfuel Hclock times.
    apply measureStartupTime_samples; assumption.
Qed.

(** The scenario of the three build times, through the general
    statement. *)
Lemma summarize_successful_samples_witness :
  [12000; 14500; 13200] <> []
  /\ moderate [12000; 14500; 13200]
  /\ exists a mn mx,
       TimeMetric.average (summarize [12000; 14500; 13200]) = of_Z a
       /\ In mn [12000; 14500; 13200]
       /\ In mx [12000; 14500; 13200]
       /\ mn <= a <= mx.
Proof.
  assert (Hne : [12000; 14500; 13200] <> []) by discriminate.
  assert (Hmod : moderate [12000; 14500; 13200]).
  { split; [repeat constructor; discriminate | cbn [List.length]; lia]. }
  split; [exact Hne |]. split; [exact Hmod |].
  destruct summarize_successful_samples as (Hgen & _).
  destruct (Hgen [12000; 14500; 13200] Hne Hmod)
    as (a & mn & mx & Hsum & _ & Hmn & _ & Hmx & _ & Hb).
  exists a, mn, mx. rewrite Hsum. auto.
Defined.

(** ** Container teardown *)

(** C2.  The stop and remove commands of every probe are the last
    statements of its [try] block, so a probe that fails earlier leaves its
    container behind: when [docker stats] fails, [measureMemoryUsage] and
    [measureCPUUsage] have started one container and attempt neither a stop
    nor a remove; when inspecting the container fails, [measureStartupTime]
    has started five containers and attempts no stop and no remove; and
    when [docker stop] itself fails, the network and disk probes (like the
    others) never attempt the remove. *)
Theorem probes_leave_containers_behind :
  (let w := final_world (measureMemoryUsage "img") stats_fail_env in
   started w = 1%nat /\ stop_attempts w = 0%nat /\ remove_attempts w = 0%nat)
  /\ (let w := final_world (measureCPUUsage "img") stats_fail_env in
      started w = 1%nat /\ stop_attempts w = 0%nat
      /\ remove_attempts w = 0%nat)
  /\ (let w := final_world (measureStartupTime 61 "img") inspect_fail_env in
      started w = 5%nat /\ stop_attempts w = 0%nat
      /\ remove_attempts w = 0%nat)
  /\ (let w := final_world (measureNetworkLatency "img") stop_fail_env in
      started w = 1%nat /\ stop_attempts w = 1%nat
      /\ remove_attempts w = 0%nat)
  /\ (let w := final_world (measureDiskIO "img") stop_fail_env in
      started w = 1%nat /\ stop_attempts w = 1%nat
      /\ remove_attempts w = 0%nat)
  /\ (let w := final_world (measureMemoryUsage "img") stats_env in
      started w = 1%nat /\ stop_attempts w = 1%nat
      /\ remove_attempts w = 1%nat).
Proof. vm_compute. repeat split. Qed.

(** ** Computations that do not call a given method *)

Section Silent.
Context {L : Type}.
Variable m : string.

Lemma silent_leaf {A} (c : M L A) :
  (forall E l w, calls m (snd (c E l w)) = calls m w) -> silent m c.
Proof. intros H E l w. apply H. Qed.

Lemma silent_ret {A} (a : A) : silent m (@ret L A a).
Proof. apply silent_leaf. reflexivity. Qed.

Lemma silent_bind {A B} (c : M L A) (k : A -> M L B) :
  silent m c -> (forall a, silent m (k a)) -> silent m (bind c k).
Proof.
  intros Hc Hk E l w. unfold same_calls, bind.
  pose proof (Hc E l w) as H1. unfold same_calls in H1.
  destruct (c E l w) as [[[a | e |] l'] w']; simpl in *; auto.
  rewrite <- H1. apply Hk.
Qed.

Lemma silent_try_catch {A} (c : M L A) (h : exn -> M L A) :
  silent m c -> (forall e, silent m (h e)) -> silent m (try_catch c h).
Proof.
  intros Hc Hh E l w. unfold same_calls, try_catch.
  pose proof (Hc E l w) as H1. unfold same_calls in H1.
  destruct (c E l w) as [[[a | e |] l'] w']; simpl in *; auto.
  rewrite <- H1. apply Hh.
Qed.

Lemma silent_try_finally {A} (c : M L A) (fin : M L unit) :
  silent m c -> silent m fin -> silent m (try_finally c fin).
Proof.
  intros Hc Hf E l w. unfold same_calls, try_finally.
  pose proof (Hc E l w) as H1. unfold same_calls in H1.
  destruct (c E l w) as [[[a | e |] l'] w']; simpl in *; auto;
    pose proof (Hf E l' w') as H2; unfold same_calls in H2;
    destruct (fin E l' w') as [[[[] | e' |] l2] w2]; simpl in *; congruence.
Qed.

Lemma silent_throw {A} e : silent m (@throw L A e).
Proof. apply silent_leaf. reflexivity. Qed.

Lemma silent_out_of_fuel {A} : silent m (@out_of_fuel L A).
Proof. apply silent_leaf. reflexivity. Qed.

Lemma silent_execSync cmd : silent m (@execSync L cmd).
Proof.
  apply silent_leaf. intros E l w. unfold execSync.
  destruct (result (engine E w cmd)); reflexivity.
Qed.

Lemma silent_sleep ms : silent m (@sleep L ms).
Proof. apply silent_leaf. reflexivity. Qed.

Lemma silent_console_log msg : silent m (@console_log L msg).
Proof. apply silent_leaf. reflexivity. Qed.

Lemma silent_fs_event op path : silent m (@emit L (FsCall op path)).
Proof. apply silent_leaf. reflexivity. Qed.

Lemma silent_enter m' arg :
  m' <> m -> silent m (@emit L (Enter m' arg)).
Proof.
  intro Hne. apply silent_leaf. intros E l w.
  unfold calls, emit. cbn [snd log flat_map].
  apply String.eqb_neq in Hne. rewrite Hne. reflexivity.
Qed.

Lemma silent_call {Y} m' (f : string -> Y) arg :
  m' <> m -> silent m (@call L Y m' f arg).
Proof.
  intro Hne. unfold call. apply silent_bind; [now apply silent_enter |].
  intros _. apply silent_ret.
Qed.

Lemma silent_Date_now : silent m (@Date_now L).
Proof. apply silent_leaf. reflexivity. Qed.

Lemma silent_get_local : silent m (@get_local L).
Proof. apply silent_leaf. reflexivity. Qed.

Lemma silent_set_local l0 : silent m (@set_local L l0).
Proof. apply silent_leaf. reflexivity. Qed.

Lemma silent_get_env : silent m (@get_env L).
Proof. apply silent_leaf. reflexivity. Qed.

Lemma silent_get_world : silent m (@Scanner.get_world L).
Proof. apply silent_leaf. reflexivity. Qed.

Lemma silent_set_disk d : silent m (@Scanner.set_disk L d).
Proof. apply silent_leaf. reflexivity. Qed.

Lemma silent_for_each {X} (xs : list X) (body : X -> M L unit) :
  (forall x, silent m (body x)) -> silent m (for_each xs body).
Proof.
  intro Hb. induction xs as [|x xs IH]; simpl.
  - apply silent_ret.
  - apply silent_bind; auto.
Qed.

Lemma silent_map_M {X Y} (f : X -> M L Y) (xs : list X) :
  (forall x, silent m (f x)) -> silent m (map_M f xs).
Proof.
  intro Hf. induction xs as [|x xs IH]; simpl.
  - apply silent_ret.
  - apply silent_bind; [apply Hf | intro].
    apply silent_bind; [exact IH | intro]. apply silent_ret.
Qed.

Lemma silent_some_M {X} (p : X -> M L bool) (xs : list X) :
  (forall x, silent m (p x)) -> silent m (Scanner.some_M p xs).
Proof.
  intro Hp. induction xs as [|x xs IH]; simpl.
  - apply silent_ret.
  - apply silent_bind; [apply Hp |]. intros []; [apply silent_ret | exact IH].
Qed.

Lemma silent_insert_by {X} (cmp : X -> X -> M L num) x sorted :
  (forall a b, silent m (cmp a b)) ->
  silent m (Scanner.insert_by cmp x sorted).
Proof.
  intro Hc. induction sorted as [|y rest IH]; cbn [Scanner.insert_by].
  - apply silent_ret.
  - apply silent_bind; [apply Hc | intro c].
    destruct (Js.gtb c (of_Z 0)); [apply silent_ret |].
    apply silent_bind; [exact IH | intro]. apply silent_ret.
Qed.

Lemma silent_sort_by {X} (cmp : X -> X -> M L num) xs :
  (forall a b, silent m (cmp a b)) -> silent m (Scanner.sort_by cmp xs).
Proof.
  intro Hc. unfold Scanner.sort_by. generalize (@nil X) as sorted.
  induction xs as [|x xs IH]; intro sorted; cbn [Scanner.sort_into].
  - apply silent_ret.
  - apply silent_bind; [now apply silent_insert_by | intro]. apply IH.
Qed.

Lemma silent_with_locals {L' A} (init : L') (c : M L' A) :
  silent m c -> silent m (@with_locals L L' A init c).
Proof.
  intros Hc E l w. unfold same_calls, with_locals.
  pose proof (Hc E init w) as H1. unfold same_calls in H1.
  destruct (c E init w) as [[r l'] w']. exact H1.
Qed.

End Silent.

Lemma silent_push {X} m (x : X) : silent m (push x).
Proof. apply silent_leaf. reflexivity. Qed.

Create HintDb silent discriminated.
#[export] Hint Resolve silent_ret silent_throw silent_out_of_fuel
  silent_execSync silent_sleep silent_console_log silent_fs_event
  silent_Date_now silent_get_local silent_set_local silent_get_env
  silent_get_world silent_set_disk silent_push : silent.

(** One step of the syntax-directed proof that a computation does not call
    a method; calls of other methods are told apart by their names. *)
Ltac silent_step :=
  match goal with
  | |- quiet ?c => change (silent "cleanupTempImage" c)
  | |- silent _ (bind _ _) => apply silent_bind
  | |- silent _ (try_catch _ _) => apply silent_try_catch
  | |- silent _ (try_finally _ _) => apply silent_try_finally
  | |- silent _ (for_each _ _) => apply silent_for_each
  | |- silent _ (for_range _ _) => apply silent_for_each
  | |- silent _ (map_M _ _) => apply silent_map_M
  | |- silent _ (Scanner.some_M _ _) => apply silent_some_M
  | |- silent _ (Scanner.sort_by _ _) => apply silent_sort_by
  | |- silent _ (with_locals _ _) => apply silent_with_locals
  | |- silent _ (call _ _ _) =>
      apply silent_call; first [assumption | discriminate | congruence]
  | |- silent _ (emit (Enter _ _)) =>
      apply silent_enter; first [assumption | discriminate | congruence]
  | |- silent _ (Scanner.TypeError _) => apply silent_throw
  | |- silent _ (match ?x with _ => _ end) => destruct x
  | |- silent _ (let _ := _ in _) => cbv zeta
  | |- forall _, _ => intro
  | |- silent _ _ => solve [auto with silent]
  end.

Ltac silent_tac := repeat silent_step.

(** *** The performance probes *)

Lemma waitForContainer_silent {L} fuel cid timeout m :
  silent m (@waitForContainer L fuel cid timeout).
Proof.
  unfold waitForContainer. apply silent_bind; [auto with silent | intro start].
  induction fuel as [|fuel IH]; simpl; silent_tac; exact IH.
Qed.

Lemma measureBuildTime_silent {L} m :
  silent m (@measureBuildTime L).
Proof. unfold measureBuildTime, build_iteration. silent_tac. Qed.

Lemma measureStartupTime_silent {L} fuel tag m :
  silent m (@measureStartupTime L fuel tag).
Proof.
  unfold measureStartupTime, startup_iteration. silent_tac.
  apply waitForContainer_silent.
Qed.

Lemma measureMemoryUsage_silent {L} tag m :
  "parseMemorySize" <> m -> silent m (@measureMemoryUsage L tag).
Proof. intro Hm. unfold measureMemoryUsage. silent_tac. Qed.

Lemma measureCPUUsage_silent {L} tag m :
  silent m (@measureCPUUsage L tag).
Proof. unfold measureCPUUsage. silent_tac. Qed.

Lemma measureNetworkLatency_silent {L} tag m :
  silent m (@measureNetworkLatency L tag).
Proof. unfold measureNetworkLatency. silent_tac. Qed.

Lemma measureDiskIO_silent {L} tag m :
  silent m (@measureDiskIO L tag).
Proof. unfold measureDiskIO, testDiskWrite, testDiskRead. silent_tac. Qed.

Lemma performance_probes_silent {L} fuel tag m :
  "parseMemorySize" <> m -> silent m (@performance_probes L fuel tag).
Proof.
  intro Hm. unfold performance_probes.
  apply silent_bind; [apply measureBuildTime_silent | intro].
  apply silent_bind; [apply measureStartupTime_silent | intro].
  apply silent_bind; [apply measureMemoryUsage_silent; exact Hm | intro].
  apply silent_bind; [apply measureCPUUsage_silent | intro].
  apply silent_bind; [apply measureNetworkLatency_silent | intro].
  apply silent_bind; [apply measureDiskIO_silent | intro].
  apply silent_ret.
Qed.

Lemma measureMemoryUsage_total {L} P tag :
  ends P false false (@measureMemoryUsage L tag).
Proof. unfold measureMemoryUsage. ends_tac. Qed.

Lemma measureCPUUsage_total {L} P tag :
  ends P false false (@measureCPUUsage L tag).
Proof. unfold measureCPUUsage. ends_tac. Qed.

Lemma measureNetworkLatency_total {L} P tag :
  ends P false false (@measureNetworkLatency L tag).
Proof. unfold measureNetworkLatency. ends_tac. Qed.

Lemma measureDiskIO_total {L} P tag :
  ends P false false (@measureDiskIO L tag).
Proof. unfold measureDiskIO, testDiskWrite, testDiskRead. ends_tac. Qed.

Lemma measureBuildTime_total {L} P : ends P false false (@measureBuildTime L).
Proof. unfold measureBuildTime, build_iteration. ends_tac. Qed.

Lemma measureStartupTime_total {L} fuel tag :
  (61 <= fuel)%nat ->
  ends monotone_clock false false (@measureStartupTime L fuel tag).
Proof.
  intro Hf. unfold measureStartupTime, startup_iteration. ends_tac.
  apply waitForContainer_finishes. exact Hf.
Qed.

Lemma performance_probes_total {L} fuel tag :
  (61 <= fuel)%nat ->
  ends monotone_clock false false (@performance_probes L fuel tag).
Proof.
  intro Hf. unfold performance_probes.
  apply ends_bind; [apply measureBuildTime_total | intro].
  apply ends_bind; [apply measureStartupTime_total; exact Hf | intro].
  apply ends_bind; [apply measureMemoryUsage_total | intro].
  apply ends_bind; [apply measureCPUUsage_total | intro].
  apply ends_bind; [apply measureNetworkLatency_total | intro].
  apply ends_bind; [apply measureDiskIO_total | intro].
  apply ends_ret.
Qed.

(** *** The scan probes *)

Lemma get_prop_silent {L} v k m :
  silent m (@Scanner.get_prop L v k).
Proof. unfold Scanner.get_prop. silent_tac. Qed.

Lemma get_prop_ends {L} P f v k : ends P true f (@Scanner.get_prop L v k).
Proof. unfold Scanner.get_prop. ends_tac. Qed.

Lemma record_finding_silent sev v m :
  silent m (Scanner.record_finding sev v).
Proof.
  unfold Scanner.record_finding, Scanner.categorizeVulnerability. silent_tac.
Qed.

Lemma record_finding_ends P f sev v :
  ends P true f (Scanner.record_finding sev v).
Proof.
  unfold Scanner.record_finding, Scanner.categorizeVulnerability. ends_tac.
Qed.

Lemma parseTrivyResults_silent {L} data m :
  silent m (@Scanner.parseTrivyResults L data).
Proof.
  unfold Scanner.parseTrivyResults, Scanner.trivy_findings.
  repeat first [apply get_prop_silent | apply record_finding_silent
               | silent_step].
Qed.

Lemma parseTrivyResults_ends {L} P f data :
  ends P true f (@Scanner.parseTrivyResults L data).
Proof.
  unfold Scanner.parseTrivyResults, Scanner.trivy_findings.
  repeat first [apply get_prop_ends | apply record_finding_ends
               | ends_step].
Qed.

Lemma compareVersions_silent {L} a b m :
  silent m (@Scanner.compareVersions L a b).
Proof. unfold Scanner.compareVersions. silent_tac. Qed.

Lemma compareVersions_ends {L} P f a b :
  ends P true f (@Scanner.compareVersions L a b).
Proof. unfold Scanner.compareVersions. ends_tac. Qed.

Lemma checkCommonVulnerabilities_silent {L} tag os m :
  silent m (@Scanner.checkCommonVulnerabilities L tag os).
Proof.
  unfold Scanner.checkCommonVulnerabilities, Scanner.getNodeVersion,
    Scanner.isNodeVulnerable, Scanner.getInstalledPackages,
    Scanner.checkPackageVulnerability, Scanner.isVersionInRange.
  repeat first [apply get_prop_silent | apply compareVersions_silent
               | silent_step].
Qed.

Lemma checkCommonVulnerabilities_total {L} P tag os :
  ends P false false (@Scanner.checkCommonVulnerabilities L tag os).
Proof.
  unfold Scanner.checkCommonVulnerabilities, Scanner.getNodeVersion,
    Scanner.isNodeVulnerable, Scanner.getInstalledPackages,
    Scanner.checkPackageVulnerability, Scanner.isVersionInRange.
  repeat first [apply get_prop_ends | apply compareVersions_ends
               | apply ends_some_M | ends_step].
Qed.

Lemma basicVulnerabilityScan_silent {L} tag m :
  silent m (@Scanner.basicVulnerabilityScan L tag).
Proof.
  unfold Scanner.basicVulnerabilityScan, Scanner.basic_findings,
    Scanner.getImageOS.
  repeat first [apply checkCommonVulnerabilities_silent
               | apply record_finding_silent | silent_step].
Qed.

Lemma basicVulnerabilityScan_total {L} P tag :
  ends P false false (@Scanner.basicVulnerabilityScan L tag).
Proof.
  unfold Scanner.basicVulnerabilityScan, Scanner.basic_findings,
    Scanner.getImageOS.
  repeat first [apply ends_weaken; apply checkCommonVulnerabilities_total
               | apply record_finding_ends | ends_step].
Qed.

Lemma scanVulnerabilities_silent {L} tag m :
  silent m (@Scanner.scanVulnerabilities L tag).
Proof.
  unfold Scanner.scanVulnerabilities, Scanner.hasDockerScout,
    Scanner.scanWithDockerScout, Scanner.scanWithTrivy,
    Scanner.JSON_parse_M.
  repeat first [apply basicVulnerabilityScan_silent
               | apply parseTrivyResults_silent | silent_step].
Qed.

Lemma scanVulnerabilities_total {L} P tag :
  ends P false false (@Scanner.scanVulnerabilities L tag).
Proof.
  unfold Scanner.scanVulnerabilities, Scanner.hasDockerScout,
    Scanner.scanWithDockerScout, Scanner.scanWithTrivy,
    Scanner.JSON_parse_M.
  repeat first [apply basicVulnerabilityScan_total
               | apply ends_weaken; apply basicVulnerabilityScan_total
               | apply parseTrivyResults_ends | ends_step].
Qed.

Lemma getImageSize_silent {L} tag m :
  silent m (@Scanner.getImageSize L tag).
Proof. unfold Scanner.getImageSize. silent_tac. Qed.

Lemma getImageSize_total {L} P tag :
  ends P false false (@Scanner.getImageSize L tag).
Proof. unfold Scanner.getImageSize. ends_tac. Qed.

Lemma analyzeLayers_silent {L} tag m :
  "parseSize" <> m -> silent m (@Scanner.analyzeLayers L tag).
Proof.
  intro Hm.
  unfold Scanner.analyzeLayers, Scanner.layer_of_line,
    Scanner.compare_layer_sizes.
  silent_tac.
Qed.

Lemma analyzeLayers_total {L} P tag :
  ends P false false (@Scanner.analyzeLayers L tag).
Proof.
  unfold Scanner.analyzeLayers, Scanner.layer_of_line,
    Scanner.compare_layer_sizes.
  ends_tac.
Qed.

Lemma analyzePermissions_silent {L} tag m :
  silent m (@Scanner.analyzePermissions L tag).
Proof.
  unfold Scanner.analyzePermissions, Scanner.update_permissions. silent_tac.
Qed.

Lemma analyzePermissions_total {L} P tag :
  ends P false false (@Scanner.analyzePermissions L tag).
Proof.
  unfold Scanner.analyzePermissions, Scanner.update_permissions. ends_tac.
Qed.

Lemma scan_content_silent name text m :
  silent m (Scanner.scan_content name text).
Proof. unfold Scanner.scan_content. silent_tac. Qed.

Lemma scan_content_total P t f name text :
  ends P t f (Scanner.scan_content name text).
Proof. unfold Scanner.scan_content. ends_tac. Qed.

Lemma scanDirectoryForSecrets_silent dir m :
  silent m (Scanner.scanDirectoryForSecrets dir).
Proof.
  induction dir as [name content | name | name entries IH | name]
    using node_induction; cbn [Scanner.scanDirectoryForSecrets];
    try solve [auto with silent].
  induction IH as [|file rest Hfile _ IHrest]; [auto with silent |].
  apply silent_bind; [| intros _; exact IHrest].
  destruct file as [fname content | dname dentries | sname].
  - repeat first [apply scan_content_silent | silent_step].
  - exact Hfile.
  - auto with silent.
Qed.

Lemma scanDirectoryForSecrets_finishes P dir :
  ends P true false (Scanner.scanDirectoryForSecrets dir).
Proof.
  induction dir as [name content | name | name entries IH | name]
    using node_induction; cbn [Scanner.scanDirectoryForSecrets];
    try solve [ends_tac].
  induction IH as [|file rest Hfile _ IHrest]; [auto with ends |].
  apply ends_bind; [| intros _; exact IHrest].
  destruct file as [fname content | dname dentries | sname].
  - repeat first [apply scan_content_total | ends_step].
  - exact Hfile.
  - auto with ends.
Qed.

Lemma scanSecrets_silent {L} tag m :
  silent m (@Scanner.scanSecrets L tag).
Proof.
  unfold Scanner.scanSecrets, Scanner.fs_ensureDir, Scanner.fs_remove,
    Scanner.fs_call.
  repeat first [apply scanDirectoryForSecrets_silent | silent_step].
Qed.

Lemma scanSecrets_total {L} P tag :
  ends P false false (@Scanner.scanSecrets L tag).
Proof.
  unfold Scanner.scanSecrets, Scanner.fs_ensureDir, Scanner.fs_remove,
    Scanner.fs_call.
  repeat first [apply scanDirectoryForSecrets_finishes | ends_step].
Qed.

Lemma scan_probes_silent {L} tag m :
  "parseSize" <> m -> silent m (@Scanner.scan_probes L tag).
Proof.
  intro Hm. unfold Scanner.scan_probes.
  apply silent_bind; [apply scanVulnerabilities_silent | intro].
  apply silent_bind; [apply getImageSize_silent | intro].
  apply silent_bind; [apply analyzeLayers_silent; exact Hm | intro].
  apply silent_bind; [apply scanSecrets_silent | intro].
  apply silent_bind; [apply analyzePermissions_silent | intro].
  apply silent_ret.
Qed.

Lemma scan_probes_total {L} P tag :
  ends P false false (@Scanner.scan_probes L tag).
Proof.
  unfold Scanner.scan_probes.
  apply ends_bind; [apply scanVulnerabilities_total | intro].
  apply ends_bind; [apply getImageSize_total | intro].
  apply ends_bind; [apply analyzeLayers_total | intro].
  apply ends_bind; [apply scanSecrets_total | intro].
  apply ends_bind; [apply analyzePermissions_total | intro].
  apply ends_ret.
Qed.

(** ** Release of the image *)

Lemma cleanupTempImage_returns {L} tag E (l : L) w :
  exists w',
    cleanupTempImage tag E l w = (Ret tt, l, w')
    /\ releases w' = tag :: releases w.
Proof.
  unfold cleanupTempImage, bind, emit, try_catch, execSync, ret.
  cbv beta iota zeta.
  match goal with
  | |- context [result (engine E ?w1 ?c)] =>
      destruct (result (engine E w1 c))
  end; eexists; split; reflexivity.
Qed.

Lemma with_image_tagged {L A} (build : M L string) (body : string -> M L A)
    s E l w :
  tag_given (Some s) = true ->
  with_image build body (Some s) E l w = body s E l w.
Proof.
  intro Hs. unfold with_image. rewrite Hs. cbn [negb].
  unfold bind at 1. unfold ret at 1. cbv beta iota zeta.
  unfold try_catch, bind, ret, throw.
  destruct (body s E l w) as [[[a | e |] l'] w']; reflexivity.
Qed.

Lemma with_image_untagged {L A} (build : M L string)
    (body : string -> M L A) imageTag E l w image l1 w1 :
  tag_given imageTag = false ->
  build E l w = (Ret image, l1, w1) ->
  match body image E l1 w1 with
  | (OutOfFuel, lb, wb) =>
      with_image build body imageTag E l w = (OutOfFuel, lb, wb)
  | (rb, lb, wb) =>
      exists w',
        with_image build body imageTag E l w = (rb, lb, w')
        /\ releases w' = image :: releases wb
  end.
Proof.
  intros Hs Hb.
  assert (Hacq :
    (match imageTag with
     | Some s => if tag_given imageTag then ret s else build
     | None => build
     end) = build).
  { destruct imageTag as [s |]; [rewrite Hs |]; reflexivity. }
  destruct (body image E l1 w1) as [[[a | e |] lb] wb] eqn:Hbody;
    try destruct (cleanupTempImage_returns image E lb wb)
      as (w' & Hc & Hr);
    try (exists w'; split; [| exact Hr]);
    unfold with_image; rewrite Hacq, Hs; cbn [negb];
    unfold try_catch, bind, throw, ret; rewrite Hb, Hbody;
    cbv beta iota zeta; try rewrite Hc; reflexivity.
Qed.

Lemma with_image_build_fails {L A} (build : M L string)
    (body : string -> M L A) imageTag E l w :
  tag_given imageTag = false ->
  (forall image, fst (fst (build E l w)) <> Ret image) ->
  snd (with_image build body imageTag E l w) = snd (build E l w)
  /\ forall a, fst (fst (with_image build body imageTag E l w)) <> Ret a.
Proof.
  intros Hs Hb. unfold with_image.
  assert (Hacq :
    (match imageTag with
     | Some s => if tag_given imageTag then ret s else build
     | None => build
     end) = build).
  { destruct imageTag as [s |]; [rewrite Hs |]; reflexivity. }
  rewrite Hacq. unfold bind.
  destruct (build E l w) as [[[image | e |] l1] w1]; cbn [fst snd] in *.
  - exfalso. apply (Hb image). reflexivity.
  - split; [reflexivity | intros a Ha; discriminate Ha].
  - split; [reflexivity | intros a Ha; discriminate Ha].
Qed.

Lemma buildTempImage_silent {L} m : silent m (@buildTempImage L).
Proof. unfold buildTempImage. silent_tac. Qed.

Lemma scanner_buildTempImage_silent {L} m :
  silent m (@Scanner.buildTempImage L).
Proof. unfold Scanner.buildTempImage. silent_tac. Qed.

(** The images released by the frame around a body that ends (with a
    result or with an exception) and does not release the image itself. *)
Lemma with_image_releases {L A} (P : env -> Prop) (build : M L string)
    (body : string -> M L A) imageTag E l w :
  P E ->
  quiet build ->
  (forall image, quiet (body image)) ->
  (forall image, ends P true false (body image)) ->
  releases (snd (with_image build body imageTag E l w))
  = if tag_given imageTag then releases w
    else match fst (fst (build E l w)) with
         | Ret image => image :: releases w
         | _ => releases w
         end.
Proof.
  intros HP Hq Hbq Hbe. unfold releases.
  destruct (tag_given imageTag) eqn:Hs.
  - destruct imageTag as [s |]; [| discriminate].
    rewrite with_image_tagged by exact Hs. apply Hbq.
  - pose proof (Hq E l w) as Hbuild. unfold same_calls in Hbuild.
    destruct (build E l w) as [[[image | e |] l1] w1] eqn:Hb.
    + pose proof (with_image_untagged build body imageTag E l w image l1 w1
                    Hs Hb) as Hrun.
      pose proof (Hbe image E HP l1 w1) as Hend.
      pose proof (Hbq image E l1 w1) as Hquiet.
      unfold same_calls in Hquiet.
      destruct (body image E l1 w1) as [[[a | e |] lb] wb];
        simpl in Hend, Hquiet, Hbuild |- *; try discriminate;
        destruct Hrun as (w' & -> & Hr); unfold releases in Hr; simpl;
        congruence.
    + destruct (with_image_build_fails build body imageTag E l w Hs)
        as (Hw & _); [rewrite Hb; discriminate |].
      rewrite Hw, Hb. exact Hbuild.
    + destruct (with_image_build_fails build body imageTag E l w Hs)
        as (Hw & _); [rewrite Hb; discriminate |].
      rewrite Hw, Hb. exact Hbuild.
Qed.

(** The frame passes on what the body returned or threw. *)
Lemma with_image_result {L A} (build : M L string) (body : string -> M L A)
    imageTag E l w image l1 w1 :
  tag_given imageTag = false ->
  build E l w = (Ret image, l1, w1) ->
  fst (fst (with_image build body imageTag E l w))
  = fst (fst (body image E l1 w1)).
Proof.
  intros Hs Hb.
  pose proof (with_image_untagged build body imageTag E l w image l1 w1
                Hs Hb) as Hrun.
  destruct (body image E l1 w1) as [[[a | e |] lb] wb];
    try destruct Hrun as (w' & -> & _); try rewrite Hrun; reflexivity.
Qed.

Lemma stats_env_monotone : monotone_clock stats_env.
Proof. split; intros; simpl; lia. Qed.

(** C3.  [cleanupTempImage] always returns, whether or not the removal of
    the image succeeds.  The frame of [testPerformance] and [scanImage]
    calls it exactly once, on the image that was built, when the caller
    gave no tag and the build returned, both when the probes return and
    when an exception propagates out of them, and it passes that result or
    exception on; it never calls it when the caller gave a tag (and not
    when the build itself failed, there being no image).  This holds of
    any body that does not release the image itself, and of the probes of
    [testPerformance] and of [scanImage] in particular. *)
Theorem image_released_exactly_once :
  (forall (L : Type) (tag : string) (E : env) (l : L) (w : world),
      exists w',
        cleanupTempImage tag E l w = (Ret tt, l, w')
        /\ releases w' = tag :: releases w)
  /\ (forall (L A : Type) (P : env -> Prop) (build : M L string)
             (body : string -> M L A) (imageTag : option string)
             (E : env) (l : L) (w : world),
         P E ->
         quiet build ->
         (forall image, quiet (body image)) ->
         (forall image, ends P true false (body image)) ->
         releases (snd (with_image build body imageTag E l w))
         = (if tag_given imageTag then releases w
            else match fst (fst (build E l w)) with
                 | Ret image => image :: releases w
                 | _ => releases w
                 end)
         /\ (forall image l1 w1,
                tag_given imageTag = false ->
                build E l w = (Ret image, l1, w1) ->
                fst (fst (with_image build body imageTag E l w))
                = fst (fst (body image E l1 w1))))
  /\ (forall (L : Type) (fuel : nat) (imageTag : option string)
             (E : env) (l : L) (w : world),
         (61 <= fuel)%nat ->
         monotone_clock E ->
         releases (snd (testPerformance fuel imageTag E l w))
         = if tag_given imageTag then releases w
           else match fst (fst (buildTempImage E l w)) with
                | Ret image => image :: releases w
                | _ => releases w
                end)
  /\ (forall (L : Type) (imageTag : option string)
             (E : env) (l : L) (w : world),
         releases (snd (Scanner.scanImage imageTag E l w))
         = if tag_given imageTag then releases w
           else match fst (fst (Scanner.buildTempImage E l w)) with
                | Ret image => image :: releases w
                | _ => releases w
                end).
Proof.
  split; [| split; [| split]].
  - intros. apply cleanupTempImage_returns.
  - intros L A P build body imageTag E l w HP Hq Hbq Hbe. split.
    + apply (with_image_releases P); assumption.
    + intros. apply with_image_result; assumption.
  - intros L fuel imageTag E l w Hf Hm. unfold testPerformance.
    apply (with_image_releases monotone_clock).
    + exact Hm.
    + apply buildTempImage_silent.
    + intro. apply performance_probes_silent. discriminate.
    + intro. apply ends_weaken. apply performance_probes_total. exact Hf.
  - intros L imageTag E l w. unfold Scanner.scanImage.
    apply (with_image_releases any_env).
    + exact I.
    + apply scanner_buildTempImage_silent.
    + intro. apply scan_probes_silent. discriminate.
    + intro. apply ends_weaken. apply scan_probes_total.
Qed.

(** A run without a tag on a concrete engine: the image built at time 1000
    is the one image released. *)
Lemma image_released_exactly_once_witness :
  (61 <= 61)%nat
  /\ monotone_clock stats_env
  /\ releases (snd (testPerformance 61 None stats_env tt world0))
     = ["trouter-perf-test-1000"].
Proof.
  split; [lia | split; [exact stats_env_monotone |]].
  destruct image_released_exactly_once as (_ & _ & Hperf & _).
  rewrite (Hperf unit 61%nat None stats_env tt world0
             (le_n 61) stats_env_monotone).
  vm_compute. reflexivity.
Defined.

(** ** Vulnerability buckets *)

Section Preserves.
Context {L : Type} (I : L -> Prop).

Lemma preserves_leaf {A} (c : M L A) :
  (forall E l w, snd (fst (c E l w)) = l) -> preserves I c.
Proof. intros H E l w Hl. rewrite H. exact Hl. Qed.

Lemma preserves_bind {A B} (c : M L A) (k : A -> M L B) :
  preserves I c -> (forall a, preserves I (k a)) -> preserves I (bind c k).
Proof.
  intros Hc Hk E l w Hl. unfold bind. specialize (Hc E l w Hl).
  destruct (c E l w) as [[[a | e |] l'] w']; simpl in *; auto.
  apply Hk. exact Hc.
Qed.

Lemma preserves_try_catch {A} (c : M L A) (h : exn -> M L A) :
  preserves I c -> (forall e, preserves I (h e)) ->
  preserves I (try_catch c h).
Proof.
  intros Hc Hh E l w Hl. unfold try_catch. specialize (Hc E l w Hl).
  destruct (c E l w) as [[[a | e |] l'] w']; simpl in *; auto.
  apply Hh. exact Hc.
Qed.

Lemma preserves_for_each {X} (xs : list X) (body : X -> M L unit) :
  (forall x, preserves I (body x)) -> preserves I (for_each xs body).
Proof.
  intro Hb. induction xs as [|x xs IH]; simpl.
  - apply preserves_leaf. reflexivity.
  - apply preserves_bind; auto.
Qed.

Lemma preserves_execSync cmd : preserves I (@execSync L cmd).
Proof.
  apply preserves_leaf. intros E l w. unfold execSync.
  destruct (result (engine E w cmd)); reflexivity.
Qed.

Lemma preserves_with_locals {L' A} (init : L') (c : M L' A) :
  preserves I (@with_locals L L' A init c).
Proof.
  apply preserves_leaf. intros E l w. unfold with_locals.
  destruct (c E init w) as [[r l'] w']. reflexivity.
Qed.

Lemma preserves_get_prop v k : preserves I (@Scanner.get_prop L v k).
Proof.
  apply preserves_leaf. intros E l w.
  destruct v as [[| | | | |] |]; reflexivity.
Qed.

End Preserves.

(** What a block that ends with reading the local variable returns. *)
Lemma returns_local {L A} (c : M L A) E l w r l' w' :
  bind c (fun _ => get_local) E l w = (Ret r, l', w') -> r = l'.
Proof.
  unfold bind, get_local.
  destruct (c E l w) as [[[a | e |] l1] w1]; congruence.
Qed.

Lemma tier_of_is_tier s :
  Scanner.mem_string (tier_of s) Scanner.severity_tiers = true.
Proof.
  unfold tier_of.
  destruct (Scanner.mem_string (toLowerCase s) Scanner.severity_tiers) eqn:H;
    [exact H | reflexivity].
Qed.

Lemma categorizeVulnerability_string {L} s E (l : L) w :
  Scanner.categorizeVulnerability (Some (JStr s)) E l w
  = (Ret (tier_of s), l, w).
Proof.
  unfold Scanner.categorizeVulnerability, tier_of.
  destruct (Scanner.mem_string (toLowerCase s) Scanner.severity_tiers);
    reflexivity.
Qed.

(** Pushing into a bucket named by a tier succeeds, puts the finding at
    the end of that bucket and, once counted, keeps the invariant. *)
Lemma bucket_push_tier category vuln v :
  Scanner.mem_string category Scanner.severity_tiers = true ->
  exists v',
    Scanner.bucket_push category vuln v = Some v'
    /\ (forall old, bucket category v = Some old ->
                    bucket category v' = Some (old ++ [vuln]))
    /\ (counted v -> counted (Scanner.total_incr v'))
    /\ Scanner.Vulnerabilities.total v' = Scanner.Vulnerabilities.total v.
Proof.
  intro Hm. destruct v as [c h m lo i t].
  unfold Scanner.mem_string, Scanner.severity_tiers in Hm.
  cbn [existsb] in Hm.
  unfold Scanner.bucket_push, bucket, counted.
  cbn [Scanner.Vulnerabilities.critical Scanner.Vulnerabilities.high
       Scanner.Vulnerabilities.medium Scanner.Vulnerabilities.low
       Scanner.Vulnerabilities.info Scanner.Vulnerabilities.total].
  destruct (String.eqb_spec category "critical") as [-> | ?].
  { eexists. split; [reflexivity |]. cbn. repeat split.
    - intros old [= <-]. reflexivity.
    - intros ->. rewrite length_app. simpl. lia. }
  destruct (String.eqb_spec category "high") as [-> | ?].
  { eexists. split; [reflexivity |]. cbn. repeat split.
    - intros old [= <-]. reflexivity.
    - intros ->. rewrite length_app. simpl. lia. }
  destruct (String.eqb_spec category "medium") as [-> | ?].
  { eexists. split; [reflexivity |]. cbn. repeat split.
    - intros old [= <-]. reflexivity.
    - intros ->. rewrite length_app. simpl. lia. }
  destruct (String.eqb_spec category "low") as [-> | ?].
  { eexists. split; [reflexivity |]. cbn. repeat split.
    - intros old [= <-]. reflexivity.
    - intros ->. rewrite length_app. simpl. lia. }
  destruct (String.eqb_spec category "info") as [-> | ?].
  { eexists. split; [reflexivity |]. cbn. repeat split.
    - intros old [= <-]. reflexivity.
    - intros ->. rewrite length_app. simpl. lia. }
  rewrite !orb_false_r in Hm.
  repeat match goal with
         | H : ?a <> ?b |- _ =>
             apply not_eq_sym in H; apply String.eqb_neq in H
         end.
  repeat match type of Hm with
         | (_ || _)%bool = true =>
             apply orb_true_iff in Hm; destruct Hm as [Hm | Hm]
         end; congruence.
Qed.

Lemma returns_its_local_get {L} : returns_its_local (@get_local L).
Proof. intros E l w r l' w' [= <- <- _]. reflexivity. Qed.

Lemma returns_its_local_bind {L A} (c : M L A) (k : A -> M L L) :
  (forall a, returns_its_local (k a)) -> returns_its_local (bind c k).
Proof.
  intros Hk E l w r l' w'. unfold bind.
  destruct (c E l w) as [[[a | e |] l1] w1]; try discriminate.
  apply Hk.
Qed.

Lemma returns_its_local_try_catch {L} (c : M L L) (h : exn -> M L L) :
  returns_its_local c -> (forall e, returns_its_local (h e)) ->
  returns_its_local (try_catch c h).
Proof.
  intros Hc Hh E l w r l' w'. unfold try_catch.
  destruct (c E l w) as [[[a | e |] l1] w1] eqn:Hrun; try discriminate.
  - intros [= <- <- _]. apply (Hc E l w a l1 w1 Hrun).
  - apply Hh.
Qed.

Lemma record_finding_string s vuln E l w :
  exists l',
    Scanner.record_finding (Some (JStr s)) vuln E l w = (Ret tt, l', w)
    /\ Scanner.Vulnerabilities.total l'
       = S (Scanner.Vulnerabilities.total l)
    /\ (counted l -> counted l')
    /\ (forall old, bucket (tier_of s) l = Some old ->
                    bucket (tier_of s) l' = Some (old ++ [vuln])).
Proof.
  destruct (bucket_push_tier (tier_of s) vuln l (tier_of_is_tier s))
    as (v' & Hpush & Hbucket & Hcount & Htotal).
  exists (Scanner.total_incr v').
  unfold Scanner.record_finding. unfold bind at 1.
  rewrite categorizeVulnerability_string.
  unfold bind at 1. unfold get_local at 1. cbv beta iota zeta.
  rewrite Hpush. repeat split.
  - cbn [Scanner.total_incr Scanner.Vulnerabilities.total]. congruence.
  - exact Hcount.
  - intros old Hold. specialize (Hbucket old Hold).
    destruct v'. exact Hbucket.
Qed.

Lemma record_finding_preserves sev vuln :
  preserves counted (Scanner.record_finding sev vuln).
Proof.
  intros E l w Hl.
  destruct sev as [[| | | s | |] |]; try exact Hl.
  destruct (record_finding_string s vuln E l w) as (l' & -> & _ & Hc & _).
  apply Hc. exact Hl.
Qed.

Lemma no_vulnerabilities_counted : counted Scanner.no_vulnerabilities.
Proof. reflexivity. Qed.

Ltac preserves_tac :=
  repeat first
    [ apply preserves_get_prop
    | apply record_finding_preserves
    | apply preserves_bind
    | apply preserves_try_catch
    | apply preserves_for_each
    | apply preserves_with_locals
    | apply preserves_execSync
    | match goal with
      | |- forall _, _ => intro
      | |- preserves _ (match ?x with _ => _ end) => destruct x
      end
    | apply preserves_leaf; reflexivity ].

Ltac own_local_tac :=
  repeat first
    [ apply returns_its_local_get
    | apply returns_its_local_bind
    | apply returns_its_local_try_catch
    | match goal with |- forall _, _ => intro end ].

(** A block that keeps the invariant and returns its local variable
    returns a counted report. *)
Lemma counted_result {L} (c : M Scanner.Vulnerabilities.t
                               Scanner.Vulnerabilities.t)
    E (l : L) w r l' w' :
  preserves counted c ->
  returns_its_local c ->
  with_locals Scanner.no_vulnerabilities c E l w = (Ret r, l', w') ->
  counted r.
Proof.
  intros Hpres Hown. unfold with_locals.
  pose proof (Hpres E Scanner.no_vulnerabilities w
                no_vulnerabilities_counted) as Hc.
  pose proof (Hown E Scanner.no_vulnerabilities w) as Ho.
  destruct (c E Scanner.no_vulnerabilities w) as [[r0 l0] w0].
  intros [= -> _ _]. simpl in Hc.
  rewrite (Ho r l0 w0 eq_refl). exact Hc.
Qed.

Lemma trivy_findings_preserves data :
  preserves counted (Scanner.trivy_findings data).
Proof. unfold Scanner.trivy_findings. preserves_tac. Qed.

Lemma trivy_findings_own data : returns_its_local (Scanner.trivy_findings data).
Proof. unfold Scanner.trivy_findings. own_local_tac. Qed.

Lemma basic_findings_preserves tag :
  preserves counted (Scanner.basic_findings tag).
Proof.
  unfold Scanner.basic_findings, Scanner.getImageOS,
    Scanner.checkCommonVulnerabilities.
  preserves_tac.
Qed.

Lemma basic_findings_own tag : returns_its_local (Scanner.basic_findings tag).
Proof. unfold Scanner.basic_findings. own_local_tac. Qed.

Lemma parseTrivyResults_counted {L} data E (l : L) w r l' w' :
  Scanner.parseTrivyResults data E l w = (Ret r, l', w') -> counted r.
Proof.
  apply counted_result;
    [apply trivy_findings_preserves | apply trivy_findings_own].
Qed.

Lemma basicVulnerabilityScan_counted {L} tag E (l : L) w :
  exists r w',
    Scanner.basicVulnerabilityScan tag E l w = (Ret r, l, w') /\ counted r.
Proof.
  destruct (ends_returns any_env _ (basicVulnerabilityScan_total any_env tag)
              E I l w) as (r & l' & w' & Hrun).
  assert (l' = l) as ->.
  { unfold Scanner.basicVulnerabilityScan, with_locals in Hrun.
    destruct (Scanner.basic_findings tag E Scanner.no_vulnerabilities w)
      as [[r0 l0] w0]. congruence. }
  exists r, w'. split; [exact Hrun |].
  apply (counted_result (Scanner.basic_findings tag) E l w r l w');
    [apply basic_findings_preserves | apply basic_findings_own | exact Hrun].
Qed.

(** On entries whose [Severity] is a string the loop of the Trivy parser
    never throws and counts every entry. *)
Lemma trivy_loop_counts vulns :
  Forall has_severity vulns ->
  forall E l w,
  exists l',
    for_each vulns (fun vuln =>
      severity <- Scanner.get_prop (Some vuln) "Severity" ;;
      pkgName <- Scanner.get_prop (Some vuln) "PkgName" ;;
      installed <- Scanner.get_prop (Some vuln) "InstalledVersion" ;;
      descr <- Scanner.get_prop (Some vuln) "Description" ;;
      fixed <- Scanner.get_prop (Some vuln) "FixedVersion" ;;
      Scanner.record_finding severity
        {| Scanner.Finding.package := pkgName;
           Scanner.Finding.version := installed;
           Scanner.Finding.severity := severity;
           Scanner.Finding.description := descr;
           Scanner.Finding.fix_ := fixed |}) E l w
    = (Ret tt, l', w)
    /\ Scanner.Vulnerabilities.total l'
       = (Scanner.Vulnerabilities.total l + List.length vulns)%nat.
Proof.
  induction 1 as [|vuln vulns (fields & s & -> & Hsev) _ IH]; intros E l w.
  - exists l. split; [reflexivity | simpl; lia].
  - cbn [for_each]. unfold bind at 1.
    unfold Scanner.get_prop at 1 2 3 4 5. unfold bind at 1 2 3 4 5.
    unfold ret at 1 2 3 4 5.
    cbv beta iota zeta. rewrite Hsev.
    match goal with
    | |- context [Scanner.record_finding (Some (JStr s)) ?v E l w] =>
        destruct (record_finding_string s v E l w) as (l1 & -> & Ht & _)
    end.
    destruct (IH E l1 w) as (l' & -> & Ht').
    exists l'. split; [reflexivity |]. cbn [List.length]. lia.
Qed.

Lemma parseTrivyResults_counts_all {L} fields ffields rest vulns E (l : L) w :
  lookup_key "Results" fields = Some (JArr (JObj ffields :: rest)) ->
  lookup_key "Vulnerabilities" ffields = Some (JArr vulns) ->
  Forall has_severity vulns ->
  exists r,
    Scanner.parseTrivyResults (JObj fields) E l w = (Ret r, l, w)
    /\ Scanner.Vulnerabilities.total r = List.length vulns.
Proof.
  intros Hres Hvul Hall.
  destruct (trivy_loop_counts vulns Hall E Scanner.no_vulnerabilities w)
    as (l' & Hloop & Ht).
  exists l'. split; [| exact Ht].
  unfold Scanner.parseTrivyResults, with_locals, Scanner.trivy_findings.
  unfold bind at 1. unfold Scanner.get_prop at 1. unfold ret at 1.
  rewrite Hres. cbv beta iota zeta. cbn [Scanner.json_truthy].
  unfold bind at 1. unfold bind at 1. unfold Scanner.get_prop at 1.
  unfold ret at 1.
  change (Scanner.index_of_key "0") with (Some 0%nat).
  cbn [nth_error]. cbv beta iota zeta. cbn [Scanner.json_truthy].
  unfold bind at 1. unfold Scanner.get_prop at 1. unfold ret at 1.
  rewrite Hvul. cbv beta iota zeta. cbn [Scanner.json_truthy].
  unfold ret at 1. cbv beta iota zeta.
  unfold bind at 1. rewrite Hloop. reflexivity.
Qed.

(** Recording a finding whose severity is a string puts it at the end of
    the bucket of its tier, leaves the other buckets alone and counts
    it. *)
Lemma record_finding_filed s vuln E c h m lo i t w :
  Scanner.Finding.severity vuln = Some (JStr s) ->
  Scanner.record_finding (Some (JStr s)) vuln E
    {| Scanner.Vulnerabilities.critical := c;
       Scanner.Vulnerabilities.high := h;
       Scanner.Vulnerabilities.medium := m;
       Scanner.Vulnerabilities.low := lo;
       Scanner.Vulnerabilities.info := i;
       Scanner.Vulnerabilities.total := t |} w
  = (Ret tt,
     {| Scanner.Vulnerabilities.critical :=
          c ++ filter (filed_under "critical") [vuln];
        Scanner.Vulnerabilities.high :=
          h ++ filter (filed_under "high") [vuln];
        Scanner.Vulnerabilities.medium :=
          m ++ filter (filed_under "medium") [vuln];
        Scanner.Vulnerabilities.low :=
          lo ++ filter (filed_under "low") [vuln];
        Scanner.Vulnerabilities.info :=
          i ++ filter (filed_under "info") [vuln];
        Scanner.Vulnerabilities.total := S t |}, w).
Proof.
  intro Hsev. unfold Scanner.record_finding. unfold bind at 1.
  rewrite categorizeVulnerability_string.
  unfold bind at 1. unfold get_local at 1. cbv beta iota zeta.
  cbn [filter]. unfold filed_under. rewrite Hsev.
  pose proof (tier_of_is_tier s) as Hm.
  remember (tier_of s) as T eqn:HT. clear HT Hsev.
  unfold Scanner.mem_string, Scanner.severity_tiers in Hm.
  cbn [existsb] in Hm. rewrite orb_false_r in Hm.
  repeat match type of Hm with
         | (_ || _)%bool = true =>
             apply orb_true_iff in Hm; destruct Hm as [Hm | Hm]
         end;
    apply String.eqb_eq in Hm; subst T; cbn; rewrite ?app_nil_r;
    reflexivity.
Qed.

(** The loop of the built-in scan over findings with string severities. *)
Lemma record_findings_filed findings :
  Forall (fun f => exists s, Scanner.Finding.severity f = Some (JStr s))
    findings ->
  forall E c h m lo i t w,
    for_each findings
      (fun vuln =>
         Scanner.record_finding (Scanner.Finding.severity vuln) vuln) E
      {| Scanner.Vulnerabilities.critical := c;
         Scanner.Vulnerabilities.high := h;
         Scanner.Vulnerabilities.medium := m;
         Scanner.Vulnerabilities.low := lo;
         Scanner.Vulnerabilities.info := i;
         Scanner.Vulnerabilities.total := t |} w
    = (Ret tt,
       {| Scanner.Vulnerabilities.critical :=
            c ++ filter (filed_under "critical") findings;
          Scanner.Vulnerabilities.high :=
            h ++ filter (filed_under "high") findings;
          Scanner.Vulnerabilities.medium :=
            m ++ filter (filed_under "medium") findings;
          Scanner.Vulnerabilities.low :=
            lo ++ filter (filed_under "low") findings;
          Scanner.Vulnerabilities.info :=
            i ++ filter (filed_under "info") findings;
          Scanner.Vulnerabilities.total := (t + List.length findings)%nat |},
       w).
Proof.
  induction 1 as [|vuln findings (s & Hs) _ IH]; intros E c h m lo i t w.
  - cbn. rewrite !app_nil_r, Nat.add_0_r. reflexivity.
  - cbn [for_each]. unfold bind at 1. rewrite Hs at 1.
    rewrite (record_finding_filed s vuln E c h m lo i t w Hs).
    rewrite IH.
    change (vuln :: findings) with ([vuln] ++ findings).
    rewrite !filter_app, !app_assoc, length_app.
    cbn [List.length]. rewrite Nat.add_succ_l, Nat.add_succ_r.
    reflexivity.
Qed.

Lemma getImageOS_returns {L} tag E (l : L) w :
  exists osInfo w1, Scanner.getImageOS tag E l w = (Ret osInfo, l, w1).
Proof.
  unfold Scanner.getImageOS, try_catch, bind, execSync, ret.
  destruct (result (engine E w _)); eexists; eexists; reflexivity.
Qed.

(** ** The secret scan *)

Section PureAppender.
Context {X : Type}.

Lemma pure_ret {A} (a : A) : pure_appender (@ret (list X) A a).
Proof.
  exists (Ret a), []. intros. unfold ret. now rewrite app_nil_r.
Qed.

Lemma pure_throw {A} e : pure_appender (@throw (list X) A e).
Proof.
  exists (Throw e), []. intros. unfold throw. now rewrite app_nil_r.
Qed.

Lemma pure_push (x : X) : pure_appender (push x).
Proof. exists (Ret tt), [x]. reflexivity. Qed.

Lemma pure_bind {A B} (c : M (list X) A) (k : A -> M (list X) B) :
  pure_appender c -> (forall a, pure_appender (k a)) ->
  pure_appender (bind c k).
Proof.
  intros (r1 & add1 & H1) Hk. destruct r1 as [a | e |].
  - destruct (Hk a) as (r2 & add2 & H2).
    exists r2, (add1 ++ add2). intros. unfold bind.
    rewrite H1, H2, app_assoc. reflexivity.
  - exists (Throw e), add1. intros. unfold bind. now rewrite H1.
  - exists OutOfFuel, add1. intros. unfold bind. now rewrite H1.
Qed.

Lemma pure_try_catch {A} (c : M (list X) A) (h : exn -> M (list X) A) :
  pure_appender c -> (forall e, pure_appender (h e)) ->
  pure_appender (try_catch c h).
Proof.
  intros (r1 & add1 & H1) Hh. destruct r1 as [a | e |].
  - exists (Ret a), add1. intros. unfold try_catch. now rewrite H1.
  - destruct (Hh e) as (r2 & add2 & H2).
    exists r2, (add1 ++ add2). intros. unfold try_catch.
    rewrite H1, H2, app_assoc. reflexivity.
  - exists OutOfFuel, add1. intros. unfold try_catch. now rewrite H1.
Qed.

Lemma pure_for_each {Y} (ys : list Y) (body : Y -> M (list X) unit) :
  (forall y, pure_appender (body y)) -> pure_appender (for_each ys body).
Proof.
  intro Hb. induction ys as [|y ys IH]; cbn [for_each].
  - apply pure_ret.
  - apply pure_bind; auto.
Qed.

End PureAppender.

Lemma scan_content_pure name text :
  pure_appender (Scanner.scan_content name text).
Proof.
  unfold Scanner.scan_content. apply pure_for_each. intros [re type].
  cbn [fst snd].
  destruct (Regex.count_matches _ re _); [apply pure_ret | apply pure_push].
Qed.

(** The scan of a directory is a function of the tree. *)
Lemma scanDirectoryForSecrets_pure dir :
  pure_appender (Scanner.scanDirectoryForSecrets dir).
Proof.
  induction dir as [name content | name | name entries IH | name]
    using node_induction; cbn [Scanner.scanDirectoryForSecrets];
    try apply pure_throw.
  induction IH as [|file rest Hfile _ IHrest]; [apply pure_ret |].
  apply pure_bind; [| intros _; exact IHrest].
  destruct file as [fname content | dname dentries | sname].
  - destruct (Scanner.shouldScanFile fname); [| apply pure_ret].
    apply pure_try_catch; [| intro; apply pure_ret].
    destruct content; [apply scan_content_pure | apply pure_throw].
  - exact Hfile.
  - apply pure_ret.
Qed.

Lemma scanDirectoryForSecrets_run dir E l w :
  exists r,
    Scanner.scanDirectoryForSecrets dir E l w = (r, l ++ secrets_in dir, w)
    /\ (scan_completes dir = true -> r = Ret tt)
    /\ (scan_completes dir = false -> exists e, r = Throw e).
Proof.
  destruct (scanDirectoryForSecrets_pure dir) as (r & added & H).
  pose proof (scanDirectoryForSecrets_finishes any_env dir silent_env I
                [] world0) as Hfin.
  unfold secrets_in, scan_completes. rewrite (H silent_env [] world0) in *.
  cbn [fst snd app] in *.
  exists r. split; [apply H |].
  destruct r as [[] | e |]; simpl in Hfin; split; intro Hc;
    try discriminate; eauto.
Qed.

Ltac run_scanSecrets :=
  unfold Scanner.scanSecrets, Scanner.fs_ensureDir, Scanner.fs_remove,
    Scanner.fs_call, console_log;
  unfold with_locals, try_catch, try_finally, bind, execSync, emit, get_env,
    Scanner.get_world, Scanner.set_disk, ret, throw, get_local;
  cbv beta iota zeta.

Section SecretScan.
Context {L : Type}.
Variables (E : env) (imageTag : string) (l : L) (w : world).

Lemma scanSecrets_create_fails :
  (forall w', exists m,
      result (engine E w' (create_cmd imageTag)) = Failed m) ->
  fst (fst (Scanner.scanSecrets imageTag E l w)) = Ret [].
Proof.
  intro Hc. unfold create_cmd in Hc. run_scanSecrets.
  match goal with
  | |- context [result (engine E ?w1 ("docker create " +++ imageTag))] =>
      destruct (Hc w1) as (m & ->)
  end.
  reflexivity.
Qed.

Variable out : string.
Hypothesis Hcreate :
  forall w', result (engine E w' (create_cmd imageTag)) = Exit0 out.

Lemma scanSecrets_ensureDir_fails :
  (forall w' path, fs_fails E w' "ensureDir" path = true) ->
  fst (fst (Scanner.scanSecrets imageTag E l w)) = Ret [].
Proof.
  intro Hf. unfold create_cmd in Hcreate. run_scanSecrets.
  rewrite Hcreate. cbv beta iota zeta. rewrite Hf. cbv beta iota zeta.
  match goal with
  | |- context [result (engine E ?w1 ("docker rm " +++ ?c))] =>
      destruct (result (engine E w1 ("docker rm " +++ c)))
  end; reflexivity.
Qed.

Hypothesis Hensure : forall w' path, fs_fails E w' "ensureDir" path = false.

Lemma scanSecrets_cp_fails :
  (forall w', exists m,
      result (engine E w' (cp_cmd E (trim out))) = Failed m) ->
  fst (fst (Scanner.scanSecrets imageTag E l w)) = Ret [].
Proof.
  intro Hcp. unfold create_cmd in Hcreate. unfold cp_cmd in Hcp.
  run_scanSecrets.
  rewrite Hcreate. cbv beta iota zeta. rewrite Hensure. cbv beta iota zeta.
  match goal with
  | |- context [match disk ?x with _ => _ end] => destruct (disk x)
  end;
    cbv beta iota zeta;
    match goal with
    | |- context [result (engine E ?w1 ("docker cp " +++ ?c))] =>
        destruct (Hcp w1) as (m & ->)
    end;
    cbv beta iota zeta;
    match goal with
    | |- context [result (engine E ?w1 ("docker rm " +++ ?c))] =>
        destruct (result (engine E w1 ("docker rm " +++ c)))
    end; reflexivity.
Qed.

Variables (copied : string) (appDir : node).
Hypothesis Hcp :
  forall w', result (engine E w' (cp_cmd E (trim out))) = Exit0 copied.
Hypothesis Happ :
  forall w' d,
    Scanner.find_app (on_disk (engine E w' (cp_cmd E (trim out))) d)
    = Some appDir.

Lemma scanSecrets_partial :
  fst (fst (Scanner.scanSecrets imageTag E l w)) = Ret (secrets_in appDir).
Proof.
  unfold create_cmd in Hcreate. unfold cp_cmd in Hcp, Happ.
  run_scanSecrets.
  rewrite Hcreate. cbv beta iota zeta. rewrite Hensure. cbv beta iota zeta.
  match goal with
  | |- context [match disk ?x with _ => _ end] => destruct (disk x)
  end; cbv beta iota zeta; rewrite Hcp; cbv beta iota zeta;
    unfold after_exec at 1; cbn [disk]; rewrite Happ;
    match goal with
    | |- context [Scanner.scanDirectoryForSecrets appDir E ?l1 ?w1] =>
        destruct (scanDirectoryForSecrets_run appDir E l1 w1)
          as (r & -> & Hr1 & Hr2)
    end;
    (destruct (scan_completes appDir);
     [rewrite (Hr1 eq_refl) | destruct (Hr2 eq_refl) as (e & ->)];
     cbv beta iota zeta;
     repeat match goal with
            | |- context [if ?b then _ else _] => destruct b
            | |- context [match result ?x with _ => _ end] =>
                destruct (result x)
            end; reflexivity).
Qed.

Hypothesis Hcomplete : scan_completes appDir = true.
Hypothesis Hremove : forall w' path, fs_fails E w' "remove" path = false.
Hypothesis Hrm :
  forall w' d, on_disk (engine E w' (rm_cmd (trim out))) d = d.

Lemma scanSecrets_removes_directory :
  disk (snd (Scanner.scanSecrets imageTag E l w)) = None.
Proof.
  unfold create_cmd in Hcreate. unfold cp_cmd in Hcp, Happ.
  unfold rm_cmd in Hrm.
  run_scanSecrets.
  rewrite Hcreate. cbv beta iota zeta. rewrite Hensure. cbv beta iota zeta.
  match goal with
  | |- context [match disk ?x with _ => _ end] => destruct (disk x)
  end; cbv beta iota zeta; rewrite Hcp; cbv beta iota zeta;
    unfold after_exec at 1; cbn [disk]; rewrite Happ;
    match goal with
    | |- context [Scanner.scanDirectoryForSecrets appDir E ?l1 ?w1] =>
        destruct (scanDirectoryForSecrets_run appDir E l1 w1)
          as (r & -> & Hr & _)
    end;
    rewrite (Hr Hcomplete); cbv beta iota zeta;
    rewrite Hremove; cbv beta iota zeta;
    match goal with
    | |- context [result (engine E ?w1 ("docker rm " +++ ?c))] =>
        destruct (result (engine E w1 ("docker rm " +++ c)))
    end; cbn [snd disk after_exec]; rewrite Hrm; reflexivity.
Qed.

End SecretScan.

Lemma with_locals_local {L L' A} (init : L') (c : M L' A) E (l : L) w :
  snd (fst (with_locals init c E l w)) = l.
Proof.
  unfold with_locals. destruct (c E init w) as [[? ?] ?]. reflexivity.
Qed.

(** C9, as stated, fails: on an image whose application directory holds a
    configuration file with a password followed by a directory that cannot
    be listed, the recursive scan fails, yet [scanSecrets] returns the
    finding made before the failure, and the extraction directory is still
    there when it returns; when [docker cp] fails the result is empty, but
    the directory created for the extraction is left behind as well. *)
Lemma scanSecrets_keeps_findings_and_directory :
  scan_completes guarded_app = false
  /\ (exists s,
         fst (fst (Scanner.scanSecrets "img" (extract_env [guarded_app])
                     tt world0)) = Ret [s])
  /\ disk (snd (Scanner.scanSecrets "img" (extract_env [guarded_app])
                  tt world0)) = Some [guarded_app]
  /\ fst (fst (Scanner.scanSecrets "img" cp_fail_env tt world0)) = Ret []
  /\ disk (snd (Scanner.scanSecrets "img" cp_fail_env tt world0)) = Some [].
Proof.
  split; [vm_compute; reflexivity |].
  split; [eexists; vm_compute; reflexivity |].
  repeat split; vm_compute; reflexivity.
Qed.

(** C9, amended.  [scanSecrets] never raises.  It returns the empty list
    when creating the container fails, when [fs.ensureDir] fails and when
    [docker cp] fails; once the extraction has produced the application
    directory it returns the findings the recursive scan collected, all of
    them when the scan runs to its end and those made up to the failure
    when it does not.  When creation, extraction, the scan and
    [fs.remove] all succeed and [docker rm] leaves the host directory
    alone, the extraction directory no longer exists when [scanSecrets]
    returns. *)
Theorem scanSecrets_limited_results :
  forall (L : Type) (E : env) (imageTag : string) (l : L) (w : world),
    (exists r w', Scanner.scanSecrets imageTag E l w = (Ret r, l, w'))
    /\ ((forall w', exists m,
            result (engine E w' (create_cmd imageTag)) = Failed m) ->
        fst (fst (Scanner.scanSecrets imageTag E l w)) = Ret [])
    /\ (forall out,
           (forall w', result (engine E w' (create_cmd imageTag)) = Exit0 out) ->
           ((forall w' path, fs_fails E w' "ensureDir" path = true) ->
            fst (fst (Scanner.scanSecrets imageTag E l w)) = Ret [])
           /\ ((forall w' path, fs_fails E w' "ensureDir" path = false) ->
               ((forall w', exists m,
                    result (engine E w' (cp_cmd E (trim out))) = Failed m) ->
                fst (fst (Scanner.scanSecrets imageTag E l w)) = Ret [])
               /\ (forall copied appDir,
                      (forall w',
                          result (engine E w' (cp_cmd E (trim out)))
                          = Exit0 copied) ->
                      (forall w' d,
                          Scanner.find_app
                            (on_disk (engine E w' (cp_cmd E (trim out))) d)
                          = Some appDir) ->
                      fst (fst (Scanner.scanSecrets imageTag E l w))
                      = Ret (secrets_in appDir)
                      /\ (scan_completes appDir = true ->
                          (forall w' path,
                              fs_fails E w' "remove" path = false) ->
                          (forall w' d,
                              on_disk (engine E w' (rm_cmd (trim out))) d
                              = d) ->
                          disk (snd (Scanner.scanSecrets imageTag E l w))
                          = None)))).
Proof.
  intros L E imageTag l w. split; [| split].
  - destruct (ends_returns any_env _ (scanSecrets_total any_env imageTag)
                E I l w) as (r & l' & w' & Hrun).
    exists r, w'. rewrite Hrun. f_equal. f_equal.
    change l' with (snd (fst (Ret r, l', w'))). rewrite <- Hrun.
    unfold Scanner.scanSecrets. unfold bind at 1.
    unfold console_log, emit. cbv beta iota zeta.
    apply with_locals_local.
  - apply scanSecrets_create_fails.
  - intros out Hcreate. split.
    + apply (scanSecrets_ensureDir_fails E imageTag l w out Hcreate).
    + intro Hensure. split.
      * apply (scanSecrets_cp_fails E imageTag l w out Hcreate Hensure).
      * intros copied appDir Hcp Happ. split.
        -- apply (scanSecrets_partial E imageTag l w out Hcreate Hensure
                    copied appDir Hcp Happ).
        -- intros Hc Hremove Hrm.
           apply (scanSecrets_removes_directory E imageTag l w out Hcreate
                    Hensure copied appDir Hcp Happ Hc Hremove Hrm).
Qed.

(** A scan in which every step succeeds: both findings are returned and
    the extraction directory is gone. *)
Lemma scanSecrets_limited_results_witness :
  scan_completes open_app = true
  /\ fst (fst (Scanner.scanSecrets "img" (extract_env [open_app]) tt world0))
     = Ret (secrets_in open_app)
  /\ disk (snd (Scanner.scanSecrets "img" (extract_env [open_app]) tt world0))
     = None.
Proof.
  assert (Hc : scan_completes open_app = true) by (vm_compute; reflexivity).
  split; [exact Hc |].
  destruct (scanSecrets_limited_results unit (extract_env [open_app]) "img"
              tt world0) as (_ & _ & Hpaths).
  destruct (Hpaths (line "c0ffee") (fun _ => eq_refl)) as (_ & Hextract).
  destruct (Hextract (fun _ _ => eq_refl)) as (_ & Hscan).
  destruct (Hscan "" open_app (fun _ => eq_refl) (fun _ _ => eq_refl))
    as (Hfound & Hgone).
  split; [exact Hfound |].
  apply Hgone; [exact Hc | intros; reflexivity | intros; reflexivity].
Defined.

(** ** Unit round trip *)

(** The matcher only succeeds by consuming a text of the language. *)
Lemma run_sound {A} (r : Regex.regex) :
  forall s caps (k : chars -> Regex.captures -> option A) x,
    Regex.run r s caps k = Some x ->
    exists w s' caps',
      s = w ++ s' /\ matches r w /\ k s' caps' = Some x.
Proof.
  induction r as [| p | a IHa b IHb | a IHa b IHb | a IHa | i a IHa];
    intros s caps k x Hrun; cbn [Regex.run] in Hrun.
  - exists [], s, caps. repeat split; [constructor | exact Hrun].
  - destruct s as [|c s']; [discriminate |].
    destruct (p c) eqn:Hp; [| discriminate].
    exists [c], s', caps. repeat split; [now constructor | exact Hrun].
  - apply IHa in Hrun. destruct Hrun as (u & s1 & c1 & -> & Hu & Hrun).
    apply IHb in Hrun. destruct Hrun as (v & s2 & c2 & -> & Hv & Hk).
    exists (u ++ v), s2, c2. rewrite app_assoc.
    repeat split; [now constructor | exact Hk].
  - destruct (Regex.run a s caps k) eqn:Ha.
    + injection Hrun as <-. apply IHa in Ha.
      destruct Ha as (u & s1 & c1 & -> & Hu & Hk).
      exists u, s1, c1. repeat split; [now apply m_alt_l | exact Hk].
    + apply IHb in Hrun. destruct Hrun as (u & s1 & c1 & -> & Hu & Hk).
      exists u, s1, c1. repeat split; [now apply m_alt_r | exact Hk].
  - remember (List.length s) as n eqn:Hn in Hrun. clear Hn.
    revert s caps Hrun.
    induction n as [|n IHn]; intros s caps Hrun.
    + exists [], s, caps. repeat split; [constructor | exact Hrun].
    + match type of Hrun with
      | match ?c with _ => _ end = _ => destruct c eqn:Hstep
      end.
      * injection Hrun as <-. apply IHa in Hstep.
        destruct Hstep as (u & s1 & c1 & -> & Hu & Hk).
        destruct (List.length s1 <? List.length (u ++ s1))%nat;
          [| discriminate].
        apply IHn in Hk. destruct Hk as (v & s2 & c2 & -> & Hv & Hk).
        exists (u ++ v), s2, c2. rewrite app_assoc.
        repeat split; [now apply m_star_cons | exact Hk].
      * exists [], s, caps. repeat split; [constructor | exact Hrun].
  - apply IHa in Hrun. destruct Hrun as (u & s1 & c1 & -> & Hu & Hk).
    exists u, s1. eexists. repeat split; [now constructor | exact Hk].
Qed.

(** A successful search found a text of the language inside the input. *)
Lemma search_sound r s m :
  Regex.search r s = Some m ->
  exists pre w post, s = pre ++ w ++ post /\ matches r w.
Proof.
  revert m. induction s as [|c s IH]; intros m; cbn [Regex.search].
  - destruct (Regex.match_here r []) eqn:Hm; [| discriminate].
    intros _. unfold Regex.match_here in Hm. apply run_sound in Hm.
    destruct Hm as (w & s' & _ & Hs & Hw & _).
    exists [], w, s'. split; [exact Hs | exact Hw].
  - destruct (Regex.match_here r (c :: s)) eqn:Hm.
    + intros _. unfold Regex.match_here in Hm. apply run_sound in Hm.
      destruct Hm as (w & s' & _ & Hs & Hw & _).
      exists [], w, s'. split; [exact Hs | exact Hw].
    + intro Hrest. destruct (IH m Hrest) as (pre & w & post & -> & Hw).
      exists (c :: pre), w, post. split; [reflexivity | exact Hw].
Qed.

Lemma matches_star_chars p w :
  matches (Regex.Star (Regex.Chr p)) w -> forallb p w = true.
Proof.
  intro H. remember (Regex.Star (Regex.Chr p)) as r eqn:Hr.
  induction H; try discriminate; [reflexivity |].
  injection Hr as ->. clear IHmatches1.
  inversion H as [| p' c Hc | | | | | |]; subst. simpl. rewrite Hc. auto.
Qed.

Lemma matches_plus_chars p w :
  matches (Regex.Plus (Regex.Chr p)) w -> w <> [] /\ forallb p w = true.
Proof.
  unfold Regex.Plus. intro H. inversion H as [| | a b u v Hu Hv | | | | |];
    subst.
  inversion Hu as [| p' c Hc | | | | | |]; subst.
  apply matches_star_chars in Hv.
  split; [discriminate |]. simpl. now rewrite Hc, Hv.
Qed.

Lemma matches_Lit s w : matches (Regex.Lit s) w -> w = s.
Proof.
  revert w. induction s as [|c s IH]; intros w H; cbn [Regex.Lit] in H.
  - inversion H. reflexivity.
  - inversion H as [| | a b u v Hu Hv | | | | |]; subst.
    unfold Regex.Lit1 in Hu. inversion Hu as [| p c' Hc | | | | | |]; subst.
    apply Ascii.eqb_eq in Hc. subst c'.
    rewrite (IH v Hv). reflexivity.
Qed.

Lemma forallb_weaken {X} (p q : X -> bool) l :
  (forall x, p x = true -> q x = true) ->
  forallb p l = true -> forallb q l = true.
Proof.
  intros Hpq. induction l as [|x l IH]; simpl; [auto |].
  intro H. apply andb_true_iff in H. destruct H as [Hx Hl].
  rewrite (Hpq x Hx), (IH Hl). reflexivity.
Qed.

(** The numeric group of the two size patterns consumes a non-empty run of
    digits and decimal points. *)
Lemma matches_numeric_group w :
  matches (Regex.Seq (Regex.Plus (Regex.Chr is_digit))
             (Regex.Seq (Regex.Opt (Regex.Lit1 "."))
                (Regex.Star (Regex.Chr is_digit)))) w ->
  w <> [] /\ forallb is_numeric w = true.
Proof.
  intro H. inversion H as [| | a b u v Hu Hv | | | | |]; subst.
  apply matches_plus_chars in Hu. destruct Hu as [Hne Hd].
  inversion Hv as [| | a b u2 v2 Hu2 Hv2 | | | | |]; subst.
  apply matches_star_chars in Hv2.
  assert (Hdigit : forall c, is_digit c = true -> is_numeric c = true).
  { intros c Hc. unfold is_numeric. now rewrite Hc. }
  assert (Hu2n : forallb is_numeric u2 = true).
  { unfold Regex.Opt in Hu2.
    inversion Hu2 as [| | | a b u3 Hl | a b u3 Hr | | |]; subst.
    - unfold Regex.Lit1 in Hl. inversion Hl as [| p c Hc | | | | | |]; subst.
      apply Ascii.eqb_eq in Hc. subst c. reflexivity.
    - inversion Hr. reflexivity. }
  split.
  - destruct u; [congruence | discriminate].
  - rewrite !forallb_app, Hu2n.
    rewrite (forallb_weaken _ _ _ Hdigit Hd).
    rewrite (forallb_weaken _ _ _ Hdigit Hv2). reflexivity.
Qed.

Lemma has_pair_join p q u c rest :
  u <> [] -> forallb p u = true -> q c = true ->
  has_pair p q (u ++ c :: rest) = true.
Proof.
  induction u as [|a u IH]; intros Hne Hu Hc; [congruence |].
  simpl in Hu. apply andb_true_iff in Hu. destruct Hu as [Ha Hu].
  destruct u as [|b u].
  - simpl. now rewrite Ha, Hc.
  - change (has_pair p q (a :: (b :: u) ++ c :: rest))
      with ((p a && q b) || has_pair p q ((b :: u) ++ c :: rest)).
    apply orb_true_iff. right.
    apply IH; [discriminate | exact Hu | exact Hc].
Qed.

Lemma has_pair_suffix p q pre w :
  has_pair p q w = true -> has_pair p q (pre ++ w) = true.
Proof.
  intro H. induction pre as [|c pre IH]; [exact H |].
  cbn [app]. destruct (pre ++ w) as [|d rest] eqn:Hd.
  - simpl in IH. discriminate.
  - change (has_pair p q (c :: d :: rest))
      with ((p c && q d) || has_pair p q (d :: rest)).
    apply orb_true_iff. right. exact IH.
Qed.

Lemma has_pair_prefix p q w post :
  has_pair p q w = true -> has_pair p q (w ++ post) = true.
Proof.
  induction w as [|c w IH]; [discriminate |].
  destruct w as [|d w]; [discriminate |].
  change (has_pair p q (c :: d :: w))
    with ((p c && q d) || has_pair p q (d :: w)).
  change (has_pair p q ((c :: d :: w) ++ post))
    with ((p c && q d) || has_pair p q ((d :: w) ++ post)).
  intro H. apply orb_true_iff in H. destruct H as [H | H].
  - now rewrite H.
  - apply orb_true_iff. right. exact (IH H).
Qed.

(** Every text the memory pattern matches has a digit or a decimal point
    directly followed by the first letter of a unit. *)
Lemma matches_memory_size_pair w :
  matches memory_size_re w ->
  has_pair is_numeric is_unit_initial w = true.
Proof.
  unfold memory_size_re. intro H.
  inversion H as [| | a b u v Hu Hv | | | | |]; subst.
  inversion Hu as [| | | | | | | i a u' Hg]; subst.
  apply matches_numeric_group in Hg. destruct Hg as [Hne Hnum].
  inversion Hv as [| | | | | | | i a v' Hunit]; subst.
  assert (Hv' : exists c rest, v = c :: rest /\ is_unit_initial c = true).
  { repeat match goal with
           | H : matches (Regex.Alt _ _) _ |- _ =>
               inversion H; subst; clear H
           end;
      match goal with
      | H : matches (lit _) _ |- _ =>
          apply matches_Lit in H; subst; eexists; eexists;
          split; reflexivity
      end. }
  destruct Hv' as (c & rest & -> & Hc).
  apply has_pair_join; assumption.
Qed.

(** A text in which no digit or decimal point is directly followed by the
    first letter of a unit is not matched by the memory pattern. *)
Lemma no_pair_no_match s :
  has_pair is_numeric is_unit_initial (list_ascii_of_string s) = false ->
  Regex.String_match memory_size_re 2 s = None.
Proof.
  intro Hno. unfold Regex.String_match.
  destruct (Regex.search memory_size_re (list_ascii_of_string s)) as [m |]
    eqn:Hs; [| reflexivity].
  apply search_sound in Hs. destruct Hs as (pre & w & post & Heq & Hw).
  apply matches_memory_size_pair in Hw.
  rewrite Heq in Hno.
  rewrite (has_pair_suffix _ _ pre _ (has_pair_prefix _ _ w post Hw)) in Hno.
  discriminate.
Qed.

(** *** What the formatter prints *)

Lemma digit_char_is_digit d : 0 <= d <= 9 -> is_digit (digit_char d) = true.
Proof.
  intro H.
  assert (Hd : d = 0 \/ d = 1 \/ d = 2 \/ d = 3 \/ d = 4 \/ d = 5 \/ d = 6
               \/ d = 7 \/ d = 8 \/ d = 9) by lia.
  repeat (destruct Hd as [-> | Hd]; [reflexivity |]). subst. reflexivity.
Qed.

Lemma nat_digits_are_digits fuel n acc :
  0 <= n -> forallb is_digit acc = true ->
  forallb is_digit (nat_digits fuel n acc) = true.
Proof.
  revert n acc. induction fuel as [|fuel IH]; intros n acc Hn Hacc;
    cbn [nat_digits]; [exact Hacc |].
  assert (Hd : is_digit (digit_char (n mod 10)) = true).
  { apply digit_char_is_digit. pose proof (Z.mod_pos_bound n 10). lia. }
  destruct (n <? 10).
  - simpl. now rewrite Hd, Hacc.
  - apply IH; [apply Z.div_pos; lia |]. simpl. now rewrite Hd, Hacc.
Qed.

Lemma numeric_not_unit_initial c :
  is_numeric c = true -> is_unit_initial c = false.
Proof.
  destruct c as [[] [] [] [] [] [] [] []]; try reflexivity; discriminate.
Qed.

Lemma has_pair_cons p q c d rest :
  has_pair p q (c :: d :: rest) = (p c && q d) || has_pair p q (d :: rest).
Proof. reflexivity. Qed.

Lemma list_ascii_of_string_app a b :
  list_ascii_of_string (a +++ b)
  = list_ascii_of_string a ++ list_ascii_of_string b.
Proof.
  induction a as [|c a IH]; [reflexivity |].
  cbn [String.append list_ascii_of_string app]. now rewrite IH.
Qed.

(** The text of a number holds no letter that starts a unit. *)
Lemma unit_free_app a b :
  unit_free (a ++ b) = unit_free a && unit_free b.
Proof. apply forallb_app. Qed.

Lemma unit_free_digits n : 0 <= n -> unit_free (Z_digits n) = true.
Proof.
  intro Hn. unfold unit_free, Z_digits.
  apply (forallb_weaken is_digit).
  - intros c Hc. rewrite numeric_not_unit_initial; [reflexivity |].
    unfold is_numeric. now rewrite Hc.
  - apply nat_digits_are_digits; [exact Hn | reflexivity].
Qed.

Lemma unit_free_sub (ds sub : chars) :
  (forall c, In c sub -> In c ds) ->
  unit_free ds = true -> unit_free sub = true.
Proof.
  unfold unit_free. rewrite !forallb_forall. auto.
Qed.

Lemma unit_free_zeros n : unit_free (repeat "0"%char n) = true.
Proof. induction n; [reflexivity | exact IHn]. Qed.

Lemma unit_free_format_decimal ds n :
  unit_free ds = true -> unit_free (format_decimal ds n) = true.
Proof.
  intro Hds. unfold format_decimal.
  assert (Hfirst : forall k, unit_free (firstn k ds) = true).
  { intro k. apply (unit_free_sub ds); [| exact Hds].
    intros c Hc. rewrite <- (firstn_skipn k ds). apply in_or_app. now left. }
  assert (Hskip : forall k, unit_free (skipn k ds) = true).
  { intro k. apply (unit_free_sub ds); [| exact Hds].
    intros c Hc. rewrite <- (firstn_skipn k ds). apply in_or_app. now right. }
  assert (Hexp : forall e,
             unit_free ((if e <? 0 then "-"%char else "+"%char)
                        :: Z_digits (Z.abs e)) = true).
  { intro e. change (unit_free (?c :: ?r))
      with (negb (is_unit_initial c) && unit_free r).
    rewrite unit_free_digits by lia. destruct (e <? 0); reflexivity. }
  destruct ((Z.of_nat (List.length ds) <=? n) && (n <=? 21)).
  { now rewrite unit_free_app, Hds, unit_free_zeros. }
  destruct ((0 <? n) && (n <=? 21)).
  { rewrite unit_free_app, Hfirst.
    change (unit_free ("."%char :: ?r)) with (unit_free r). apply Hskip. }
  destruct ((-6 <? n) && (n <=? 0)).
  { change (unit_free ("0"%char :: "."%char :: ?r)) with (unit_free r).
    now rewrite unit_free_app, unit_free_zeros, Hds. }
  destruct ds as [| d [| d' rest]]; [reflexivity | |].
  - change (unit_free (d :: "e"%char :: ?r))
      with (negb (is_unit_initial d) && unit_free r).
    rewrite Hexp. cbn in Hds. now rewrite andb_true_r in *.
  - change (unit_free (d :: "."%char :: ?r))
      with (negb (is_unit_initial d) && unit_free r).
    rewrite unit_free_app.
    change (unit_free ("e"%char :: ?r)) with (unit_free r).
    rewrite Hexp.
    change (unit_free (d :: d' :: rest))
      with (negb (is_unit_initial d) && unit_free (d' :: rest)) in Hds.
    apply andb_true_iff in Hds. destruct Hds as [-> ->]. reflexivity.
Qed.

Lemma shortest_nonneg fuel :
  forall a d n k, 0 <= a -> 0 < d -> 0 <= shortest fuel a d n k.
Proof.
  induction fuel as [| fuel IH]; intros a d n k Ha Hd; cbn [shortest].
  - pose proof (Z.pow_pos_nonneg 10 (Z.max 0 (k - n)) ltac:(lia) ltac:(lia)).
    pose proof (Z.pow_pos_nonneg 10 (Z.max 0 (n - k)) ltac:(lia) ltac:(lia)).
    assert (0 <= a * 10 ^ Z.max 0 (k - n) / (d * 10 ^ Z.max 0 (n - k)))
      by (apply Z.div_pos; nia).
    destruct (_ ?= _); [destruct (Z.even _) | |]; lia.
  - pose proof (Z.pow_pos_nonneg 10 (Z.max 0 (k - n)) ltac:(lia) ltac:(lia)).
    pose proof (Z.pow_pos_nonneg 10 (Z.max 0 (n - k)) ltac:(lia) ltac:(lia)).
    assert (0 <= a * 10 ^ Z.max 0 (k - n) / (d * 10 ^ Z.max 0 (n - k)))
      by (apply Z.div_pos; nia).
    destruct (round_trips a d n k _), (round_trips a d n k _);
      try lia; [| apply IH; assumption].
    destruct (_ ?= _); [destruct (Z.even _) | |]; lia.
Qed.

Lemma unit_free_positive a d :
  0 < a -> 0 < d -> unit_free (positive_to_chars a d) = true.
Proof.
  intros Ha Hd. unfold positive_to_chars.
  pose proof (shortest_nonneg 16 a d (magnitude a d) 1 ltac:(lia) Hd) as Hs.
  pose proof (unit_free_digits _ Hs) as Hds. cbv zeta.
  destruct (_ =? 10); apply unit_free_format_decimal;
    [reflexivity | exact Hds].
Qed.

Lemma unit_free_number x :
  unit_free (list_ascii_of_string (num_to_string x)) = true.
Proof.
  destruct x as [| | q |]; try reflexivity.
  unfold num_to_string. destruct (Qnum q) as [| n | n]; [reflexivity | |];
    rewrite list_ascii_of_string_of_list_ascii.
  - apply unit_free_positive; lia.
  - change (unit_free ("-"%char :: ?r)) with (unit_free r).
    apply unit_free_positive; lia.
Qed.

(** A text without such a letter, followed by a space and a unit: no digit
    or decimal point touches a unit. *)
Lemma spaced_unit_has_no_pair text unit :
  unit_free text = true ->
  In unit format_units ->
  has_pair is_numeric is_unit_initial
    (text ++ " "%char :: list_ascii_of_string unit) = false.
Proof.
  intros Htext Hunit.
  assert (Htail : has_pair is_numeric is_unit_initial
                    (" "%char :: list_ascii_of_string unit) = false).
  { unfold format_units in Hunit. simpl in Hunit.
    repeat (destruct Hunit as [<- | Hunit]; [reflexivity |]).
    contradiction. }
  induction text as [|c text IH]; [exact Htail |].
  change (unit_free (c :: text))
    with (negb (is_unit_initial c) && unit_free text) in Htext.
  apply andb_true_iff in Htext. destruct Htext as [Hc Htext].
  specialize (IH Htext).
  destruct text as [|d text]; cbn [app] in IH |- *; rewrite has_pair_cons, IH.
  - rewrite andb_false_r. reflexivity.
  - change (unit_free (d :: text))
      with (negb (is_unit_initial d) && unit_free text) in Htext.
    apply andb_true_iff in Htext. destruct Htext as [Hd _].
    apply negb_true_iff in Hd. rewrite Hd, andb_false_r. reflexivity.
Qed.

(** The loop of the formatter stops at one of the four units. *)
Lemma scale_down_index n :
  forall x i, (snd (scale_down n x i) <= i + n)%nat.
Proof.
  induction n as [| n IH]; intros x i; cbn [scale_down]; [cbn; lia |].
  destruct (Js.geb x (of_Z 1024)); [| cbn; lia].
  specialize (IH (Js.div x (of_Z 1024)) (S i)). lia.
Qed.

(** The text the formatter prints, for any number: the number scaled down
    as the loop does it, rounded to two decimals and printed, then a space
    and a unit. *)
Lemma formatMemorySize_text x :
  let scaled := scale_down 3 x 0 in
  formatMemorySize x
  = num_to_string (round2 (fst scaled)) +++ " "
    +++ nth (snd scaled) format_units "undefined"
  /\ In (nth (snd scaled) format_units "undefined") format_units.
Proof.
  intro scaled. unfold formatMemorySize.
  change (List.length format_units - 1)%nat with 3%nat.
  fold scaled. destruct scaled as [size unitIndex] eqn:Hs.
  split; [reflexivity |].
  pose proof (scale_down_index 3 x 0) as Hi. fold scaled in Hi.
  rewrite Hs in Hi. cbn [fst snd] in *.
  apply nth_In. cbn [List.length format_units]. lia.
Qed.

(** The parser finds no size in what the formatter prints. *)
Lemma parseMemorySize_of_format x :
  parseMemorySize (formatMemorySize x) = NaN.
Proof.
  destruct (formatMemorySize_text x) as [Hfmt Hunit]. cbv zeta in Hfmt.
  rewrite Hfmt. unfold parseMemorySize.
  rewrite no_pair_no_match; [reflexivity |].
  rewrite !list_ascii_of_string_app.
  apply spaced_unit_has_no_pair; [apply unit_free_number | exact Hunit].
Qed.

(** *** Scaling a byte count *)

Lemma geb_Fin_true q z :
  Js.geb (Fin q) (of_Z z) = true -> (inject_Z z <= q)%Q.
Proof.
  unfold Js.geb, Js.gtb, Js.ltb, Js.eqb, of_Z.
  destruct (inject_Z z ?= q)%Q eqn:Hc.
  - intros _. apply Qeq_alt in Hc. rewrite Hc. apply Qle_refl.
  - intros _. apply Qlt_alt in Hc. now apply Qlt_le_weak.
  - simpl. intro He. apply Qeq_bool_iff in He. rewrite He. apply Qle_refl.
Qed.

Lemma geb_Fin_false q z :
  Js.geb (Fin q) (of_Z z) = false -> (q < inject_Z z)%Q.
Proof.
  unfold Js.geb, Js.gtb, Js.ltb, Js.eqb, of_Z.
  destruct (inject_Z z ?= q)%Q eqn:Hc.
  - simpl. intro He. apply Qeq_alt in Hc. apply Qeq_bool_neq in He.
    exfalso. apply He. symmetry. exact Hc.
  - discriminate.
  - intros _. now apply Qgt_alt in Hc.
Qed.

Lemma pow1024_succ j :
  (inject_Z (1024 ^ Z.of_nat (S j)) == 1024 * inject_Z (1024 ^ Z.of_nat j))%Q.
Proof.
  rewrite Nat2Z.inj_succ, Z.pow_succ_r by lia.
  rewrite inject_Z_mult. reflexivity.
Qed.

Lemma pow1024_pos j : (0 < inject_Z (1024 ^ Z.of_nat j))%Q.
Proof.
  change 0%Q with (inject_Z 0). rewrite <- Zlt_Qlt.
  apply Z.pow_pos_nonneg; lia.
Qed.

(** Dividing a double of at least 1024 by 1024 is exact. *)
Lemma div_1024 q :
  nearest q = Fin q -> (1024 <= q)%Q ->
  Js.div (Fin q) (of_Z 1024) = Fin (Qred (q / 1024))
  /\ nearest (Qred (q / 1024)) = Fin (Qred (q / 1024)).
Proof.
  intros Hd Hge.
  assert (Hdiv : Js.div (Fin q) (of_Z 1024) = Fin (Qred (q / 1024))).
  { change (Js.div (Fin q) (of_Z 1024)) with (nearest (q / inject_Z (2 ^ 10))).
    apply (nearest_div_pow2 q 10); [lia | exact Hd | exact Hge]. }
  split; [exact Hdiv |].
  apply (nearest_idempotent (q / inject_Z (2 ^ 10))).
  exact Hdiv.
Qed.

(** The loop of the formatter on a double that is not negative: it divides
    by 1024 [j] times, exactly, and stops at the first value below 1024 or
    at the last unit. *)
Lemma scale_down_Fin n :
  forall q i,
  nearest q = Fin q ->
  exists q' j,
    scale_down n (Fin q) i = (Fin q', (i + j)%nat)
    /\ (j <= n)%nat
    /\ (q' * inject_Z (1024 ^ Z.of_nat j) == q)%Q
    /\ (j = n \/ (q' < 1024)%Q)
    /\ (j = 0%nat \/ (inject_Z (1024 ^ Z.of_nat j) <= q)%Q).
Proof.
  induction n as [|n IH]; intros q i Hd.
  - exists q, 0%nat. rewrite Nat.add_0_r. cbn [scale_down].
    repeat split; auto. simpl. ring.
  - cbn [scale_down]. destruct (Js.geb (Fin q) (of_Z 1024)) eqn:Hge.
    + apply geb_Fin_true in Hge.
      destruct (div_1024 q Hd Hge) as [Hdiv Hd'].
      rewrite Hdiv.
      destruct (IH (Qred (q / 1024)) (S i) Hd')
        as (q' & j & Hrun & Hj & Hq & Hstop & Hlow).
      rewrite Qred_correct in Hq, Hlow.
      exists q', (S j). rewrite Hrun.
      pose proof (pow1024_succ j) as Hp. pose proof (pow1024_pos j) as Hpos.
      repeat split.
      * f_equal. lia.
      * lia.
      * rewrite Hp.
        assert (Hq' : (q' * inject_Z (1024 ^ Z.of_nat j) * 1024
                       == q / 1024 * 1024)%Q) by (now rewrite Hq).
        assert (H1024 : (q / 1024 * 1024 == q)%Q) by (field).
        rewrite H1024 in Hq'. rewrite <- Hq'. ring.
      * destruct Hstop as [-> | Hlt]; [now left | now right].
      * right. rewrite Hp.
        destruct Hlow as [-> | Hlow].
        -- assert (Hge' : (1024 <= q)%Q) by exact Hge.
           change (Z.of_nat 0) with 0. rewrite Z.pow_0_r.
           change (inject_Z 1) with 1%Q. lra.
        -- assert (H1024 : (q / 1024 * 1024 == q)%Q) by (field).
           set (X := inject_Z (1024 ^ Z.of_nat j)) in *.
           set (y := (q / 1024)%Q) in *. lra.
    + apply geb_Fin_false in Hge.
      exists q, 0%nat. rewrite Nat.add_0_r.
      repeat split; auto; [lia | simpl; ring].
Qed.

(** The text the formatter prints for a whole byte count [b] up to
    [2 ^ 53]: the count divided by [1024 ^ j], exactly, then rounded to two
    decimals as [Math.round(size * 100) / 100] does in doubles, a space,
    and the [j]-th unit, [j] being the first index at which the scaled
    value is below 1024, or the last index. *)
Lemma formatMemorySize_shape b :
  0 <= b <= 2 ^ 53 ->
  exists j q,
    (j <= 3)%nat
    /\ (q * inject_Z (1024 ^ Z.of_nat j) == inject_Z b)%Q
    /\ formatMemorySize (of_Z b)
       = num_to_string (round2 (Fin q)) +++ " "
         +++ nth j format_units "undefined"
    /\ (j = 3%nat \/ b < 1024 * 1024 ^ Z.of_nat j)
    /\ (j = 0%nat \/ 1024 ^ Z.of_nat j <= b).
Proof.
  intro Hb.
  assert (Hd : nearest (inject_Z b) = Fin (inject_Z b))
    by (apply nearest_Z; lia).
  destruct (scale_down_Fin 3 (inject_Z b) 0 Hd)
    as (q' & j & Hrun & Hj & Hq & Hstop & Hlow).
  exists j, q'. pose proof (pow1024_pos j) as Hpos.
  set (P := 1024 ^ Z.of_nat j) in *.
  assert (HP : 0 < P) by (apply Z.pow_pos_nonneg; lia).
  split; [exact Hj | split; [exact Hq | split; [| split]]].
  - destruct (formatMemorySize_text (of_Z b)) as [Hfmt _].
    cbv zeta in Hfmt. unfold of_Z in Hfmt at 2 3. rewrite Hrun in Hfmt.
    exact Hfmt.
  - destruct Hstop as [-> | Hlt]; [now left | right].
    rewrite Zlt_Qlt, inject_Z_mult, <- Hq.
    change (inject_Z 1024) with 1024%Q.
    set (X := inject_Z P) in *. nra.
  - destruct Hlow as [-> | Hle]; [now left | right].
    rewrite Zle_Qle. exact Hle.
Qed.

(** *** Where the parsed strings come from *)

Lemma called_within_refl m p S w : called_within m p S w w.
Proof.
  split; [exists []; split; [reflexivity | constructor] | apply incl_refl].
Qed.

Lemma called_within_trans m p S w1 w2 w3 :
  called_within m p S w1 w2 -> called_within m p S w2 w3 ->
  called_within m p S w1 w3.
Proof.
  intros [(n1 & H1 & F1) I1] [(n2 & H2 & F2) I2]. split.
  - exists (n2 ++ n1). rewrite H2, H1, app_assoc. split; [reflexivity |].
    apply Forall_app. split; assumption.
  - eapply incl_tran; eassumption.
Qed.

(** A step that adds no call of [m] and forgets no output. *)
Lemma called_within_step m p S w w' :
  calls m w' = calls m w ->
  incl (outputs_of p w) (outputs_of p w') ->
  called_within m p S w w'.
Proof.
  intros Hc Hi. split; [| exact Hi].
  exists []. split; [exact Hc | constructor].
Qed.

Section CalledWithin.
Context {L : Type}.
Variables (m p : string) (S : string -> Prop).
Let W := called_within m p S.

Lemma cw_leaf {A} (c : M L A) :
  (forall E l w, calls m (snd (c E l w)) = calls m w
                 /\ incl (outputs_of p w) (outputs_of p (snd (c E l w)))) ->
  keeps W c.
Proof.
  intros H E l w. destruct (H E l w). now apply called_within_step.
Qed.

Lemma cw_ret {A} (a : A) : keeps W (@ret L A a).
Proof. apply cw_leaf. intros. split; [reflexivity | apply incl_refl]. Qed.

Lemma cw_throw {A} e : keeps W (@throw L A e).
Proof. apply cw_leaf. intros. split; [reflexivity | apply incl_refl]. Qed.

Lemma cw_console_log msg : keeps W (@console_log L msg).
Proof. apply cw_leaf. intros. split; [reflexivity | apply incl_refl]. Qed.

Lemma cw_sleep ms : keeps W (@sleep L ms).
Proof. apply cw_leaf. intros. split; [reflexivity | apply incl_refl]. Qed.

Lemma cw_get_local : keeps W (@get_local L).
Proof. apply cw_leaf. intros. split; [reflexivity | apply incl_refl]. Qed.

Lemma cw_execSync cmd : keeps W (@execSync L cmd).
Proof.
  apply cw_leaf. intros E l w. unfold execSync.
  destruct (result (engine E w cmd)) eqn:Hr; cbn [snd];
    (split; [reflexivity |]);
    unfold outputs_of, after_exec; cbn [log flat_map]; rewrite Hr;
    try apply incl_refl; apply incl_appr, incl_refl.
Qed.

Lemma cw_bind {A B} (c : M L A) (k : A -> M L B) :
  keeps W c -> (forall a, keeps W (k a)) -> keeps W (bind c k).
Proof.
  intros Hc Hk E l w. unfold bind. pose proof (Hc E l w) as H1.
  destruct (c E l w) as [[[a | e |] l'] w']; cbn [snd] in *; auto.
  eapply called_within_trans; [exact H1 | apply Hk].
Qed.

Lemma cw_try_catch {A} (c : M L A) (h : exn -> M L A) :
  keeps W c -> (forall e, keeps W (h e)) -> keeps W (try_catch c h).
Proof.
  intros Hc Hh E l w. unfold try_catch. pose proof (Hc E l w) as H1.
  destruct (c E l w) as [[[a | e |] l'] w']; cbn [snd] in *; auto.
  eapply called_within_trans; [exact H1 | apply Hh].
Qed.

Lemma cw_call {Y} (f : string -> Y) arg :
  S arg -> keeps W (@call L Y m f arg).
Proof.
  intros Hs E l w. unfold call, bind, emit, ret. cbn [snd]. split.
  - exists [arg]. split; [| now repeat constructor].
    unfold calls. cbn [log flat_map]. rewrite String.eqb_refl. reflexivity.
  - apply incl_refl.
Qed.

Lemma cw_map_M {Y} (f : string -> Y) xs :
  Forall S xs -> keeps W (map_M (@call L Y m f) xs).
Proof.
  induction 1 as [|x xs Hx _ IH]; cbn [map_M].
  - apply cw_ret.
  - apply cw_bind; [now apply cw_call | intro].
    apply cw_bind; [exact IH | intro]. apply cw_ret.
Qed.

End CalledWithin.

Lemma try_catch_bind {L A B} (c : M L A) (k : A -> M L B) h E l w :
  try_catch (bind c k) h E l w
  = match c E l w with
    | (Ret a, l', w') => try_catch (k a) h E l' w'
    | (Throw e, l', w') => h e E l' w'
    | (OutOfFuel, l', w') => (OutOfFuel, l', w')
    end.
Proof.
  unfold try_catch, bind. destruct (c E l w) as [[[a | e |] l'] w'];
    reflexivity.
Qed.

Lemma first_field xs :
  match nth 0 (map Some xs) None with
  | Some s => s
  | None => ""
  end = nth 0 xs "".
Proof. destruct xs; reflexivity. Qed.

(** From a world in which [out] is among the outputs, calls made within
    the pieces of [out] are calls fed by an output. *)
Lemma fed_by_from_output m p (from : string -> string -> Prop) out w0 w w' :
  calls m w = calls m w0 ->
  In out (outputs_of p w) ->
  called_within m p (from out) w w' ->
  fed_by m p from w0 w'.
Proof.
  intros Hc Hout [(new & Hnew & Hall) Hincl].
  exists new. rewrite Hnew, Hc. split; [reflexivity |].
  eapply Forall_impl; [| exact Hall].
  intros s Hs. exists out. split; [apply Hincl, Hout | exact Hs].
Qed.

Lemma output_recorded E w cmd p out :
  result (engine E w cmd) = Exit0 out ->
  startsWith cmd p = true ->
  In out (outputs_of p (after_exec E w cmd)).
Proof.
  intros Hr Hp. unfold outputs_of, after_exec. cbn [log flat_map].
  rewrite Hr, Hp. left. reflexivity.
Qed.

Lemma fed_by_silent m p from w w' :
  calls m w' = calls m w -> fed_by m p from w w'.
Proof. intro H. exists []. split; [exact H | constructor]. Qed.

(** Every string [measureMemoryUsage] hands to [parseMemorySize] is a
    piece of the output of the [docker stats] command it has just run. *)
Lemma measureMemoryUsage_fed {L} tag E (l : L) w :
  fed_by "parseMemorySize" stats_prefix
    (fun out s => In s (memory_pieces out))
    w (snd (measureMemoryUsage tag E l w)).
Proof.
  unfold measureMemoryUsage. unfold bind at 1. unfold console_log at 1.
  unfold emit at 1. cbv beta iota zeta.
  rewrite try_catch_bind. unfold execSync at 1.
  destruct (result (engine E _ _)) as [o1 | msg1];
    [| apply fed_by_silent; reflexivity].
  rewrite try_catch_bind. unfold sleep at 1. cbv beta iota zeta.
  rewrite try_catch_bind. unfold execSync at 1.
  match goal with
  | |- context [result (engine E ?w3 ?c)] =>
      destruct (result (engine E w3 c)) as [out | msg] eqn:Hstats;
      [| apply fed_by_silent; reflexivity]
  end.
  match goal with
  | |- fed_by _ _ _ _ (snd (try_catch ?K ?H E l ?w4)) =>
      apply (fed_by_from_output _ _ _ out w w4);
      [reflexivity
      | apply output_recorded; [exact Hstats | reflexivity]
      | ]
  end.
  apply cw_try_catch.
  - cbv zeta. unfold destructure2.
    apply cw_bind.
    + apply cw_map_M. rewrite first_field. apply Forall_forall.
      intros s Hs. exact Hs.
    + intro sizes.
      repeat first
        [ apply cw_bind | apply cw_execSync | apply cw_ret | apply cw_throw
        | match goal with
          | |- forall _, _ => intro
          | |- keeps _ (match ?x with _ => _ end) => destruct x
          end ].
  - intro e. apply cw_bind; [apply cw_console_log | intro; apply cw_ret].
Qed.

(** Each layer record comes from a line of the output, its size being the
    trimmed second column of that line. *)
Lemma layer_lines_run lines :
  forall E l w,
  exists r added,
    for_each lines Scanner.layer_of_line E l w = (r, l ++ added, w)
    /\ Forall (fun layer =>
                 exists line field,
                   In line lines
                   /\ nth_error (split tab line) 1 = Some field
                   /\ Scanner.Layer.size layer = trim field) added.
Proof.
  induction lines as [|line lines IH]; intros E l w.
  - exists (Ret tt), []. rewrite app_nil_r. split; [reflexivity | constructor].
  - cbn [for_each]. unfold bind at 1. unfold Scanner.layer_of_line at 1.
    unfold destructure2.
    destruct (split tab line) as [|f0 [|f1 rest]] eqn:Hsplit;
      cbn [map nth].
    + exists (Throw (Error ("TypeError: " +++
                "Cannot read properties of undefined, reading trim"))), [].
      rewrite app_nil_r. split; [reflexivity | constructor].
    + exists (Throw (Error ("TypeError: " +++
                "Cannot read properties of undefined, reading trim"))), [].
      rewrite app_nil_r. split; [reflexivity | constructor].
    + unfold push, bind, get_local, set_local. cbv beta iota zeta.
      destruct (IH E (l ++ [{| Scanner.Layer.command := trim f0;
                               Scanner.Layer.size := trim f1 |}]) w)
        as (r & added & Hrun & Hall).
      exists r. eexists. rewrite Hrun, <- app_assoc. split; [reflexivity |].
      constructor.
      * exists line, f1. rewrite Hsplit.
        split; [now left | split; reflexivity].
      * eapply Forall_impl; [| exact Hall].
        intros layer (ln & fld & Hin & Hf & Hs).
        exists ln, fld. split; [now right | split; assumption].
Qed.

Section SortWithin.
Context {L X : Type}.
Variables (m p : string) (S : string -> Prop) (Q : X -> Prop).
Variable cmp : X -> X -> M L num.
Hypothesis Hcmp :
  forall a b, Q a -> Q b -> keeps (called_within m p S) (cmp a b).

Lemma cw_insert_by x sorted :
  Q x -> Forall Q sorted ->
  forall E l w,
    called_within m p S w (snd (Scanner.insert_by cmp x sorted E l w))
    /\ forall res,
         fst (fst (Scanner.insert_by cmp x sorted E l w)) = Ret res ->
         Forall Q res.
Proof.
  intros Hx Hs. induction Hs as [|y rest Hy Hrest IH]; intros E l w;
    cbn [Scanner.insert_by].
  - split; [apply called_within_refl |].
    intros res [= <-]. now repeat constructor.
  - unfold bind at 1 3. pose proof (Hcmp y x Hy Hx E l w) as Hc.
    destruct (cmp y x E l w) as [[[c | e |] l1] w1]; cbn [fst snd] in *;
      [| split; [exact Hc | discriminate]
       | split; [exact Hc | discriminate]].
    destruct (Js.gtb c (of_Z 0)).
    + split; [exact Hc |]. intros res [= <-]. now repeat constructor.
    + unfold bind. destruct (IH E l1 w1) as [Hw Hres].
      destruct (Scanner.insert_by cmp x rest E l1 w1)
        as [[[r | e |] l2] w2]; cbn [fst snd] in *.
      * split; [eapply called_within_trans; eassumption |].
        intros res [= <-]. constructor; [exact Hy | now apply Hres].
      * split; [eapply called_within_trans; eassumption | discriminate].
      * split; [eapply called_within_trans; eassumption | discriminate].
Qed.

Lemma cw_sort_into xs :
  Forall Q xs ->
  forall sorted, Forall Q sorted ->
  forall E l w,
    called_within m p S w (snd (Scanner.sort_into cmp xs sorted E l w)).
Proof.
  induction 1 as [|x xs Hx _ IH]; intros sorted Hs E l w;
    cbn [Scanner.sort_into].
  - apply called_within_refl.
  - unfold bind. destruct (cw_insert_by x sorted Hx Hs E l w) as [Hw Hres].
    destruct (Scanner.insert_by cmp x sorted E l w)
      as [[[r | e |] l1] w1]; cbn [fst snd] in *; try exact Hw.
    eapply called_within_trans; [exact Hw |].
    apply IH. now apply Hres.
Qed.

Lemma cw_sort_by xs :
  Forall Q xs -> keeps (called_within m p S) (Scanner.sort_by cmp xs).
Proof.
  intros Hxs E l w. unfold Scanner.sort_by.
  apply cw_sort_into; [exact Hxs | constructor].
Qed.

End SortWithin.

(** Every string [analyzeLayers] hands to [parseSize] is the size column
    of a line of the output of the [docker history] command it has just
    run. *)
Lemma analyzeLayers_fed {L} tag E (l : L) w :
  fed_by "parseSize" history_prefix layer_size_of
    w (snd (Scanner.analyzeLayers tag E l w)).
Proof.
  unfold Scanner.analyzeLayers.
  rewrite try_catch_bind. unfold execSync at 1.
  destruct (result (engine E w _)) as [out | msg] eqn:Hhist;
    [| apply fed_by_silent; reflexivity].
  rewrite try_catch_bind. unfold with_locals at 1. unfold bind at 1.
  destruct (layer_lines_run (split Scanner.newline out) E []
              (after_exec E w
                 ("docker history " +++ tag +++ " --format " +++ dquote
                  +++ "{{.CreatedBy}}\t{{.Size}}" +++ dquote
                  +++ " --no-trunc")))
    as (r & added & Hrun & Hall).
  rewrite Hrun. cbn [app].
  destruct r as [[] | e |]; try (apply fed_by_silent; reflexivity).
  unfold get_local at 1. cbv beta iota zeta.
  match goal with
  | |- fed_by _ _ _ _ (snd (try_catch ?K ?H E l ?w1)) =>
      apply (fed_by_from_output _ _ _ out w w1);
      [reflexivity
      | apply output_recorded; [exact Hhist | reflexivity]
      | ]
  end.
  apply cw_try_catch; [| intro; apply cw_ret].
  apply cw_bind; [| intro; apply cw_ret].
  apply (cw_sort_by _ _ _ (fun layer => layer_size_of out
                                          (Scanner.Layer.size layer))).
  - intros a b Ha Hb. unfold Scanner.compare_layer_sizes.
    apply cw_bind; [now apply cw_call | intro].
    apply cw_bind; [now apply cw_call | intro]. apply cw_ret.
  - apply Forall_forall. intros layer Hin. apply filter_In in Hin.
    destruct Hin as [Hin _]. rewrite Forall_forall in Hall.
    destruct (Hall layer Hin) as (line & field & Hl & Hf & Hs).
    exists line, field. auto.
Qed.

(** The whole pipelines: neither class calls the parser of the other. *)
Lemma cleanupTempImage_silent {L} tag m :
  "cleanupTempImage" <> m -> silent m (@cleanupTempImage L tag).
Proof. intro Hm. unfold cleanupTempImage. silent_tac. Qed.

Lemma with_image_silent {L A} m (build : M L string)
    (body : string -> M L A) tag :
  "cleanupTempImage" <> m ->
  silent m build -> (forall image, silent m (body image)) ->
  silent m (with_image build body tag).
Proof.
  intros Hm Hbuild Hbody. unfold with_image.
  apply silent_bind; [destruct tag; [destruct (tag_given _) |];
                      first [apply silent_ret | exact Hbuild] |].
  intro image.
  apply silent_try_catch; [| intro e].
  - apply silent_bind; [apply Hbody | intro r].
    apply silent_bind; [| intro; apply silent_ret].
    destruct (negb _); [now apply cleanupTempImage_silent | apply silent_ret].
  - apply silent_bind; [| intro; apply silent_throw].
    destruct (negb _); [now apply cleanupTempImage_silent | apply silent_ret].
Qed.

Lemma testPerformance_never_parseSize {L} fuel tag :
  silent "parseSize" (@testPerformance L fuel tag).
Proof.
  unfold testPerformance. apply with_image_silent; [discriminate | |].
  - apply buildTempImage_silent.
  - intro image. apply performance_probes_silent. discriminate.
Qed.

Lemma scanImage_never_parseMemorySize {L} tag :
  silent "parseMemorySize" (@Scanner.scanImage L tag).
Proof.
  unfold Scanner.scanImage. apply with_image_silent; [discriminate | |].
  - apply scanner_buildTempImage_silent.
  - intro image. apply scan_probes_silent. discriminate.
Qed.

(** C6, as stated, fails: the formatter prints 2048 bytes as the number 2,
    a space and the unit KiB, in which the parser finds no size, so that
    parsing the formatted text yields no number at all. *)
Lemma formatted_size_does_not_parse :
  formatMemorySize (of_Z 2048) = "2 KiB"
  /\ parseMemorySize (formatMemorySize (of_Z 2048)) = NaN
  /\ ~ (forall b, 0 <= b ->
        exists v, parseMemorySize (formatMemorySize (of_Z b)) = Fin v).
Proof.
  split; [vm_compute; reflexivity |].
  split; [vm_compute; reflexivity |].
  intro H. destruct (H 2048 ltac:(lia)) as [v Hv].
  rewrite parseMemorySize_of_format in Hv. discriminate.
Qed.

(** C6, amended.  Whatever number it is given, [formatMemorySize] prints a
    number, a space and one of the units B, KiB, MiB and GiB, and
    [parseMemorySize] finds no size in that text and returns [NaN]: the
    formatter's output never parses back.  For a whole byte count [b] up to
    [2 ^ 53] the number printed is [b / 1024^j], which doubles hold exactly,
    rounded to two decimals as [Math.round(size * 100) / 100] computes it,
    where [j] is the first index at which the scaled count is below 1024,
    or the last one.  [measureMemoryUsage] hands [parseMemorySize] only the
    pieces of the usage column of the output of its own [docker stats]
    command and never calls [parseSize]; [analyzeLayers] hands [parseSize]
    only the size column of the lines of the output of its own
    [docker history] command and never calls [parseMemorySize]; the whole
    of [testPerformance] never calls [parseSize] and the whole of
    [scanImage] never calls [parseMemorySize].  The rounding is that of
    doubles: 720576149758935 bytes are a little less than 671088.835 GiB,
    the product with 100 rounds to 67108883.5, and 671088.84 GiB is
    printed. *)
Theorem formatter_output_and_parser_inputs :
  (forall x : num,
     exists unit,
       In unit format_units
       /\ formatMemorySize x
          = num_to_string (round2 (fst (scale_down 3 x 0))) +++ " " +++ unit
       /\ parseMemorySize (formatMemorySize x) = NaN)
  /\ (forall b, 0 <= b <= 2 ^ 53 ->
     exists j q,
       (j <= 3)%nat
       /\ (q * inject_Z (1024 ^ Z.of_nat j) == inject_Z b)%Q
       /\ formatMemorySize (of_Z b)
          = num_to_string (round2 (Fin q)) +++ " "
            +++ nth j format_units "undefined"
       /\ (j = 3%nat \/ b < 1024 * 1024 ^ Z.of_nat j)
       /\ (j = 0%nat \/ 1024 ^ Z.of_nat j <= b))
  /\ (forall (L : Type) (tag : string) (E : env) (l : L) (w : world),
        fed_by "parseMemorySize" stats_prefix
          (fun out s => In s (memory_pieces out))
          w (snd (measureMemoryUsage tag E l w))
        /\ fed_by "parseSize" history_prefix layer_size_of
             w (snd (Scanner.analyzeLayers tag E l w)))
  /\ (forall (L : Type) (tag : string),
        silent "parseSize" (@measureMemoryUsage L tag)
        /\ silent "parseMemorySize" (@Scanner.analyzeLayers L tag))
  /\ (forall (L : Type) (fuel : nat) (tag : option string),
        silent "parseSize" (@testPerformance L fuel tag))
  /\ (forall (L : Type) (tag : option string),
        silent "parseMemorySize" (@Scanner.scanImage L tag))
  /\ formatMemorySize (of_Z 720576149758935) = "671088.84 GiB".
Proof.
  split; [| split; [| split; [| split; [| split; [| split]]]]].
  - intro x. destruct (formatMemorySize_text x) as [Hfmt Hunit].
    cbv zeta in Hfmt. eexists. split; [exact Hunit |].
    split; [exact Hfmt | apply parseMemorySize_of_format].
  - intros b Hb. apply formatMemorySize_shape. exact Hb.
  - intros L tag E l w. split.
    + apply measureMemoryUsage_fed.
    + apply analyzeLayers_fed.
  - intros L tag. split.
    + apply measureMemoryUsage_silent. discriminate.
    + apply analyzeLayers_silent. discriminate.
  - intros L fuel tag. apply testPerformance_never_parseSize.
  - intros L tag. apply scanImage_never_parseMemorySize.
  - vm_compute. reflexivity.
Qed.

(** At 720576149758935 bytes the count is scaled by [1024^3] and printed
    with the unit GiB. *)
Lemma formatter_output_and_parser_inputs_witness :
  0 <= 720576149758935 <= 2 ^ 53
  /\ exists j q,
       (q * inject_Z (1024 ^ Z.of_nat j) == inject_Z 720576149758935)%Q
       /\ formatMemorySize (of_Z 720576149758935)
          = num_to_string (round2 (Fin q)) +++ " "
            +++ nth j format_units "undefined"
       /\ (j = 3%nat \/ 720576149758935 < 1024 * 1024 ^ Z.of_nat j).
Proof.
  assert (H0 : 0 <= 720576149758935 <= 2 ^ 53) by (split; discriminate).
  split; [exact H0 |].
  destruct (proj1 (proj2 formatter_output_and_parser_inputs)
              720576149758935 H0)
    as (j & q & _ & Hq & Hfmt & Hstop & _).
  exists j, q. repeat split; assumption.
Defined.

(** * Further properties of the two classes *)

(** ** The size parsers never scale *)

(** A pattern without groups leaves the captures as they are. *)
Lemma run_groupless {A} (r : Regex.regex) :
  groupless r = true ->
  forall s caps (k : chars -> Regex.captures -> option A) x,
    Regex.run r s caps k = Some x ->
    exists w s', s = w ++ s' /\ matches r w /\ k s' caps = Some x.
Proof.
  induction r as [| p | a IHa b IHb | a IHa b IHb | a IHa | i a IHa];
    intros Hg s caps k x Hrun; cbn [Regex.run groupless] in *.
  - exists [], s. repeat split; [constructor | exact Hrun].
  - destruct s as [|c s']; [discriminate |].
    destruct (p c) eqn:Hp; [| discriminate].
    exists [c], s'. repeat split; [now constructor | exact Hrun].
  - apply andb_true_iff in Hg. destruct Hg as [Ha Hb].
    apply (IHa Ha) in Hrun. destruct Hrun as (u & s1 & -> & Hu & Hrun).
    apply (IHb Hb) in Hrun. destruct Hrun as (v & s2 & -> & Hv & Hk).
    exists (u ++ v), s2. rewrite app_assoc.
    repeat split; [now constructor | exact Hk].
  - apply andb_true_iff in Hg. destruct Hg as [Ha Hb].
    destruct (Regex.run a s caps k) eqn:Hra.
    + injection Hrun as <-. apply (IHa Ha) in Hra.
      destruct Hra as (u & s1 & -> & Hu & Hk).
      exists u, s1. repeat split; [now apply m_alt_l | exact Hk].
    + apply (IHb Hb) in Hrun. destruct Hrun as (u & s1 & -> & Hu & Hk).
      exists u, s1. repeat split; [now apply m_alt_r | exact Hk].
  - remember (List.length s) as n eqn:Hn in Hrun. clear Hn.
    revert s caps Hrun.
    induction n as [|n IHn]; intros s caps Hrun.
    + exists [], s. repeat split; [constructor | exact Hrun].
    + match type of Hrun with
      | match ?c with _ => _ end = _ => destruct c eqn:Hstep
      end.
      * injection Hrun as <-. apply (IHa Hg) in Hstep.
        destruct Hstep as (u & s1 & -> & Hu & Hk).
        destruct (List.length s1 <? List.length (u ++ s1))%nat;
          [| discriminate].
        apply IHn in Hk. destruct Hk as (v & s2 & -> & Hv & Hk).
        exists (u ++ v), s2. rewrite app_assoc.
        repeat split; [now apply m_star_cons | exact Hk].
      * exists [], s. repeat split; [constructor | exact Hrun].
  - discriminate.
Qed.

Lemma firstn_consumed {X} (w rest : list X) :
  firstn (List.length (w ++ rest) - List.length rest) (w ++ rest) = w.
Proof.
  rewrite length_app, Nat.add_sub.
  rewrite firstn_app, Nat.sub_diag, firstn_all. cbn [firstn].
  apply app_nil_r.
Qed.

(** A match of a pattern made of two groups, the first numbered 1 and the
    second 2: the captures are the two texts the groups consumed. *)
Lemma match_here_two_groups N U s whole caps rest :
  groupless N = true -> groupless U = true ->
  Regex.match_here (Regex.Seq (Regex.Group 1 N) (Regex.Group 2 U)) s
  = Some (whole, caps, rest) ->
  exists n u,
    matches N n /\ matches U u /\ whole = n ++ u
    /\ caps = [(2%nat, u); (1%nat, n)].
Proof.
  intros HN HU Hm. unfold Regex.match_here in Hm. cbn [Regex.run] in Hm.
  apply (run_groupless N HN) in Hm.
  destruct Hm as (n & s1 & -> & Hn & Hm).
  apply (run_groupless U HU) in Hm.
  destruct Hm as (u & s2 & -> & Hu & Hm).
  exists n, u. injection Hm as <- <- <-.
  rewrite (firstn_consumed n (u ++ s2)), (firstn_consumed u s2).
  rewrite app_assoc, (firstn_consumed (n ++ u) s2).
  repeat split; assumption.
Qed.

Lemma search_here r s m :
  Regex.search r s = Some m ->
  exists pre s0, s = pre ++ s0 /\ Regex.match_here r s0 = Some m.
Proof.
  induction s as [|c s IH]; cbn [Regex.search].
  - destruct (Regex.match_here r []) eqn:Hm; [| discriminate].
    intros [= <-]. exists [], []. split; [reflexivity | exact Hm].
  - destruct (Regex.match_here r (c :: s)) eqn:Hm.
    + intros [= <-]. exists [], (c :: s). split; [reflexivity | exact Hm].
    + intro Hrest. destruct (IH Hrest) as (pre & s0 & -> & Hs0).
      exists (c :: pre), s0. split; [reflexivity | exact Hs0].
Qed.

(** The match array of such a pattern: the matched text, then the texts of
    the two groups. *)
Lemma String_match_two_groups N U s arr :
  groupless N = true -> groupless U = true ->
  Regex.String_match (Regex.Seq (Regex.Group 1 N) (Regex.Group 2 U)) 2 s
  = Some arr ->
  exists n u,
    matches N n /\ matches U u
    /\ arr = [Some (string_of_list_ascii (n ++ u));
              Some (string_of_list_ascii n);
              Some (string_of_list_ascii u)].
Proof.
  intros HN HU. unfold Regex.String_match.
  destruct (Regex.search _ (list_ascii_of_string s)) as [[[whole caps] rest] |]
    eqn:Hs; [| discriminate].
  intros [= <-]. apply search_here in Hs.
  destruct Hs as (pre & s0 & _ & Hm).
  apply match_here_two_groups in Hm; [| assumption | assumption].
  destruct Hm as (n & u & Hn & Hu & -> & ->).
  exists n, u. repeat split; assumption.
Qed.

(** A text that starts with a digit or a decimal point is not the name of
    a unit, in neither table. *)
Lemma numeral_is_no_unit n :
  n <> [] -> forallb is_numeric n = true ->
  lookup_key (string_of_list_ascii n) memory_units = None
  /\ lookup_key (string_of_list_ascii n) Scanner.size_units = None.
Proof.
  intros Hne Hnum. destruct n as [|c n]; [congruence |].
  simpl in Hnum. apply andb_true_iff in Hnum. destruct Hnum as [Hc _].
  apply numeric_not_unit_initial in Hc. unfold is_unit_initial in Hc.
  repeat (apply orb_false_iff in Hc; destruct Hc as [Hc ?]).
  unfold memory_units, Scanner.size_units.
  cbn [lookup_key string_of_list_ascii String.eqb].
  rewrite !(Ascii.eqb_sym _ c).
  repeat match goal with H : Ascii.eqb c _ = false |- _ => rewrite H; clear H end.
  split; reflexivity.
Qed.

(** [parseFloat] gives doubles, which multiplying by 1 leaves as they
    are. *)
Lemma decimal_literal_double s v rest :
  decimal_literal s = Some (v, rest) -> is_double v.
Proof.
  unfold decimal_literal. destruct (strip_sign s) as [neg s1].
  destruct (prefix_chars _ s1).
  - intros [= <- _]. destruct neg; exact I.
  - destruct (match drop_while is_digit s1 with
              | "."%char :: s2' => _
              | _ => _
              end) as [fp s3].
    destruct (exponent_part s3) as [e s4].
    destruct (take_while is_digit s1), fp; try discriminate;
      intros [= <- _]; apply nearest_is_double.
Qed.

Lemma parseFloat_double s : is_double (parseFloat s).
Proof.
  destruct s as [s |]; [| exact I].
  unfold parseFloat, parseFloat_chars.
  destruct (decimal_literal _) as [[v rest] |] eqn:Hd; [| exact I].
  exact (decimal_literal_double _ _ _ Hd).
Qed.

Lemma parseFloat_times_one s : Js.mul (parseFloat s) (of_Z 1) = parseFloat s.
Proof. apply mul_one, parseFloat_double. Qed.

Lemma numeric_group_groupless : groupless numeric_group = true.
Proof. reflexivity. Qed.

(** What either parser computes from the match array of its pattern. *)
Lemma scaled_match_is_number U (units : list (string * nat)) base s :
  groupless U = true ->
  (forall n, n <> [] -> forallb is_numeric n = true ->
             lookup_key (string_of_list_ascii n) units = None) ->
  (let arr :=
     match Regex.String_match
             (Regex.Seq (Regex.Group 1 numeric_group) (Regex.Group 2 U)) 2 s
     with
     | Some a => a
     | None => []
     end in
   let '(size, unit) := destructure2 arr in
   let e := match prop units unit with Some n => n | None => 0%nat end in
   Js.mul (parseFloat size) (Math_pow base e))
  = number_of_match
      (Regex.String_match
         (Regex.Seq (Regex.Group 1 numeric_group) (Regex.Group 2 U)) 2 s).
Proof.
  intros HU Hunits. cbv zeta.
  destruct (Regex.String_match _ 2 s) as [arr |] eqn:Hm; [| reflexivity].
  apply String_match_two_groups in Hm;
    [| exact numeric_group_groupless | exact HU].
  destruct Hm as (n & u & Hn & _ & ->).
  apply matches_numeric_group in Hn. destruct Hn as [Hne Hnum].
  unfold destructure2, number_of_match, prop. cbn [nth].
  rewrite (Hunits n Hne Hnum).
  change (Math_pow base 0) with (of_Z 1).
  apply parseFloat_times_one.
Qed.

(** X1.  Neither size parser ever applies a unit.  For every string,
    [parseMemorySize] and [parseSize] return the number that [parseFloat]
    reads at the start of the text their pattern matched ([NaN] when the
    pattern matches nothing): the name looked up in the table of units is
    the text of the numeric group, which is never a key of the table, so
    the factor is always the base to the power 0. *)
Theorem size_parsers_never_scale :
  forall s : string,
    parseMemorySize s
    = number_of_match (Regex.String_match memory_size_re 2 s)
    /\ Scanner.parseSize s
       = number_of_match (Regex.String_match Scanner.size_re 2 s).
Proof.
  intro s. split.
  - unfold parseMemorySize, memory_size_re.
    apply (scaled_match_is_number _ memory_units 1024 s); [reflexivity |].
    intros n Hne Hnum. apply (numeral_is_no_unit n Hne Hnum).
  - unfold Scanner.parseSize.
    destruct (String.eqb s "0B") eqn:Hz.
    + apply String.eqb_eq in Hz. subst s. vm_compute. reflexivity.
    + unfold Scanner.size_re.
      apply (scaled_match_is_number _ Scanner.size_units 1000 s);
        [reflexivity |].
      intros n Hne Hnum. apply (numeral_is_no_unit n Hne Hnum).
Qed.

(** ** Node.js versions *)

(** X2.  The two ranged entries of the list of vulnerable Node.js versions
    never apply to a version number: their base is compared as a prefix
    with its [.x] still in place.  For every version that does not start
    with the literal text [v18.x] or [v20.x], [isNodeVulnerable] returns
    without raising, and its answer is whether the version starts with
    [v14], [v15], [v16] or [v17]. *)
Theorem isNodeVulnerable_ranges_never_apply :
  forall (L : Type) (version : string) (E : env) (l : L) (w : world),
    startsWith version "v18.x" = false ->
    startsWith version "v20.x" = false ->
    Scanner.isNodeVulnerable version E l w
    = (Ret (startsWith version "v14" || startsWith version "v15"
            || startsWith version "v16" || startsWith version "v17"), l, w).
Proof.
  intros L version E l w H18 H20.
  unfold Scanner.isNodeVulnerable, Scanner.vulnerableVersions.
  cbn [Scanner.some_M].
  change (includes "v14.x" "<") with false.
  change (includes "v15.x" "<") with false.
  change (includes "v16.x" "<") with false.
  change (includes "v17.x" "<") with false.
  change (includes "v18.x < 18.17.0" "<") with true.
  change (includes "v20.x < 20.5.0" "<") with true.
  change (string_of_list_ascii
            (Scanner.remove_first_dot_x (list_ascii_of_string "v14.x")))
    with "v14".
  change (string_of_list_ascii
            (Scanner.remove_first_dot_x (list_ascii_of_string "v15.x")))
    with "v15".
  change (string_of_list_ascii
            (Scanner.remove_first_dot_x (list_ascii_of_string "v16.x")))
    with "v16".
  change (string_of_list_ascii
            (Scanner.remove_first_dot_x (list_ascii_of_string "v17.x")))
    with "v17".
  change (destructure2
            (map (fun s => Some (trim s)) (split "<" "v18.x < 18.17.0")))
    with (Some "v18.x", Some "18.17.0").
  change (destructure2
            (map (fun s => Some (trim s)) (split "<" "v20.x < 20.5.0")))
    with (Some "v20.x", Some "20.5.0").
  cbv beta iota. rewrite H18, H20.
  unfold bind, ret.
  destruct (startsWith version "v14"), (startsWith version "v15"),
    (startsWith version "v16"), (startsWith version "v17"); reflexivity.
Qed.

(** Node.js 18.12.0, older than the 18.17.0 of the list, is not
    reported. *)
Lemma isNodeVulnerable_ranges_never_apply_witness :
  startsWith "v18.12.0" "v18.x" = false
  /\ startsWith "v18.12.0" "v20.x" = false
  /\ fst (fst (Scanner.isNodeVulnerable "v18.12.0" silent_env tt world0))
     = Ret false.
Proof.
  split; [reflexivity | split; [reflexivity |]].
  rewrite (isNodeVulnerable_ranges_never_apply unit "v18.12.0" silent_env tt
             world0 eq_refl eq_refl).
  reflexivity.
Defined.

(** ** Comparing versions *)

Lemma sub_swap a b : Js.sub b a = Js.neg (Js.sub a b).
Proof.
  destruct a as [| | x |], b as [| | y |]; try reflexivity.
  unfold Js.sub, Js.add. cbn [Js.neg].
  rewrite <- nearest_opp. apply nearest_compat.
  rewrite !Qred_correct. ring.
Qed.

Lemma eqb_zero_neg d : Js.eqb (Js.neg d) (of_Z 0) = Js.eqb d (of_Z 0).
Proof.
  destruct d as [| | q |]; try reflexivity.
  unfold Js.neg, Js.eqb, of_Z.
  destruct (Qeq_bool q (inject_Z 0)) eqn:Hq.
  - apply Qeq_bool_iff. apply Qeq_bool_iff in Hq.
    rewrite Qred_correct, Hq. reflexivity.
  - apply not_true_is_false. intro H. apply Qeq_bool_iff in H.
    rewrite Qred_correct in H.
    assert (Hz : (q == inject_Z 0)%Q).
    { rewrite <- (Qopp_involutive q), H. reflexivity. }
    apply Qeq_bool_iff in Hz. congruence.
Qed.

Lemma compare_components_swap n :
  forall a b,
    Scanner.compare_components n b a
    = Js.neg (Scanner.compare_components n a b).
Proof.
  induction n as [|n IH]; intros a b; cbn [Scanner.compare_components].
  - reflexivity.
  - cbv zeta. rewrite (sub_swap (or_zero (hd_error a)) (or_zero (hd_error b))).
    rewrite eqb_zero_neg.
    destruct (Js.eqb (Js.sub (or_zero (hd_error a)) (or_zero (hd_error b)))
                (of_Z 0)); cbn [negb]; [apply IH | reflexivity].
Qed.

(** X3.  [compareVersions] is antisymmetric: on any two strings it returns
    without raising, and swapping the arguments negates the result, so
    that one version is below the other exactly when the other is above
    it. *)
Theorem compareVersions_antisymmetric :
  forall (L : Type) (v1 v2 : string) (E : env) (l : L) (w : world),
  exists d,
    Scanner.compareVersions (Some (JStr v1)) (Some (JStr v2)) E l w
    = (Ret d, l, w)
    /\ Scanner.compareVersions (Some (JStr v2)) (Some (JStr v1)) E l w
       = (Ret (Js.neg d), l, w)
    /\ Js.gtb (Js.neg d) (of_Z 0) = Js.ltb d (of_Z 0).
Proof.
  intros L v1 v2 E l w. unfold Scanner.compareVersions, ret.
  eexists. split; [reflexivity |]. split.
  - rewrite Nat.max_comm, compare_components_swap. reflexivity.
  - generalize (Scanner.compare_components
                  (Nat.max (List.length (Scanner.normalize_version v1))
                           (List.length (Scanner.normalize_version v2)))
                  (Scanner.normalize_version v1)
                  (Scanner.normalize_version v2)).
    intros [| | q |]; try reflexivity.
    unfold Js.neg, Js.gtb, Js.ltb, of_Z.
    destruct (Qcompare_spec q (inject_Z 0)) as [Hq | Hq | Hq].
    + assert (H : (inject_Z 0 == Qred (- q))%Q)
        by (rewrite Qred_correct, Hq; reflexivity).
      apply Qeq_alt in H. unfold Qcompare in H |- *. rewrite H. reflexivity.
    + assert (H : (inject_Z 0 < Qred (- q))%Q).
      { rewrite Qred_correct. change (inject_Z 0) with (- inject_Z 0)%Q.
        apply Qopp_lt_compat. exact Hq. }
      apply Qlt_alt in H. unfold Qcompare in H |- *. rewrite H. reflexivity.
    + assert (H : (Qred (- q) < inject_Z 0)%Q).
      { rewrite Qred_correct. change (inject_Z 0) with (- inject_Z 0)%Q.
        apply Qopp_lt_compat. exact Hq. }
      apply Qgt_alt in H. unfold Qcompare in H |- *. rewrite H. reflexivity.
Qed.

(** ** The built-in advisories *)

Lemma compareVersions_local {L} v1 v2 E (l : L) w :
  snd (fst (Scanner.compareVersions v1 v2 E l w)) = l
  /\ snd (Scanner.compareVersions v1 v2 E l w) = w.
Proof.
  unfold Scanner.compareVersions.
  destruct v1 as [[| | | | |] |], v2 as [[| | | | |] |]; split; reflexivity.
Qed.

Lemma isVersionInRange_local {L} v range E (l : L) w :
  snd (fst (Scanner.isVersionInRange v range E l w)) = l
  /\ snd (Scanner.isVersionInRange v range E l w) = w.
Proof.
  unfold Scanner.isVersionInRange.
  destruct (startsWith range "<"); [| split; reflexivity].
  unfold bind.
  destruct (compareVersions_local v
              (Some (JStr (trim (substring 1 (String.length range) range))))
              E l w) as [Hl Hw].
  destruct (Scanner.compareVersions _ _ E l w) as [[[d | e |] l1] w1];
    cbn [fst snd] in *; subst; split; reflexivity.
Qed.

(** An advisory found in the table is one of its four rows. *)
Lemma advisory_lookup name vuln :
  lookup_key name Scanner.vulnerablePackages = Some vuln ->
  In name advisory_names
  /\ (Scanner.Advisory.severity vuln = "high"
      \/ Scanner.Advisory.severity vuln = "medium").
Proof.
  unfold advisory_names, Scanner.vulnerablePackages. cbn [lookup_key map fst].
  repeat match goal with
         | |- context [String.eqb ?k name] =>
             destruct (String.eqb_spec k name) as [<- | _]
         end;
    try discriminate; intros [= <-]; cbn [In Scanner.Advisory.severity];
    split; auto 10.
Qed.

(** What [checkPackageVulnerability] leaves behind and what it reports. *)
Lemma checkPackageVulnerability_run {L} pkg E (l : L) w :
  snd (fst (Scanner.checkPackageVulnerability pkg E l w)) = l
  /\ snd (Scanner.checkPackageVulnerability pkg E l w) = w
  /\ forall f,
       fst (fst (Scanner.checkPackageVulnerability pkg E l w))
       = Ret (Some f) ->
       In (Scanner.Package.name pkg) advisory_names
       /\ Scanner.Finding.package f
          = Some (JStr (Scanner.Package.name pkg))
       /\ Scanner.Finding.version f = Scanner.Package.version pkg
       /\ high_or_medium f.
Proof.
  unfold Scanner.checkPackageVulnerability.
  destruct (lookup_key (Scanner.Package.name pkg) Scanner.vulnerablePackages)
    as [vuln |] eqn:Hlook.
  - apply advisory_lookup in Hlook. destruct Hlook as [Hin Hsev].
    assert (Hfinal :
      forall hit f,
        fst (fst ((if hit : bool
                   then ret (Some
                     {| Scanner.Finding.package :=
                          Some (JStr (Scanner.Package.name pkg));
                        Scanner.Finding.version := Scanner.Package.version pkg;
                        Scanner.Finding.severity :=
                          Some (JStr (Scanner.Advisory.severity vuln));
                        Scanner.Finding.description :=
                          Some (JStr (Scanner.Advisory.description vuln));
                        Scanner.Finding.fix_ :=
                          Some (JStr "Update to latest version") |})
                   else ret None) E l w)) = Ret (Some f) ->
        In (Scanner.Package.name pkg) advisory_names
        /\ Scanner.Finding.package f
           = Some (JStr (Scanner.Package.name pkg))
        /\ Scanner.Finding.version f = Scanner.Package.version pkg
        /\ high_or_medium f).
    { intros [] f; [| discriminate]. intros [= <-].
      repeat split; try assumption.
      unfold high_or_medium. cbn [Scanner.Finding.severity].
      destruct Hsev as [-> | ->]; auto. }
    unfold bind.
    assert (Hhit :
      forall c : M L bool,
        c = (if String.eqb (Scanner.Advisory.versions vuln) "*"
             then ret true
             else Scanner.isVersionInRange (Scanner.Package.version pkg)
                    (Scanner.Advisory.versions vuln)) ->
        snd (fst (c E l w)) = l /\ snd (c E l w) = w).
    { intros c ->.
      destruct (String.eqb (Scanner.Advisory.versions vuln) "*");
        [split; reflexivity | apply isVersionInRange_local]. }
    specialize (Hhit _ eq_refl).
    destruct ((if String.eqb (Scanner.Advisory.versions vuln) "*"
               then ret true
               else Scanner.isVersionInRange (Scanner.Package.version pkg)
                      (Scanner.Advisory.versions vuln)) E l w)
      as [[[hit | e |] l1] w1]; cbn [fst snd] in Hhit;
      destruct Hhit as [-> ->].
    + split; [destruct hit; reflexivity |].
      split; [destruct hit; reflexivity | apply Hfinal].
    + repeat split; discriminate.
    + repeat split; discriminate.
  - destruct (Scanner.mem_string _ _); repeat split; discriminate.
Qed.

(** X4.  [checkPackageVulnerability] only ever reports the four packages
    of its table (lodash, axios, request, moment), with the name and the
    version of the package it was given and with severity high or medium.
    It reports [request] whatever its version, a missing one included.
    For a package named like a property every object inherits
    ([constructor], [toString], ...) the lookup in the table finds that
    property, and the call raises an error instead of answering [null]. *)
Theorem checkPackageVulnerability_reports :
  forall (L : Type) (pkg : Scanner.Package.t) (E : env) (l : L) (w : world),
    (forall f l' w',
        Scanner.checkPackageVulnerability pkg E l w = (Ret (Some f), l', w') ->
        In (Scanner.Package.name pkg) ["lodash"; "axios"; "request"; "moment"]
        /\ Scanner.Finding.package f
           = Some (JStr (Scanner.Package.name pkg))
        /\ Scanner.Finding.version f = Scanner.Package.version pkg
        /\ high_or_medium f)
    /\ (Scanner.Package.name pkg = "request" ->
        exists f,
          Scanner.checkPackageVulnerability pkg E l w = (Ret (Some f), l, w)
          /\ Scanner.Finding.severity f = Some (JStr "high"))
    /\ (In (Scanner.Package.name pkg) Scanner.inherited_keys ->
        exists e,
          Scanner.checkPackageVulnerability pkg E l w = (Throw e, l, w)).
Proof.
  intros L pkg E l w. split; [| split].
  - intros f l' w' Hrun.
    destruct (checkPackageVulnerability_run pkg E l w) as (_ & _ & Hf).
    apply Hf. rewrite Hrun. reflexivity.
  - intro Hname. unfold Scanner.checkPackageVulnerability. rewrite Hname.
    eexists. split; reflexivity.
  - intro Hin. unfold Scanner.checkPackageVulnerability.
    unfold Scanner.inherited_keys in Hin. cbn [In] in Hin.
    repeat (destruct Hin as [<- | Hin]; [eexists; reflexivity |]).
    contradiction.
Qed.

(** The package [request] without a version, and a package named
    [constructor]. *)
Lemma checkPackageVulnerability_reports_witness :
  (exists f,
      Scanner.checkPackageVulnerability
        {| Scanner.Package.name := "request";
           Scanner.Package.version := None |} silent_env tt world0
      = (Ret (Some f), tt, world0)
      /\ Scanner.Finding.severity f = Some (JStr "high"))
  /\ (exists e,
         Scanner.checkPackageVulnerability
           {| Scanner.Package.name := "constructor";
              Scanner.Package.version := Some (JStr "1.0.0") |}
           silent_env tt world0
         = (Throw e, tt, world0)).
Proof.
  split.
  - apply (proj1 (proj2 (checkPackageVulnerability_reports unit
             {| Scanner.Package.name := "request";
                Scanner.Package.version := None |} silent_env tt world0))).
    reflexivity.
  - apply (proj2 (proj2 (checkPackageVulnerability_reports unit
             {| Scanner.Package.name := "constructor";
                Scanner.Package.version := Some (JStr "1.0.0") |}
             silent_env tt world0))).
    cbn. auto.
Defined.

(** ** The built-in scan *)

Lemma preserves_push {X} (P : X -> Prop) (x : X) :
  P x -> preserves (Forall P) (push x).
Proof.
  intros Hx E l w Hl. cbn. apply Forall_app. split; [exact Hl |].
  constructor; [exact Hx | constructor].
Qed.

Lemma preserves_some_M {L X} (I : L -> Prop) (p : X -> M L bool) xs :
  (forall x, preserves I (p x)) -> preserves I (Scanner.some_M p xs).
Proof.
  intro Hp. induction xs as [|x xs IH]; cbn [Scanner.some_M].
  - apply preserves_leaf. reflexivity.
  - apply preserves_bind; [apply Hp |].
    intros []; [apply preserves_leaf; reflexivity | exact IH].
Qed.

Lemma preserves_compareVersions {L} (I : L -> Prop) v1 v2 :
  preserves I (@Scanner.compareVersions L v1 v2).
Proof.
  apply preserves_leaf. intros E l w. apply compareVersions_local.
Qed.

Lemma preserves_isNodeVulnerable {L} (I : L -> Prop) v :
  preserves I (@Scanner.isNodeVulnerable L v).
Proof.
  unfold Scanner.isNodeVulnerable. apply preserves_some_M. intro pattern.
  destruct (includes pattern "<"); [| apply preserves_leaf; reflexivity].
  destruct (destructure2 _) as [[base |] minVersion];
    [| apply preserves_leaf; reflexivity].
  destruct (startsWith v base); [| apply preserves_leaf; reflexivity].
  apply preserves_bind; [apply preserves_compareVersions |].
  intro. apply preserves_leaf. reflexivity.
Qed.

(** Checking one package and recording what the check reports. *)
Lemma check_and_push_preserves pkg :
  preserves (Forall high_or_medium)
    (bind (Scanner.checkPackageVulnerability pkg)
       (fun vuln => match vuln with
                    | Some v => push v
                    | None => ret tt
                    end)).
Proof.
  intros E l w Hl. unfold bind.
  destruct (checkPackageVulnerability_run pkg E l w) as (Hloc & _ & Hf).
  destruct (Scanner.checkPackageVulnerability pkg E l w)
    as [[[[f |] | e |] l1] w1]; cbn [fst snd] in *; subst l1;
    try exact Hl.
  apply preserves_push; [| exact Hl]. apply (Hf f eq_refl).
Qed.

(** Every finding of [checkCommonVulnerabilities] has severity high or
    medium. *)
Lemma checkCommonVulnerabilities_findings {L} tag os E (l : L) w :
  exists r w',
    Scanner.checkCommonVulnerabilities tag os E l w = (Ret r, l, w')
    /\ Forall high_or_medium r.
Proof.
  destruct (ends_returns any_env _
              (checkCommonVulnerabilities_total any_env tag os) E I l w)
    as (r & l' & w' & Hrun).
  revert Hrun. unfold Scanner.checkCommonVulnerabilities, with_locals.
  match goal with
  | |- context [bind ?c (fun _ => get_local)] => set (body := c)
  end.
  assert (Hbody : preserves (Forall high_or_medium) body).
  { unfold body, Scanner.getNodeVersion.
    apply preserves_try_catch; [| intro; apply preserves_leaf; reflexivity].
    apply preserves_bind.
    - apply preserves_try_catch;
        [| intro; apply preserves_leaf; reflexivity].
      apply preserves_bind; [apply preserves_execSync | intro].
      apply preserves_leaf. reflexivity.
    - intro nodeVersion. apply preserves_bind.
      + destruct nodeVersion as [v |]; [| apply preserves_leaf; reflexivity].
        destruct (Scanner.nonempty (Some v));
          [| apply preserves_leaf; reflexivity].
        apply preserves_bind; [apply preserves_isNodeVulnerable |].
        intros []; [| apply preserves_leaf; reflexivity].
        apply preserves_push. left. reflexivity.
      + intros _. apply preserves_bind; [apply preserves_with_locals |].
        intro packages. apply preserves_for_each. intro pkg.
        apply check_and_push_preserves. }
  specialize (Hbody E [] w (Forall_nil _)).
  unfold bind, get_local.
  destruct (body E [] w) as [[[[] | e |] l1] w1]; cbn [fst snd] in Hbody;
    try discriminate.
  intros [= <- <- <-]. exists l1, w1. split; [reflexivity | exact Hbody].
Qed.

Lemma record_finding_high_or_medium vuln :
  high_or_medium vuln ->
  preserves only_high_and_medium
    (Scanner.record_finding (Scanner.Finding.severity vuln) vuln).
Proof.
  intros Hv E l w Hl. unfold only_high_and_medium in *.
  destruct l as [c h m lo i t]. cbn in Hl. destruct Hl as (-> & -> & ->).
  destruct Hv as [-> | ->]; cbn; repeat split.
Qed.

Lemma basic_findings_buckets tag :
  preserves only_high_and_medium (Scanner.basic_findings tag).
Proof.
  unfold Scanner.basic_findings.
  apply preserves_try_catch.
  - apply preserves_bind.
    + unfold Scanner.getImageOS. preserves_tac.
    + intro osInfo. intros E l w Hl. unfold bind at 1.
      destruct (checkCommonVulnerabilities_findings tag osInfo E l w)
        as (r & w' & -> & Hr).
      revert E l w' Hl.
      change (preserves only_high_and_medium
                (bind (for_each r (fun vuln =>
                         Scanner.record_finding
                           (Scanner.Finding.severity vuln) vuln))
                      (fun _ => get_local))).
      apply preserves_bind; [| intro; apply preserves_leaf; reflexivity].
      clear w. induction Hr as [|v vs Hv _ IH]; cbn [for_each].
      * apply preserves_leaf. reflexivity.
      * apply preserves_bind;
          [now apply record_finding_high_or_medium | intro; exact IH].
  - intro. apply preserves_bind; intros; apply preserves_leaf; reflexivity.
Qed.

(** X5.  The built-in vulnerability scan never raises, and the report it
    returns only ever uses two of its five buckets: critical, low and info
    are always empty, and the total is the number of high findings plus
    the number of medium ones. *)
Theorem basicVulnerabilityScan_only_high_and_medium :
  forall (L : Type) (imageTag : string) (E : env) (l : L) (w : world),
  exists r w',
    Scanner.basicVulnerabilityScan imageTag E l w = (Ret r, l, w')
    /\ Scanner.Vulnerabilities.critical r = []
    /\ Scanner.Vulnerabilities.low r = []
    /\ Scanner.Vulnerabilities.info r = []
    /\ Scanner.Vulnerabilities.total r
       = (List.length (Scanner.Vulnerabilities.high r)
          + List.length (Scanner.Vulnerabilities.medium r))%nat.
Proof.
  intros L imageTag E l w.
  destruct (basicVulnerabilityScan_counted imageTag E l w)
    as (r & w' & Hrun & Hcount).
  exists r, w'. split; [exact Hrun |].
  assert (Hb : only_high_and_medium r).
  { revert Hrun. unfold Scanner.basicVulnerabilityScan, with_locals.
    pose proof (basic_findings_buckets imageTag E
                  Scanner.no_vulnerabilities w) as Hp.
    pose proof (basic_findings_own imageTag E
                  Scanner.no_vulnerabilities w) as Ho.
    destruct (Scanner.basic_findings imageTag E
                Scanner.no_vulnerabilities w) as [[r0 l0] w0].
    intros [= -> _]. rewrite (Ho r l0 w0 eq_refl).
    apply Hp. repeat split. }
  destruct Hb as (Hc & Hl & Hi). repeat split; try assumption.
  unfold counted in Hcount. rewrite Hcount, Hc, Hl, Hi. cbn. lia.
Qed.

(** C10.  Every report that the Trivy parser or the built-in scan returns
    satisfies total = |critical| + |high| + |medium| + |low| + |info|, and
    the built-in scan always returns one.  A finding whose severity is a
    string is filed under the lower-cased severity when that is one of the
    five tiers and under info otherwise; pushing into that bucket always
    succeeds, appends the finding there and is followed by the increment
    of the total.  On a Trivy report whose entries all have a string
    severity the parser returns a report whose total is the number of
    entries; for instance CRITICAL goes to critical and UNKNOWN to
    info.  The report of the built-in scan is exactly the list of findings
    that [checkCommonVulnerabilities] returns in that run, each filed under
    the tier of its severity in the order of the list, with the length of
    the list as total. *)
Theorem vulnerability_total_is_bucket_sum :
  (forall (L : Type) (data : json) (E : env) (l : L) (w : world) r l' w',
      Scanner.parseTrivyResults data E l w = (Ret r, l', w') -> counted r)
  /\ (forall (L : Type) (imageTag : string) (E : env) (l : L) (w : world),
         exists r w',
           Scanner.basicVulnerabilityScan imageTag E l w = (Ret r, l, w')
           /\ counted r)
  /\ (forall (severity : string),
         (Scanner.mem_string (toLowerCase severity) Scanner.severity_tiers
          = false -> tier_of severity = "info")
         /\ (Scanner.mem_string (toLowerCase severity) Scanner.severity_tiers
             = true -> tier_of severity = toLowerCase severity)
         /\ forall (vuln : Scanner.Finding.t) (E : env)
                   (v : Scanner.Vulnerabilities.t) (w : world),
             exists v',
               Scanner.record_finding (Some (JStr severity)) vuln E v w
               = (Ret tt, v', w)
               /\ Scanner.Vulnerabilities.total v'
                  = S (Scanner.Vulnerabilities.total v)
               /\ (counted v -> counted v')
               /\ (forall old,
                      bucket (tier_of severity) v = Some old ->
                      bucket (tier_of severity) v' = Some (old ++ [vuln])))
  /\ (forall (L : Type) fields ffields rest vulns (E : env) (l : L)
             (w : world),
         lookup_key "Results" fields = Some (JArr (JObj ffields :: rest)) ->
         lookup_key "Vulnerabilities" ffields = Some (JArr vulns) ->
         Forall has_severity vulns ->
         exists r,
           Scanner.parseTrivyResults (JObj fields) E l w = (Ret r, l, w)
           /\ Scanner.Vulnerabilities.total r = List.length vulns
           /\ counted r)
  /\ (exists r,
         Scanner.parseTrivyResults trivy_sample silent_env tt world0
         = (Ret r, tt, world0)
         /\ List.length (Scanner.Vulnerabilities.critical r) = 1%nat
         /\ List.length (Scanner.Vulnerabilities.info r) = 1%nat
         /\ Scanner.Vulnerabilities.total r = 2%nat)
  /\ (forall (L : Type) (imageTag : string) (E : env) (l : L) (w : world),
         exists osInfo w1 findings w',
           Scanner.getImageOS imageTag E Scanner.no_vulnerabilities w
           = (Ret osInfo, Scanner.no_vulnerabilities, w1)
           /\ Scanner.checkCommonVulnerabilities imageTag osInfo E
                Scanner.no_vulnerabilities w1
              = (Ret findings, Scanner.no_vulnerabilities, w')
           /\ Scanner.basicVulnerabilityScan imageTag E l w
              = (Ret (filed findings), l, w')
           /\ counted (filed findings)).
Proof.
  split; [| split; [| split; [| split; [| split]]]].
  - intros. eapply parseTrivyResults_counted. eassumption.
  - intros. apply basicVulnerabilityScan_counted.
  - intro severity. unfold tier_of. repeat split.
    + intros ->. reflexivity.
    + intros ->. reflexivity.
    + intros. apply record_finding_string.
  - intros L fields ffields rest vulns E l w Hres Hvul Hall.
    destruct (parseTrivyResults_counts_all fields ffields rest vulns E l w
                Hres Hvul Hall) as (r & Hrun & Ht).
    exists r. repeat split; try assumption.
    eapply parseTrivyResults_counted. exact Hrun.
  - eexists. split; [vm_compute; reflexivity |]. repeat split.
  - intros L imageTag E l w.
    destruct (getImageOS_returns imageTag E Scanner.no_vulnerabilities w)
      as (osInfo & w1 & Hos).
    destruct (checkCommonVulnerabilities_findings imageTag osInfo E
                Scanner.no_vulnerabilities w1) as (findings & w' & Hc & Hf).
    assert (Hrun :
      Scanner.basicVulnerabilityScan imageTag E l w
      = (Ret (filed findings), l, w')).
    { unfold Scanner.basicVulnerabilityScan, with_locals,
        Scanner.basic_findings, try_catch.
      unfold bind at 1. rewrite Hos. unfold bind at 1. rewrite Hc.
      unfold bind at 1. unfold Scanner.no_vulnerabilities at 1.
      rewrite record_findings_filed.
      - reflexivity.
      - eapply Forall_impl; [| exact Hf].
        intros f [Hs | Hs]; eexists; exact Hs. }
    exists osInfo, w1, findings, w'. repeat split; try assumption.
    destruct (basicVulnerabilityScan_counted imageTag E l w)
      as (r & w2 & Hr & Hcount).
    rewrite Hrun in Hr. injection Hr as <- _. exact Hcount.
Qed.

(** The sample Trivy report through the general statement: both entries
    are counted. *)
Lemma vulnerability_total_is_bucket_sum_witness :
  exists r,
    Scanner.parseTrivyResults trivy_sample silent_env tt world0
    = (Ret r, tt, world0)
    /\ Scanner.Vulnerabilities.total r = 2%nat
    /\ counted r.
Proof.
  destruct vulnerability_total_is_bucket_sum as (_ & _ & _ & Hall & _).
  assert (Hsev : Forall has_severity trivy_sample_entries).
  { repeat constructor; eexists; eexists; split; reflexivity. }
  destruct (Hall unit trivy_sample_fields trivy_sample_result []
              trivy_sample_entries silent_env tt world0
              eq_refl eq_refl Hsev)
    as (r & Hrun & Ht & Hc).
  exists r. split; [exact Hrun | split; [exact Ht | exact Hc]].
Defined.

(** ** The vulnerability scan as a whole *)

Lemma with_locals_outer {L L' A} (init : L') (c : M L' A) E (l : L) w :
  snd (fst (with_locals init c E l w)) = l.
Proof.
  unfold with_locals. destruct (c E init w) as [[r l1] w1]. reflexivity.
Qed.

Lemma parseTrivyResults_run {L} data E (l : L) w :
  (exists r w', Scanner.parseTrivyResults data E l w = (Ret r, l, w')
                /\ counted r)
  \/ (exists e w', Scanner.parseTrivyResults data E l w = (Throw e, l, w')).
Proof.
  pose proof (parseTrivyResults_ends (L := L) any_env false data E I l w)
    as Hend.
  pose proof (parseTrivyResults_counted data E l w) as Hcount.
  pose proof (with_locals_outer Scanner.no_vulnerabilities
                (Scanner.trivy_findings data) E l w) as Hl.
  fold (@Scanner.parseTrivyResults L data) in Hl.
  destruct (Scanner.parseTrivyResults data E l w) as [[[r | e |] l1] w1];
    cbn [fst snd] in *; subst l1.
  - left. exists r, w1. split; [reflexivity |]. eapply Hcount. reflexivity.
  - right. exists e, w1. reflexivity.
  - discriminate.
Qed.

(** [scanWithTrivy] answers with a counted report or with [null]. *)
Lemma scanWithTrivy_run {L} tag E (l : L) w :
  exists r w',
    Scanner.scanWithTrivy tag E l w = (Ret r, l, w')
    /\ forall v, r = Some v -> counted v.
Proof.
  unfold Scanner.scanWithTrivy, try_catch.
  unfold bind at 1. unfold execSync at 1.
  destruct (result (engine E w "trivy version")) as [o1 | m1];
    [| eexists; eexists; split; [reflexivity | discriminate]].
  unfold bind at 1. unfold execSync at 1.
  destruct (result (engine E _ ("trivy image --format json --quiet " +++ tag)))
    as [o2 | m2];
    [| eexists; eexists; split; [reflexivity | discriminate]].
  unfold bind at 1. unfold Scanner.JSON_parse_M at 1.
  unfold bind at 1. unfold get_env at 1.
  destruct (JSON_parse E o2) as [data |];
    [| eexists; eexists; split; [reflexivity | discriminate]].
  unfold ret at 1. unfold bind at 1.
  match goal with
  | |- context [Scanner.parseTrivyResults data E l ?w2] =>
      destruct (parseTrivyResults_run data E l w2)
        as [(r & w' & -> & Hr) | (e & w' & ->)]
  end.
  - eexists; eexists; split; [reflexivity |]. intros v [= <-]. exact Hr.
  - eexists; eexists; split; [reflexivity | discriminate].
Qed.

Lemma scanVulnerabilities_counted {L} imageTag E (l : L) w :
  exists r w',
    Scanner.scanVulnerabilities imageTag E l w = (Ret r, l, w')
    /\ counted r.
Proof.
  unfold Scanner.scanVulnerabilities.
  unfold bind at 1. unfold console_log, emit. cbv beta iota.
  unfold try_catch at 1. unfold bind at 1.
  unfold Scanner.hasDockerScout. unfold try_catch at 1.
  unfold bind at 1. unfold execSync at 1.
  destruct (result (engine E _ "docker scout version")) as [o | m].
  - unfold ret at 1. cbv beta iota.
    unfold Scanner.scanWithDockerScout, try_catch.
    unfold bind at 1. unfold execSync at 1.
    destruct (result (engine E _
                ("docker scout cves --format json " +++ imageTag)))
      as [out | msg].
    + unfold bind at 1. unfold Scanner.JSON_parse_M at 1.
      unfold bind at 1. unfold get_env at 1.
      destruct (JSON_parse E out) as [data |].
      * eexists; eexists. split; [reflexivity |]. reflexivity.
      * unfold throw. unfold bind at 1. cbv beta iota.
        match goal with
        | |- context [Scanner.basicVulnerabilityScan imageTag E l ?w2] =>
            destruct (basicVulnerabilityScan_counted imageTag E l w2)
              as (r & w' & -> & Hr)
        end.
        exists r, w'. split; [reflexivity | exact Hr].
    + unfold throw. unfold bind at 1. cbv beta iota.
      match goal with
      | |- context [Scanner.basicVulnerabilityScan imageTag E l ?w2] =>
          destruct (basicVulnerabilityScan_counted imageTag E l w2)
            as (r & w' & -> & Hr)
      end.
      exists r, w'. split; [reflexivity | exact Hr].
  - unfold ret at 1. cbv beta iota. unfold bind at 1.
    match goal with
    | |- context [Scanner.scanWithTrivy imageTag E l ?w2] =>
        destruct (scanWithTrivy_run imageTag E l w2)
          as (r & w' & -> & Hr)
    end.
    destruct r as [v |].
    + exists v, w'. split; [reflexivity | now apply Hr].
    + destruct (basicVulnerabilityScan_counted imageTag E l w')
        as (r & w'' & Hrun & Hr'). rewrite Hrun.
      exists r, w''. split; [reflexivity | exact Hr'].
Qed.

Lemma scanVulnerabilities_with_scout {L} imageTag E (l : L) w out data :
  (forall w', exists o,
      result (engine E w' "docker scout version") = Exit0 o) ->
  (forall w',
      result (engine E w' ("docker scout cves --format json " +++ imageTag))
      = Exit0 out) ->
  JSON_parse E out = Some data ->
  fst (fst (Scanner.scanVulnerabilities imageTag E l w))
  = Ret Scanner.no_vulnerabilities.
Proof.
  intros Hscout Hcves Hparse.
  unfold Scanner.scanVulnerabilities.
  unfold bind at 1. unfold console_log, emit. cbv beta iota.
  unfold try_catch at 1. unfold bind at 1.
  unfold Scanner.hasDockerScout. unfold try_catch at 1.
  unfold bind at 1. unfold execSync at 1.
  match goal with
  | |- context [result (engine E ?w1 "docker scout version")] =>
      destruct (Hscout w1) as [o ->]
  end.
  unfold ret at 1. cbv beta iota.
  unfold Scanner.scanWithDockerScout, try_catch.
  unfold bind at 1. unfold execSync at 1. rewrite Hcves.
  unfold bind at 1. unfold Scanner.JSON_parse_M at 1.
  unfold bind at 1. unfold get_env at 1. rewrite Hparse. reflexivity.
Qed.

(** X6.  [scanVulnerabilities] never raises: whatever the scanners on the
    host do, it returns a report, and the total of that report is the sum
    of the sizes of its five buckets.  When Docker Scout is installed and
    its scan succeeds with an output that parses, the report is the empty
    one, whatever Docker Scout found. *)
Theorem scanVulnerabilities_always_reports :
  forall (L : Type) (imageTag : string) (E : env) (l : L) (w : world),
    (exists r w',
        Scanner.scanVulnerabilities imageTag E l w = (Ret r, l, w')
        /\ counted r)
    /\ (forall out data,
           (forall w', exists o,
               result (engine E w' "docker scout version") = Exit0 o) ->
           (forall w',
               result (engine E w'
                         ("docker scout cves --format json " +++ imageTag))
               = Exit0 out) ->
           JSON_parse E out = Some data ->
           fst (fst (Scanner.scanVulnerabilities imageTag E l w))
           = Ret Scanner.no_vulnerabilities).
Proof.
  intros L imageTag E l w. split.
  - apply scanVulnerabilities_counted.
  - intros out data. apply scanVulnerabilities_with_scout.
Qed.

(** An engine on which every command succeeds, Docker Scout included,
    with an output that parses. *)
Lemma scanVulnerabilities_always_reports_witness :
  fst (fst (Scanner.scanVulnerabilities "img" scout_env tt world0))
  = Ret Scanner.no_vulnerabilities.
Proof.
  apply (proj2 (scanVulnerabilities_always_reports unit "img" scout_env tt
                  world0) "{}" (JObj [])).
  - intro w'. exists "{}". reflexivity.
  - intro w'. reflexivity.
  - reflexivity.
Defined.

(** ** Layers *)

Lemma split_chars_nonempty sep cs : split_chars sep cs <> [].
Proof.
  destruct cs as [|c cs]; cbn [split_chars]; [discriminate |].
  destruct (Ascii.eqb c sep); [discriminate |].
  destruct (split_chars sep cs); discriminate.
Qed.

(** A text that ends with the separator has an empty last piece. *)
Lemma split_chars_trailing sep cs :
  split_chars sep (cs ++ [sep]) = split_chars sep cs ++ [[]].
Proof.
  induction cs as [|c cs IH]; cbn [app split_chars].
  - rewrite Ascii.eqb_refl. reflexivity.
  - destruct (Ascii.eqb c sep); [now rewrite IH |].
    rewrite IH. pose proof (split_chars_nonempty sep cs) as Hne.
    destruct (split_chars sep cs) as [|p ps]; [congruence | reflexivity].
Qed.

Lemma empty_line_of_trailing_newline body :
  In "" (split Scanner.newline (line body)).
Proof.
  unfold split, line. rewrite list_ascii_of_string_app.
  change (list_ascii_of_string (String Scanner.newline ""))
    with [Scanner.newline].
  rewrite split_chars_trailing, map_app. apply in_or_app. right.
  now left.
Qed.

(** The loop over the lines stops with an error at the first line without
    a second column. *)
Lemma layer_lines_throw lines bad :
  In bad lines -> nth_error (split tab bad) 1 = None ->
  forall E l w,
  exists e l',
    for_each lines Scanner.layer_of_line E l w = (Throw e, l', w).
Proof.
  intros Hin Hbad. induction lines as [|ln lines IH]; [contradiction |].
  intros E l w. cbn [for_each]. unfold bind at 1.
  unfold Scanner.layer_of_line at 1. unfold destructure2.
  destruct (split tab ln) as [|f0 [|f1 rest]] eqn:Hsplit; cbn [map nth];
    try (eexists; eexists; reflexivity).
  destruct Hin as [-> | Hin].
  - rewrite Hsplit in Hbad. discriminate.
  - unfold push, bind, get_local, set_local. cbv beta iota zeta.
    apply (IH Hin).
Qed.

(** On lines that all have a second column the loop appends the record of
    each line. *)
Lemma layer_lines_records lines :
  Forall has_size_column lines ->
  forall E l w,
    for_each lines Scanner.layer_of_line E l w
    = (Ret tt, l ++ map layer_record lines, w).
Proof.
  induction 1 as [|ln lines Hln _ IH]; intros E l w; cbn [for_each map].
  - unfold ret. now rewrite app_nil_r.
  - unfold bind at 1. unfold Scanner.layer_of_line at 1.
    unfold destructure2, has_size_column in *.
    unfold layer_record at 1.
    destruct (split tab ln) as [|f0 [|f1 rest]]; cbn [nth_error] in Hln;
      try congruence.
    cbn [map nth]. unfold push, bind, get_local, set_local.
    cbv beta iota zeta. rewrite IH, <- app_assoc. reflexivity.
Qed.

Section Sorting.
Context {L X : Type}.
Variable cmp : X -> X -> M L num.
Hypothesis cmp_returns :
  forall a b E l w, exists d w', cmp a b E l w = (Ret d, l, w').

Lemma insert_by_permutation x sorted :
  forall E l w,
  exists res w',
    Scanner.insert_by cmp x sorted E l w = (Ret res, l, w')
    /\ Permutation res (x :: sorted).
Proof.
  induction sorted as [|y rest IH]; intros E l w; cbn [Scanner.insert_by].
  - exists [x], w. split; [reflexivity | apply Permutation_refl].
  - unfold bind at 1.
    destruct (cmp_returns y x E l w) as (d & w1 & ->).
    destruct (Js.gtb d (of_Z 0)).
    + exists (x :: y :: rest), w1. split; [reflexivity |].
      apply Permutation_refl.
    + unfold bind. destruct (IH E l w1) as (res & w2 & -> & Hp).
      exists (y :: res), w2. split; [reflexivity |].
      rewrite Hp. apply perm_swap.
Qed.

Lemma sort_into_permutation xs :
  forall sorted E l w,
  exists res w',
    Scanner.sort_into cmp xs sorted E l w = (Ret res, l, w')
    /\ Permutation res (xs ++ sorted).
Proof.
  induction xs as [|x xs IH]; intros sorted E l w; cbn [Scanner.sort_into].
  - exists sorted, w. split; [reflexivity | apply Permutation_refl].
  - unfold bind.
    destruct (insert_by_permutation x sorted E l w) as (s1 & w1 & -> & Hp1).
    destruct (IH s1 E l w1) as (res & w2 & -> & Hp2).
    exists res, w2. split; [reflexivity |].
    rewrite Hp2. cbn [app]. rewrite Hp1.
    apply Permutation_sym, Permutation_middle.
Qed.

Lemma sort_by_permutation xs E l w :
  exists res w',
    Scanner.sort_by cmp xs E l w = (Ret res, l, w')
    /\ Permutation res xs.
Proof.
  unfold Scanner.sort_by.
  destruct (sort_into_permutation xs [] E l w) as (res & w' & Hrun & Hp).
  exists res, w'. split; [exact Hrun |]. now rewrite app_nil_r in Hp.
Qed.

End Sorting.

Lemma compare_layer_sizes_returns {L} a b E (l : L) w :
  exists d w', Scanner.compare_layer_sizes a b E l w = (Ret d, l, w').
Proof.
  unfold Scanner.compare_layer_sizes, call, bind, emit, ret.
  eexists; eexists; reflexivity.
Qed.

Lemma size_columns_or_not lines :
  Forall has_size_column lines
  \/ exists bad, In bad lines /\ nth_error (split tab bad) 1 = None.
Proof.
  induction lines as [|ln lines [IH | (bad & Hin & Hbad)]].
  - left. constructor.
  - destruct (nth_error (split tab ln) 1) eqn:Hln.
    + left. constructor; [unfold has_size_column; congruence | exact IH].
    + right. exists ln. split; [now left | exact Hln].
  - right. exists bad. split; [now right | exact Hbad].
Qed.

(** The two ways a run of [analyzeLayers] can go once the command has
    answered. *)
Lemma analyzeLayers_run {L} tag E (l : L) w out :
  result (engine E w (history_cmd tag)) = Exit0 out ->
  (Forall has_size_column (split Scanner.newline out) ->
   exists sorted w',
     Scanner.analyzeLayers tag E l w
     = (Ret {| Scanner.Layers.total :=
                 List.length
                   (filter filled
                      (map layer_record (split Scanner.newline out)));
               Scanner.Layers.layers := sorted;
               Scanner.Layers.largestLayers := firstn 5 sorted |}, l, w')
     /\ Permutation sorted
          (filter filled (map layer_record (split Scanner.newline out))))
  /\ (forall bad,
         In bad (split Scanner.newline out) ->
         nth_error (split tab bad) 1 = None ->
         Scanner.analyzeLayers tag E l w
         = (Ret no_layers, l, after_exec E w (history_cmd tag))).
Proof.
  intro Hout.
  split; [intro Hall | intros bad Hin Hbad];
    unfold Scanner.analyzeLayers; fold (history_cmd tag);
    unfold try_catch; unfold bind at 1; unfold execSync at 1; rewrite Hout;
    unfold bind at 1; unfold with_locals at 1; unfold bind at 1.
  - rewrite (layer_lines_records _ Hall E []
               (after_exec E w (history_cmd tag))).
    cbn [app]. unfold get_local at 1. cbv beta iota zeta.
    change (fun layer : Scanner.Layer.t =>
              negb (String.eqb (Scanner.Layer.command layer) "")
              && negb (String.eqb (Scanner.Layer.size layer) ""))
      with filled.
    unfold bind at 1.
    destruct (sort_by_permutation Scanner.compare_layer_sizes
                compare_layer_sizes_returns
                (filter filled (map layer_record (split Scanner.newline out)))
                E l (after_exec E w (history_cmd tag)))
      as (sorted & w' & -> & Hp).
    exists sorted, w'. split; [reflexivity | exact Hp].
  - destruct (layer_lines_throw _ bad Hin Hbad E []
                (after_exec E w (history_cmd tag))) as (e & l' & ->).
    reflexivity.
Qed.

Lemma filter_filled xs : forallb filled (filter filled xs) = true.
Proof.
  apply forallb_forall. intros x Hx. apply filter_In in Hx. apply Hx.
Qed.

(** X7.  [analyzeLayers] never raises.  In the analysis it returns, the
    total is the number of layers listed, the largest layers are the first
    five of the list, and no layer of the list has an empty command or an
    empty size.  When the command succeeds and every line of its output
    has a second column, the list is a rearrangement of the records of the
    lines whose two columns are both non-empty. *)
Theorem analyzeLayers_analysis :
  forall (L : Type) (imageTag : string) (E : env) (l : L) (w : world),
    (exists r w',
        Scanner.analyzeLayers imageTag E l w = (Ret r, l, w')
        /\ Scanner.Layers.total r = List.length (Scanner.Layers.layers r)
        /\ Scanner.Layers.largestLayers r
           = firstn 5 (Scanner.Layers.layers r)
        /\ forallb filled (Scanner.Layers.layers r) = true)
    /\ (forall out,
           result (engine E w (history_cmd imageTag)) = Exit0 out ->
           Forall has_size_column (split Scanner.newline out) ->
           exists r,
             fst (fst (Scanner.analyzeLayers imageTag E l w)) = Ret r
             /\ Permutation (Scanner.Layers.layers r)
                  (filter filled
                     (map layer_record (split Scanner.newline out)))).
Proof.
  intros L imageTag E l w. split.
  - destruct (result (engine E w (history_cmd imageTag))) as [out | msg]
      eqn:Hout.
    + destruct (analyzeLayers_run imageTag E l w out Hout) as [Hgood Hbad].
      destruct (size_columns_or_not (split Scanner.newline out))
        as [Hall | (bad & Hin & Hno)].
      * destruct (Hgood Hall) as (sorted & w' & -> & Hp).
        eexists; eexists. split; [reflexivity |].
        cbn [Scanner.Layers.total Scanner.Layers.layers
             Scanner.Layers.largestLayers].
        split; [symmetry; apply Permutation_length; exact Hp |].
        split; [reflexivity |].
        apply forallb_forall. intros x Hx.
        apply (Permutation_in _ Hp) in Hx. apply filter_In in Hx. apply Hx.
      * rewrite (Hbad bad Hin Hno).
        eexists; eexists. split; [reflexivity |]. repeat split.
    + unfold Scanner.analyzeLayers. fold (history_cmd imageTag).
      unfold try_catch. unfold bind at 1. unfold execSync at 1.
      rewrite Hout. eexists; eexists. split; [reflexivity |].
      repeat split.
  - intros out Hout Hall.
    destruct (analyzeLayers_run imageTag E l w out Hout) as [Hgood _].
    destruct (Hgood Hall) as (sorted & w' & -> & Hp).
    eexists. split; [reflexivity | exact Hp].
Qed.

(** Two layers, the larger one listed last by the engine. *)
Lemma analyzeLayers_analysis_witness :
  exists r,
    fst (fst (Scanner.analyzeLayers "img" history_env tt world0)) = Ret r
    /\ Permutation (Scanner.Layers.layers r)
         [{| Scanner.Layer.command := "RUN npm ci";
             Scanner.Layer.size := "120MB" |};
          {| Scanner.Layer.command := "COPY . .";
             Scanner.Layer.size := "4kB" |}].
Proof.
  apply (proj2 (analyzeLayers_analysis unit "img" history_env tt world0)
           ("RUN npm ci" +++ String tab "120MB"
            +++ String Scanner.newline ("COPY . ." +++ String tab "4kB"))).
  - reflexivity.
  - repeat constructor; discriminate.
Defined.

(** X8.  When the output of [docker history] is empty or ends with a
    newline, as the output of a command does, its last line is empty and
    has no size column: reading it raises an error inside [analyzeLayers],
    which then returns the empty analysis, whatever the other lines
    hold.  So does any other line without a TAB. *)
Theorem analyzeLayers_trailing_newline :
  forall (L : Type) (imageTag : string) (E : env) (l : L) (w : world)
         (out : string),
    result (engine E w (history_cmd imageTag)) = Exit0 out ->
    ((out = "" \/ exists body, out = line body)
     \/ exists bad, In bad (split Scanner.newline out)
                    /\ nth_error (split tab bad) 1 = None) ->
    Scanner.analyzeLayers imageTag E l w
    = (Ret no_layers, l, after_exec E w (history_cmd imageTag)).
Proof.
  intros L imageTag E l w out Hout Hcase.
  destruct (analyzeLayers_run imageTag E l w out Hout) as [_ Hbad].
  destruct Hcase as [[-> | (body & ->)] | (bad & Hin & Hno)].
  - apply (Hbad ""); [now left | reflexivity].
  - apply (Hbad ""); [apply empty_line_of_trailing_newline | reflexivity].
  - apply (Hbad bad); assumption.
Qed.

(** One layer, printed as a line that ends with a newline. *)
Lemma analyzeLayers_trailing_newline_witness :
  fst (fst (Scanner.analyzeLayers "img" history_newline_env tt world0))
  = Ret no_layers.
Proof.
  rewrite (analyzeLayers_trailing_newline unit "img" history_newline_env tt
             world0 (line ("RUN npm ci" +++ String tab "120MB")) eq_refl).
  - reflexivity.
  - left. right. eexists. reflexivity.
Defined.

(** ** The secret scan *)

(** X9.  The scan of a directory is blind to the names of directories:
    renaming the directories of a tree in any way changes neither the
    outcome of [scanDirectoryForSecrets] nor the findings it appends.  The
    list of names to skip ([node_modules], [.git], [dist], [build]) is
    only ever tested against the names of files, so the files under a
    directory of such a name are scanned like any others, and a finding
    names its file without the directory it is in. *)
Theorem scanDirectoryForSecrets_ignores_directory_names :
  forall (f : string -> string) (dir : node) (E : env)
         (l : list Scanner.Secret.t) (w : world),
    Scanner.scanDirectoryForSecrets (rename_dirs f dir) E l w
    = Scanner.scanDirectoryForSecrets dir E l w.
Proof.
  intros f dir.
  induction dir as [name content | name | name entries IH | name]
    using node_induction; intros E l w;
    cbn [rename_dirs Scanner.scanDirectoryForSecrets]; try reflexivity.
  revert E l w.
  induction IH as [|file rest Hfile _ IHrest]; intros E l w;
    cbn [map]; [reflexivity |].
  unfold bind.
  assert (Hhead :
    match rename_dirs f file with
    | File name0 content =>
        if Scanner.shouldScanFile name0
        then try_catch
               match content with
               | Some text => Scanner.scan_content name0 text
               | None => throw (Error "EACCES: readFile")
               end (fun _ => ret tt)
        else ret tt
    | Dir _ _ => Scanner.scanDirectoryForSecrets (rename_dirs f file)
    | Special _ => ret tt
    end E l w
    = match file with
      | File name0 content =>
          if Scanner.shouldScanFile name0
          then try_catch
                 match content with
                 | Some text => Scanner.scan_content name0 text
                 | None => throw (Error "EACCES: readFile")
                 end (fun _ => ret tt)
          else ret tt
      | Dir _ _ => Scanner.scanDirectoryForSecrets file
      | Special _ => ret tt
      end E l w).
  { destruct file as [fname content | dname [dentries |] | sname];
      try reflexivity; apply Hfile. }
  rewrite Hhead.
  match type of Hhead with
  | _ = ?run => destruct run as [[[[] | e |] l1] w1]
  end; try reflexivity.
  apply IHrest.
Qed.

Lemma preserves_try_finally {L A} (I : L -> Prop) (c : M L A)
    (fin : M L unit) :
  preserves I c -> preserves I fin -> preserves I (try_finally c fin).
Proof.
  intros Hc Hf E l w Hl. unfold try_finally. specialize (Hc E l w Hl).
  destruct (c E l w) as [[[a | e |] l1] w1]; cbn [fst snd] in *;
    try exact Hc;
    specialize (Hf E l1 w1 Hc);
    destruct (fin E l1 w1) as [[[[] | e' |] l2] w2]; exact Hf.
Qed.

Lemma scan_content_well_formed name text :
  Scanner.shouldScanFile name = true ->
  preserves (Forall well_formed_secret) (Scanner.scan_content name text).
Proof.
  intro Hname. unfold Scanner.scan_content.
  assert (Hall : forall ps,
             incl ps Scanner.secretPatterns ->
             preserves (Forall well_formed_secret)
               (for_each ps (fun p =>
                  match Regex.count_matches
                          (S (List.length (list_ascii_of_string text)))
                          (fst p) (list_ascii_of_string text) with
                  | O => ret tt
                  | S n =>
                      push {| Scanner.Secret.file := name;
                              Scanner.Secret.type := snd p;
                              Scanner.Secret.matches := S n;
                              Scanner.Secret.severity := "high" |}
                  end))).
  { induction ps as [|p ps IH]; intro Hincl; cbn [for_each].
    - apply preserves_leaf. reflexivity.
    - apply preserves_bind.
      + destruct (Regex.count_matches _ _ _);
          [apply preserves_leaf; reflexivity |].
        apply preserves_push. unfold well_formed_secret.
        cbn [Scanner.Secret.file Scanner.Secret.type Scanner.Secret.matches
             Scanner.Secret.severity].
        split; [exact Hname |].
        split; [unfold secret_types; apply in_map; apply Hincl; now left |].
        split; [lia | reflexivity].
      + intros _. apply IH. intros q Hq. apply Hincl. now right. }
  apply Hall. apply incl_refl.
Qed.

Lemma scanDirectoryForSecrets_well_formed dir :
  preserves (Forall well_formed_secret) (Scanner.scanDirectoryForSecrets dir).
Proof.
  induction dir as [name content | name | name entries IH | name]
    using node_induction; cbn [Scanner.scanDirectoryForSecrets];
    try (apply preserves_leaf; reflexivity).
  induction IH as [|file rest Hfile _ IHrest];
    [apply preserves_leaf; reflexivity |].
  apply preserves_bind; [| intros _; exact IHrest].
  destruct file as [fname content | dname dentries | sname].
  - destruct (Scanner.shouldScanFile fname) eqn:Hscan;
      [| apply preserves_leaf; reflexivity].
    apply preserves_try_catch; [| intro; apply preserves_leaf; reflexivity].
    destruct content;
      [now apply scan_content_well_formed | apply preserves_leaf; reflexivity].
  - exact Hfile.
  - apply preserves_leaf. reflexivity.
Qed.

(** X10.  [scanSecrets] never raises, and every finding of the list it
    returns, complete or not, names a file that passes [shouldScanFile],
    has one of the five types of the patterns, counts at least one match
    and has severity high. *)
Theorem scanSecrets_findings_well_formed :
  forall (L : Type) (imageTag : string) (E : env) (l : L) (w : world),
  exists r w',
    Scanner.scanSecrets imageTag E l w = (Ret r, l, w')
    /\ Forall well_formed_secret r.
Proof.
  intros L imageTag E l w.
  destruct (ends_returns any_env _ (scanSecrets_total any_env imageTag)
              E I l w) as (r & l' & w' & Hrun).
  enough (Hfacts : l' = l /\ Forall well_formed_secret r).
  { destruct Hfacts as [-> Hr]. exists r, w'. split; assumption. }
  revert Hrun. unfold Scanner.scanSecrets.
  unfold bind at 1. unfold console_log at 1, emit at 1. cbv beta iota.
  unfold with_locals.
  match goal with
  | |- context [bind ?c (fun _ => get_local) E [] ?w1] =>
      set (body := c); set (w1' := w1)
  end.
  assert (Hbody : preserves (Forall well_formed_secret) body).
  { unfold body.
    apply preserves_try_catch; [| intro; apply preserves_leaf; reflexivity].
    apply preserves_bind; [apply preserves_execSync | intro out].
    apply preserves_try_finally.
    - apply preserves_bind; [apply preserves_leaf; reflexivity | intro E'].
      apply preserves_bind.
      { unfold Scanner.fs_ensureDir, Scanner.fs_call.
        repeat first
          [ apply preserves_bind
          | match goal with
            | |- forall _, _ => intro
            | |- preserves _ (if ?b then _ else _) => destruct b
            | |- preserves _ (match ?x with _ => _ end) => destruct x
            end
          | apply preserves_leaf; reflexivity ]. }
      intros _.
      apply preserves_bind; [apply preserves_execSync | intros _].
      apply preserves_bind; [apply preserves_leaf; reflexivity | intro w0].
      apply preserves_bind.
      { destruct (Scanner.find_app (disk w0));
          [apply scanDirectoryForSecrets_well_formed
          | apply preserves_leaf; reflexivity]. }
      intros _. unfold Scanner.fs_remove, Scanner.fs_call.
      repeat first
        [ apply preserves_bind
        | match goal with
          | |- forall _, _ => intro
          | |- preserves _ (if ?b then _ else _) => destruct b
          end
        | apply preserves_leaf; reflexivity ].
    - apply preserves_bind; [apply preserves_execSync | intro].
      apply preserves_leaf. reflexivity. }
  specialize (Hbody E [] w1' (Forall_nil _)).
  unfold bind, get_local.
  destruct (body E [] w1') as [[[[] | e |] l1] w2]; cbn [fst snd] in Hbody;
    try discriminate.
  intros [= <- <- _]. split; [reflexivity | exact Hbody].
Qed.

(** ** Permissions *)

(** X11.  [analyzePermissions] never raises, and its report is determined
    by its three flags: the issues are the messages for root and for sudo,
    the suggestions those for root, for a writable file system and for
    sudo, each present exactly when its flag is set, in the order of the
    checks.  When the first check ([whoami]) fails, no flag is set,
    whatever the image is like. *)
Theorem analyzePermissions_report :
  forall (L : Type) (imageTag : string) (E : env) (l : L) (w : world),
    (exists root writable sudo w',
        Scanner.analyzePermissions imageTag E l w
        = (Ret (permissions_of root writable sudo), l, w'))
    /\ ((forall w', exists msg,
            result (engine E w' (whoami_cmd imageTag)) = Failed msg) ->
        fst (fst (Scanner.analyzePermissions imageTag E l w))
        = Ret (permissions_of false false false)).
Proof.
  intros L imageTag E l w.
  unfold Scanner.analyzePermissions, with_locals,
    Scanner.update_permissions.
  fold (whoami_cmd imageTag). fold (touch_cmd imageTag).
  fold (which_sudo_cmd imageTag).
  cbv [bind ret try_catch execSync console_log emit get_local set_local
       throw].
  set (w1 := {| now := now w;
                log := Console "Analyzing permissions..." :: log w;
                disk := disk w |}).
  destruct (result (engine E w1 (whoami_cmd imageTag))) as [user | m1]
    eqn:Hwho.
  - split; [| intro Hfail; destruct (Hfail w1) as [msg Hmsg]; congruence].
    destruct (String.eqb (trim user) "root");
      destruct (result (engine E _ (touch_cmd imageTag))) as [wr | m2];
      try (exists true, false, false; eexists; reflexivity);
      try (exists false, false, false; eexists; reflexivity);
      destruct (String.eqb (trim wr) "writable");
      destruct (result (engine E _ (which_sudo_cmd imageTag))) as [s | m3];
      try (exists true, true, true; eexists; reflexivity);
      try (exists true, true, false; eexists; reflexivity);
      try (exists true, false, true; eexists; reflexivity);
      try (exists true, false, false; eexists; reflexivity);
      try (exists false, true, true; eexists; reflexivity);
      try (exists false, true, false; eexists; reflexivity);
      try (exists false, false, true; eexists; reflexivity);
      try (exists false, false, false; eexists; reflexivity).
  - split; [| reflexivity].
    exists false, false, false. eexists. reflexivity.
Qed.

(** An engine without a container runtime: every command fails. *)
Lemma analyzePermissions_report_witness :
  fst (fst (Scanner.analyzePermissions "img"
              (env_of (fun _ => Failed "docker: command not found"))
              tt world0))
  = Ret (permissions_of false false false).
Proof.
  apply (proj2 (analyzePermissions_report unit "img"
                  (env_of (fun _ => Failed "docker: command not found"))
                  tt world0)).
  intro w'. exists "docker: command not found". reflexivity.
Defined.

(** ** Disk throughput *)

Lemma calculateOverallDiskPerformance_rating a b :
  In (calculateOverallDiskPerformance a b) ratings
  /\ (calculateOverallDiskPerformance a b = "Unknown"
      <-> DiskTest.status a = "Failed" \/ DiskTest.status b = "Failed").
Proof.
  unfold calculateOverallDiskPerformance, ratings.
  destruct (String.eqb_spec (DiskTest.status a) "Failed") as [Ha | Ha];
    [cbn; intuition |].
  destruct (String.eqb_spec (DiskTest.status b) "Failed") as [Hb | Hb];
    [cbn; intuition |].
  cbn [orb].
  repeat match goal with
         | |- context [if ?c then _ else _] => destruct c
         end;
    (split; [cbn; auto 10 | split; [discriminate | intros [? | ?]; congruence]]).
Qed.

Lemma testDiskWrite_run {L} cid E (l : L) w :
  exists t w',
    testDiskWrite cid E l w = (Ret t, l, w') /\ disk_test_shape t.
Proof.
  unfold testDiskWrite.
  cbv [bind ret try_catch execSync Date_now].
  repeat match goal with
         | |- context [match result (engine ?E0 ?w0 ?c) with _ => _ end] =>
             destruct (result (engine E0 w0 c))
         end;
    eexists; eexists; (split; [reflexivity |]);
    first [left; reflexivity | right; split; reflexivity].
Qed.

Lemma testDiskRead_run {L} cid E (l : L) w :
  exists t w',
    testDiskRead cid E l w = (Ret t, l, w') /\ disk_test_shape t.
Proof.
  unfold testDiskRead.
  cbv [bind ret try_catch execSync Date_now].
  repeat match goal with
         | |- context [match result (engine ?E0 ?w0 ?c) with _ => _ end] =>
             destruct (result (engine E0 w0 c))
         end;
    eexists; eexists; (split; [reflexivity |]);
    first [left; reflexivity | right; split; reflexivity].
Qed.

(** X12.  [measureDiskIO] never raises.  Each of the two tests of its
    report either failed, with speed 0, or succeeded; the overall rating is
    one of Unknown, Excellent, Good, Fair and Poor, and it is Unknown
    exactly when one of the two tests is reported as failed. *)
Theorem measureDiskIO_report :
  forall (L : Type) (imageTag : string) (E : env) (l : L) (w : world),
  exists r w',
    measureDiskIO imageTag E l w = (Ret r, l, w')
    /\ disk_test_shape (DiskIO.write r)
    /\ disk_test_shape (DiskIO.read r)
    /\ In (DiskIO.overall r) ratings
    /\ (DiskIO.overall r = "Unknown"
        <-> DiskTest.status (DiskIO.write r) = "Failed"
            \/ DiskTest.status (DiskIO.read r) = "Failed").
Proof.
  intros L imageTag E l w.
  assert (Hfailed :
    forall w' : world,
    exists r w'',
      (Ret {| DiskIO.write := disk_failed; DiskIO.read := disk_failed;
              DiskIO.overall := "Unknown" |}, l, w') = (Ret r, l, w'')
      /\ disk_test_shape (DiskIO.write r)
      /\ disk_test_shape (DiskIO.read r)
      /\ In (DiskIO.overall r) ratings
      /\ (DiskIO.overall r = "Unknown"
          <-> DiskTest.status (DiskIO.write r) = "Failed"
              \/ DiskTest.status (DiskIO.read r) = "Failed")).
  { intro w'. eexists; eexists. split; [reflexivity |].
    cbn [DiskIO.write DiskIO.read DiskIO.overall].
    split; [now left | split; [now left | split; [now left |]]].
    split; [intros _; now left | reflexivity]. }
  unfold measureDiskIO.
  unfold bind at 1. unfold console_log at 1, emit at 1. cbv beta iota.
  unfold try_catch at 1. unfold bind at 1. unfold execSync at 1.
  destruct (result (engine E _ _)) as [out | msg];
    [| cbv [bind console_log emit ret]; apply Hfailed].
  unfold bind at 1. unfold sleep at 1. unfold bind at 1.
  match goal with
  | |- context [testDiskWrite ?cid E l ?w1] =>
      destruct (testDiskWrite_run cid E l w1) as (wt & w2 & -> & Hwt)
  end.
  unfold bind at 1.
  match goal with
  | |- context [testDiskRead ?cid E l ?w1] =>
      destruct (testDiskRead_run cid E l w1) as (rt & w3 & -> & Hrt)
  end.
  unfold bind at 1. unfold execSync at 1.
  destruct (result (engine E w3 _)) as [o1 | m1];
    [| cbv [bind console_log emit ret]; apply Hfailed].
  unfold bind at 1. unfold execSync at 1.
  destruct (result (engine E _ _)) as [o2 | m2];
    [| cbv [bind console_log emit ret]; apply Hfailed].
  unfold ret. eexists; eexists. split; [reflexivity |].
  cbn [DiskIO.write DiskIO.read DiskIO.overall].
  split; [exact Hwt | split; [exact Hrt |]].
  apply calculateOverallDiskPerformance_rating.
Qed.

(** ** Processor usage *)

(** The sampling loop of [measureCPUUsage] reads what [cpu_readings]
    says, and raises when that is nothing. *)
Lemma cpu_loop_readings E containerId n :
  forall a l w,
    match cpu_readings E containerId n w with
    | Some (ms, w') =>
        for_each (seq a n) (fun _ : nat =>
          out <- execSync ("docker stats " +++ containerId
                   +++ " --no-stream --format " +++ dquote
                   +++ "{{.CPUPerc}}" +++ dquote) ;;
          push (parseFloat (Some (remove_percent (trim out)))) ;;
          sleep 1000) E l w
        = (Ret tt, l ++ ms, w')
        /\ List.length ms = n
    | None =>
        exists e l' w',
          for_each (seq a n) (fun _ : nat =>
            out <- execSync ("docker stats " +++ containerId
                     +++ " --no-stream --format " +++ dquote
                     +++ "{{.CPUPerc}}" +++ dquote) ;;
            push (parseFloat (Some (remove_percent (trim out)))) ;;
            sleep 1000) E l w
          = (Throw e, l', w')
    end.
Proof.
  induction n as [|n IH]; intros a l w.
  - cbn. rewrite app_nil_r. split; reflexivity.
  - cbn [cpu_readings seq for_each]. unfold bind at 1. unfold bind at 1.
    unfold execSync at 1. unfold cpu_stats_cmd at 1.
    destruct (result (engine E w _)) as [out | msg] eqn:Hres.
    + cbv beta iota zeta. unfold bind at 1. unfold push at 1.
      unfold bind at 1. unfold get_local at 1, set_local at 1.
      unfold sleep at 1. cbv beta iota zeta.
      specialize (IH (S a)
                    (l ++ [parseFloat (Some (remove_percent (trim out)))])
                    (after_sleep E
                       (after_exec E w (cpu_stats_cmd containerId)) 1000)).
      unfold cpu_stats_cmd at 2 in IH.
      destruct (cpu_readings E containerId n _) as [[ms w'] |].
      * destruct IH as [-> Hlen]. rewrite <- app_assoc. split.
        -- reflexivity.
        -- cbn [List.length]. now rewrite Hlen.
      * destruct IH as (e & l' & w' & IH). exists e, l', w'.
        unfold bind at 1. unfold bind at 1. unfold execSync at 1.
        rewrite Hres. exact IH.
    + eexists. eexists. eexists.
      unfold bind at 1. unfold bind at 1. unfold execSync at 1.
      rewrite Hres. reflexivity.
Qed.

(** X13.  [measureCPUUsage] never raises and leaves the caller's variables
    alone.  Its report is made from what the engine printed in this very
    run: when [docker run] succeeds and prints the container id, the ten
    rounds of [docker stats] for that id all succeed, and so do [docker
    stop] and [docker rm], the report has the ten readings' mean and
    maximum, both rounded to two decimals, 10 samples, and the rating of
    the mean before rounding; whenever one of these commands fails, it is
    the report of a failed measurement (average 0, maximum 0, 0 samples,
    rating Unknown), so an average over fewer than ten readings is never
    reported.  The arithmetic is that of doubles: on ten readings whose
    exact mean is 15 but whose sum as doubles is 149.99999999999997, the
    rating is the one of a mean below 15, Good, while the average reported
    is 15. *)
Theorem measureCPUUsage_report :
  (forall (L : Type) (imageTag : string) (E : env) (l : L) (w : world),
      let w0 := printed "Measuring CPU usage..." w in
      exists r w',
        measureCPUUsage imageTag E l w = (Ret r, l, w')
        /\ match result (engine E w0 (cpu_run_cmd imageTag)) with
           | Failed _ => r = cpu_failed
           | Exit0 out =>
               let id := trim out in
               match cpu_readings E id 10
                       (after_sleep E
                          (after_exec E w0 (cpu_run_cmd imageTag)) 5000)
               with
               | None => r = cpu_failed
               | Some (measurements, w1) =>
                   List.length measurements = 10%nat
                   /\ r = match
                            result (engine E w1 (cpu_stop_cmd id)),
                            result (engine E
                                      (after_exec E w1 (cpu_stop_cmd id))
                                      (cpu_rm_cmd id))
                          with
                          | Exit0 _, Exit0 _ =>
                              {| CpuUsage.average :=
                                   round2 (mean measurements);
                                 CpuUsage.max :=
                                   round2 (Math_max measurements);
                                 CpuUsage.samples := 10%nat;
                                 CpuUsage.efficiency :=
                                   calculateCPUEfficiency
                                     (mean measurements) |}
                          | _, _ => cpu_failed
                          end
               end
           end)
  /\ fst (fst (measureCPUUsage "img" cpu_sample_env tt world0))
     = Ret {| CpuUsage.average := of_Z 15;
              CpuUsage.max := Js.nearest (288 # 10);
              CpuUsage.samples := 10%nat;
              CpuUsage.efficiency := "Good" |}.
Proof.
  split; [| vm_compute; reflexivity].
  intros L imageTag E l w w0.
  unfold measureCPUUsage.
  unfold bind at 1. unfold console_log at 1, emit at 1. cbv beta iota.
  fold (printed "Measuring CPU usage..." w). fold w0.
  unfold try_catch at 1. unfold bind at 1. unfold execSync at 1.
  unfold cpu_run_cmd.
  destruct (result (engine E w0 _)) as [out | msg];
    [| cbv [bind console_log emit ret]; eexists; eexists;
       split; reflexivity].
  cbv beta iota zeta.
  unfold bind at 1. unfold sleep at 1. unfold with_locals at 1.
  unfold bind at 1. unfold for_range.
  match goal with
  | |- context [cpu_readings E ?id 10 ?w1] =>
      pose proof (cpu_loop_readings E id 10 0%nat [] w1) as Hloop;
      destruct (cpu_readings E id 10 w1) as [[ms w2] |]
  end.
  - destruct Hloop as [Hloop Hlen]. rewrite Hloop. cbn [app].
    unfold bind at 1. unfold get_local at 1.
    unfold bind at 1. unfold execSync at 1.
    unfold cpu_stop_cmd, cpu_rm_cmd.
    destruct (result (engine E w2 _)) as [o1 | m1];
      [| cbv [bind console_log emit ret]; eexists; eexists;
         split; [reflexivity | split; [exact Hlen | reflexivity]]].
    unfold bind at 1. unfold execSync at 1.
    destruct (result (engine E _ _)) as [o2 | m2];
      [| cbv [bind console_log emit ret]; eexists; eexists;
         split; [reflexivity | split; [exact Hlen | reflexivity]]].
    unfold ret. eexists. eexists.
    split; [reflexivity | split; [exact Hlen |]].
    unfold mean. rewrite Hlen. reflexivity.
  - destruct Hloop as (e & l' & w' & Hloop). rewrite Hloop.
    cbv [bind console_log emit ret]. eexists. eexists.
    split; reflexivity.
Qed.

(** ** Network latency *)

(** A loop whose body always returns and appends at most one element, made
    from the element of the round: what the loop appends. *)
Lemma for_each_collect {X Y} (key : X -> Y) (ok : X -> Prop)
    (body : Y -> M (list X) unit) :
  (forall y E l w,
      exists added w',
        body y E l w = (Ret tt, l ++ added, w')
        /\ (added = [] \/ exists x, added = [x] /\ key x = y /\ ok x)) ->
  forall ys E l w,
  exists added w',
    for_each ys body E l w = (Ret tt, l ++ added, w')
    /\ subseq (map key added) ys /\ Forall ok added.
Proof.
  intro Hbody. induction ys as [|y ys IH]; intros E l w; cbn [for_each].
  - exists [], w. rewrite app_nil_r.
    split; [reflexivity | split; constructor].
  - unfold bind. destruct (Hbody y E l w) as (a1 & w1 & -> & Ha1).
    destruct (IH E (l ++ a1) w1) as (a2 & w2 & -> & Hsub & Hok).
    exists (a1 ++ a2), w2. rewrite app_assoc. split; [reflexivity |].
    destruct Ha1 as [-> | (x & -> & <- & Hx)]; cbn [app map].
    + split; [now apply subseq_skip | exact Hok].
    + split; [now apply subseq_keep | now constructor].
Qed.

Lemma fold_left_snd (rs : list (string * num)) a :
  fold_left (fun sum r => Js.add sum (snd r)) rs a
  = fold_left Js.add (map snd rs) a.
Proof.
  revert a. induction rs as [|r rs IH]; intro a; [reflexivity |].
  cbn [fold_left map]. apply IH.
Qed.

(** X14.  [measureNetworkLatency] never raises.  Its report is either the
    failed one (average 0, no target, status Failed) or a successful one:
    its targets are then a non-empty selection of the three hosts, in their
    order, each with an average that is neither 0 nor [NaN], and the
    average of the report is the mean of these, rounded to two decimals.
    A host whose ping fails, or whose output has no average, is left
    out. *)
Theorem measureNetworkLatency_report :
  forall (L : Type) (imageTag : string) (E : env) (l : L) (w : world),
  exists r w',
    measureNetworkLatency imageTag E l w = (Ret r, l, w')
    /\ (r = network_failed
        \/ exists results,
             results <> []
             /\ subseq (map fst results) ping_targets
             /\ Forall (fun t => Js.truthy (snd t) = true) results
             /\ r = {| NetworkLatency.average :=
                         round2 (mean (map snd results));
                       NetworkLatency.targets := results;
                       NetworkLatency.unit := "ms";
                       NetworkLatency.status := "Success" |}).
Proof.
  intros L imageTag E l w.
  unfold measureNetworkLatency.
  unfold bind at 1. unfold console_log at 1, emit at 1. cbv beta iota.
  unfold try_catch at 1. unfold bind at 1. unfold execSync at 1.
  destruct (result (engine E _ _)) as [out | msg];
    [| cbv [bind console_log emit ret]; eexists; eexists;
       split; [reflexivity | now left]].
  unfold bind at 1. unfold sleep at 1. unfold with_locals at 1.
  unfold bind at 1.
  match goal with
  | |- context [for_each ping_targets ?body E [] ?w1] =>
      destruct (for_each_collect fst (fun t => Js.truthy (snd t) = true)
                  body) with (ys := ping_targets) (E := E)
                             (l := @nil (string * num)) (w := w1)
        as (results & w2 & -> & Hsub & Hok)
  end.
  - intros target E0 l0 w0. unfold try_catch, bind, execSync.
    destruct (result (engine E0 w0 _)) as [pingOutput | m];
      [| exists [], (after_exec E0 w0
                        ("docker exec " +++ trim out +++ " ping -c 3 "
                         +++ target));
         rewrite app_nil_r; split; [reflexivity | now left]].
    destruct (extractPingAverage pingOutput) as [avgTime |];
      [| eexists [], _; rewrite app_nil_r; split; [reflexivity | now left]].
    destruct (Js.truthy avgTime) eqn:Htruthy;
      [| eexists [], _; rewrite app_nil_r; split; [reflexivity | now left]].
    exists [(target, avgTime)]. eexists. split; [reflexivity |].
    right. exists (target, avgTime). repeat split. exact Htruthy.
  - cbn [app]. unfold bind at 1. unfold get_local at 1.
    unfold bind at 1. unfold execSync at 1.
    destruct (result (engine E w2 _)) as [o1 | m1];
      [| cbv [bind console_log emit ret]; eexists; eexists;
         split; [reflexivity | now left]].
    unfold bind at 1. unfold execSync at 1.
    destruct (result (engine E _ _)) as [o2 | m2];
      [| cbv [bind console_log emit ret]; eexists; eexists;
         split; [reflexivity | now left]].
    destruct results as [|r0 rest].
    + unfold ret. eexists; eexists. split; [reflexivity | now left].
    + unfold ret. eexists; eexists. split; [reflexivity |].
      right. exists (r0 :: rest).
      split; [discriminate | split; [exact Hsub | split; [exact Hok |]]].
      unfold mean. rewrite fold_left_snd, length_map. reflexivity.
Qed.

(** ** Reading the average of a ping *)

Lemma strip_sign_digit c g :
  is_digit c = true -> strip_sign (c :: g) = (false, c :: g).
Proof.
  destruct c as [[] [] [] [] [] [] [] []]; try discriminate; reflexivity.
Qed.

Lemma no_infinity_digit c g :
  is_digit c = true ->
  prefix_chars (list_ascii_of_string "Infinity") (c :: g) = false.
Proof.
  destruct c as [[] [] [] [] [] [] [] []]; try discriminate; reflexivity.
Qed.

Lemma digit_not_space c : is_digit c = true -> is_space c = false.
Proof.
  destruct c as [[] [] [] [] [] [] [] []]; try discriminate; reflexivity.
Qed.

Lemma take_while_all p s : forallb p (take_while p s) = true.
Proof.
  induction s as [|c s IH]; cbn [take_while]; [reflexivity |].
  destruct (p c) eqn:Hc; [| reflexivity]. cbn. now rewrite Hc.
Qed.

Lemma digit_val_nonneg c : is_digit c = true -> 0 <= digit_val c.
Proof.
  destruct c as [[] [] [] [] [] [] [] []]; try discriminate;
    intros _; vm_compute; discriminate.
Qed.

Lemma fold_digits_nonneg ds :
  forallb is_digit ds = true ->
  forall acc, 0 <= acc ->
    0 <= fold_left (fun acc c => 10 * acc + digit_val c) ds acc.
Proof.
  induction ds as [|c ds IH]; intros H acc Hacc; cbn [fold_left];
    [exact Hacc |].
  cbn in H. apply andb_true_iff in H. destruct H as [Hc Hds].
  apply (IH Hds). pose proof (digit_val_nonneg c Hc). lia.
Qed.

Lemma digits_val_nonneg ds :
  forallb is_digit ds = true -> 0 <= digits_val ds.
Proof. intro H. apply (fold_digits_nonneg ds H). lia. Qed.

Lemma fraction_digits s2 :
  forallb is_digit
    (fst (match s2 with
          | "."%char :: s2' =>
              (take_while is_digit s2', drop_while is_digit s2')
          | _ => ([], s2)
          end)) = true.
Proof.
  destruct s2 as [|d s2']; [reflexivity |].
  destruct d as [[] [] [] [] [] [] [] []]; try reflexivity.
  apply take_while_all.
Qed.

Lemma scale10_nonneg q e : (0 <= q)%Q -> (0 <= scale10 q e)%Q.
Proof.
  intro Hq. unfold scale10.
  destruct (Z.ltb_spec e 0).
  - apply Qle_shift_div_l.
    + change 0%Q with (inject_Z 0). rewrite <- Zlt_Qlt.
      apply Z.pow_pos_nonneg; lia.
    + rewrite Qmult_0_l. exact Hq.
  - apply Qmult_le_0_compat; [exact Hq |].
    change 0%Q with (inject_Z 0). rewrite <- Zle_Qle.
    apply Z.pow_nonneg. lia.
Qed.

(** A text that starts with a digit reads as a number that is neither
    [NaN] nor negative. *)
Lemma decimal_literal_digit c g :
  is_digit c = true ->
  exists v rest, decimal_literal (c :: g) = Some (v, rest) /\ not_negative v.
Proof.
  intro Hc. unfold decimal_literal.
  rewrite (strip_sign_digit c g Hc), (no_infinity_digit c g Hc).
  assert (Hip : take_while is_digit (c :: g) = c :: take_while is_digit g)
    by (cbn [take_while]; now rewrite Hc).
  rewrite Hip.
  pose proof (fraction_digits (drop_while is_digit (c :: g))) as Hfp.
  destruct (match drop_while is_digit (c :: g) with
            | "."%char :: s2' => _
            | _ => _
            end) as [fp s3].
  cbn [fst] in Hfp. cbv beta iota.
  destruct (exponent_part s3) as [e s4].
  eexists; eexists. split; [reflexivity |].
  apply nearest_nonneg. apply scale10_nonneg.
  apply Qle_shift_div_l.
  - change 0%Q with (inject_Z 0). rewrite <- Zlt_Qlt.
    apply Z.pow_pos_nonneg; lia.
  - rewrite Qmult_0_l. change 0%Q with (inject_Z 0). rewrite <- Zle_Qle.
    apply digits_val_nonneg. cbn [app forallb]. rewrite Hc. cbn [andb].
    rewrite forallb_app, take_while_all, Hfp. reflexivity.
Qed.

Lemma parseFloat_digit c g :
  is_digit c = true -> not_negative (parseFloat_chars (c :: g)).
Proof.
  intro Hc. unfold parseFloat_chars. cbn [drop_while].
  rewrite (digit_not_space c Hc).
  destruct (decimal_literal_digit c g Hc) as (v & rest & -> & Hv).
  exact Hv.
Qed.

Lemma prefix_chars_app p rest : prefix_chars p (p ++ rest) = true.
Proof.
  induction p as [|c p IH]; [reflexivity |].
  cbn [app prefix_chars]. now rewrite Ascii.eqb_refl, IH.
Qed.

Lemma includes_chars_prefix p s :
  prefix_chars p s = true -> includes_chars p s = true.
Proof. intro H. destruct s; cbn [includes_chars]; now rewrite H. Qed.

Lemma includes_chars_inside p pre post :
  includes_chars p (pre ++ p ++ post) = true.
Proof.
  induction pre as [|c pre IH]; cbn [app].
  - apply includes_chars_prefix, prefix_chars_app.
  - cbn [includes_chars]. rewrite IH. apply orb_true_r.
Qed.

(** A match of the pattern of [extractPingAverage]: the label, then the
    text of the group, which starts with a digit. *)
Lemma match_here_ping s whole caps rest :
  Regex.match_here ping_avg_re s = Some (whole, caps, rest) ->
  exists c g,
    is_digit c = true
    /\ whole = list_ascii_of_string avg_label ++ c :: g
    /\ caps = [(1%nat, c :: g)].
Proof.
  unfold Regex.match_here, ping_avg_re. cbn [Regex.run]. intro Hm.
  apply (run_groupless (lit "avg = ") eq_refl) in Hm.
  destruct Hm as (u & s1 & -> & Hu & Hm).
  cbv beta in Hm.
  apply (run_groupless
           (Regex.Seq (Regex.Plus (Regex.Chr is_digit))
              (Regex.Seq (Regex.Opt (Regex.Lit1 "."))
                 (Regex.Plus (Regex.Chr is_digit)))) eq_refl) in Hm.
  destruct Hm as (g & s2 & -> & Hg & Hm).
  cbv beta in Hm. injection Hm as <- <- <-.
  apply matches_Lit in Hu. subst u.
  inversion Hg as [| | a b d1 v Hd1 Hv | | | | |]; subst.
  apply matches_plus_chars in Hd1. destruct Hd1 as [Hne Hd].
  destruct d1 as [|c d1]; [congruence |].
  cbn in Hd. apply andb_true_iff in Hd. destruct Hd as [Hc _].
  exists c, (d1 ++ v). split; [exact Hc |].
  rewrite (firstn_consumed ((c :: d1) ++ v) s2).
  rewrite app_assoc.
  rewrite (firstn_consumed (list_ascii_of_string "avg = "
                            ++ (c :: d1) ++ v) s2).
  split; reflexivity.
Qed.

(** X15.  [extractPingAverage] only reads an average written after the
    label [avg = ]: on an output that does not contain this label it
    answers [null], and when it answers with a number, the output
    contains the label and the number is neither [NaN] nor negative (it is
    infinite when the numeral is beyond the range of the doubles). *)
Theorem extractPingAverage_needs_label :
  forall pingOutput : string,
    (includes pingOutput avg_label = false ->
     extractPingAverage pingOutput = None)
    /\ (forall v,
           extractPingAverage pingOutput = Some v ->
           includes pingOutput avg_label = true /\ not_negative v).
Proof.
  intro s.
  assert (Hsome : forall v,
             extractPingAverage s = Some v ->
             includes s avg_label = true /\ not_negative v).
  { intro v. unfold extractPingAverage, Regex.String_match.
    destruct (Regex.search ping_avg_re (list_ascii_of_string s))
      as [[[whole caps] rest] |] eqn:Hs; [| discriminate].
    apply search_here in Hs. destruct Hs as (pre & s0 & Hpre & Hm).
    pose proof Hm as Hm'. apply match_here_ping in Hm'.
    destruct Hm' as (c & g & Hc & -> & ->).
    unfold Regex.match_here in Hm. apply run_sound in Hm.
    destruct Hm as (u & rest' & caps' & -> & _ & Hk).
    injection Hk as Hwhole _ _.
    rewrite (firstn_consumed u rest') in Hwhole. subst u.
    cbn [seq map nth Regex.lookup_group Nat.eqb parseFloat].
    intros [= <-]. split.
    - unfold includes. rewrite Hpre.
      change (includes_chars (list_ascii_of_string avg_label)
                (pre ++ list_ascii_of_string avg_label
                 ++ ((c :: g) ++ rest')) = true).
      apply includes_chars_inside.
    - now apply parseFloat_digit. }
  split; [| exact Hsome].
  intro Hno. destruct (extractPingAverage s) as [v |] eqn:Hv;
    [| reflexivity].
  destruct (Hsome v eq_refl) as [Hin _]. congruence.
Qed.

(** The summary line of the ping of Linux has no such label. *)
Lemma extractPingAverage_needs_label_witness :
  extractPingAverage "rtt min/avg/max/mdev = 14.2/15.1/16.0/0.7 ms" = None.
Proof.
  apply (proj1 (extractPingAverage_needs_label
                  "rtt min/avg/max/mdev = 14.2/15.1/16.0/0.7 ms")).
  reflexivity.
Defined.

(** ** What the two pipelines return and raise *)

(** The frame around probes that always return: with a tag it is the
    probes on that tag; without one, the probes on the image built, or the
    error of the build. *)
Lemma with_image_outcome {L A} (P : env -> Prop) (build : M L string)
    (body : string -> M L A) imageTag E l w :
  P E ->
  (forall image, ends P false false (body image)) ->
  (forall s, imageTag = Some s -> s <> "" ->
             with_image build body imageTag E l w = body s E l w)
  /\ (tag_given imageTag = false ->
      match build E l w with
      | (Ret image, l1, w1) =>
          exists a,
            fst (fst (body image E l1 w1)) = Ret a
            /\ fst (fst (with_image build body imageTag E l w)) = Ret a
      | (Throw e, l1, w1) =>
          with_image build body imageTag E l w = (Throw e, l1, w1)
      | (OutOfFuel, l1, w1) =>
          with_image build body imageTag E l w = (OutOfFuel, l1, w1)
      end).
Proof.
  intros HP Hbody. split.
  - intros s -> Hs. apply with_image_tagged. cbn.
    destruct (String.eqb_spec s ""); [contradiction | reflexivity].
  - intro Hs.
    destruct (build E l w) as [[[image | e |] l1] w1] eqn:Hb.
    + pose proof (with_image_untagged build body imageTag E l w image l1 w1
                    Hs Hb) as Hrun.
      pose proof (Hbody image E HP l1 w1) as Hend.
      destruct (body image E l1 w1) as [[[a | e |] lb] wb];
        cbn [fst snd allowed] in *; try discriminate.
      destruct Hrun as (w' & -> & _). exists a. split; reflexivity.
    + unfold with_image.
      assert (Hacq :
        (match imageTag with
         | Some s => if tag_given imageTag then ret s else build
         | None => build
         end) = build).
      { destruct imageTag as [s |]; [rewrite Hs |]; reflexivity. }
      rewrite Hacq. unfold bind. rewrite Hb. reflexivity.
    + unfold with_image.
      assert (Hacq :
        (match imageTag with
         | Some s => if tag_given imageTag then ret s else build
         | None => build
         end) = build).
      { destruct imageTag as [s |]; [rewrite Hs |]; reflexivity. }
      rewrite Hacq. unfold bind. rewrite Hb. reflexivity.
Qed.

Lemma buildTempImage_run {L} E (l : L) w :
  buildTempImage E l w
  = match result (engine E (perf_build_world w) (build_cmd (perf_tag w))) with
    | Exit0 _ =>
        (Ret (perf_tag w), l,
         after_exec E (perf_build_world w) (build_cmd (perf_tag w)))
    | Failed msg =>
        (Throw (Error ("Failed to build Docker image: " +++ msg)), l,
         after_exec E (perf_build_world w) (build_cmd (perf_tag w)))
    end.
Proof.
  unfold buildTempImage, bind, console_log, emit, Date_now, try_catch,
    execSync, ret, throw. cbv beta iota zeta.
  fold (perf_build_world w). change (now (perf_build_world w)) with (now w).
  fold (perf_tag w). fold (build_cmd (perf_tag w)).
  destruct (result (engine E _ _)); reflexivity.
Qed.

Lemma scanner_buildTempImage_run {L} E (l : L) w :
  Scanner.buildTempImage E l w
  = match result (engine E (scan_build_world w) (build_cmd (scan_tag w))) with
    | Exit0 _ =>
        (Ret (scan_tag w), l,
         after_exec E (scan_build_world w) (build_cmd (scan_tag w)))
    | Failed msg =>
        (Throw (Error ("Failed to build Docker image: " +++ msg)), l,
         after_exec E (scan_build_world w) (build_cmd (scan_tag w)))
    end.
Proof.
  unfold Scanner.buildTempImage, bind, console_log, emit, Date_now,
    try_catch, execSync, ret, throw. cbv beta iota zeta.
  fold (scan_build_world w). change (now (scan_build_world w)) with (now w).
  fold (scan_tag w). fold (build_cmd (scan_tag w)).
  destruct (result (engine E _ _)); reflexivity.
Qed.

(** The report of the scan names the image that was scanned. *)
Lemma scan_probes_image {L} image E (l : L) w r :
  fst (fst (Scanner.scan_probes image E l w)) = Ret r ->
  Scanner.Scan.image r = image.
Proof.
  unfold Scanner.scan_probes, bind.
  repeat match goal with
         | |- context [match ?c E ?l0 ?w0 with _ => _ end] =>
             destruct (c E l0 w0) as [[[? | ? |] ?] ?];
             try discriminate
         end.
  unfold ret. intros [= <-]. reflexivity.
Qed.

(** The report of the tests names the image that was tested, and its
    recommendations are those its own metrics call for. *)
Lemma performance_probes_report {L} fuel image E (l : L) w r :
  fst (fst (performance_probes fuel image E l w)) = Ret r ->
  Performance.image r = image
  /\ Performance.recommendations r = generateRecommendations r.
Proof.
  unfold performance_probes, bind.
  repeat match goal with
         | |- context [match ?c E ?l0 ?w0 with _ => _ end] =>
             destruct (c E l0 w0) as [[[? | ? |] ?] ?];
             try discriminate
         end.
  unfold ret. cbv zeta. intros [= <-]. split; reflexivity.
Qed.

(** X16.  The two pipelines raise only when the temporary image cannot be
    built.  Given a non-empty tag, [scanImage] returns a report on that
    tag; given none, it builds an image tagged with the time: when the
    build fails it raises [Failed to build Docker image: ] followed by the
    message of the build, having run nothing else, and when the build
    succeeds it returns a report on the image built.  The same holds of
    [testPerformance] (on an engine whose clock does not run backwards),
    and the recommendations of its report are those that
    [generateRecommendations] gives for that report. *)
Theorem pipelines_raise_only_when_build_fails :
  (forall (L : Type) (imageTag : option string) (E : env) (l : L)
          (w : world),
      (forall s, imageTag = Some s -> s <> "" ->
         exists r,
           fst (fst (Scanner.scanImage imageTag E l w)) = Ret r
           /\ Scanner.Scan.image r = s)
      /\ (tag_given imageTag = false ->
          (forall msg,
              result (engine E (scan_build_world w) (build_cmd (scan_tag w)))
              = Failed msg ->
              Scanner.scanImage imageTag E l w
              = (Throw (Error ("Failed to build Docker image: " +++ msg)), l,
                 after_exec E (scan_build_world w) (build_cmd (scan_tag w))))
          /\ (forall out,
                 result (engine E (scan_build_world w)
                           (build_cmd (scan_tag w))) = Exit0 out ->
                 exists r,
                   fst (fst (Scanner.scanImage imageTag E l w)) = Ret r
                   /\ Scanner.Scan.image r = scan_tag w)))
  /\ (forall (L : Type) (fuel : nat) (imageTag : option string) (E : env)
             (l : L) (w : world),
         (61 <= fuel)%nat -> monotone_clock E ->
         (forall s, imageTag = Some s -> s <> "" ->
            exists r,
              fst (fst (testPerformance fuel imageTag E l w)) = Ret r
              /\ Performance.image r = s
              /\ Performance.recommendations r = generateRecommendations r)
         /\ (tag_given imageTag = false ->
             (forall msg,
                 result (engine E (perf_build_world w)
                           (build_cmd (perf_tag w))) = Failed msg ->
                 testPerformance fuel imageTag E l w
                 = (Throw (Error ("Failed to build Docker image: " +++ msg)),
                    l,
                    after_exec E (perf_build_world w)
                      (build_cmd (perf_tag w))))
             /\ (forall out,
                    result (engine E (perf_build_world w)
                              (build_cmd (perf_tag w))) = Exit0 out ->
                    exists r,
                      fst (fst (testPerformance fuel imageTag E l w)) = Ret r
                      /\ Performance.image r = perf_tag w
                      /\ Performance.recommendations r
                         = generateRecommendations r))).
Proof.
  split.
  - intros L imageTag E l w. unfold Scanner.scanImage.
    destruct (with_image_outcome any_env Scanner.buildTempImage
                Scanner.scan_probes imageTag E l w I
                (fun image => scan_probes_total any_env image))
      as [Htag Hnone].
    split.
    + intros s Hs Hne. rewrite (Htag s Hs Hne).
      destruct (ends_returns any_env _ (scan_probes_total any_env s)
                  E I l w) as (r & l' & w' & Hrun).
      exists r. rewrite Hrun. split; [reflexivity |].
      apply (scan_probes_image s E l w). now rewrite Hrun.
    + intro Hs. specialize (Hnone Hs).
      rewrite scanner_buildTempImage_run in Hnone.
      split.
      * intros msg Hmsg. rewrite Hmsg in Hnone. exact Hnone.
      * intros out Hout. rewrite Hout in Hnone.
        destruct Hnone as (r & Hbody & Hrun).
        exists r. split; [exact Hrun |].
        eapply scan_probes_image. exact Hbody.
  - intros L fuel imageTag E l w Hfuel Hclock. unfold testPerformance.
    destruct (with_image_outcome monotone_clock buildTempImage
                (performance_probes fuel) imageTag E l w Hclock
                (fun image => performance_probes_total fuel image Hfuel))
      as [Htag Hnone].
    split.
    + intros s Hs Hne. rewrite (Htag s Hs Hne).
      destruct (ends_returns monotone_clock _
                  (performance_probes_total fuel s Hfuel)
                  E Hclock l w) as (r & l' & w' & Hrun).
      exists r. rewrite Hrun. split; [reflexivity |].
      apply (performance_probes_report fuel s E l w). now rewrite Hrun.
    + intro Hs. specialize (Hnone Hs).
      rewrite buildTempImage_run in Hnone.
      split.
      * intros msg Hmsg. rewrite Hmsg in Hnone. exact Hnone.
      * intros out Hout. rewrite Hout in Hnone.
        destruct Hnone as (r & Hbody & Hrun).
        exists r. split; [exact Hrun |].
        eapply performance_probes_report. exact Hbody.
Qed.

(** Without a Dockerfile both pipelines raise the error of the build. *)
Lemma pipelines_raise_only_when_build_fails_witness :
  fst (fst (Scanner.scanImage None no_build_env tt world0))
  = Throw (Error "Failed to build Docker image: no Dockerfile")
  /\ fst (fst (testPerformance 61 None no_build_env tt world0))
     = Throw (Error "Failed to build Docker image: no Dockerfile").
Proof.
  split.
  - rewrite (proj1 (proj2 (proj1 pipelines_raise_only_when_build_fails unit
               None no_build_env tt world0) eq_refl) "no Dockerfile" eq_refl).
    reflexivity.
  - assert (Hclock : monotone_clock no_build_env)
      by (split; intros; simpl; lia).
    rewrite (proj1 (proj2 (proj2 pipelines_raise_only_when_build_fails unit
               61%nat None no_build_env tt world0 (le_n 61) Hclock) eq_refl)
               "no Dockerfile" eq_refl).
    reflexivity.
Defined.

(** ** Build timing *)

(** X17.  [measureBuildTime] always runs exactly three builds, and its
    result is the summary of one sample for each build that succeeded, the
    time that build took: the number of samples is the number of builds
    that succeeded, and the number of removals of the test image it
    attempted, whether or not these removals succeeded.  On an engine
    whose clock does not run backwards no sample is negative. *)
Theorem measureBuildTime_three_builds :
  forall (L : Type) (E : env) (l : L) (w : world),
    let times :=
      build_samples E [0; 1; 2]%nat (printed "Measuring build time..." w) in
    exists w',
      measureBuildTime E l w = (Ret (summarize times), l, w')
      /\ issued build_test_cmd w' = (issued build_test_cmd w + 3)%nat
      /\ succeeded build_test_cmd w'
         = (succeeded build_test_cmd w + List.length times)%nat
      /\ issued build_test_rmi w'
         = (issued build_test_rmi w + List.length times)%nat
      /\ (monotone_clock E -> Forall (fun t => 0 <= t) times).
Proof.
  intros L E l w times.
  destruct (measureBuildTime_samples E l w) as (w' & Hrun & Hb & Hr & Hs).
  exists w'. split; [exact Hrun |].
  split; [exact Hb |]. split; [exact Hs |]. split; [exact Hr |].
  intro Hclock. apply build_samples_nonneg. exact Hclock.
Qed.

(** Three builds of 10 ms whose images cannot be removed: three samples of
    10 ms. *)
Lemma measureBuildTime_three_builds_witness :
  fst (fst (measureBuildTime rmi_fail_env tt world0))
  = Ret (summarize [10; 10; 10])
  /\ Forall (fun t => 0 <= t) [10; 10; 10].
Proof.
  destruct (measureBuildTime_three_builds unit rmi_fail_env tt world0)
    as (w' & Hrun & _ & _ & _ & Ht).
  rewrite Hrun. split; [reflexivity |].
  apply Ht. split; intros; simpl; lia.
Defined.

(** ** Sizes written as a whole number and a unit *)

Lemma digit_val_digit_char d : 0 <= d <= 9 -> digit_val (digit_char d) = d.
Proof.
  intro H.
  assert (Hd : d = 0 \/ d = 1 \/ d = 2 \/ d = 3 \/ d = 4 \/ d = 5 \/ d = 6
               \/ d = 7 \/ d = 8 \/ d = 9) by lia.
  repeat (destruct Hd as [-> | Hd]; [reflexivity |]). subst. reflexivity.
Qed.

(** Reading the digits that were written gives the number back. *)
Lemma nat_digits_value fuel :
  forall n acc,
    0 <= n < 2 ^ Z.of_nat fuel ->
    fold_left (fun a c => 10 * a + digit_val c) (nat_digits fuel n acc) 0
    = fold_left (fun a c => 10 * a + digit_val c) acc n.
Proof.
  induction fuel as [|fuel IH]; intros n acc Hn; cbn [nat_digits].
  - change (2 ^ Z.of_nat 0) with 1 in Hn. assert (n = 0) as -> by lia.
    reflexivity.
  - destruct (Z.ltb_spec n 10) as [Hsmall | Hbig].
    + cbn [fold_left]. rewrite Z.mod_small by lia.
      rewrite digit_val_digit_char by lia. f_equal.
    + rewrite IH.
      * cbn [fold_left]. f_equal.
        rewrite digit_val_digit_char
          by (pose proof (Z.mod_pos_bound n 10); lia).
        symmetry. apply Z.div_mod. lia.
      * rewrite Nat2Z.inj_succ, Z.pow_succ_r in Hn by lia.
        split; [apply Z.div_pos; lia |].
        apply Z.div_lt_upper_bound; lia.
Qed.

Lemma Z_digits_value n : 0 <= n -> digits_val (Z_digits n) = n.
Proof.
  intro Hn. unfold digits_val, Z_digits. rewrite nat_digits_value.
  - reflexivity.
  - split; [exact Hn |].
    rewrite Nat2Z.inj_succ, Z2Nat.id by apply Z.log2_nonneg.
    destruct (Z.eq_dec n 0) as [-> | Hne]; [reflexivity |].
    apply Z.log2_spec. lia.
Qed.

Lemma nat_digits_nonempty fuel n acc :
  (0 < fuel)%nat -> nat_digits fuel n acc <> [] .
Proof.
  revert n acc. induction fuel as [|fuel IH]; intros n acc Hf; [lia |].
  cbn [nat_digits]. destruct (n <? 10); [discriminate |].
  destruct fuel as [|fuel']; [discriminate |]. apply IH. lia.
Qed.

Lemma Z_digits_shape n :
  0 <= n ->
  exists d ds, Z_digits n = d :: ds
               /\ is_digit d = true /\ forallb is_digit ds = true.
Proof.
  intro Hn.
  pose proof (nat_digits_are_digits (S (Z.to_nat (Z.log2 n))) n [] Hn
                eq_refl) as Hall.
  pose proof (nat_digits_nonempty (S (Z.to_nat (Z.log2 n))) n []
                ltac:(lia)) as Hne.
  fold (Z_digits n) in Hall, Hne.
  destruct (Z_digits n) as [|d ds]; [congruence |].
  cbn in Hall. apply andb_true_iff in Hall. destruct Hall as [Hd Hds].
  exists d, ds. auto.
Qed.

(** A run of digits is consumed whole when what follows it is accepted. *)
Lemma run_star_digits {A} ds :
  forall rest caps (k : chars -> Regex.captures -> option A) x,
    forallb is_digit ds = true ->
    (forall c rest', rest = c :: rest' -> is_digit c = false) ->
    k rest caps = Some x ->
    Regex.run (Regex.Star (Regex.Chr is_digit)) (ds ++ rest) caps k = Some x.
Proof.
  induction ds as [|d ds IH]; intros rest caps k x Hds Hrest Hk.
  - cbn [app Regex.run]. destruct rest as [|c rest']; [exact Hk |].
    cbn [List.length]. rewrite (Hrest c rest' eq_refl). exact Hk.
  - cbn in Hds. apply andb_true_iff in Hds. destruct Hds as [Hd Hds].
    specialize (IH rest caps k x Hds Hrest Hk). cbn [Regex.run] in IH.
    cbn [app Regex.run List.length]. rewrite Hd.
    assert (Hlt : (List.length (ds ++ rest) <? S (List.length (ds ++ rest)))%nat
                  = true) by (apply Nat.ltb_lt; lia).
    rewrite Hlt, IH. reflexivity.
Qed.

Lemma firstn_whole {X} (s : list X) :
  firstn (List.length s - List.length (@nil X)) s = s.
Proof. cbn [List.length]. rewrite Nat.sub_0_r. apply firstn_all. Qed.

(** A numeral directly followed by a unit is matched whole by a size
    pattern whose second group accepts the unit. *)
Lemma match_here_numeral U d ds u :
  is_digit d = true -> forallb is_digit ds = true ->
  (exists c u', u = c :: u' /\ is_digit c = false
                /\ Ascii.eqb "." c = false) ->
  (forall caps (K : chars -> Regex.captures ->
                    option (chars * Regex.captures * chars)) x,
      K [] caps = Some x -> Regex.run U u caps K = Some x) ->
  Regex.match_here (Regex.Seq (Regex.Group 1 numeric_group)
                      (Regex.Group 2 U)) ((d :: ds) ++ u)
  = Some ((d :: ds) ++ u, [(2%nat, u); (1%nat, d :: ds)], []).
Proof.
  intros Hd Hds (c & u' & Hu & Hc & Hdot) HU.
  unfold Regex.match_here, numeric_group, Regex.Plus, Regex.Opt, Regex.Lit1.
  set (digits := Regex.Star (Regex.Chr is_digit)).
  cbn [Regex.run app]. rewrite Hd. subst digits.
  apply run_star_digits; [exact Hds | |].
  { intros c0 rest' Hrest. assert (c0 = c) as -> by congruence. exact Hc. }
  cbv beta. rewrite Hu at 1 2. rewrite Hdot.
  apply (run_star_digits []); [reflexivity | |].
  { intros c0 rest' Hrest. assert (c0 = c) as -> by congruence. exact Hc. }
  rewrite <- Hu. apply HU.
  change (d :: ds ++ u) with ((d :: ds) ++ u).
  rewrite (firstn_consumed (d :: ds) u), (firstn_whole u),
    (firstn_whole ((d :: ds) ++ u)).
  reflexivity.
Qed.

Lemma String_match_numeral U d ds u :
  is_digit d = true -> forallb is_digit ds = true ->
  (exists c u', u = c :: u' /\ is_digit c = false
                /\ Ascii.eqb "." c = false) ->
  (forall caps (K : chars -> Regex.captures ->
                    option (chars * Regex.captures * chars)) x,
      K [] caps = Some x -> Regex.run U u caps K = Some x) ->
  Regex.String_match (Regex.Seq (Regex.Group 1 numeric_group)
                        (Regex.Group 2 U)) 2
    (string_of_list_ascii ((d :: ds) ++ u))
  = Some [Some (string_of_list_ascii ((d :: ds) ++ u));
          Some (string_of_list_ascii (d :: ds));
          Some (string_of_list_ascii u)].
Proof.
  intros Hd Hds Hu HU. unfold Regex.String_match.
  rewrite list_ascii_of_string_of_list_ascii.
  assert (Hs : Regex.search (Regex.Seq (Regex.Group 1 numeric_group)
                               (Regex.Group 2 U)) ((d :: ds) ++ u)
               = Some ((d :: ds) ++ u, [(2%nat, u); (1%nat, d :: ds)], [])).
  { cbn [app Regex.search].
    change (d :: ds ++ u) with ((d :: ds) ++ u).
    now rewrite (match_here_numeral U d ds u Hd Hds Hu HU). }
  rewrite Hs. reflexivity.
Qed.

Lemma take_drop_while_run (p : ascii -> bool) xs c rest :
  forallb p xs = true -> p c = false ->
  take_while p (xs ++ c :: rest) = xs
  /\ drop_while p (xs ++ c :: rest) = c :: rest.
Proof.
  intros Hxs Hc. induction xs as [|x xs IH]; cbn [app take_while drop_while].
  - now rewrite Hc.
  - cbn in Hxs. apply andb_true_iff in Hxs. destruct Hxs as [Hx Hxs].
    rewrite Hx. destruct (IH Hxs) as [-> ->]. split; reflexivity.
Qed.

(** [parseFloat] reads the whole number in front of a unit. *)
Lemma parseFloat_numeral_unit d ds u :
  is_digit d = true -> forallb is_digit ds = true -> In u unit_texts ->
  parseFloat_chars ((d :: ds) ++ u)
  = nearest (inject_Z (digits_val (d :: ds))).
Proof.
  intros Hd Hds Hu.
  assert (Hall : forallb is_digit (d :: ds) = true)
    by (cbn; now rewrite Hd, Hds).
  unfold parseFloat_chars. cbn [app drop_while].
  rewrite (digit_not_space d Hd). unfold decimal_literal.
  rewrite (strip_sign_digit d _ Hd), (no_infinity_digit d _ Hd).
  change (d :: ds ++ u) with ((d :: ds) ++ u).
  assert (Hend :
    forall q, nearest (inject_Z (digits_val ((d :: ds) ++ []))
                       / inject_Z (10 ^ Z.of_nat 0) * inject_Z (10 ^ 0))
              = q -> q = nearest (inject_Z (digits_val (d :: ds)))).
  { intros q <-. rewrite app_nil_r. apply nearest_compat.
    change (10 ^ Z.of_nat 0) with 1.
    change (10 ^ 0) with 1. change (inject_Z 1) with 1%Q.
    rewrite Qmult_1_r. unfold Qdiv. change (/ 1)%Q with 1%Q.
    apply Qmult_1_r. }
  unfold unit_texts, memory_unit_names, size_unit_names in Hu.
  cbn in Hu.
  repeat (destruct Hu as [<- | Hu];
          [ match goal with
            | |- context [take_while is_digit ((d :: ds) ++ ?c :: ?r)] =>
                destruct (take_drop_while_run is_digit (d :: ds) c r Hall
                            eq_refl) as [-> ->]
            end;
            apply Hend; reflexivity |]).
  contradiction.
Qed.

Lemma append_of_lists a b :
  string_of_list_ascii a +++ b
  = string_of_list_ascii (a ++ list_ascii_of_string b).
Proof.
  rewrite <- (string_of_list_ascii_of_string (string_of_list_ascii a +++ b)).
  now rewrite list_ascii_of_string_app, list_ascii_of_string_of_list_ascii.
Qed.

(** What a size pattern and [parseFloat] make of a whole number directly
    followed by a unit the pattern accepts. *)
Lemma number_of_numeral U n unit :
  0 <= n ->
  In (list_ascii_of_string unit) unit_texts ->
  (exists c u', list_ascii_of_string unit = c :: u'
                /\ is_digit c = false /\ Ascii.eqb "." c = false) ->
  (forall caps (K : chars -> Regex.captures ->
                    option (chars * Regex.captures * chars)) x,
      K [] caps = Some x ->
      Regex.run U (list_ascii_of_string unit) caps K = Some x) ->
  number_of_match
    (Regex.String_match
       (Regex.Seq (Regex.Group 1 numeric_group) (Regex.Group 2 U)) 2
       (Z_to_string n +++ unit))
  = nearest (inject_Z n).
Proof.
  intros Hn Hin Hu HU.
  destruct (Z_digits_shape n Hn) as (d & ds & Hdigits & Hd & Hds).
  unfold Z_to_string. destruct (Z.ltb_spec n 0) as [? | _]; [lia |].
  rewrite Z.abs_eq by exact Hn. cbn [app].
  rewrite append_of_lists, Hdigits.
  rewrite (String_match_numeral U d ds _ Hd Hds Hu HU).
  unfold number_of_match. cbn [nth parseFloat].
  rewrite list_ascii_of_string_of_list_ascii.
  rewrite (parseFloat_numeral_unit d ds _ Hd Hds Hin).
  rewrite <- Hdigits, Z_digits_value by exact Hn. reflexivity.
Qed.

(** X18.  A whole number directly followed by a unit is read as the number
    alone, whatever the unit: for every [n >= 0], [parseMemorySize] gives
    the double nearest to [n] for [n] followed by any of B, KiB, MiB, GiB
    and TiB, and [parseSize] gives it for [n] followed by any of B, kB, MB
    and GB.  Up to [2 ^ 53] that double is [n] itself. *)
Theorem sizes_with_units_read_as_numbers :
  forall (n : Z) (unit : string),
    0 <= n ->
    (In unit memory_unit_names ->
     parseMemorySize (Z_to_string n +++ unit) = nearest (inject_Z n))
    /\ (In unit size_unit_names ->
        Scanner.parseSize (Z_to_string n +++ unit) = nearest (inject_Z n))
    /\ (n <= 2 ^ 53 -> nearest (inject_Z n) = of_Z n).
Proof.
  intros n unit Hn. split; [| split]; [intro Hunit | intro Hunit |].
  - unfold parseMemorySize, memory_size_re.
    etransitivity;
      [ apply (scaled_match_is_number _ memory_units 1024
                 (Z_to_string n +++ unit));
        [ reflexivity
        | intros m Hne Hm; apply (numeral_is_no_unit m Hne Hm) ] |].
    unfold memory_unit_names, memory_units in Hunit. cbn [map fst In] in Hunit.
    repeat (destruct Hunit as [<- | Hunit];
            [ apply number_of_numeral;
              [ exact Hn
              | cbn; auto 12
              | eexists; eexists; repeat split
              | intros caps K x HK; cbn; rewrite HK; reflexivity ] |]).
    contradiction.
  - assert (Hnum :
      number_of_match
        (Regex.String_match Scanner.size_re 2 (Z_to_string n +++ unit))
      = nearest (inject_Z n)).
    { unfold Scanner.size_re.
      unfold size_unit_names, Scanner.size_units in Hunit.
      cbn [map fst In] in Hunit.
      repeat (destruct Hunit as [<- | Hunit];
              [ apply number_of_numeral;
                [ exact Hn
                | cbn; auto 12
                | eexists; eexists; repeat split
                | intros caps K x HK; cbn; rewrite HK; reflexivity ] |]).
      contradiction. }
    unfold Scanner.parseSize.
    destruct (String.eqb_spec (Z_to_string n +++ unit) "0B") as [Hz | _].
    + rewrite Hz in Hnum. rewrite <- Hnum. vm_compute. reflexivity.
    + rewrite <- Hnum. unfold Scanner.size_re.
      apply (scaled_match_is_number _ Scanner.size_units 1000
               (Z_to_string n +++ unit)); [reflexivity |].
      intros m Hne Hm. apply (numeral_is_no_unit m Hne Hm).
  - intro Hmax. apply nearest_Z. lia.
Qed.

(** Two gibibytes and two gigabytes both read as 2. *)
Lemma sizes_with_units_read_as_numbers_witness :
  0 <= 2
  /\ parseMemorySize "2GiB" = of_Z 2
  /\ Scanner.parseSize "2GB" = of_Z 2.
Proof.
  assert (H : 0 <= 2) by lia.
  split; [exact H |].
  destruct (sizes_with_units_read_as_numbers 2 "GiB" H) as (Hm & _ & Hz).
  destruct (sizes_with_units_read_as_numbers 2 "GB" H) as (_ & Hs & _).
  rewrite <- Hz by discriminate. split.
  - apply Hm. cbn. auto.
  - apply Hs. cbn. auto.
Defined.

(** ** Trivy reports with an entry that has no severity *)

(** An entry is recorded when its severity is a string, and makes the
    callback raise an error otherwise. *)
Lemma trivy_entry_run vuln E l w :
  (has_severity vuln /\ exists l', trivy_entry vuln E l w = (Ret tt, l', w))
  \/ (~ has_severity vuln
      /\ exists e, trivy_entry vuln E l w = (Throw e, l, w)).
Proof.
  assert (Hno : forall sev,
             (forall s, sev <> Some (JStr s)) ->
             forall f, exists e,
               Scanner.record_finding sev f E l w = (Throw e, l, w)).
  { intros sev Hsev f. unfold Scanner.record_finding, bind,
      Scanner.categorizeVulnerability.
    destruct sev as [[| | | s | |] |]; try (eexists; reflexivity).
    exfalso. apply (Hsev s). reflexivity. }
  unfold trivy_entry.
  destruct vuln as [| b | n | s | items | fields].
  - right. split; [intros (f & s & H & _); discriminate |].
    eexists. reflexivity.
  - right. split; [intros (f & s & H & _); discriminate |].
    cbv [bind Scanner.get_prop ret]. apply Hno. discriminate.
  - right. split; [intros (f & s & H & _); discriminate |].
    cbv [bind Scanner.get_prop ret]. apply Hno. discriminate.
  - right. split; [intros (f & s0 & H & _); discriminate |].
    unfold bind, Scanner.get_prop, ret.
    change (Scanner.index_of_key "Severity") with (@None nat).
    cbv beta iota. apply Hno. discriminate.
  - right. split; [intros (f & s & H & _); discriminate |].
    unfold bind, Scanner.get_prop, ret.
    change (Scanner.index_of_key "Severity") with (@None nat).
    cbv beta iota. apply Hno. discriminate.
  - unfold bind, Scanner.get_prop, ret. cbv beta iota.
    destruct (lookup_key "Severity" fields) as [[| | | s | |] |] eqn:Hsev;
      try (right; split;
           [ intros (f & s0 & [= <-] & H); congruence
           | apply Hno; discriminate ]).
    left. split; [exists fields, s; split; [reflexivity | exact Hsev] |].
    match goal with
    | |- context [Scanner.record_finding (Some (JStr s)) ?v E l w] =>
        destruct (record_finding_string s v E l w) as (l1 & -> & _)
    end.
    exists l1. reflexivity.
Qed.

Lemma trivy_loop_throws vulns :
  Exists (fun v => ~ has_severity v) vulns ->
  forall E l w,
  exists e l', for_each vulns trivy_entry E l w = (Throw e, l', w).
Proof.
  induction 1 as [v vs Hbad | v vs _ IH]; intros E l w; cbn [for_each];
    unfold bind;
    destruct (trivy_entry_run v E l w)
      as [(Hgood & l1 & ->) | (_ & e & ->)];
    try (exists e, l; reflexivity).
  - contradiction.
  - apply IH.
Qed.

(** X19.  The Trivy parser is all or nothing.  On a report whose first
    result lists an entry without a string [Severity], [parseTrivyResults]
    raises an error instead of returning the findings it has already
    recorded; [scanWithTrivy] then answers [null] for every output that
    parses to such a report.  A report without [Results] gives the empty
    report. *)
Theorem parseTrivyResults_all_or_nothing :
  forall (L : Type) fields (E : env) (l : L) (w : world),
    (forall ffields rest vulns,
        lookup_key "Results" fields = Some (JArr (JObj ffields :: rest)) ->
        lookup_key "Vulnerabilities" ffields = Some (JArr vulns) ->
        Exists (fun v => ~ has_severity v) vulns ->
        (exists e,
            Scanner.parseTrivyResults (JObj fields) E l w = (Throw e, l, w))
        /\ forall imageTag out,
             JSON_parse E out = Some (JObj fields) ->
             (forall w',
                 result (engine E w'
                           ("trivy image --format json --quiet " +++ imageTag))
                 = Exit0 out) ->
             fst (fst (Scanner.scanWithTrivy imageTag E l w)) = Ret None)
    /\ (lookup_key "Results" fields = None ->
        Scanner.parseTrivyResults (JObj fields) E l w
        = (Ret Scanner.no_vulnerabilities, l, w)).
Proof.
  intros L fields E l w. split.
  - intros ffields rest vulns Hres Hvul Hbad.
    assert (Hparse : forall w0,
               exists e,
                 Scanner.parseTrivyResults (JObj fields) E l w0
                 = (Throw e, l, w0)).
    { intro w0.
      destruct (trivy_loop_throws vulns Hbad E Scanner.no_vulnerabilities w0)
        as (e & l' & Hloop).
      exists e.
      unfold Scanner.parseTrivyResults, with_locals, Scanner.trivy_findings.
      fold trivy_entry.
      unfold bind at 1. unfold Scanner.get_prop at 1. unfold ret at 1.
      rewrite Hres. cbv beta iota zeta. cbn [Scanner.json_truthy].
      unfold bind at 1. unfold bind at 1. unfold Scanner.get_prop at 1.
      unfold ret at 1.
      change (Scanner.index_of_key "0") with (Some 0%nat).
      cbn [nth_error]. cbv beta iota zeta. cbn [Scanner.json_truthy].
      unfold bind at 1. unfold Scanner.get_prop at 1. unfold ret at 1.
      rewrite Hvul. cbv beta iota zeta. cbn [Scanner.json_truthy].
      unfold ret at 1. cbv beta iota zeta.
      unfold bind at 1. rewrite Hloop. reflexivity. }
    split; [apply Hparse |].
    intros imageTag out Hjson Hout.
    unfold Scanner.scanWithTrivy, try_catch.
    unfold bind at 1. unfold execSync at 1.
    destruct (result (engine E w "trivy version")); [| reflexivity].
    unfold bind at 1. unfold execSync at 1. rewrite Hout.
    unfold bind at 1. unfold Scanner.JSON_parse_M at 1.
    unfold bind at 1. unfold get_env at 1. rewrite Hjson.
    unfold ret at 1. unfold bind at 1.
    match goal with
    | |- context [Scanner.parseTrivyResults (JObj fields) E l ?w0] =>
        destruct (Hparse w0) as (e & ->)
    end.
    reflexivity.
  - intro Hnone.
    unfold Scanner.parseTrivyResults, with_locals, Scanner.trivy_findings.
    unfold bind at 1. unfold Scanner.get_prop at 1. unfold ret at 1.
    rewrite Hnone. reflexivity.
Qed.

(** Two findings, the second without a severity: the first is lost with
    it. *)
Lemma parseTrivyResults_all_or_nothing_witness :
  exists e,
    Scanner.parseTrivyResults (JObj trivy_unrated_fields) silent_env tt world0
    = (Throw e, tt, world0).
Proof.
  refine (proj1 (proj1 (parseTrivyResults_all_or_nothing unit
                          trivy_unrated_fields silent_env tt world0)
                   _ _ _ eq_refl eq_refl _)).
  apply Exists_cons_tl. apply Exists_cons_hd.
  intros (f & s & [= <-] & H). discriminate.
Defined.

(** ** Ratings *)

(** The rating of a number by three rising thresholds is monotone. *)
Lemma three_thresholds_monotone x y t1 t2 t3 :
  num_le x y ->
  (rank (if Js.ltb x (of_Z t1) then "Excellent"
         else if Js.ltb x (of_Z t2) then "Good"
         else if Js.ltb x (of_Z t3) then "Fair" else "Poor")
   <= rank (if Js.ltb y (of_Z t1) then "Excellent"
            else if Js.ltb y (of_Z t2) then "Good"
            else if Js.ltb y (of_Z t3) then "Fair" else "Poor"))%nat.
Proof.
  intro Hxy.
  pose proof (num_le_ltb x y t1 Hxy) as H1.
  pose proof (num_le_ltb x y t2 Hxy) as H2.
  pose proof (num_le_ltb x y t3 Hxy) as H3.
  destruct (Js.ltb y (of_Z t1));
    [rewrite (H1 eq_refl); apply le_n |].
  destruct (Js.ltb y (of_Z t2)).
  { rewrite (H2 eq_refl). destruct (Js.ltb x (of_Z t1)); cbn; lia. }
  destruct (Js.ltb y (of_Z t3)).
  { rewrite (H3 eq_refl).
    destruct (Js.ltb x (of_Z t1)), (Js.ltb x (of_Z t2));
      cbn; lia. }
  destruct (Js.ltb x (of_Z t1)), (Js.ltb x (of_Z t2)),
    (Js.ltb x (of_Z t3)); cbn; lia.
Qed.

Lemma nonzero_eqb t : ~ (t == 0)%Q -> Js.eqb (Fin t) (of_Z 0) = false.
Proof.
  intro Ht. unfold Js.eqb, of_Z. apply not_true_is_false. intro H.
  apply Qeq_bool_iff in H. apply Ht. exact H.
Qed.

Lemma nonzero_div c t :
  ~ (t == 0)%Q -> Js.div (Fin c) (Fin t) = nearest (c / t).
Proof.
  intro Ht. unfold Js.div, Js.Qsgn.
  destruct (t ?= 0)%Q eqn:Hs; try reflexivity.
  apply Qeq_alt in Hs. contradiction.
Qed.

(** X20.  The ratings are consistent, computed as the code computes them,
    on doubles.  [calculateCPUEfficiency] is monotone: of two averages the
    larger never gets the better rating.  [calculateMemoryEfficiency]
    answers Unknown exactly when the total is 0; it rates by the quotient
    alone (two pairs of sizes with the same quotient get the same rating);
    and it is monotone in the current size for a positive total, although
    the percentage is rounded twice, after the division and after the
    multiplication by 100.  A measurement that is not a number is rated
    Poor (for the memory rating, unless the total is 0).  The thresholds
    apply to the rounded percentage: 0.09999999999999999 of 1 is rated
    Good, its percentage being 10 after rounding. *)
Theorem ratings_are_consistent :
  (forall a b : Q,
      (a <= b)%Q ->
      (rank (calculateCPUEfficiency (Fin a))
       <= rank (calculateCPUEfficiency (Fin b)))%nat)
  /\ (forall c t : Q,
         calculateMemoryEfficiency (Fin c) (Fin t) = "Unknown"
         <-> (t == 0)%Q)
  /\ (forall c t c' t' : Q,
         ~ (t == 0)%Q -> ~ (t' == 0)%Q -> (c / t == c' / t')%Q ->
         calculateMemoryEfficiency (Fin c) (Fin t)
         = calculateMemoryEfficiency (Fin c') (Fin t'))
  /\ (forall c1 c2 t : Q,
         (0 < t)%Q -> (c1 <= c2)%Q ->
         (rank (calculateMemoryEfficiency (Fin c1) (Fin t))
          <= rank (calculateMemoryEfficiency (Fin c2) (Fin t)))%nat)
  /\ (forall x : num, calculateMemoryEfficiency x NaN = "Poor")
  /\ (forall x : num,
         Js.eqb x (of_Z 0) = false ->
         calculateMemoryEfficiency NaN x = "Poor")
  /\ calculateCPUEfficiency NaN = "Poor"
  /\ calculateMemoryEfficiency
       (nearest (9999999999999999 # 100000000000000000)) (of_Z 1)
     = "Good".
Proof.
  split; [| split; [| split; [| split; [| split; [| split; [| split]]]]]].
  - intros a b Hab. unfold calculateCPUEfficiency.
    now apply three_thresholds_monotone.
  - intros c t. unfold calculateMemoryEfficiency, Js.eqb, of_Z.
    destruct (Qeq_bool t (inject_Z 0)) eqn:Ht.
    + apply Qeq_bool_iff in Ht. split; [intros _; exact Ht | reflexivity].
    + split; [| intro H; change 0%Q with (inject_Z 0) in H;
                apply Qeq_bool_iff in H; congruence].
      repeat match goal with
             | |- context [if ?b then _ else _] => destruct b
             end; discriminate.
  - intros c t c' t' Ht Ht' Heq. unfold calculateMemoryEfficiency.
    rewrite (nonzero_eqb t Ht), (nonzero_eqb t' Ht').
    rewrite (nonzero_div c t Ht), (nonzero_div c' t' Ht').
    rewrite (nearest_compat _ _ Heq). reflexivity.
  - intros c1 c2 t Ht Hc. unfold calculateMemoryEfficiency.
    rewrite (nonzero_eqb t) by (intro H; rewrite H in Ht; discriminate Ht).
    apply three_thresholds_monotone.
    apply mul_monotone; [lia |]. now apply div_monotone.
  - intro x. unfold calculateMemoryEfficiency.
    destruct x as [| | q |]; reflexivity.
  - intros x Hx. unfold calculateMemoryEfficiency. rewrite Hx.
    destruct x as [| | q |]; reflexivity.
  - reflexivity.
  - vm_compute. reflexivity.
Qed.

Lemma ratings_are_consistent_witness :
  (rank (calculateCPUEfficiency (Fin 3))
   <= rank (calculateCPUEfficiency (Fin 20)))%nat
  /\ calculateMemoryEfficiency (Fin 3072) (Fin 40960)
     = calculateMemoryEfficiency (Fin 3) (Fin 40)
  /\ (rank (calculateMemoryEfficiency (Fin 3) (Fin 40))
      <= rank (calculateMemoryEfficiency (Fin 30) (Fin 40)))%nat
  /\ calculateMemoryEfficiency NaN (Fin 40) = "Poor".
Proof.
  destruct ratings_are_consistent
    as (Hcpu & _ & Hratio & Hmem & _ & Hnan & _).
  split; [| split; [| split]].
  - apply Hcpu. discriminate.
  - apply Hratio; [discriminate | discriminate | reflexivity].
  - apply Hmem; [reflexivity | discriminate].
  - apply Hnan. reflexivity.
Defined.

(** ** The package list *)

(** Reading the [version] of an entry and recording the package. *)
Lemma package_entry_run entry E (l : list Scanner.Package.t) w :
  (version <- Scanner.get_prop (Some (snd entry)) "version" ;;
   push {| Scanner.Package.name := fst entry;
           Scanner.Package.version := version |})%monad E l w
  = match package_of entry with
    | Some p => (Ret tt, l ++ [p], w)
    | None =>
        (Throw (Error ("TypeError: Cannot read properties of null or undefined, reading "
                       +++ "version")), l, w)
    end.
Proof.
  destruct entry as [name info]. unfold package_of. cbn [fst snd].
  destruct info as [| b | n | s | items | fields]; try reflexivity.
Qed.

(** The loop over the entries stops at the first [null] one, with the
    packages in front of it recorded. *)
Lemma package_loop_run entries E :
  forall (l : list Scanner.Package.t) w,
  exists r,
    for_each entries (fun entry =>
      version <- Scanner.get_prop (Some (snd entry)) "version" ;;
      push {| Scanner.Package.name := fst entry;
              Scanner.Package.version := version |})%monad E l w
    = (r, l ++ packages_until_null entries, w)
    /\ r <> OutOfFuel.
Proof.
  induction entries as [| entry rest IH]; intros l w; cbn [for_each].
  - exists (Ret tt). rewrite app_nil_r. split; [reflexivity | discriminate].
  - unfold bind at 1. rewrite package_entry_run.
    cbn [packages_until_null].
    destruct (package_of entry) as [p |].
    + destruct (IH (l ++ [p]) w) as (r & -> & Hr). exists r.
      rewrite <- app_assoc. split; [reflexivity | exact Hr].
    + eexists. rewrite app_nil_r. split; [reflexivity | discriminate].
Qed.

Lemma falsy_has_no_entries d :
  Scanner.json_truthy (Some d) = false -> Scanner.Object_entries d = [].
Proof.
  destruct d as [| b | n | s | items | fields]; cbn; try reflexivity;
    try discriminate.
  destruct s; [reflexivity | discriminate].
Qed.

(** X21.  [getInstalledPackages] never raises an error, and a [null] entry
    in the dependency list cuts the package list short without notice: when
    the listing command prints an object with a [dependencies] field, the
    answer is the packages of the entries in front of the first [null]
    entry, each with its name and its [version] field; the entries behind
    it are dropped. *)
Theorem getInstalledPackages_stops_at_null_entry :
  forall (L : Type) imageTag (E : env) (l : L) (w : world),
    (exists packages w',
        Scanner.getInstalledPackages imageTag E l w = (Ret packages, l, w'))
    /\ forall out fields d,
         result (engine E w (npm_list_cmd imageTag)) = Exit0 out ->
         JSON_parse E out = Some (JObj fields) ->
         lookup_key "dependencies" fields = Some d ->
         fst (fst (Scanner.getInstalledPackages imageTag E l w))
         = Ret (packages_until_null (Scanner.Object_entries d)).
Proof.
  intros L imageTag E l w.
  assert (Hloop : forall d w0,
             exists r,
               (if Scanner.json_truthy (Some d)
                then for_each (Scanner.Object_entries d) (fun entry =>
                       version <- Scanner.get_prop (Some (snd entry))
                                                   "version" ;;
                       push {| Scanner.Package.name := fst entry;
                               Scanner.Package.version := version |})%monad
                else ret tt) E [] w0
               = (r, packages_until_null (Scanner.Object_entries d), w0)
               /\ r <> OutOfFuel).
  { intros d w0. destruct (Scanner.json_truthy (Some d)) eqn:Ht.
    - apply (package_loop_run (Scanner.Object_entries d) E [] w0).
    - rewrite (falsy_has_no_entries d Ht). exists (Ret tt).
      split; [reflexivity | discriminate]. }
  split.
  - unfold Scanner.getInstalledPackages, with_locals, try_catch.
    unfold bind at 1. unfold bind at 1. unfold execSync at 1.
    destruct (result (engine E w _)) as [out | msg];
      [| eexists; eexists; reflexivity].
    unfold bind at 1. unfold get_env at 1.
    destruct (JSON_parse E out) as [npmData |];
      [| eexists; eexists; reflexivity].
    unfold bind at 1.
    destruct npmData as [| b | n | s | items | fields];
      try (eexists; eexists; reflexivity).
    unfold Scanner.get_prop at 1. unfold ret at 1.
    destruct (lookup_key "dependencies" fields) as [d |];
        [| eexists; eexists; reflexivity].
      match goal with
      | |- context [after_exec E w ?c] =>
          destruct (Hloop d (after_exec E w c)) as (r & -> & Hr)
      end.
      destruct r as [[] | e |]; [| | congruence];
        eexists; eexists; reflexivity.
  - intros out fields d Hout Hjson Hdeps.
    unfold Scanner.getInstalledPackages, with_locals, try_catch.
    unfold bind at 1. unfold bind at 1. unfold execSync at 1.
    fold (npm_list_cmd imageTag). rewrite Hout.
    unfold bind at 1. unfold get_env at 1. rewrite Hjson.
    unfold bind at 1. unfold Scanner.get_prop at 1. unfold ret at 1.
    rewrite Hdeps.
    match goal with
    | |- context [after_exec E w ?c] =>
        destruct (Hloop d (after_exec E w c)) as (r & -> & Hr)
    end.
    destruct r as [[] | e |]; [| | congruence]; reflexivity.
Qed.

(** Of [express], [null] and [axios], only [express] is listed. *)
Lemma getInstalledPackages_stops_at_null_entry_witness :
  fst (fst (Scanner.getInstalledPackages "app"
              (npm_env "{...}" (JObj [("dependencies", npm_dependencies)]))
              tt world0))
  = Ret [{| Scanner.Package.name := "express";
            Scanner.Package.version := Some (JStr "4.17.1") |}].
Proof.
  exact (proj2 (getInstalledPackages_stops_at_null_entry unit "app"
                  (npm_env "{...}" (JObj [("dependencies", npm_dependencies)]))
                  tt world0)
           "{...}" [("dependencies", npm_dependencies)] npm_dependencies
           eq_refl eq_refl eq_refl).
Defined.
